(** * Untale: the combat core (attack patterns, hazards, battle state machine)

    A shallow embedding of the combat code of the game:
    - [combat/bullet.py]   : [Projectile] and its subclasses,
    - [combat/patterns.py] : special bullets, [GravityWell], [LaserBeam]
                             and the [AttackManager] round scheduler,
    - [entities/player.py] : hit points and invulnerability,
    - [scenes/map_manager.py] : [Enemy],
    - [core/engine.py]     : the FIGHT mini-game of [BattleBox].

    Conventions of the embedding.
    - Python [int] is [Z]; a Python [float] is the real number ([R]) it
      stands for. Positions, velocities and forces are computed exactly,
      [math.sqrt], [math.cos], [math.sin] being the real functions.
      Where the code takes [int()] of a quotient or product with the
      difficulty, of the damage of the FIGHT mini-game or of the place of
      a wave bullet, the operations are rounded as binary64 rounds them
      ([Float64]), and [ZeroDivisionError] and [OverflowError] are
      raised where Python raises them.
    - [pygame.Rect] stores four integers; a float assigned to one of its
      attributes is truncated toward zero, as [int()] does.
    - The module [random] is a stream of raw draws with a cursor, threaded
      through a state-and-failure monad; a Python exception is [None].
    - The constants of [core/settings.py] are the fields of [Settings]. *)

From Stdlib Require Import ZArith List Bool Reals Lra Lia.
From stdpp Require Import base option list gmap strings.

Local Open Scope Z_scope.

(* ================================================================== *)
(** * Part I: the program *)
(* ================================================================== *)

(** ** Numbers *)

(** [int(r)] on a float: truncation toward zero. *)
Definition py_int (r : R) : Z :=
  if Rle_dec 0 r then Int_part r else - Int_part (- r).

(** Comparisons of floats, as booleans. *)
Definition Rltb (a b : R) : bool := if Rlt_dec a b then true else false.
Definition Rleb (a b : R) : bool := if Rle_dec a b then true else false.
Definition Rgtb (a b : R) : bool := Rltb b a.
Definition Rgeb (a b : R) : bool := Rleb b a.
Definition Reqb (a b : R) : bool := if Req_dec_T a b then true else false.

(** ** Python floats: binary64

    A float of the program is a real number; [Float64.round] is the
    rounding every operation of binary64 applies to its exact result
    (to nearest, ties to even; 53 bits, least exponent -1074), and
    [Float64.overflow] tells the results that are infinite. *)
Module Float64.

(** The integer nearest to [y]; of two at the same distance, the even
    one. *)
Definition rne (y : R) : Z :=
  let f := Int_part y in
  let r := (y - IZR f)%R in
  if Rltb r (1 / 2) then f
  else if Rltb (1 / 2) r then f + 1
  else if Z.even f then f else f + 1.

(** The binary exponent of [x]: [2 ^ mag x <= |x| < 2 ^ (mag x + 1)]. *)
Definition mag (x : R) : Z := Int_part (ln (Rabs x) / ln 2).

(** The exponent of the last bit of a float of binary exponent [e]. *)
Definition fexp (e : Z) : Z := Z.max (e - 52) (-1074).

Definition round (x : R) : R :=
  if Reqb x 0 then 0%R
  else (IZR (rne (x * powerRZ 2 (- fexp (mag x))))
        * powerRZ 2 (fexp (mag x)))%R.

(** From [huge] on a result rounds to an infinity. *)
Definition huge : R := (powerRZ 2 1024 - powerRZ 2 970)%R.
Definition overflow (x : R) : bool := Rleb huge (Rabs x).

(** The float an operation returns for the exact result [x], unless it
    is an infinity. *)
Definition finite (x : R) : option R :=
  if overflow x then None else Some (round x).

(** [float(n)] of an [int], as the arithmetic of an [int] with a float
    applies it: [OverflowError] when [n] is too large. *)
Definition of_int (n : Z) : option R := finite (IZR n).

(** [int(x)] where [x] is the float of the exact result [exact]:
    [OverflowError] on an infinity. *)
Definition to_int (exact : R) : option Z :=
  match finite exact with
  | Some x => Some (py_int x)
  | None => None
  end.

(** [int(n / d)] for an [int] [n] and a float [d]:
    [ZeroDivisionError] when [d] is zero. *)
Definition int_div (n : Z) (d : R) : option Z :=
  match of_int n with
  | Some x => if Reqb d 0 then None else to_int (x / d)
  | None => None
  end.

(** [int(n * d)] for an [int] [n] and a float [d]. *)
Definition int_mul (n : Z) (d : R) : option Z :=
  match of_int n with
  | Some x => to_int (x * d)
  | None => None
  end.

End Float64.

(** ** core/settings.py

    The module is imported by every file but is not part of the sources at
    hand: its constants are taken as parameters. *)
Record Settings := {
  BULLET_BASE_SPEED : R;
  BULLET_SPEED_MULT : R;
  LINE_RAIN_INTERVAL : Z;
  LINE_RAIN_BULLET_COUNT : Z;
  CIRCLE_BURST_COUNT : Z;
  CIRCLE_BURST_INTERVAL : Z;
  TARGETING_INTERVAL : Z;
  TARGETING_BULLETS_PER_SHOT : Z;
  PATTERNS_PER_ROUND : Z;
  ATTACK_DURATION : Z;
  GAP_BETWEEN_ATTACKS : Z;
  INVULNERABILITY_TIME : Z;
  PLAYER_ATTACK_DAMAGE : Z;
  BOSS_PHASE2_THRESHOLD : R
}.

(** ** pygame.Rect *)
Module Rect.

Record t := mk { x : Z; y : Z; w : Z; h : Z }.

Definition left (r : t) : Z := x r.
Definition top (r : t) : Z := y r.
Definition right (r : t) : Z := x r + w r.
Definition bottom (r : t) : Z := y r + h r.
Definition width (r : t) : Z := w r.
Definition height (r : t) : Z := h r.
Definition centerx (r : t) : Z := x r + w r / 2.
Definition centery (r : t) : Z := y r + h r / 2.

(** Truth value of a rect: both sizes are non-zero. *)
Definition nonzero (r : t) : bool := negb (w r =? 0) && negb (h r =? 0).

(** [rect.x = v] and [rect.y = v]. *)
Definition set_x (v : Z) (r : t) : t := mk v (y r) (w r) (h r).
Definition set_y (v : Z) (r : t) : t := mk (x r) v (w r) (h r).

(** [rect.center = (cx, cy)]. *)
Definition set_center (cx cy : Z) (r : t) : t :=
  mk (cx - w r / 2) (cy - h r / 2) (w r) (h r).

(** [a.colliderect(b)]: rects of zero size collide with nothing; the
    remaining ones are compared on their normalised spans. *)
Definition colliderect (a b : t) : bool :=
  if (w a =? 0) || (h a =? 0) || (w b =? 0) || (h b =? 0) then false
  else (Z.min (x a) (x a + w a) <? Z.max (x b) (x b + w b))
    && (Z.min (y a) (y a + h a) <? Z.max (y b) (y b + h b))
    && (Z.max (x a) (x a + w a) >? Z.min (x b) (x b + w b))
    && (Z.max (y a) (y a + h a) >? Z.min (y b) (y b + h b)).

(** The pixels a rect covers, on its normalised spans. *)
Definition covers (r : t) (px py : Z) : Prop :=
  Z.min (x r) (x r + w r) <= px < Z.max (x r) (x r + w r)
  /\ Z.min (y r) (y r + h r) <= py < Z.max (y r) (y r + h r).

(** [a.contains(b)]. *)
Definition contains (a b : t) : bool :=
  (x a <=? x b) && (y a <=? y b)
  && (x a + w a >=? x b + w b) && (y a + h a >=? y b + h b)
  && (x a + w a >? x b) && (y a + h a >? y b).

(** [rect.left = v], [rect.right = v], [rect.top = v] and
    [rect.bottom = v]: the rect is moved, its size is kept. *)
Definition set_left (v : Z) (r : t) : t := mk v (y r) (w r) (h r).
Definition set_right (v : Z) (r : t) : t := mk (v - w r) (y r) (w r) (h r).
Definition set_top (v : Z) (r : t) : t := mk (x r) v (w r) (h r).
Definition set_bottom (v : Z) (r : t) : t := mk (x r) (v - h r) (w r) (h r).

(** [pygame.Rect(x, y, w, h)] from floats. *)
Definition of_floats (x0 y0 : R) (w0 h0 : Z) : t :=
  mk (py_int x0) (py_int y0) w0 h0.

(** [b] lies inside [a], edges included. *)
Definition inside (a b : t) : Prop :=
  left a <= left b /\ right b <= right a /\ top a <= top b /\ bottom b <= bottom a.

End Rect.

(** ** scenes/map_manager.py: Enemy (the fields the combat code reads) *)
Module Enemy.

Record t := mk {
  hp : Z;
  max_hp : Z;
  attack_damage : Z;
  is_boss : bool;
  phase : Z;
  phase2_triggered : bool
}.

(** [Enemy.take_damage]: returns whether the enemy died. *)
Definition take_damage (cfg : Settings) (damage : Z) (e : t) : bool * t :=
  let hp' := Z.max 0 (hp e - damage) in
  let e1 := mk hp' (max_hp e) (attack_damage e) (is_boss e) (phase e)
               (phase2_triggered e) in
  let e2 :=
    if is_boss e1 && (phase e1 =? 1) then
      if Rleb (IZR hp') (IZR (max_hp e1) * BOSS_PHASE2_THRESHOLD cfg)
      then mk hp' (max_hp e1) (attack_damage e1) (is_boss e1) 2 true
      else e1
    else e1 in
  (hp e2 <=? 0, e2).



Definition get_hp_percent (e : t) : R :=
  if max_hp e >? 0 then (IZR (hp e) / IZR (max_hp e))%R else 0%R.


End Enemy.

(** ** entities/player.py: hit points and invulnerability *)
Module Player.

Record t := mk {
  hp : Z;
  max_hp : Z;
  invulnerability_timer : Z
}.

(** [Player.update_invulnerability], once per battle frame. *)
Definition update_invulnerability (p : t) : t :=
  if invulnerability_timer p >? 0
  then mk (hp p) (max_hp p) (invulnerability_timer p - 1)
  else p.

(** [Player.take_damage]: whether the damage was applied, and the
    player afterwards. *)
Definition take_damage (cfg : Settings) (damage : Z) (p : t) : bool * t :=
  if invulnerability_timer p >? 0 then (false, p)
  else (true, mk (Z.max 0 (hp p - damage)) (max_hp p)
                 (INVULNERABILITY_TIME cfg)).

(** [n] frames of [update_invulnerability]. *)
Definition frames (n : nat) (p : t) : t := Nat.iter n update_invulnerability p.

End Player.

(** ** core/engine.py: the FIGHT mini-game of BattleBox *)
Module BattleBox.

Inductive mode := Menu | FightAttack | SafetyPause | Warmup | Dodge.

Record t := mk {
  current_enemy : option Enemy.t;
  battle_mode : mode;
  fight_bar_active : bool;
  fight_bar_position : R;
  show_phase2_message : bool;
  phase2_message_timer : Z
}.

(** The strings [_process_fight_attack] returns. *)
Inductive outcome :=
| enemy_killed (damage : Z)
| fight_damage (damage : Z).

(** The damage a result reports. *)
Definition outcome_damage (o : outcome) : Z :=
  match o with
  | enemy_killed d => d
  | fight_damage d => d
  end.

(** [damage_multiplier = 1.0 - (distance_from_center * 0.8)] with
    [distance_from_center = abs(self.fight_bar_position - 0.5)]: three
    operations of binary64, on the float that [0.8] denotes. *)
Definition damage_multiplier (position : R) : R :=
  let distance_from_center := Rabs (Float64.round (position - 0.5)) in
  Float64.round
    (1.0 - Float64.round (distance_from_center * Float64.round 0.8)).

(** [BattleBox._process_fight_attack]: the result and the battle
    afterwards, or [None] where
    [int(PLAYER_ATTACK_DAMAGE * damage_multiplier)] raises. *)
Definition _process_fight_attack (cfg : Settings) (b : t)
  : option (option outcome * t) :=
  match current_enemy b with
  | None =>
      Some (None, mk None Menu false (fight_bar_position b)
                     (show_phase2_message b) (phase2_message_timer b))
  | Some e =>
      match Float64.int_mul (PLAYER_ATTACK_DAMAGE cfg)
                            (damage_multiplier (fight_bar_position b)) with
      | None => None
      | Some damage =>
          let '(enemy_dead, e1) := Enemy.take_damage cfg damage e in
          let msg := Enemy.is_boss e1 && (Enemy.phase e1 =? 2)
                     && Enemy.phase2_triggered e1 in
          let e2 :=
            if msg
            then Enemy.mk (Enemy.hp e1) (Enemy.max_hp e1)
                          (Enemy.attack_damage e1) (Enemy.is_boss e1)
                          (Enemy.phase e1) false
            else e1 in
          let b' := mk (Some e2) Menu false (fight_bar_position b)
                       (if msg then true else show_phase2_message b)
                       (if msg then 120 else phase2_message_timer b) in
          Some (Some (if enemy_dead then enemy_killed damage
                      else fight_damage damage),
                b')
      end
  end.

End BattleBox.

(** ** combat/patterns.py: GravityWell *)
Module GravityWell.

Record t := mk {
  x : R;
  y : R;
  strength : R;
  repel : bool;
  duration : Z;
  timer : Z;
  active : bool;
  radius : Z
}.

(** [GravityWell(x, y, strength, repel, duration)]. *)
Definition init (x0 y0 strength0 : R) (repel0 : bool) (duration0 : Z) : t :=
  mk x0 y0 strength0 repel0 duration0 0 true 40.

Definition update (g : t) : t :=
  let timer' := timer g + 1 in
  mk (x g) (y g) (strength g) (repel g) (duration g) timer'
     (if timer' >=? duration g then false else active g) (radius g).

(** [GravityWell.apply_force]. The clamped [dist] serves both in the
    magnitude and in the two divisions of the direction. *)
Definition apply_force (g : t) (player_x player_y : R) : R * R :=
  if negb (active g) then (0, 0)%R
  else
    let dx := (x g - player_x)%R in
    let dy := (y g - player_y)%R in
    let dist := sqrt (dx * dx + dy * dy) in
    let dist := if Rltb dist 10 then 10%R else dist in
    let force_magnitude := (strength g * (100 / dist))%R in
    let force_magnitude :=
      if repel g then (- force_magnitude)%R else force_magnitude in
    ((dx / dist) * force_magnitude, (dy / dist) * force_magnitude)%R.

(** The distance between the well and the player. *)
Definition distance (g : t) (player_x player_y : R) : R :=
  sqrt ((x g - player_x) * (x g - player_x)
        + (y g - player_y) * (y g - player_y)).

(** Euclidean length of a force vector. *)
Definition magnitude (f : R * R) : R := sqrt (fst f * fst f + snd f * snd f).

(** [n] calls of [update]. *)
Definition updates (n : nat) (g : t) : t := Nat.iter n update g.

End GravityWell.

(** ** The module random

    The generator is a stream of raw draws and a cursor. A computation
    reads draws from the cursor on and advances it; an exception raised
    by the library or by the program ends it with [None]. *)
Module Random.

Record state := mk { draws : nat -> nat; cursor : nat }.

Definition M (A : Type) : Type := state -> option (A * state).

Definition ret {A} (a : A) : M A := fun g => Some (a, g).
Definition raise {A} : M A := fun _ => None.

(** A computation without draws; its exception is raised. *)
Definition lift {A} (o : option A) : M A :=
  fun g => match o with
           | Some a => Some (a, g)
           | None => None
           end.
Definition bind {A B} (m : M A) (k : A -> M B) : M B :=
  fun g => match m g with
           | Some (a, g') => k a g'
           | None => None
           end.

(** One raw draw. *)
Definition next : M nat :=
  fun g => Some (draws g (cursor g), mk (draws g) (S (cursor g))).

(** [_randbelow(n)]: an index below [n]. *)
Definition randbelow (n : nat) : M nat :=
  match n with
  | O => raise
  | S _ => bind next (fun r => ret (r mod n)%nat)
  end.

(** [random.randint(a, b)]: an integer of [a..b]; [ValueError] on an
    empty range. *)
Definition randint (a b : Z) : M Z :=
  if b <? a then raise
  else bind (randbelow (Z.to_nat (b - a + 1)))
            (fun r => ret (a + Z.of_nat r)).

(** [random.choice(seq)]; [IndexError] on an empty sequence. *)
Definition choice {A} (l : list A) : M A :=
  bind (randbelow (length l))
       (fun i => match l !! i with
                 | Some a => ret a
                 | None => raise
                 end).

(** [random.random()]: a float of [[0, 1)] with 53 bits. *)
Definition random : M R :=
  bind next (fun r => ret (IZR (Z.of_nat r mod 2 ^ 53) / IZR (2 ^ 53))%R).

(** [random.uniform(a, b)]. *)
Definition uniform (a b : R) : M R :=
  bind random (fun u => ret (a + (b - a) * u)%R).

(** The selection loop of [random.sample]: [m] counts the entries of
    the pool not chosen yet ([n - i] in the library); the chosen entry
    is overwritten with the last one of them. *)
Fixpoint sample_loop {A} (k m : nat) (pool : list A) : M (list A) :=
  match k with
  | O => ret []
  | S k' =>
      bind (randbelow m) (fun j =>
        match pool !! j, pool !! (m - 1)%nat with
        | Some a, Some last =>
            bind (sample_loop k' (m - 1)%nat (<[j := last]> pool))
                 (fun rest => ret (a :: rest))
        | _, _ => raise
        end)
  end.

(** [random.sample(population, k)]: [ValueError] unless
    [0 <= k <= len(population)]. Every population sampled in this
    program has at most 16 entries, where the library selects from a
    pool. *)
Definition sample {A} (population : list A) (k : Z) : M (list A) :=
  if (k <? 0) || (Z.of_nat (length population) <? k) then raise
  else sample_loop (Z.to_nat k) (length population) population.

End Random.

Notation "x <- m ;; k" := (Random.bind m (fun x => k))
  (at level 100, m at next level, right associativity).

(** A loop whose body threads a state through the generator. *)
Fixpoint for_each {A S} (l : list A) (body : A -> S -> Random.M S) (s : S)
  : Random.M S :=
  match l with
  | [] => Random.ret s
  | a :: l' => s' <- body a s ;; for_each l' body s'
  end.

(** [range(n)] and [range(a, b, step)] for a positive [step]. *)
Definition py_range (n : Z) : list Z := map Z.of_nat (seq 0 (Z.to_nat n)).
Definition py_range3 (a b step : Z) : list Z :=
  map (fun i => a + step * i) (py_range ((b - a + step - 1) / step)).

(** [math.atan2(y, x)]. *)
Definition atan2 (y x : R) : R :=
  if Rltb 0 x then atan (y / x)
  else if Rltb x 0 then
    (if Rleb 0 y then atan (y / x) + PI else atan (y / x) - PI)%R
  else if Rltb 0 y then (PI / 2)%R
  else if Rltb y 0 then (- PI / 2)%R
  else 0%R.

(** ** combat/patterns.py: LaserBeam *)
Module LaserBeam.

Inductive phase := warning | active | done.

Record t := mk {
  box_rect : Rect.t;
  is_horizontal : bool;
  pos : Z;
  state : phase;
  timer : Z;
  warning_duration : Z;
  active_duration : Z;
  warning_width : Z;
  beam_width : Z
}.

(** [LaserBeam(box_rect)]: random orientation, random position. *)
Definition init (box : Rect.t) : Random.M t :=
  horizontal <- Random.choice [true; false] ;;
  p <- (if horizontal
        then Random.randint (Rect.top box + 20) (Rect.bottom box - 20)
        else Random.randint (Rect.left box + 20) (Rect.right box - 20)) ;;
  Random.ret (mk box horizontal p warning 0 30 15 2 30).

Definition with_state (st : phase) (tm : Z) (l : t) : t :=
  mk (box_rect l) (is_horizontal l) (pos l) st tm (warning_duration l)
     (active_duration l) (warning_width l) (beam_width l).

(** [LaserBeam.update]. *)
Definition update (l : t) : t :=
  let tm := timer l + 1 in
  match state l with
  | warning =>
      if tm >=? warning_duration l then with_state active 0 l
      else with_state warning tm l
  | active =>
      if tm >=? active_duration l then with_state done tm l
      else with_state active tm l
  | done => with_state done tm l
  end.

Definition is_done (l : t) : bool :=
  match state l with done => true | _ => false end.

(** The rectangle [check_collision] builds for the beam. *)
Definition beam_rect (l : t) : Rect.t :=
  if is_horizontal l
  then Rect.mk (Rect.left (box_rect l)) (pos l - beam_width l / 2)
               (Rect.width (box_rect l)) (beam_width l)
  else Rect.mk (pos l - beam_width l / 2) (Rect.top (box_rect l))
               (beam_width l) (Rect.height (box_rect l)).

(** [LaserBeam.check_collision]. *)
Definition check_collision (l : t) (player_rect : Rect.t) : bool :=
  match state l with
  | active => Rect.colliderect (beam_rect l) player_rect
  | _ => false
  end.

(** [n] calls of [update]. *)
Definition updates (n : nat) (l : t) : t := Nat.iter n update l.

(** The order of the phases. *)
Definition rank (p : phase) : nat :=
  match p with warning => 0 | active => 1 | done => 2 end.

End LaserBeam.

(** ** combat/bullet.py: Projectile and its subclasses *)
Module Projectile.

(** The class of the object: the subclasses differ in the size of the
    rect and in how the velocity is computed. *)
Inductive class :=
| Base | LineBullet | CircleBullet | TargetingBullet
| SpiralBullet | ExpandingRingBullet | RotatingCrossBullet.

(** Attributes the patterns attach to a bullet after its construction
    ([hasattr(bullet, 'expand_angle')], [hasattr(bullet, 'beam_index')]). *)
Inductive attrs :=
| no_attrs
| ring_attrs (expand_angle expand_speed expand_radius : R)
             (center_x center_y : Z)
| cross_attrs (beam_index distance : Z) (base_angle : R).

Record t := mk {
  cls : class;
  rect : Rect.t;
  vx : R;
  vy : R;
  bounds : option Rect.t;
  extra : attrs
}.

(** [Projectile.__init__(x, y, vx, vy, width, height)]. *)
Definition init (cfg : Settings) (c : class) (x y vx0 vy0 : R)
    (width height : Z) : t :=
  let r := Rect.mk 0 0 width height in
  let r := Rect.set_x (py_int x) r in
  let r := Rect.set_y (py_int y) r in
  mk c r (vx0 * BULLET_SPEED_MULT cfg) (vy0 * BULLET_SPEED_MULT cfg)
     None no_attrs.

Definition with_rect (r : Rect.t) (p : t) : t :=
  mk (cls p) r (vx p) (vy p) (bounds p) (extra p).
Definition with_extra (a : attrs) (p : t) : t :=
  mk (cls p) (rect p) (vx p) (vy p) (bounds p) a.

(** [Projectile.set_bounds(box_rect)]. *)
Definition set_bounds (box_rect : Rect.t) (p : t) : t :=
  let margin := 100 in
  mk (cls p) (rect p) (vx p) (vy p)
     (Some (Rect.mk (Rect.left box_rect - margin) (Rect.top box_rect - margin)
                    (Rect.width box_rect + margin * 2)
                    (Rect.height box_rect + margin * 2)))
     (extra p).

(** [Projectile.update]: the projectile afterwards and whether it is
    still alive ([kill()] was not called). *)
Definition update (p : t) : t * bool :=
  let r := rect p in
  let r := Rect.set_x (py_int (IZR (Rect.x r) + vx p)) r in
  let r := Rect.set_y (py_int (IZR (Rect.y r) + vy p)) r in
  let killed :=
    match bounds p with
    | Some b => Rect.nonzero b && negb (Rect.contains b r)
    | None => false
    end in
  (with_rect r p, negb killed).

(** [LineBullet(x, y, vx, vy)] and [CircleBullet(x, y, vx, vy)]; the
    empty subclasses of [CircleBullet] share its constructor. *)
Definition line_bullet (cfg : Settings) (x y vx0 vy0 : R) : t :=
  init cfg LineBullet x y vx0 vy0 40 6.
Definition circle_bullet (cfg : Settings) (c : class) (x y vx0 vy0 : R) : t :=
  init cfg c x y vx0 vy0 8 8.

(** [TargetingBullet(x, y, target_x, target_y, speed)]; [speed] is
    [None] when the argument is left out. *)
Definition targeting_bullet (cfg : Settings) (x y target_x target_y : R)
    (speed : option R) : t :=
  let dx := (target_x - x)%R in
  let dy := (target_y - y)%R in
  let distance := sqrt (dx * dx + dy * dy) in
  let default := (BULLET_BASE_SPEED cfg * BULLET_SPEED_MULT cfg)%R in
  let speed :=
    match speed with
    | Some v => if Reqb v 0 then default else v
    | None => default
    end in
  let '(vx0, vy0) :=
    if Rltb 0 distance
    then ((dx / distance) * speed, (dy / distance) * speed)%R
    else (0%R, speed) in
  init cfg TargetingBullet x y vx0 vy0 10 10.

(** [n] calls of [update]. *)
Definition updates (n : nat) (p : t) : t := Nat.iter n (fun p => fst (update p)) p.

(** The region [set_bounds] records for the arena [box]. *)
Definition kill_region (box : Rect.t) : Rect.t :=
  Rect.mk (Rect.left box - 100) (Rect.top box - 100)
          (Rect.width box + 200) (Rect.height box + 200).

End Projectile.

(** ** combat/patterns.py: BouncingBullet and WaveBullet (construction) *)
Module BouncingBullet.

Record t := mk {
  size : Z;
  rect : Rect.t;
  vx : R;
  vy : R;
  box_rect : Rect.t;
  max_bounces : Z;
  bounce_count : Z
}.

Definition init (x y : Z) (vx0 vy0 : R) (box : Rect.t) (max_bounces0 : Z) : t :=
  let size0 := 20 in
  let r := Rect.mk 0 0 size0 size0 in
  let r := Rect.set_x x r in
  let r := Rect.set_y y r in
  mk size0 r vx0 vy0 box max_bounces0 0.

(** [BouncingBullet.update]: the bullet afterwards and whether it is
    still alive. *)
Definition update (b : t) : t * bool :=
  let r := rect b in
  let r := Rect.set_x (py_int (IZR (Rect.x r) + vx b)) r in
  let r := Rect.set_y (py_int (IZR (Rect.y r) + vy b)) r in
  let '(r, vx', count) :=
    if Rect.left r <=? Rect.left (box_rect b) then
      (Rect.set_left (Rect.left (box_rect b)) r, Rabs (vx b), bounce_count b + 1)
    else if Rect.right r >=? Rect.right (box_rect b) then
      (Rect.set_right (Rect.right (box_rect b)) r, (- Rabs (vx b))%R,
       bounce_count b + 1)
    else (r, vx b, bounce_count b) in
  let '(r, vy', count) :=
    if Rect.top r <=? Rect.top (box_rect b) then
      (Rect.set_top (Rect.top (box_rect b)) r, Rabs (vy b), count + 1)
    else if Rect.bottom r >=? Rect.bottom (box_rect b) then
      (Rect.set_bottom (Rect.bottom (box_rect b)) r, (- Rabs (vy b))%R,
       count + 1)
    else (r, vy b, count) in
  (mk (size b) r vx' vy' (box_rect b) (max_bounces b) count,
   negb (count >=? max_bounces b)).

(** [n] calls of [update]. *)
Definition updates (n : nat) (b : t) : t := Nat.iter n (fun b => fst (update b)) b.

End BouncingBullet.

Module WaveBullet.

Record t := mk {
  radius : Z;
  rect : Rect.t;
  x : R;
  y : R;
  start_y : R;
  speed_x : R;
  amplitude : R;
  frequency : R;
  box_rect : Rect.t;
  time : Z
}.

Definition init (x0 y0 : Z) (speed_x0 amplitude0 frequency0 : R)
    (box : Rect.t) : t :=
  let radius0 := 6 in
  let r := Rect.mk 0 0 (radius0 * 2) (radius0 * 2) in
  let r := Rect.set_center x0 y0 r in
  mk radius0 r (IZR x0) (IZR y0) (IZR y0) speed_x0 amplitude0 frequency0 box 0.

(** [self.start_y + math.sin(self.time * self.frequency) *
    self.amplitude], every operation rounded; [math.sin] is taken to
    return the float nearest to the sine. [None] where a float of the
    expression is infinite: [math.sin] raises on an infinity, and so
    does the [int()] that follows. *)
Definition wave_y (w : t) (time' : Z) : option R :=
  t ← Float64.of_int time';
  a ← Float64.finite (t * frequency w);
  p ← Float64.finite (Float64.round (sin a) * amplitude w);
  Float64.finite (start_y w + p).

(** [WaveBullet.update]: the bullet afterwards and whether it is still
    alive; [None] where [int(self.x)] or [int(self.y)] raises. *)
Definition update (w : t) : option (t * bool) :=
  let time' := time w + 1 in
  x' ← Float64.finite (x w + speed_x w);
  y' ← wave_y w time';
  let r := Rect.set_center (py_int x') (py_int y') (rect w) in
  let killed :=
    (Rect.right r <? Rect.left (box_rect w) - 20)
    || (Rect.left r >? Rect.right (box_rect w) + 20) in
  Some (mk (radius w) r x' y' (start_y w) (speed_x w) (amplitude w)
           (frequency w) (box_rect w) time',
        negb killed).

(** [n] calls of [update]. *)
Fixpoint updates (n : nat) (w : t) : option t :=
  match n with
  | O => Some w
  | S n' => w' ← updates n' w; fst <$> update w'
  end.

End WaveBullet.

(** ** combat/patterns.py: HomingBlade *)
Module HomingBlade.

Inductive phase := aiming | charging | flying.

Record t := mk {
  size : Z;
  rect : Rect.t;
  x : R;
  y : R;
  box_rect : Rect.t;
  state : phase;
  timer : Z;
  aim_duration : Z;
  charge_duration : Z;
  target_x : R;
  target_y : R;
  vx : R;
  vy : R;
  speed : R
}.

(** [HomingBlade(x, y, box_rect)]. *)
Definition init (x0 y0 : Z) (box : Rect.t) : t :=
  let size0 := 30 in
  let r := Rect.set_center x0 y0 (Rect.mk 0 0 size0 size0) in
  mk size0 r (IZR x0) (IZR y0) box aiming 0 60 15 0 0 0 0 15.

Definition set_target (tx ty : R) (b : t) : t :=
  mk (size b) (rect b) (x b) (y b) (box_rect b) (state b) (timer b)
     (aim_duration b) (charge_duration b) tx ty (vx b) (vy b) (speed b).

(** [HomingBlade.update]: the blade afterwards and whether it is still
    alive. The velocity is assigned in one place only, under
    [if dist > 0]. *)
Definition update (b : t) : t * bool :=
  match state b with
  | aiming =>
      let tm := timer b + 1 in
      if tm >=? aim_duration b then
        let dx := (target_x b - x b)%R in
        let dy := (target_y b - y b)%R in
        let dist := sqrt (dx * dx + dy * dy) in
        let '(vx', vy') :=
          if Rltb 0 dist
          then ((dx / dist) * speed b, (dy / dist) * speed b)%R
          else (vx b, vy b) in
        (mk (size b) (rect b) (x b) (y b) (box_rect b) charging 0
            (aim_duration b) (charge_duration b) (target_x b) (target_y b)
            vx' vy' (speed b), true)
      else
        (mk (size b) (rect b) (x b) (y b) (box_rect b) aiming tm
            (aim_duration b) (charge_duration b) (target_x b) (target_y b)
            (vx b) (vy b) (speed b), true)
  | charging =>
      let tm := timer b + 1 in
      (mk (size b) (rect b) (x b) (y b) (box_rect b)
          (if tm >=? charge_duration b then flying else charging) tm
          (aim_duration b) (charge_duration b) (target_x b) (target_y b)
          (vx b) (vy b) (speed b), true)
  | flying =>
      let x' := (x b + vx b)%R in
      let y' := (y b + vy b)%R in
      let r := Rect.set_center (py_int x') (py_int y') (rect b) in
      let killed :=
        Rltb x' (IZR (Rect.left (box_rect b) - 50))
        || Rgtb x' (IZR (Rect.right (box_rect b) + 50))
        || Rltb y' (IZR (Rect.top (box_rect b) - 50))
        || Rgtb y' (IZR (Rect.bottom (box_rect b) + 50)) in
      (mk (size b) r x' y' (box_rect b) flying (timer b)
          (aim_duration b) (charge_duration b) (target_x b) (target_y b)
          (vx b) (vy b) (speed b), negb killed)
  end.

(** [n] calls of [update]. *)
Definition updates (n : nat) (b : t) : t := Nat.iter n (fun b => fst (update b)) b.

End HomingBlade.

(** A sprite of the bullets group. *)
Inductive Sprite :=
| SProjectile (p : Projectile.t)
| SBouncing (b : BouncingBullet.t)
| SWave (w : WaveBullet.t)
| SBlade (b : HomingBlade.t).

(** ** combat/patterns.py: AttackManager

    The sprites live in a store ([sprites]) under fresh keys; the group
    [bullets_group] and the lists [homing_blades] and [cross_bullets] hold
    keys, so an object reached through two of them is one object. A
    sprite is alive when its key is in the group. The patterns are the
    strings of the source. [current_pattern_index] is only ever set to
    zero and incremented: it is a natural number. *)
Module AttackManager.

Record t := mk {
  box_rect : Rect.t;
  sprites : gmap nat Sprite;
  next_sprite : nat;
  bullets_group : list nat;
  attack_queue : list string;
  current_pattern_index : nat;
  pattern_timer : Z;
  gap_timer : Z;
  in_gap : bool;
  round_active : bool;
  current_pattern : option string;
  secondary_pattern : option string;
  difficulty : R;
  pattern_internal_timer : Z;
  pattern_internal_timer_2 : Z;
  lasers : list LaserBeam.t;
  laser_spawn_timer : Z;
  gravity_mode : bool;
  gravity_wells : list GravityWell.t;
  cross_bullets : list nat;
  cross_angle : R;
  cross_center : Z * Z;
  ring_timer : Z;
  homing_blades : list nat;
  _patterns_per_round : option Z
}.

(** Assignments to one attribute. *)
Definition with_sprites (v : gmap nat Sprite) (s : t) : t :=
  mk (box_rect s) v (next_sprite s) (bullets_group s) (attack_queue s)
     (current_pattern_index s) (pattern_timer s) (gap_timer s) (in_gap s)
     (round_active s) (current_pattern s) (secondary_pattern s)
     (difficulty s) (pattern_internal_timer s) (pattern_internal_timer_2 s)
     (lasers s) (laser_spawn_timer s) (gravity_mode s) (gravity_wells s)
     (cross_bullets s) (cross_angle s) (cross_center s) (ring_timer s)
     (homing_blades s) (_patterns_per_round s).
Definition with_next_sprite (v : nat) (s : t) : t :=
  mk (box_rect s) (sprites s) v (bullets_group s) (attack_queue s)
     (current_pattern_index s) (pattern_timer s) (gap_timer s) (in_gap s)
     (round_active s) (current_pattern s) (secondary_pattern s)
     (difficulty s) (pattern_internal_timer s) (pattern_internal_timer_2 s)
     (lasers s) (laser_spawn_timer s) (gravity_mode s) (gravity_wells s)
     (cross_bullets s) (cross_angle s) (cross_center s) (ring_timer s)
     (homing_blades s) (_patterns_per_round s).
Definition with_bullets_group (v : list nat) (s : t) : t :=
  mk (box_rect s) (sprites s) (next_sprite s) v (attack_queue s)
     (current_pattern_index s) (pattern_timer s) (gap_timer s) (in_gap s)
     (round_active s) (current_pattern s) (secondary_pattern s)
     (difficulty s) (pattern_internal_timer s) (pattern_internal_timer_2 s)
     (lasers s) (laser_spawn_timer s) (gravity_mode s) (gravity_wells s)
     (cross_bullets s) (cross_angle s) (cross_center s) (ring_timer s)
     (homing_blades s) (_patterns_per_round s).
Definition with_attack_queue (v : list string) (s : t) : t :=
  mk (box_rect s) (sprites s) (next_sprite s) (bullets_group s) v
     (current_pattern_index s) (pattern_timer s) (gap_timer s) (in_gap s)
     (round_active s) (current_pattern s) (secondary_pattern s)
     (difficulty s) (pattern_internal_timer s) (pattern_internal_timer_2 s)
     (lasers s) (laser_spawn_timer s) (gravity_mode s) (gravity_wells s)
     (cross_bullets s) (cross_angle s) (cross_center s) (ring_timer s)
     (homing_blades s) (_patterns_per_round s).
Definition with_current_pattern_index (v : nat) (s : t) : t :=
  mk (box_rect s) (sprites s) (next_sprite s) (bullets_group s)
     (attack_queue s) v (pattern_timer s) (gap_timer s) (in_gap s)
     (round_active s) (current_pattern s) (secondary_pattern s)
     (difficulty s) (pattern_internal_timer s) (pattern_internal_timer_2 s)
     (lasers s) (laser_spawn_timer s) (gravity_mode s) (gravity_wells s)
     (cross_bullets s) (cross_angle s) (cross_center s) (ring_timer s)
     (homing_blades s) (_patterns_per_round s).
Definition with_pattern_timer (v : Z) (s : t) : t :=
  mk (box_rect s) (sprites s) (next_sprite s) (bullets_group s)
     (attack_queue s) (current_pattern_index s) v (gap_timer s) (in_gap s)
     (round_active s) (current_pattern s) (secondary_pattern s)
     (difficulty s) (pattern_internal_timer s) (pattern_internal_timer_2 s)
     (lasers s) (laser_spawn_timer s) (gravity_mode s) (gravity_wells s)
     (cross_bullets s) (cross_angle s) (cross_center s) (ring_timer s)
     (homing_blades s) (_patterns_per_round s).
Definition with_gap_timer (v : Z) (s : t) : t :=
  mk (box_rect s) (sprites s) (next_sprite s) (bullets_group s)
     (attack_queue s) (current_pattern_index s) (pattern_timer s) v
     (in_gap s) (round_active s) (current_pattern s) (secondary_pattern s)
     (difficulty s) (pattern_internal_timer s) (pattern_internal_timer_2 s)
     (lasers s) (laser_spawn_timer s) (gravity_mode s) (gravity_wells s)
     (cross_bullets s) (cross_angle s) (cross_center s) (ring_timer s)
     (homing_blades s) (_patterns_per_round s).
Definition with_in_gap (v : bool) (s : t) : t :=
  mk (box_rect s) (sprites s) (next_sprite s) (bullets_group s)
     (attack_queue s) (current_pattern_index s) (pattern_timer s)
     (gap_timer s) v (round_active s) (current_pattern s)
     (secondary_pattern s) (difficulty s) (pattern_internal_timer s)
     (pattern_internal_timer_2 s) (lasers s) (laser_spawn_timer s)
     (gravity_mode s) (gravity_wells s) (cross_bullets s) (cross_angle s)
     (cross_center s) (ring_timer s) (homing_blades s)
     (_patterns_per_round s).
Definition with_round_active (v : bool) (s : t) : t :=
  mk (box_rect s) (sprites s) (next_sprite s) (bullets_group s)
     (attack_queue s) (current_pattern_index s) (pattern_timer s)
     (gap_timer s) (in_gap s) v (current_pattern s) (secondary_pattern s)
     (difficulty s) (pattern_internal_timer s) (pattern_internal_timer_2 s)
     (lasers s) (laser_spawn_timer s) (gravity_mode s) (gravity_wells s)
     (cross_bullets s) (cross_angle s) (cross_center s) (ring_timer s)
     (homing_blades s) (_patterns_per_round s).
Definition with_current_pattern (v : option string) (s : t) : t :=
  mk (box_rect s) (sprites s) (next_sprite s) (bullets_group s)
     (attack_queue s) (current_pattern_index s) (pattern_timer s)
     (gap_timer s) (in_gap s) (round_active s) v (secondary_pattern s)
     (difficulty s) (pattern_internal_timer s) (pattern_internal_timer_2 s)
     (lasers s) (laser_spawn_timer s) (gravity_mode s) (gravity_wells s)
     (cross_bullets s) (cross_angle s) (cross_center s) (ring_timer s)
     (homing_blades s) (_patterns_per_round s).
Definition with_secondary_pattern (v : option string) (s : t) : t :=
  mk (box_rect s) (sprites s) (next_sprite s) (bullets_group s)
     (attack_queue s) (current_pattern_index s) (pattern_timer s)
     (gap_timer s) (in_gap s) (round_active s) (current_pattern s) v
     (difficulty s) (pattern_internal_timer s) (pattern_internal_timer_2 s)
     (lasers s) (laser_spawn_timer s) (gravity_mode s) (gravity_wells s)
     (cross_bullets s) (cross_angle s) (cross_center s) (ring_timer s)
     (homing_blades s) (_patterns_per_round s).
Definition with_difficulty (v : R) (s : t) : t :=
  mk (box_rect s) (sprites s) (next_sprite s) (bullets_group s)
     (attack_queue s) (current_pattern_index s) (pattern_timer s)
     (gap_timer s) (in_gap s) (round_active s) (current_pattern s)
     (secondary_pattern s) v (pattern_internal_timer s)
     (pattern_internal_timer_2 s) (lasers s) (laser_spawn_timer s)
     (gravity_mode s) (gravity_wells s) (cross_bullets s) (cross_angle s)
     (cross_center s) (ring_timer s) (homing_blades s)
     (_patterns_per_round s).
Definition with_pattern_internal_timer (v : Z) (s : t) : t :=
  mk (box_rect s) (sprites s) (next_sprite s) (bullets_group s)
     (attack_queue s) (current_pattern_index s) (pattern_timer s)
     (gap_timer s) (in_gap s) (round_active s) (current_pattern s)
     (secondary_pattern s) (difficulty s) v (pattern_internal_timer_2 s)
     (lasers s) (laser_spawn_timer s) (gravity_mode s) (gravity_wells s)
     (cross_bullets s) (cross_angle s) (cross_center s) (ring_timer s)
     (homing_blades s) (_patterns_per_round s).
Definition with_pattern_internal_timer_2 (v : Z) (s : t) : t :=
  mk (box_rect s) (sprites s) (next_sprite s) (bullets_group s)
     (attack_queue s) (current_pattern_index s) (pattern_timer s)
     (gap_timer s) (in_gap s) (round_active s) (current_pattern s)
     (secondary_pattern s) (difficulty s) (pattern_internal_timer s) v
     (lasers s) (laser_spawn_timer s) (gravity_mode s) (gravity_wells s)
     (cross_bullets s) (cross_angle s) (cross_center s) (ring_timer s)
     (homing_blades s) (_patterns_per_round s).
Definition with_lasers (v : list LaserBeam.t) (s : t) : t :=
  mk (box_rect s) (sprites s) (next_sprite s) (bullets_group s)
     (attack_queue s) (current_pattern_index s) (pattern_timer s)
     (gap_timer s) (in_gap s) (round_active s) (current_pattern s)
     (secondary_pattern s) (difficulty s) (pattern_internal_timer s)
     (pattern_internal_timer_2 s) v (laser_spawn_timer s) (gravity_mode s)
     (gravity_wells s) (cross_bullets s) (cross_angle s) (cross_center s)
     (ring_timer s) (homing_blades s) (_patterns_per_round s).
Definition with_laser_spawn_timer (v : Z) (s : t) : t :=
  mk (box_rect s) (sprites s) (next_sprite s) (bullets_group s)
     (attack_queue s) (current_pattern_index s) (pattern_timer s)
     (gap_timer s) (in_gap s) (round_active s) (current_pattern s)
     (secondary_pattern s) (difficulty s) (pattern_internal_timer s)
     (pattern_internal_timer_2 s) (lasers s) v (gravity_mode s)
     (gravity_wells s) (cross_bullets s) (cross_angle s) (cross_center s)
     (ring_timer s) (homing_blades s) (_patterns_per_round s).
Definition with_gravity_mode (v : bool) (s : t) : t :=
  mk (box_rect s) (sprites s) (next_sprite s) (bullets_group s)
     (attack_queue s) (current_pattern_index s) (pattern_timer s)
     (gap_timer s) (in_gap s) (round_active s) (current_pattern s)
     (secondary_pattern s) (difficulty s) (pattern_internal_timer s)
     (pattern_internal_timer_2 s) (lasers s) (laser_spawn_timer s) v
     (gravity_wells s) (cross_bullets s) (cross_angle s) (cross_center s)
     (ring_timer s) (homing_blades s) (_patterns_per_round s).
Definition with_gravity_wells (v : list GravityWell.t) (s : t) : t :=
  mk (box_rect s) (sprites s) (next_sprite s) (bullets_group s)
     (attack_queue s) (current_pattern_index s) (pattern_timer s)
     (gap_timer s) (in_gap s) (round_active s) (current_pattern s)
     (secondary_pattern s) (difficulty s) (pattern_internal_timer s)
     (pattern_internal_timer_2 s) (lasers s) (laser_spawn_timer s)
     (gravity_mode s) v (cross_bullets s) (cross_angle s) (cross_center s)
     (ring_timer s) (homing_blades s) (_patterns_per_round s).
Definition with_cross_bullets (v : list nat) (s : t) : t :=
  mk (box_rect s) (sprites s) (next_sprite s) (bullets_group s)
     (attack_queue s) (current_pattern_index s) (pattern_timer s)
     (gap_timer s) (in_gap s) (round_active s) (current_pattern s)
     (secondary_pattern s) (difficulty s) (pattern_internal_timer s)
     (pattern_internal_timer_2 s) (lasers s) (laser_spawn_timer s)
     (gravity_mode s) (gravity_wells s) v (cross_angle s) (cross_center s)
     (ring_timer s) (homing_blades s) (_patterns_per_round s).
Definition with_cross_angle (v : R) (s : t) : t :=
  mk (box_rect s) (sprites s) (next_sprite s) (bullets_group s)
     (attack_queue s) (current_pattern_index s) (pattern_timer s)
     (gap_timer s) (in_gap s) (round_active s) (current_pattern s)
     (secondary_pattern s) (difficulty s) (pattern_internal_timer s)
     (pattern_internal_timer_2 s) (lasers s) (laser_spawn_timer s)
     (gravity_mode s) (gravity_wells s) (cross_bullets s) v (cross_center s)
     (ring_timer s) (homing_blades s) (_patterns_per_round s).
Definition with_cross_center (v : Z * Z) (s : t) : t :=
  mk (box_rect s) (sprites s) (next_sprite s) (bullets_group s)
     (attack_queue s) (current_pattern_index s) (pattern_timer s)
     (gap_timer s) (in_gap s) (round_active s) (current_pattern s)
     (secondary_pattern s) (difficulty s) (pattern_internal_timer s)
     (pattern_internal_timer_2 s) (lasers s) (laser_spawn_timer s)
     (gravity_mode s) (gravity_wells s) (cross_bullets s) (cross_angle s) v
     (ring_timer s) (homing_blades s) (_patterns_per_round s).
Definition with_ring_timer (v : Z) (s : t) : t :=
  mk (box_rect s) (sprites s) (next_sprite s) (bullets_group s)
     (attack_queue s) (current_pattern_index s) (pattern_timer s)
     (gap_timer s) (in_gap s) (round_active s) (current_pattern s)
     (secondary_pattern s) (difficulty s) (pattern_internal_timer s)
     (pattern_internal_timer_2 s) (lasers s) (laser_spawn_timer s)
     (gravity_mode s) (gravity_wells s) (cross_bullets s) (cross_angle s)
     (cross_center s) v (homing_blades s) (_patterns_per_round s).
Definition with_homing_blades (v : list nat) (s : t) : t :=
  mk (box_rect s) (sprites s) (next_sprite s) (bullets_group s)
     (attack_queue s) (current_pattern_index s) (pattern_timer s)
     (gap_timer s) (in_gap s) (round_active s) (current_pattern s)
     (secondary_pattern s) (difficulty s) (pattern_internal_timer s)
     (pattern_internal_timer_2 s) (lasers s) (laser_spawn_timer s)
     (gravity_mode s) (gravity_wells s) (cross_bullets s) (cross_angle s)
     (cross_center s) (ring_timer s) v (_patterns_per_round s).
Definition with__patterns_per_round (v : option Z) (s : t) : t :=
  mk (box_rect s) (sprites s) (next_sprite s) (bullets_group s)
     (attack_queue s) (current_pattern_index s) (pattern_timer s)
     (gap_timer s) (in_gap s) (round_active s) (current_pattern s)
     (secondary_pattern s) (difficulty s) (pattern_internal_timer s)
     (pattern_internal_timer_2 s) (lasers s) (laser_spawn_timer s)
     (gravity_mode s) (gravity_wells s) (cross_bullets s) (cross_angle s)
     (cross_center s) (ring_timer s) (homing_blades s) v.

Definition BASIC_PATTERNS : list string :=
  ["line_rain"; "circle_burst"; "targeting"; "bouncing_walls"; "spiral";
   "laser_warning"].

Definition COMPLEX_PATTERNS : list string :=
  ["snake_wave"; "homing_blades"; "expanding_ring"; "gravity_wells";
   "rotating_cross"].

Definition PATTERN_TYPES : list string := BASIC_PATTERNS ++ COMPLEX_PATTERNS.

(** *** The bullets group *)

(** [self.bullets_group.add(sprite)] for a sprite just constructed. *)
Definition add_sprite (sp : Sprite) (s : t) : nat * t :=
  let k := next_sprite s in
  (k, with_bullets_group (bullets_group s ++ [k])
        (with_next_sprite (S k) (with_sprites (<[k := sp]> (sprites s)) s))).

Definition spawn (sp : Sprite) (s : t) : t := snd (add_sprite sp s).

(** [sprite.kill()], [sprite.alive()], [self.bullets_group.empty()]. *)
Definition kill (k : nat) (s : t) : t :=
  with_bullets_group (filter (fun i => i <> k) (bullets_group s)) s.
Definition alive (k : nat) (s : t) : bool :=
  bool_decide (k ∈ bullets_group s).
Definition empty_group (s : t) : t := with_bullets_group [] s.

(** [list.remove(x)] on a list of keys: the first occurrence goes. *)
Fixpoint remove_first (k : nat) (l : list nat) : list nat :=
  match l with
  | [] => []
  | i :: l' => if decide (i = k) then l' else i :: remove_first k l'
  end.

(** *** Rounds *)

(** The block that picks the secondary pattern; the source repeats it
    in [_start_new_round], [_next_pattern] and
    [start_round_with_pattern_count]. *)
Definition choose_secondary (pattern : string) (s : t) : Random.M t :=
  if bool_decide (pattern ∈ BASIC_PATTERNS) then
    let other_basic := filter (fun p => p <> pattern) BASIC_PATTERNS in
    u <- Random.random ;;
    if Rltb u 0.3 then
      c <- Random.choice other_basic ;;
      Random.ret (with_secondary_pattern (Some c) s)
    else Random.ret (with_secondary_pattern None s)
  else Random.ret (with_secondary_pattern None s).

(** [while len(self.attack_queue) < count: append(random.choice(...))]:
    [n] is the number of missing entries. *)
Fixpoint fill_queue (n : nat) (queue : list string) : Random.M (list string) :=
  match n with
  | O => Random.ret queue
  | S n' =>
      c <- Random.choice PATTERN_TYPES ;;
      fill_queue n' (queue ++ [c])
  end.

(** The assignments that end [_start_new_round] and
    [start_round_with_pattern_count]. *)
Definition reset_round_counters (s : t) : t :=
  let s := with_pattern_timer 0 s in
  let s := with_gap_timer 0 s in
  let s := with_in_gap false s in
  let s := with_round_active true s in
  let s := with_pattern_internal_timer 0 s in
  let s := with_pattern_internal_timer_2 0 s in
  let s := with_lasers [] s in
  let s := with_laser_spawn_timer 0 s in
  let s := with_gravity_mode false s in
  let s := with_gravity_wells [] s in
  let s := with_cross_bullets [] s in
  let s := with_cross_angle 0%R s in
  let s := with_ring_timer 0 s in
  with_homing_blades [] s.

(** [AttackManager._start_new_round]. *)
Definition _start_new_round (cfg : Settings) (s : t) : Random.M t :=
  let all_patterns := PATTERN_TYPES in
  queue <- Random.sample all_patterns
             (Z.min (PATTERNS_PER_ROUND cfg) (Z.of_nat (length all_patterns))) ;;
  queue <- fill_queue
             (Z.to_nat (PATTERNS_PER_ROUND cfg - Z.of_nat (length queue)))
             queue ;;
  let s := with_attack_queue queue s in
  let s := with_current_pattern_index 0%nat s in
  match queue !! 0%nat with
  | None => Random.raise
  | Some first =>
      let s := with_current_pattern (Some first) s in
      s <- choose_secondary first s ;;
      Random.ret (reset_round_counters s)
  end.

(** [AttackManager.start_round_with_pattern_count]. *)
Definition start_round_with_pattern_count (patterns_count : Z) (s : t)
  : Random.M t :=
  let all_patterns := PATTERN_TYPES in
  let patterns_count :=
    Z.max 1 (Z.min patterns_count (Z.of_nat (length all_patterns))) in
  queue <- Random.sample all_patterns patterns_count ;;
  queue <- fill_queue (Z.to_nat (patterns_count - Z.of_nat (length queue)))
             queue ;;
  let s := with_attack_queue queue s in
  let s := with_current_pattern_index 0%nat s in
  match queue !! 0%nat with
  | None => Random.raise
  | Some first =>
      let s := with_current_pattern (Some first) s in
      s <- choose_secondary first s ;;
      Random.ret (reset_round_counters s)
  end.

(** [AttackManager.start_round]. *)
Definition start_round (cfg : Settings) (s : t) : Random.M t :=
  _start_new_round cfg s.

(** [AttackManager._end_current_pattern]. *)
Definition _end_current_pattern (s : t) : t :=
  let s := empty_group s in
  let s := with_lasers [] s in
  let s := with_gravity_mode false s in
  let s := with_gravity_wells [] s in
  let s := with_cross_bullets [] s in
  let s := with_homing_blades [] s in
  let s := with_in_gap true s in
  with_gap_timer 0 s.

(** [AttackManager._next_pattern]. *)
Definition _next_pattern (s : t) : Random.M t :=
  let s := with_current_pattern_index (current_pattern_index s + 1)%nat s in
  if bool_decide (length (attack_queue s) <= current_pattern_index s)%nat then
    Random.ret (with_current_pattern None (with_round_active false s))
  else
    match attack_queue s !! current_pattern_index s with
    | None => Random.raise
    | Some next =>
        let s := with_current_pattern (Some next) s in
        let s := with_pattern_timer 0 s in
        let s := with_pattern_internal_timer 0 s in
        let s := with_pattern_internal_timer_2 0 s in
        let s := with_laser_spawn_timer 0 s in
        choose_secondary next s
    end.

Definition is_round_active (s : t) : bool := round_active s.

Definition get_remaining_attacks (s : t) : Z :=
  Z.of_nat (length (attack_queue s)) - Z.of_nat (current_pattern_index s).

(** [AttackManager.reset]. *)
Definition reset (s : t) : t :=
  let s := empty_group s in
  let s := with_attack_queue [] s in
  let s := with_current_pattern None s in
  let s := with_secondary_pattern None s in
  let s := with_current_pattern_index 0%nat s in
  let s := with_pattern_timer 0 s in
  let s := with_gap_timer 0 s in
  let s := with_in_gap false s in
  let s := with_round_active false s in
  let s := with_pattern_internal_timer 0 s in
  let s := with_pattern_internal_timer_2 0 s in
  let s := with_lasers [] s in
  let s := with_laser_spawn_timer 0 s in
  let s := with_gravity_mode false s in
  let s := with_gravity_wells [] s in
  let s := with_cross_bullets [] s in
  let s := with_cross_angle 0%R s in
  let s := with_ring_timer 0 s in
  with_homing_blades [] s.

(** [AttackManager.with_difficulty]. *)
Definition set_difficulty (d : R) (s : t) : t :=
  with_difficulty (Rmax 0.5 (Rmin d 3.0)) s.

(** [AttackManager.clear_bullets]. *)
Definition clear_bullets (s : t) : t :=
  let s := empty_group s in
  let s := with_lasers [] s in
  let s := with_gravity_mode false s in
  let s := with_gravity_wells [] s in
  let s := with_cross_bullets [] s in
  with_homing_blades [] s.

(** [AttackManager.set_patterns_per_round]. *)
Definition set_patterns_per_round (count : Z) (s : t) : t :=
  with__patterns_per_round (Some (Z.max 1 count)) s.


(** *** Basic patterns *)

(** The counter of a pattern: [pattern_internal_timer_2] when it runs
    as the secondary pattern, [pattern_internal_timer] otherwise. *)
Definition get_timer (secondary : bool) (s : t) : Z :=
  if secondary then pattern_internal_timer_2 s else pattern_internal_timer s.
Definition put_timer (secondary : bool) (v : Z) (s : t) : t :=
  if secondary then with_pattern_internal_timer_2 v s
  else with_pattern_internal_timer v s.

(** [AttackManager._pattern_line_rain]. *)
Definition _pattern_line_rain (cfg : Settings) (secondary : bool) (s : t)
  : Random.M t :=
  let s := put_timer secondary (get_timer secondary s + 1) s in
  let timer := get_timer secondary s in
  interval <- Random.lift
                (Float64.int_div (LINE_RAIN_INTERVAL cfg) (difficulty s)) ;;
  if timer >=? interval then
    s <- for_each (py_range (LINE_RAIN_BULLET_COUNT cfg)) (fun _ s =>
           x <- Random.randint (Rect.left (box_rect s) + 20)
                               (Rect.right (box_rect s) - 60) ;;
           let y := Rect.top (box_rect s) - 20 in
           let speed := (BULLET_BASE_SPEED cfg * difficulty s)%R in
           let bullet := Projectile.line_bullet cfg (IZR x) (IZR y) 0 speed in
           let bullet := Projectile.set_bounds (box_rect s) bullet in
           Random.ret (spawn (SProjectile bullet) s)) s ;;
    Random.ret (put_timer secondary 0 s)
  else Random.ret (put_timer secondary timer s).

(** [AttackManager._pattern_circle_burst]. *)
Definition _pattern_circle_burst (cfg : Settings) (secondary : bool) (s : t)
  : Random.M t :=
  let s := put_timer secondary (get_timer secondary s + 1) s in
  let timer := get_timer secondary s in
  interval <- Random.lift
                (Float64.int_div (CIRCLE_BURST_INTERVAL cfg) (difficulty s)) ;;
  if timer >=? interval then
    let center_x := Rect.centerx (box_rect s) in
    let center_y := Rect.centery (box_rect s) in
    count <- Random.lift
               (Float64.int_mul (CIRCLE_BURST_COUNT cfg) (difficulty s)) ;;
    let s := fold_left (fun s i =>
               let angle := ((2 * PI * IZR i) / IZR count)%R in
               let speed := (BULLET_BASE_SPEED cfg * 1.5)%R in
               let vx := (cos angle * speed)%R in
               let vy := (sin angle * speed)%R in
               let bullet := Projectile.circle_bullet cfg Projectile.CircleBullet
                               (IZR center_x) (IZR center_y) vx vy in
               let bullet := Projectile.set_bounds (box_rect s) bullet in
               spawn (SProjectile bullet) s) (py_range count) s in
    Random.ret (put_timer secondary 0 s)
  else Random.ret (put_timer secondary timer s).

(** [AttackManager._pattern_targeting]. *)
Definition _pattern_targeting (cfg : Settings) (player_x player_y : R)
    (secondary : bool) (s : t) : Random.M t :=
  let s := put_timer secondary (get_timer secondary s + 1) s in
  let timer := get_timer secondary s in
  interval <- Random.lift
                (Float64.int_div (TARGETING_INTERVAL cfg) (difficulty s)) ;;
  if timer >=? interval then
    let box := box_rect s in
    let corners :=
      [ (Rect.left box, Rect.top box); (Rect.right box, Rect.top box);
        (Rect.left box, Rect.bottom box); (Rect.right box, Rect.bottom box) ] in
    shot_corners <- Random.sample corners
                      (Z.min (TARGETING_BULLETS_PER_SHOT cfg)
                             (Z.of_nat (length corners))) ;;
    let s := fold_left (fun s corner =>
               let speed := (BULLET_BASE_SPEED cfg * difficulty s)%R in
               let bullet := Projectile.targeting_bullet cfg
                               (IZR (fst corner)) (IZR (snd corner))
                               player_x player_y (Some speed) in
               let bullet := Projectile.set_bounds (box_rect s) bullet in
               spawn (SProjectile bullet) s) shot_corners s in
    Random.ret (put_timer secondary 0 s)
  else Random.ret (put_timer secondary timer s).

(** [AttackManager._pattern_bouncing_walls]. *)
Definition _pattern_bouncing_walls (secondary : bool) (s : t) : Random.M t :=
  let s := put_timer secondary (get_timer secondary s + 1) s in
  let timer := get_timer secondary s in
  interval <- Random.lift (Float64.int_div 60 (difficulty s)) ;;
  if timer >=? interval then
    let box := box_rect s in
    side <- Random.choice ["top"; "bottom"; "left"; "right"] ;;
    start <-
      (if String.eqb side "top" then
         x <- Random.randint (Rect.left box + 20) (Rect.right box - 40) ;;
         let y := Rect.top box + 10 in
         vx <- Random.choice [-3; 3] ;;
         vy <- Random.uniform 2 4 ;;
         Random.ret (x, y, IZR vx, vy)
       else if String.eqb side "bottom" then
         x <- Random.randint (Rect.left box + 20) (Rect.right box - 40) ;;
         let y := Rect.bottom box - 30 in
         vx <- Random.choice [-3; 3] ;;
         vy <- Random.uniform (-4) (-2) ;;
         Random.ret (x, y, IZR vx, vy)
       else if String.eqb side "left" then
         let x := Rect.left box + 10 in
         y <- Random.randint (Rect.top box + 20) (Rect.bottom box - 40) ;;
         vx <- Random.uniform 2 4 ;;
         vy <- Random.choice [-3; 3] ;;
         Random.ret (x, y, vx, IZR vy)
       else
         let x := Rect.right box - 30 in
         y <- Random.randint (Rect.top box + 20) (Rect.bottom box - 40) ;;
         vx <- Random.uniform (-4) (-2) ;;
         vy <- Random.choice [-3; 3] ;;
         Random.ret (x, y, vx, IZR vy)) ;;
    let '(x, y, vx, vy) := start in
    max_bounces <- Random.randint 3 4 ;;
    let bullet := BouncingBullet.init x y (vx * difficulty s) (vy * difficulty s)
                    box max_bounces in
    let s := spawn (SBouncing bullet) s in
    Random.ret (put_timer secondary 0 s)
  else Random.ret (put_timer secondary timer s).

(** [AttackManager._pattern_spiral]. *)
Definition _pattern_spiral (cfg : Settings) (s : t) : Random.M t :=
  let s := with_pattern_internal_timer (pattern_internal_timer s + 1) s in
  if pattern_internal_timer s >=? 3 then
    let base_angle := (IZR (pattern_timer s) * 0.1)%R in
    let s := fold_left (fun s i =>
               let angle := (base_angle + IZR i * PI)%R in
               let speed := (BULLET_BASE_SPEED cfg * 1.2)%R in
               let vx := (cos angle * speed)%R in
               let vy := (sin angle * speed)%R in
               let bullet := Projectile.circle_bullet cfg Projectile.SpiralBullet
                               (IZR (Rect.centerx (box_rect s)))
                               (IZR (Rect.centery (box_rect s))) vx vy in
               let bullet := Projectile.set_bounds (box_rect s) bullet in
               spawn (SProjectile bullet) s) (py_range 2) s in
    Random.ret (with_pattern_internal_timer 0 s)
  else Random.ret s.

(** [AttackManager._pattern_laser_warning]. *)
Definition _pattern_laser_warning (s : t) : Random.M t :=
  let s := with_laser_spawn_timer (laser_spawn_timer s + 1) s in
  let s := with_lasers
             (filter (fun l => LaserBeam.is_done l = false)
                     (map LaserBeam.update (lasers s))) s in
  if laser_spawn_timer s >=? 60 then
    let s := with_laser_spawn_timer 0 s in
    laser <- LaserBeam.init (box_rect s) ;;
    Random.ret (with_lasers (lasers s ++ [laser]) s)
  else Random.ret s.


(** *** Complex patterns *)

(** [AttackManager._pattern_snake_wave]. *)
Definition _pattern_snake_wave (s : t) : Random.M t :=
  let s := with_pattern_internal_timer (pattern_internal_timer s + 1) s in
  if pattern_internal_timer s >=? 40 then
    let s := with_pattern_internal_timer 0 s in
    let y_positions :=
      py_range3 (Rect.top (box_rect s) + 10) (Rect.bottom (box_rect s) - 10) 40 in
    Random.ret
      (fold_left (fun s y =>
         let bullet := WaveBullet.init (Rect.left (box_rect s) - 10) y
                         (Float64.round (3 * difficulty s)) 30
                         (Float64.round 0.1) (box_rect s) in
         spawn (SWave bullet) s) y_positions s)
  else Random.ret s.

(** One turn of the loop over [self.homing_blades[:]]. *)
Definition step_blade (player_x player_y : R) (s : t) (k : nat) : t :=
  match sprites s !! k with
  | Some (SBlade blade) =>
      let '(blade, still_alive) := HomingBlade.update blade in
      let s := if still_alive then s else kill k s in
      let blade :=
        match HomingBlade.state blade with
        | HomingBlade.aiming => HomingBlade.set_target player_x player_y blade
        | _ => blade
        end in
      let s := with_sprites (<[k := SBlade blade]> (sprites s)) s in
      if alive k s then s
      else with_homing_blades (remove_first k (homing_blades s)) s
  | _ => s
  end.

(** [AttackManager._pattern_homing_blades]. *)
Definition _pattern_homing_blades (player_x player_y : R) (s : t)
  : Random.M t :=
  let s := with_pattern_internal_timer (pattern_internal_timer s + 1) s in
  let s := fold_left (step_blade player_x player_y) (homing_blades s) s in
  if pattern_internal_timer s >=? 90 then
    let s := with_pattern_internal_timer 0 s in
    num_blades <- Random.randint 2 3 ;;
    let edges := ["top"; "bottom"; "left"; "right"] in
    chosen_edges <- Random.sample edges num_blades ;;
    for_each chosen_edges (fun edge s =>
      let box := box_rect s in
      place <-
        (if String.eqb edge "top" then
           x <- Random.randint (Rect.left box + 30) (Rect.right box - 30) ;;
           Random.ret (x, Rect.top box + 20)
         else if String.eqb edge "bottom" then
           x <- Random.randint (Rect.left box + 30) (Rect.right box - 30) ;;
           Random.ret (x, Rect.bottom box - 20)
         else if String.eqb edge "left" then
           y <- Random.randint (Rect.top box + 30) (Rect.bottom box - 30) ;;
           Random.ret (Rect.left box + 20, y)
         else
           y <- Random.randint (Rect.top box + 30) (Rect.bottom box - 30) ;;
           Random.ret (Rect.right box - 20, y)) ;;
      let blade := HomingBlade.init (fst place) (snd place) box in
      let blade := HomingBlade.set_target player_x player_y blade in
      let '(k, s) := add_sprite (SBlade blade) s in
      Random.ret (with_homing_blades (homing_blades s ++ [k]) s)) s
  else Random.ret s.

(** One turn of the loop over the group in [_pattern_expanding_ring]. *)
Definition step_ring (s : t) (k : nat) : t :=
  match sprites s !! k with
  | Some (SProjectile bullet) =>
      match Projectile.extra bullet with
      | Projectile.ring_attrs angle speed radius center_x center_y =>
          let radius := (radius + speed * difficulty s)%R in
          let r := Rect.set_center
                     (py_int (IZR center_x + cos angle * radius))
                     (py_int (IZR center_y + sin angle * radius))
                     (Projectile.rect bullet) in
          let bullet :=
            Projectile.with_extra
              (Projectile.ring_attrs angle speed radius center_x center_y)
              (Projectile.with_rect r bullet) in
          let s := with_sprites (<[k := SProjectile bullet]> (sprites s)) s in
          if Rgtb radius (IZR (Z.max (Rect.width (box_rect s))
                                     (Rect.height (box_rect s))))
          then kill k s else s
      | _ => s
      end
  | _ => s
  end.

(** [AttackManager._pattern_expanding_ring]. *)
Definition _pattern_expanding_ring (cfg : Settings) (s : t) : Random.M t :=
  let s := with_ring_timer (ring_timer s + 1) s in
  s <- (if ring_timer s >=? 100 then
          let s := with_ring_timer 0 s in
          center_x <- Random.randint (Rect.left (box_rect s) + 50)
                                     (Rect.right (box_rect s) - 50) ;;
          center_y <- Random.randint (Rect.top (box_rect s) + 50)
                                     (Rect.bottom (box_rect s) - 50) ;;
          let num_bullets := 16 in
          gaps <- Random.sample (py_range num_bullets) 2 ;;
          Random.ret
            (fold_left (fun s i =>
               if bool_decide (i ∈ gaps) then s
               else
                 let angle := ((2 * PI * IZR i) / IZR num_bullets)%R in
                 let bullet := Projectile.circle_bullet cfg
                                 Projectile.ExpandingRingBullet
                                 (IZR center_x) (IZR center_y) 0 0 in
                 let bullet := Projectile.set_bounds (box_rect s) bullet in
                 let bullet := Projectile.with_extra
                                 (Projectile.ring_attrs angle 2 10
                                    center_x center_y) bullet in
                 spawn (SProjectile bullet) s) (py_range num_bullets) s)
        else Random.ret s) ;;
  Random.ret (fold_left step_ring (bullets_group s) s).

(** [AttackManager._pattern_gravity_wells]. *)
Definition _pattern_gravity_wells (cfg : Settings) (player_x player_y : R)
    (s : t) : Random.M t :=
  let s := with_pattern_internal_timer (pattern_internal_timer s + 1) s in
  s <- (match gravity_wells s with
        | [] =>
            repel <- Random.choice [true; false] ;;
            let well := GravityWell.init (IZR (Rect.centerx (box_rect s)))
                          (IZR (Rect.centery (box_rect s))) 0.4 repel
                          (ATTACK_DURATION cfg) in
            Random.ret (with_gravity_wells (gravity_wells s ++ [well]) s)
        | _ => Random.ret s
        end) ;;
  let s := with_gravity_wells (map GravityWell.update (gravity_wells s)) s in
  let s := with_gravity_mode true s in
  if pattern_internal_timer s >=? 30 then
    let s := with_pattern_internal_timer 0 s in
    corner_x <- Random.choice [Rect.left (box_rect s); Rect.right (box_rect s)] ;;
    corner_y <- Random.choice [Rect.top (box_rect s); Rect.bottom (box_rect s)] ;;
    let angle := atan2 (IZR (Rect.centery (box_rect s) - corner_y))
                       (IZR (Rect.centerx (box_rect s) - corner_x)) in
    jitter <- Random.uniform (-0.5) 0.5 ;;
    let angle := (angle + jitter)%R in
    let speed := (BULLET_BASE_SPEED cfg * 1.2)%R in
    let vx := (cos angle * speed)%R in
    let vy := (sin angle * speed)%R in
    let bullet := Projectile.circle_bullet cfg Projectile.CircleBullet
                    (IZR corner_x) (IZR corner_y) vx vy in
    let bullet := Projectile.set_bounds (box_rect s) bullet in
    Random.ret (spawn (SProjectile bullet) s)
  else Random.ret s.

(** The arms of the cross: [for i in range(4): for j in range(8)]. *)
Definition cross_slots : list (Z * Z) :=
  flat_map (fun i => map (fun j => (i, j)) (py_range 8)) (py_range 4).

(** One turn of the loop over [self.cross_bullets]. *)
Definition step_cross (s : t) (k : nat) : t :=
  match sprites s !! k with
  | Some (SProjectile bullet) =>
      match Projectile.extra bullet with
      | Projectile.cross_attrs beam_index distance base_angle =>
          let angle := (base_angle + cross_angle s)%R in
          let r := Rect.set_center
                     (py_int (IZR (fst (cross_center s))
                              + cos angle * IZR distance))
                     (py_int (IZR (snd (cross_center s))
                              + sin angle * IZR distance))
                     (Projectile.rect bullet) in
          with_sprites
            (<[k := SProjectile (Projectile.with_rect r bullet)]> (sprites s)) s
      | _ => s
      end
  | _ => s
  end.

(** [AttackManager._pattern_rotating_cross]. *)
Definition _pattern_rotating_cross (cfg : Settings) (player_x player_y : R)
    (s : t) : Random.M t :=
  let s :=
    match cross_bullets s with
    | [] =>
        let s := with_cross_center (Rect.centerx (box_rect s),
                                    Rect.centery (box_rect s)) s in
        fold_left (fun s slot =>
          let angle := (IZR (fst slot) * PI / 2)%R in
          let bullet := Projectile.circle_bullet cfg
                          Projectile.RotatingCrossBullet
                          (IZR (fst (cross_center s)))
                          (IZR (snd (cross_center s))) 0 0 in
          let bullet := Projectile.set_bounds (box_rect s) bullet in
          let bullet := Projectile.with_extra
                          (Projectile.cross_attrs (fst slot)
                             (30 + snd slot * 25) angle) bullet in
          let '(k, s) := add_sprite (SProjectile bullet) s in
          with_cross_bullets (cross_bullets s ++ [k]) s) cross_slots s
    | _ => s
    end in
  let s := with_cross_angle (cross_angle s + 0.02 * difficulty s)%R s in
  let s := fold_left step_cross (cross_bullets s) s in
  let s := with_pattern_internal_timer (pattern_internal_timer s + 1) s in
  if pattern_internal_timer s >=? 60 then
    let s := with_pattern_internal_timer 0 s in
    s <- for_each (py_range 2) (fun _ s =>
           x <- Random.randint (Rect.left (box_rect s) + 20)
                               (Rect.right (box_rect s) - 20) ;;
           let y := Rect.top (box_rect s) - 10 in
           let speed := (BULLET_BASE_SPEED cfg * 0.8)%R in
           let bullet := Projectile.circle_bullet cfg Projectile.CircleBullet
                           (IZR x) (IZR y) 0 speed in
           let bullet := Projectile.set_bounds (box_rect s) bullet in
           Random.ret (spawn (SProjectile bullet) s)) s ;;
    Random.ret s
  else Random.ret s.


(** *** The tick *)

(** [AttackManager._execute_current_pattern]. *)
Definition _execute_current_pattern (cfg : Settings) (player_x player_y : R)
    (s : t) : Random.M t :=
  match current_pattern s with
  | None => Random.ret s
  | Some pattern =>
      if String.eqb pattern "line_rain" then
        _pattern_line_rain cfg false s
      else if String.eqb pattern "circle_burst" then
        _pattern_circle_burst cfg false s
      else if String.eqb pattern "targeting" then
        _pattern_targeting cfg player_x player_y false s
      else if String.eqb pattern "bouncing_walls" then
        _pattern_bouncing_walls false s
      else if String.eqb pattern "spiral" then
        _pattern_spiral cfg s
      else if String.eqb pattern "laser_warning" then
        _pattern_laser_warning s
      else if String.eqb pattern "snake_wave" then
        _pattern_snake_wave s
      else if String.eqb pattern "homing_blades" then
        _pattern_homing_blades player_x player_y s
      else if String.eqb pattern "expanding_ring" then
        _pattern_expanding_ring cfg s
      else if String.eqb pattern "gravity_wells" then
        _pattern_gravity_wells cfg player_x player_y s
      else if String.eqb pattern "rotating_cross" then
        _pattern_rotating_cross cfg player_x player_y s
      else Random.ret s
  end.

(** [AttackManager._execute_secondary_pattern]: the chain has four
    branches. *)
Definition _execute_secondary_pattern (cfg : Settings)
    (player_x player_y : R) (s : t) : Random.M t :=
  match secondary_pattern s with
  | None => Random.ret s
  | Some pattern =>
      if String.eqb pattern "line_rain" then
        _pattern_line_rain cfg true s
      else if String.eqb pattern "circle_burst" then
        _pattern_circle_burst cfg true s
      else if String.eqb pattern "targeting" then
        _pattern_targeting cfg player_x player_y true s
      else if String.eqb pattern "bouncing_walls" then
        _pattern_bouncing_walls true s
      else Random.ret s
  end.

(** Truth value of [self.secondary_pattern]. *)
Definition has_secondary (s : t) : bool :=
  match secondary_pattern s with
  | Some pattern => negb (String.eqb pattern "")
  | None => false
  end.

(** [AttackManager.update]: the returned flag and the manager
    afterwards. *)
Definition update (cfg : Settings) (player_x player_y : R) (s : t)
  : Random.M (bool * t) :=
  if negb (round_active s) then Random.ret (false, s)
  else if in_gap s then
    let s := with_gap_timer (gap_timer s + 1) s in
    if gap_timer s >=? GAP_BETWEEN_ATTACKS cfg then
      let s := with_in_gap false s in
      let s := with_gap_timer 0 s in
      s <- _next_pattern s ;;
      Random.ret (true, s)
    else Random.ret (true, s)
  else
    let s := with_pattern_timer (pattern_timer s + 1) s in
    if pattern_timer s >=? ATTACK_DURATION cfg then
      Random.ret (true, _end_current_pattern s)
    else
      s <- _execute_current_pattern cfg player_x player_y s ;;
      s <- (if has_secondary s
            then _execute_secondary_pattern cfg player_x player_y s
            else Random.ret s) ;;
      Random.ret (true, s).

(** [AttackManager(box_rect, bullets_group)]: the engine passes a
    group it has just created. *)
Definition init (cfg : Settings) (box : Rect.t) : Random.M t :=
  _start_new_round cfg
    (mk box ∅ 0%nat [] [] 0%nat 0 0 false false None None 1.0%R 0 0 [] 0
        false [] [] 0%R (0, 0) 0 [] None).

(** [n] successive ticks with the player standing still; the flag of
    the last one is returned. *)
Fixpoint ticks (cfg : Settings) (player_x player_y : R) (n : nat) (s : t)
  : Random.M t :=
  match n with
  | O => Random.ret s
  | S n' =>
      r <- update cfg player_x player_y s ;;
      ticks cfg player_x player_y n' (snd r)
  end.

(** *** The scheduling part of the state *)
Definition round_view (s : t) :=
  (attack_queue s, current_pattern_index s, pattern_timer s, gap_timer s,
   in_gap s, round_active s, current_pattern s, secondary_pattern s).

(** *** The projectiles and hazards in the arena *)
Definition arena_view (s : t) :=
  (sprites s, next_sprite s, bullets_group s, lasers s, gravity_wells s,
   gravity_mode s, cross_bullets s, homing_blades s).

(** [keeps s c]: every outcome of the computation [c] has the
    scheduling part of [s]. *)
Definition keeps (s : t) (c : Random.M t) : Prop :=
  forall g s' g', c g = Some (s', g') -> round_view s' = round_view s.

(** The secondary pattern of an active round: none, or a basic
    pattern next to a different basic primary pattern. *)
Definition secondary_ok (s : t) : Prop :=
  round_active s = true ->
  match secondary_pattern s with
  | None => True
  | Some q =>
      q ∈ BASIC_PATTERNS
      /\ exists p, current_pattern s = Some p /\ p ∈ BASIC_PATTERNS /\ q <> p
  end.

(** What [choose_secondary] can leave as the secondary pattern of
    the primary pattern [p]. *)
Definition secondary_for (p : string) (o : option string) : Prop :=
  match o with
  | None => True
  | Some q => p ∈ BASIC_PATTERNS /\ q ∈ BASIC_PATTERNS /\ q <> p
  end.

(** The state [start_round_with_pattern_count] and [_start_new_round]
    build from a queue, its first entry and a secondary pattern. *)
Definition started (queue : list string) (first : string)
    (o : option string) (s : t) : t :=
  reset_round_counters
    (with_secondary_pattern o
       (with_current_pattern (Some first)
          (with_current_pattern_index 0%nat (with_attack_queue queue s)))).

(** *** The states a manager can be in

    The calls of the public methods, and the states that arise from
    the constructor by such calls. Between the calls the engine, which
    shares the bullets group with the manager, updates, kills and
    empties sprites. *)
Inductive call :=
| call_update (player_x player_y : R)
| call_start_round
| call_start_round_with_pattern_count (patterns_count : Z)
| call_reset
| call_set_difficulty (d : R)
| call_clear_bullets
| call_set_patterns_per_round (count : Z).

Definition run (cfg : Settings) (c : call) (s : t) : Random.M t :=
  match c with
  | call_update player_x player_y =>
      r <- update cfg player_x player_y s ;; Random.ret (snd r)
  | call_start_round => start_round cfg s
  | call_start_round_with_pattern_count n => start_round_with_pattern_count n s
  | call_reset => Random.ret (reset s)
  | call_set_difficulty d => Random.ret (set_difficulty d s)
  | call_clear_bullets => Random.ret (clear_bullets s)
  | call_set_patterns_per_round n => Random.ret (set_patterns_per_round n s)
  end.

Inductive reachable (cfg : Settings) : t -> Prop :=
| reachable_init (box : Rect.t) (g g' : Random.state) (s : t) :
    init cfg box g = Some (s, g') -> reachable cfg s
| reachable_call (c : call) (g g' : Random.state) (s s' : t) :
    reachable cfg s -> run cfg c s g = Some (s', g') -> reachable cfg s'
| reachable_engine (store : gmap nat Sprite) (group : list nat) (s : t) :
    reachable cfg s ->
    reachable cfg (with_bullets_group group (with_sprites store s)).

(** *** Queries of the engine *)

(** [AttackManager.check_laser_collision]. *)
Definition check_laser_collision (player_rect : Rect.t) (s : t) : bool :=
  existsb (fun laser => LaserBeam.check_collision laser player_rect) (lasers s).

(** [AttackManager.get_gravity_force]: the forces of the wells, summed
    up in the order of the list. *)
Definition get_gravity_force (player_x player_y : R) (s : t) : R * R :=
  fold_left (fun total well =>
               let f := GravityWell.apply_force well player_x player_y in
               (fst total + fst f, snd total + snd f)%R)
            (gravity_wells s) (0, 0)%R.

(** [AttackManager.is_gravity_mode]. *)
Definition is_gravity_mode (s : t) : bool :=
  gravity_mode s || (0 <? Z.of_nat (length (gravity_wells s))).

(** The manager keeps no hazard: no bullet in the group, no laser, no
    gravity. *)
Definition harmless (s : t) : Prop :=
  bullets_group s = []
  /\ is_gravity_mode s = false
  /\ (forall player_rect, check_laser_collision player_rect s = false)
  /\ (forall player_x player_y,
        get_gravity_force player_x player_y s = (0, 0)%R).

(** The queue and the index fit together: an active round is at an
    entry of the queue, which is its current pattern; an inactive
    manager has used its queue up and has no current pattern. *)
Definition queue_ok (s : t) : Prop :=
  (forall p, p ∈ attack_queue s -> p ∈ PATTERN_TYPES)
  /\ if round_active s
     then exists p, attack_queue s !! current_pattern_index s = Some p
                    /\ current_pattern s = Some p
     else current_pattern_index s = length (attack_queue s)
          /\ current_pattern s = None.

(** *** Parts of the state, and what a computation does to them *)

(** The arena and the difficulty. *)
Definition config_view (s : t) := (box_rect s, difficulty s).

(** The lasers and their spawn counter. *)
Definition laser_view (s : t) := (lasers s, laser_spawn_timer s).

(** The gravity. *)
Definition gravity_view (s : t) := (gravity_mode s, gravity_wells s).

(** [frames V s c]: every outcome of the computation [c] has the part
    [V] of [s]. *)
Definition frames {A} (V : t -> A) (s : t) (c : Random.M t) : Prop :=
  forall g s' g', c g = Some (s', g') -> V s' = V s.

(** [yields m P]: whatever the generator draws, the computation [m]
    does not raise, and its result satisfies [P]. *)
Definition yields {A} (m : Random.M A) (P : A -> Prop) : Prop :=
  forall g, exists a g', m g = Some (a, g') /\ P a.

(** [safe s c]: [c] does not raise and leaves the arena and the
    difficulty of [s]. *)
Definition safe (s : t) (c : Random.M t) : Prop :=
  yields c (fun s' => config_view s' = config_view s).

(** An arena with room for every pattern, a difficulty of the range
    [set_difficulty] keeps it in, a number of targeting shots that can be
    sampled, and intervals and a count that binary64 holds exactly. *)
Definition fit (cfg : Settings) (s : t) : Prop :=
  100 <= Rect.width (box_rect s) /\ 100 <= Rect.height (box_rect s)
  /\ (0.5 <= difficulty s <= 3.0)%R
  /\ 0 <= TARGETING_BULLETS_PER_SHOT cfg
  /\ Z.abs (LINE_RAIN_INTERVAL cfg) <= 2 ^ 53
  /\ Z.abs (CIRCLE_BURST_INTERVAL cfg) <= 2 ^ 53
  /\ Z.abs (CIRCLE_BURST_COUNT cfg) <= 2 ^ 53
  /\ Z.abs (TARGETING_INTERVAL cfg) <= 2 ^ 53.

(** *** The hazards of a reachable manager *)

(** The gravity: on only while the pattern [gravity_wells] runs, with
    at most one well, of strength 0.4 at the centre of the arena. *)
Definition gravity_ok (s : t) : Prop :=
  (is_gravity_mode s = true ->
   round_active s = true /\ in_gap s = false
   /\ current_pattern s = Some "gravity_wells")
  /\ (length (gravity_wells s) <= 1)%nat
  /\ forall w, w ∈ gravity_wells s ->
       GravityWell.strength w = 0.4%R
       /\ GravityWell.x w = IZR (Rect.centerx (box_rect s))
       /\ GravityWell.y w = IZR (Rect.centery (box_rect s)).


(** The frames a laser has lived: [LaserBeam.update] starts the timer
    again when the warning is over. *)
Definition laser_age (l : LaserBeam.t) : Z :=
  match LaserBeam.state l with
  | LaserBeam.warning => LaserBeam.timer l
  | _ => LaserBeam.warning_duration l + LaserBeam.timer l
  end.

(** A laser of the arena [box], [age] frames old, not yet done. *)
Definition laser_fine (box : Rect.t) (age : Z) (l : LaserBeam.t) : Prop :=
  LaserBeam.box_rect l = box
  /\ LaserBeam.warning_duration l = 30 /\ LaserBeam.active_duration l = 15
  /\ laser_age l = age
  /\ match LaserBeam.state l with
     | LaserBeam.warning => 0 <= LaserBeam.timer l < 30
     | LaserBeam.active => 0 <= LaserBeam.timer l < 15
     | LaserBeam.done => False
     end.

(** The lasers: there only while the pattern [laser_warning] runs, at
    most one, as old as the spawn counter says. *)
Definition laser_ok (s : t) : Prop :=
  (lasers s <> [] ->
   round_active s = true /\ in_gap s = false
   /\ current_pattern s = Some "laser_warning")
  /\ (length (lasers s) <= 1)%nat
  /\ forall l, l ∈ lasers s ->
       laser_fine (box_rect s) (laser_spawn_timer s) l.


(** *** The clock of a round *)

(** The ticks a round has lived: [ATTACK_DURATION] ticks and a gap of
    [GAP_BETWEEN_ATTACKS] ticks for every pattern behind it, and the
    counter of the running pattern or of the running gap. *)
Definition round_clock (cfg : Settings) (s : t) : Z :=
  Z.of_nat (current_pattern_index s)
  * (ATTACK_DURATION cfg + GAP_BETWEEN_ATTACKS cfg)
  + (if in_gap s then ATTACK_DURATION cfg + gap_timer s else pattern_timer s).

(** An active round whose counters are within their bounds. *)
Definition on_time (cfg : Settings) (s : t) : Prop :=
  round_active s = true
  /\ (current_pattern_index s < length (attack_queue s))%nat
  /\ if in_gap s then 0 <= gap_timer s < GAP_BETWEEN_ATTACKS cfg
     else 0 <= pattern_timer s < ATTACK_DURATION cfg.


(** *** Bursts *)

(** The manager after the sprites [sps] were constructed and added to
    the bullets group, one after the other. *)
Definition spawned (s : t) (sps : list Sprite) : t :=
  fold_left (fun s sp => spawn sp s) sps s.

End AttackManager.

(** ** entities/pickup_item.py: the data of an item

    An item is the dictionary [ItemData.TYPES] holds for its type. *)
Module ItemData.

Inductive value :=
| VInt (z : Z)
| VStr (s : string)
| VColor (r g b : Z).

Definition item := gmap string value.

(** [item.get('heal_value', 0)] as a number to add to the hit points;
    [None] where the addition raises [TypeError]. *)
Definition heal_value (i : item) : option Z :=
  match i !! "heal_value" with
  | None => Some 0
  | Some (VInt z) => Some z
  | Some _ => None
  end.

End ItemData.

(** ** entities/player.py: the player in the battle

    The heart of the battle, the hit points ([Player.t]) and the
    inventory. *)
Module BattlePlayer.

(** [keys[pygame.K_w]] and the like. *)
Record Keys := {
  K_w : bool; K_UP : bool;
  K_s : bool; K_DOWN : bool;
  K_a : bool; K_LEFT : bool;
  K_d : bool; K_RIGHT : bool
}.

Record t := mk {
  stats : Player.t;
  battle_x : R;
  battle_y : R;
  battle_size : Z;
  battle_speed : R;
  battle_rect : Rect.t;
  battle_box : option Rect.t;
  inventory : list ItemData.item
}.

Definition with_stats (v : Player.t) (p : t) : t :=
  mk v (battle_x p) (battle_y p) (battle_size p) (battle_speed p)
     (battle_rect p) (battle_box p) (inventory p).

(** Truth value of [self.battle_box]: a rect of no area is false. *)
Definition has_box (p : t) : option Rect.t :=
  match battle_box p with
  | Some box => if Rect.nonzero box then Some box else None
  | None => None
  end.

(** [Player._update_battle_rect]. *)
Definition _update_battle_rect (p : t) : t :=
  mk (stats p) (battle_x p) (battle_y p) (battle_size p) (battle_speed p)
     (Rect.of_floats (battle_x p) (battle_y p) (battle_size p) (battle_size p))
     (battle_box p) (inventory p).

(** [Player.set_battle_box]. *)
Definition set_battle_box (box_rect : Rect.t) (p : t) : t :=
  _update_battle_rect
    (mk (stats p)
        (IZR (Rect.centerx box_rect - battle_size p / 2))
        (IZR (Rect.centery box_rect - battle_size p / 2))
        (battle_size p) (battle_speed p) (battle_rect p) (Some box_rect)
        (inventory p)).

(** [Player.handle_battle_input]. *)
Definition handle_battle_input (keys : Keys) (p : t) : t :=
  match has_box p with
  | None => p
  | Some box =>
      let dy := 0%R in
      let dy := if K_w keys || K_UP keys then (- battle_speed p)%R else dy in
      let dy := if K_s keys || K_DOWN keys then battle_speed p else dy in
      let dx := 0%R in
      let dx := if K_a keys || K_LEFT keys then (- battle_speed p)%R else dx in
      let dx := if K_d keys || K_RIGHT keys then battle_speed p else dx in
      let new_x := (battle_x p + dx)%R in
      let new_y := (battle_y p + dy)%R in
      let x' :=
        if Rgeb new_x (IZR (Rect.left box))
           && Rleb (new_x + IZR (battle_size p)) (IZR (Rect.right box))
        then new_x else battle_x p in
      let y' :=
        if Rgeb new_y (IZR (Rect.top box))
           && Rleb (new_y + IZR (battle_size p)) (IZR (Rect.bottom box))
        then new_y else battle_y p in
      _update_battle_rect
        (mk (stats p) x' y' (battle_size p) (battle_speed p) (battle_rect p)
            (battle_box p) (inventory p))
  end.

Definition get_battle_rect (p : t) : Rect.t := battle_rect p.

(** [Player.get_battle_position]: the centre of the heart. *)
Definition get_battle_position (p : t) : R * R :=
  ((battle_x p + IZR (battle_size p / 2))%R,
   (battle_y p + IZR (battle_size p / 2))%R).

(** [Player.apply_gravity_force]. *)
Definition apply_gravity_force (force_x force_y : R) (p : t) : t :=
  let x := (battle_x p + force_x)%R in
  let y := (battle_y p + force_y)%R in
  match has_box p with
  | Some box =>
      let margin := battle_size p / 2 in
      let x := Rmax (IZR (Rect.left box + margin))
                    (Rmin (IZR (Rect.right box - margin)) x) in
      let y := Rmax (IZR (Rect.top box + margin))
                    (Rmin (IZR (Rect.bottom box - margin)) y) in
      _update_battle_rect
        (mk (stats p) x y (battle_size p) (battle_speed p) (battle_rect p)
            (battle_box p) (inventory p))
  | None =>
      mk (stats p) x y (battle_size p) (battle_speed p) (battle_rect p)
         (battle_box p) (inventory p)
  end.

(** [Player.reset_battle_state] and [Player.is_alive]. *)
Definition reset_battle_state (p : t) : t :=
  with_stats (Player.mk (Player.max_hp (stats p)) (Player.max_hp (stats p)) 0) p.

Definition is_alive (p : t) : bool := Player.hp (stats p) >? 0.

(** [Player.add_item]: nothing and an empty dictionary are not
    added. *)
Definition add_item (item_data : option ItemData.item) (p : t) : t :=
  match item_data with
  | Some d =>
      if bool_decide (d = ∅) then p
      else mk (stats p) (battle_x p) (battle_y p) (battle_size p)
              (battle_speed p) (battle_rect p) (battle_box p)
              (inventory p ++ [d])
  | None => p
  end.

(** [Player.use_item]: the item used, if there is one at [index], and
    the player afterwards; the outer [None] is the [TypeError] of a heal
    value that is not a number, raised after the item has left the
    inventory. *)
Definition use_item (index : Z) (p : t) : option (option ItemData.item * t) :=
  if (0 <=? index) && (index <? Z.of_nat (length (inventory p))) then
    match inventory p !! Z.to_nat index with
    | Some item =>
        match ItemData.heal_value item with
        | Some v =>
            let st := stats p in
            let st := Player.mk (Z.min (Player.max_hp st) (Player.hp st + v))
                                (Player.max_hp st)
                                (Player.invulnerability_timer st) in
            Some (Some item,
                  mk st (battle_x p) (battle_y p) (battle_size p)
                     (battle_speed p) (battle_rect p) (battle_box p)
                     (delete (Z.to_nat index) (inventory p)))
        | None => None
        end
    | None => Some (None, p)
    end
  else Some (None, p).

Definition get_inventory_items (p : t) : list ItemData.item := inventory p.
Definition has_items (p : t) : bool := 0 <? Z.of_nat (length (inventory p)).

(** [Player.heal]: the hit points restored, and the player
    afterwards. *)
Definition heal (amount : Z) (p : t) : Z * t :=
  let st := stats p in
  let hp' := Z.min (Player.max_hp st) (Player.hp st + amount) in
  (hp' - Player.hp st,
   with_stats (Player.mk hp' (Player.max_hp st)
                         (Player.invulnerability_timer st)) p).

Definition full_heal (p : t) : t :=
  with_stats (Player.mk (Player.max_hp (stats p)) (Player.max_hp (stats p))
                        (Player.invulnerability_timer (stats p))) p.

(** The heart lies inside the box, edges included. *)
Definition in_box (box : Rect.t) (p : t) : Prop :=
  (IZR (Rect.left box) <= battle_x p)%R
  /\ (battle_x p + IZR (battle_size p) <= IZR (Rect.right box))%R
  /\ (IZR (Rect.top box) <= battle_y p)%R
  /\ (battle_y p + IZR (battle_size p) <= IZR (Rect.bottom box))%R.

End BattlePlayer.

(** ** core/engine.py: Battle

    The battle: the state of the FIGHT mini-game and of the current
    enemy ([BattleBox.t]), the pauses before an attack, and the attack
    manager with the bullets group it shares with the battle. The
    durations are constants of [core/settings.py]. *)
Record BattleSettings := {
  SAFETY_PAUSE_DURATION : Z;
  WARMUP_DURATION : Z;
  MOB_PATTERNS_PER_ROUND : Z
}.

Module Battle.

Record t := mk {
  box : BattleBox.t;
  fight_bar_direction : Z;
  fight_bar_speed : R;
  safety_pause_active : bool;
  safety_pause_timer : Z;
  warmup_active : bool;
  warmup_timer : Z;
  attack_manager : AttackManager.t
}.

Definition battle_mode (b : t) : BattleBox.mode := BattleBox.battle_mode (box b).
Definition current_enemy (b : t) : option Enemy.t :=
  BattleBox.current_enemy (box b).
Definition fight_bar_active (b : t) : bool := BattleBox.fight_bar_active (box b).
Definition fight_bar_position (b : t) : R := BattleBox.fight_bar_position (box b).

Definition with_box (v : BattleBox.t) (b : t) : t :=
  mk v (fight_bar_direction b) (fight_bar_speed b) (safety_pause_active b)
     (safety_pause_timer b) (warmup_active b) (warmup_timer b)
     (attack_manager b).

Definition with_attack_manager (v : AttackManager.t) (b : t) : t :=
  mk (box b) (fight_bar_direction b) (fight_bar_speed b)
     (safety_pause_active b) (safety_pause_timer b) (warmup_active b)
     (warmup_timer b) v.

Definition with_battle_mode (v : BattleBox.mode) (b : t) : t :=
  with_box (BattleBox.mk (current_enemy b) v (fight_bar_active b)
              (fight_bar_position b) (BattleBox.show_phase2_message (box b))
              (BattleBox.phase2_message_timer (box b))) b.

(** [Battle.can_player_move]. *)
Definition can_player_move (b : t) : bool :=
  match battle_mode b with
  | BattleBox.Dodge | BattleBox.Warmup => true
  | _ => false
  end.

(** [sprite.update()] and [sprite.rect], whatever the class of the
    sprite. *)
Definition sprite_update (sp : Sprite) : option (Sprite * bool) :=
  match sp with
  | SProjectile p =>
      let '(p', ok) := Projectile.update p in Some (SProjectile p', ok)
  | SBouncing q =>
      let '(q', ok) := BouncingBullet.update q in Some (SBouncing q', ok)
  | SWave w =>
      match WaveBullet.update w with
      | Some (w', ok) => Some (SWave w', ok)
      | None => None
      end
  | SBlade k =>
      let '(k', ok) := HomingBlade.update k in Some (SBlade k', ok)
  end.

Definition sprite_rect (sp : Sprite) : Rect.t :=
  match sp with
  | SProjectile p => Projectile.rect p
  | SBouncing q => BouncingBullet.rect q
  | SWave w => WaveBullet.rect w
  | SBlade k => HomingBlade.rect k
  end.

(** One turn of [self.bullets.update()]. *)
Definition update_sprite (m : AttackManager.t) (k : nat)
  : option AttackManager.t :=
  match AttackManager.sprites m !! k with
  | Some sp =>
      match sprite_update sp with
      | Some (sp', ok) =>
          let m := AttackManager.with_sprites
                     (<[k := sp']> (AttackManager.sprites m)) m in
          Some (if ok then m else AttackManager.kill k m)
      | None => None
      end
  | None => Some m
  end.

(** [self.bullets.update()]: the group calls [update] on the sprites it
    holds when the call begins. *)
Definition bullets_update (m : AttackManager.t) : option AttackManager.t :=
  fold_left (fun r k => m ← r; update_sprite m k)
            (AttackManager.bullets_group m) (Some m).

(** [Battle._start_fight_minigame]. *)
Definition _start_fight_minigame (b : t) : t :=
  mk (BattleBox.mk (current_enemy b) BattleBox.FightAttack true 0.0%R
        (BattleBox.show_phase2_message (box b))
        (BattleBox.phase2_message_timer (box b)))
     1 (fight_bar_speed b) (safety_pause_active b) (safety_pause_timer b)
     (warmup_active b) (warmup_timer b) (attack_manager b).

(** [Battle.start_safety_pause]. *)
Definition start_safety_pause (bs : BattleSettings) (b : t) : t :=
  with_battle_mode BattleBox.SafetyPause
    (mk (box b) (fight_bar_direction b) (fight_bar_speed b) true
        (SAFETY_PAUSE_DURATION bs) (warmup_active b) (warmup_timer b)
        (attack_manager b)).

(** [Battle._start_warmup]. *)
Definition _start_warmup (bs : BattleSettings) (b : t) : t :=
  with_battle_mode BattleBox.Warmup
    (mk (box b) (fight_bar_direction b) (fight_bar_speed b)
        (safety_pause_active b) (safety_pause_timer b) true
        (WARMUP_DURATION bs) (attack_manager b)).

(** [Battle._start_enemy_attack_after_warmup]. *)
Definition _start_enemy_attack_after_warmup (bs : BattleSettings) (b : t)
  : Random.M t :=
  match current_enemy b with
  | None => Random.ret (with_battle_mode BattleBox.Menu b)
  | Some enemy =>
      m <- (if Enemy.is_boss enemy then
              if Enemy.phase enemy =? 1 then
                AttackManager.start_round_with_pattern_count 1 (attack_manager b)
              else
                patterns_count <- Random.randint 2 4 ;;
                m <- AttackManager.start_round_with_pattern_count
                       patterns_count (attack_manager b) ;;
                Random.ret
                  (AttackManager.set_difficulty (Float64.round 1.3) m)
            else
              AttackManager.start_round_with_pattern_count
                (MOB_PATTERNS_PER_ROUND bs) (attack_manager b)) ;;
      Random.ret (with_battle_mode BattleBox.Dodge (with_attack_manager m b))
  end.

(** [Battle._end_dodge_phase]. *)
Definition _end_dodge_phase (b : t) : t :=
  let b := with_battle_mode BattleBox.Menu b in
  let m := AttackManager.empty_group (attack_manager b) in
  with_attack_manager (AttackManager.reset m) b.

(** The countdown of the message about the second phase, at the head
    of [Battle.update]. *)
Definition tick_phase2_message (b : t) : t :=
  let bx := box b in
  if BattleBox.phase2_message_timer bx >? 0 then
    let tm := BattleBox.phase2_message_timer bx - 1 in
    with_box (BattleBox.mk (BattleBox.current_enemy bx)
                (BattleBox.battle_mode bx) (BattleBox.fight_bar_active bx)
                (BattleBox.fight_bar_position bx)
                (if tm <=? 0 then false else BattleBox.show_phase2_message bx)
                tm) b
  else b.

(** The step of the bar of the FIGHT mini-game:
    [self.fight_bar_position += self.fight_bar_speed *
    self.fight_bar_direction], two operations of binary64, and the
    bounce. A sum beyond the floats is an infinity in Python and is
    brought back to the end of the bar like any other sum beyond it. *)
Definition move_fight_bar (b : t) : option t :=
  direction ← Float64.of_int (fight_bar_direction b);
  let position :=
    Float64.round (fight_bar_position b
                   + Float64.round (fight_bar_speed b * direction)) in
  let '(position, direction) :=
    if Rgeb position 1.0 then (1.0%R, -1)
    else if Rleb position 0.0 then (0.0%R, 1)
    else (position, fight_bar_direction b) in
  Some (mk (BattleBox.mk (current_enemy b) (battle_mode b)
              (fight_bar_active b) position
              (BattleBox.show_phase2_message (box b))
              (BattleBox.phase2_message_timer (box b)))
           direction (fight_bar_speed b) (safety_pause_active b)
           (safety_pause_timer b) (warmup_active b) (warmup_timer b)
           (attack_manager b)).

Definition is_mode (v : BattleBox.mode) (b : t) : bool :=
  match battle_mode b, v with
  | BattleBox.Menu, BattleBox.Menu
  | BattleBox.FightAttack, BattleBox.FightAttack
  | BattleBox.SafetyPause, BattleBox.SafetyPause
  | BattleBox.Warmup, BattleBox.Warmup
  | BattleBox.Dodge, BattleBox.Dodge => true
  | _, _ => false
  end.

(** [Battle.update]. *)
Definition update (cfg : Settings) (bs : BattleSettings)
    (player_x player_y : R) (b : t) : Random.M t :=
  let b := tick_phase2_message b in
  if safety_pause_active b then
    let b := mk (box b) (fight_bar_direction b) (fight_bar_speed b) true
                (safety_pause_timer b - 1) (warmup_active b) (warmup_timer b)
                (attack_manager b) in
    if safety_pause_timer b <=? 0 then
      Random.ret
        (_start_warmup bs
           (mk (box b) (fight_bar_direction b) (fight_bar_speed b) false
               (safety_pause_timer b) (warmup_active b) (warmup_timer b)
               (attack_manager b)))
    else Random.ret b
  else if warmup_active b then
    let b := mk (box b) (fight_bar_direction b) (fight_bar_speed b)
                (safety_pause_active b) (safety_pause_timer b) true
                (warmup_timer b - 1) (attack_manager b) in
    if warmup_timer b <=? 0 then
      _start_enemy_attack_after_warmup bs
        (mk (box b) (fight_bar_direction b) (fight_bar_speed b)
            (safety_pause_active b) (safety_pause_timer b) false
            (warmup_timer b) (attack_manager b))
    else Random.ret b
  else if is_mode BattleBox.FightAttack b && fight_bar_active b then
    Random.lift (move_fight_bar b)
  else if is_mode BattleBox.Dodge b then
    m <- Random.lift (bullets_update (attack_manager b)) ;;
    r <- AttackManager.update cfg player_x player_y m ;;
    let b := with_attack_manager (snd r) b in
    Random.ret (if fst r then b else _end_dodge_phase b)
  else Random.ret b.

(** [n] frames of [Battle.update] with the player standing still. *)
Fixpoint updates (cfg : Settings) (bs : BattleSettings)
    (player_x player_y : R) (n : nat) (b : t) : Random.M t :=
  match n with
  | O => Random.ret b
  | S n' =>
      b' <- update cfg bs player_x player_y b ;;
      updates cfg bs player_x player_y n' b'
  end.

(** [Battle.reset]. *)
Definition reset (b : t) : t :=
  let m := AttackManager.reset (AttackManager.empty_group (attack_manager b)) in
  mk (BattleBox.mk (current_enemy b) BattleBox.Menu false
        (fight_bar_position b) false 0)
     (fight_bar_direction b) (fight_bar_speed b) false 0 false 0 m.

(** One turn of the loop over the bullets in [check_collisions]: the
    manager and the player are threaded through. *)
Definition check_bullet (cfg : Settings) (enemy_damage : Z)
    (player_rect : Rect.t) (st : AttackManager.t * Player.t) (k : nat)
  : AttackManager.t * Player.t :=
  let '(m, player) := st in
  match AttackManager.sprites m !! k with
  | Some sp =>
      if Rect.colliderect (sprite_rect sp) player_rect then
        let '(hit, player') := Player.take_damage cfg enemy_damage player in
        if hit then (AttackManager.kill k m, player') else (m, player')
      else (m, player)
  | None => (m, player)
  end.

(** [Battle.check_collisions]. *)
Definition check_collisions (cfg : Settings) (player_rect : Rect.t)
    (player : Player.t) (b : t) : t * Player.t :=
  if negb (is_mode BattleBox.Dodge b) then (b, player)
  else
    match current_enemy b with
    | None => (b, player)
    | Some enemy =>
        let enemy_damage := Enemy.attack_damage enemy in
        let '(m, player) :=
          fold_left (check_bullet cfg enemy_damage player_rect)
                    (AttackManager.bullets_group (attack_manager b))
                    (attack_manager b, player) in
        let player :=
          if AttackManager.check_laser_collision player_rect m
          then snd (Player.take_damage cfg enemy_damage player)
          else player in
        (with_attack_manager m b, player)
    end.

(** The sprite under the key [k] touches the rect. *)
Definition touches (m : AttackManager.t) (player_rect : Rect.t) (k : nat)
  : bool :=
  match AttackManager.sprites m !! k with
  | Some sp => Rect.colliderect (sprite_rect sp) player_rect
  | None => false
  end.


(** The FIGHT mini-game is running, with the bar between its ends, and
    no pause is. *)
Definition bar_ok (b : t) : Prop :=
  battle_mode b = BattleBox.FightAttack
  /\ fight_bar_active b = true
  /\ (0 <= fight_bar_position b <= 1)%R
  /\ (fight_bar_direction b = 1 \/ fight_bar_direction b = -1)
  /\ safety_pause_active b = false
  /\ warmup_active b = false.

End Battle.

(** ** Sample inputs

    Concrete values at which the properties below are evaluated. *)

Definition sample_well : GravityWell.t := GravityWell.init 0 0 0.5 false 180.

(** The arena of the samples. *)
Definition sample_box : Rect.t := Rect.mk 170 140 300 200.

(** A horizontal beam at its construction, and a player box under it. *)
Definition sample_laser : LaserBeam.t :=
  LaserBeam.mk sample_box true 200 LaserBeam.warning 0 30 15 2 30.
Definition sample_player_rect : Rect.t := Rect.mk 300 205 16 16.

(** A projectile at (5, 5) with velocity (0.5, 0.5). *)
Definition sample_projectile : Projectile.t :=
  Projectile.mk Projectile.CircleBullet (Rect.mk 5 5 8 8) 0.5 0.5 None
                Projectile.no_attrs.

(** A blade at (200, 160) at the last frame of its aiming, with the
    player at the same place. *)
Definition sample_blade : HomingBlade.t :=
  HomingBlade.mk 30 (Rect.mk 185 145 30 30) 200 160 sample_box
                 HomingBlade.aiming 59 60 15 200 160 0 0 15.

(** Settings with an attack of 300 frames and a gap of 30. *)
Definition sample_settings : Settings :=
  {| BULLET_BASE_SPEED := 3; BULLET_SPEED_MULT := 1;
     LINE_RAIN_INTERVAL := 30; LINE_RAIN_BULLET_COUNT := 3;
     CIRCLE_BURST_COUNT := 12; CIRCLE_BURST_INTERVAL := 60;
     TARGETING_INTERVAL := 45; TARGETING_BULLETS_PER_SHOT := 2;
     PATTERNS_PER_ROUND := 3; ATTACK_DURATION := 300;
     GAP_BETWEEN_ATTACKS := 30; INVULNERABILITY_TIME := 60;
     PLAYER_ATTACK_DAMAGE := 10; BOSS_PHASE2_THRESHOLD := 0.5 |}.

(** A generator whose draws are 0, 1, 2, ... *)
Definition sample_rng : Random.state := Random.mk (fun i => i) 0.

(** A generator whose draws are all 6: the first pattern it samples
    is the complex [snake_wave]. *)
Definition sample_rng_6 : Random.state := Random.mk (fun _ => 6%nat) 0.

(** A manager in the middle of a round of three patterns; [pattern] and
    [secondary] are the running ones, [timer] the frames of the running
    pattern, [gap] whether it is between two patterns. *)
Definition sample_manager (pattern : string) (secondary : option string)
    (timer : Z) (gap : bool) : AttackManager.t :=
  AttackManager.mk sample_box ∅ 0%nat []
    [pattern; "snake_wave"; "targeting"] 0%nat timer 0 gap true
    (Some pattern) secondary 1.0%R 0 0 [] 0 false [] [] 0%R (0, 0) 0 [] None.

(** An enemy and the battle box at the moment the bar is stopped in the
    middle, and a player. *)
Definition sample_enemy : Enemy.t := Enemy.mk 20 20 2 false 1 false.
Definition sample_battle : BattleBox.t :=
  BattleBox.mk (Some sample_enemy) BattleBox.FightAttack true 0.5 false 0.
Definition sample_player : Player.t := Player.mk 20 20 0.

(** A line of the rain just above the arena, falling three pixels a
    frame. *)
Definition sample_line_bullet : Projectile.t :=
  Projectile.mk Projectile.LineBullet (Rect.mk 200 120 40 6) 0 3 None
                Projectile.no_attrs.

(** A bouncing square flying to the left, two pixels from the left
    wall of the arena, at its last bounce but one. *)
Definition sample_bouncing : BouncingBullet.t :=
  BouncingBullet.mk 20 (Rect.mk 172 200 20 20) (-3) 3 sample_box 4 2.

(** A wave bullet as the snake pattern spawns it. *)
Definition sample_wave : WaveBullet.t :=
  WaveBullet.init 160 150 3 30 (Float64.round 0.1) sample_box.

(** A heart of 10 by 10 pixels that moves 4 pixels a frame, before a
    battle, and the keys of a frame with right and down held. *)
Definition sample_heart : BattlePlayer.t :=
  BattlePlayer.mk sample_player 0 0 10 4 (Rect.mk 0 0 10 10) None [].

Definition sample_keys : BattlePlayer.Keys :=
  {| BattlePlayer.K_w := false; BattlePlayer.K_UP := false;
     BattlePlayer.K_s := false; BattlePlayer.K_DOWN := true;
     BattlePlayer.K_a := false; BattlePlayer.K_LEFT := false;
     BattlePlayer.K_d := true; BattlePlayer.K_RIGHT := false |}.

(** A battle in the dodge mode against the sample enemy, with one line
    of the rain across the sample player's box, and the same battle in
    the menu. *)
Definition sample_dodge : Battle.t :=
  Battle.mk (BattleBox.mk (Some sample_enemy) BattleBox.Dodge false 0 false 0)
    1 0.03 false 0 false 0
    (AttackManager.spawn
       (SProjectile
          (Projectile.mk Projectile.LineBullet (Rect.mk 290 200 40 6) 0 3 None
             Projectile.no_attrs))
       (sample_manager "line_rain" None 5 false)).

Definition sample_menu : Battle.t :=
  Battle.mk (BattleBox.mk (Some sample_enemy) BattleBox.Menu false 0 false 0)
    1 0.03 false 0 false 0 (sample_manager "line_rain" None 5 false).

(** Pauses of 30 and 60 frames; a mob attacks with one pattern. *)
Definition sample_battle_settings : BattleSettings :=
  {| SAFETY_PAUSE_DURATION := 30; WARMUP_DURATION := 60;
     MOB_PATTERNS_PER_ROUND := 1 |}.

(* ================================================================== *)
(** * Part II: properties *)
(* ================================================================== *)

(** ** Numbers *)

Lemma Rltb_true (a b : R) : Rltb a b = true <-> (a < b)%R.
Proof. unfold Rltb. destruct (Rlt_dec a b); split; intros; try done. Qed.

Lemma Rltb_false (a b : R) : Rltb a b = false <-> (b <= a)%R.
Proof.
  unfold Rltb. destruct (Rlt_dec a b); split; intros; try done; lra.
Qed.

Lemma Rleb_true (a b : R) : Rleb a b = true <-> (a <= b)%R.
Proof. unfold Rleb. destruct (Rle_dec a b); split; intros; try done. Qed.

Lemma Rleb_false (a b : R) : Rleb a b = false <-> (b < a)%R.
Proof.
  unfold Rleb. destruct (Rle_dec a b); split; intros; try done; lra.
Qed.

Lemma Reqb_true (a b : R) : Reqb a b = true <-> a = b.
Proof. unfold Reqb. destruct (Req_dec_T a b); split; intros; try done. Qed.

(** Truncation is the identity on integers. *)
Lemma py_int_IZR (z : Z) : py_int (IZR z) = z.
Proof.
  unfold py_int. destruct (Rle_dec 0 (IZR z)) as [H|H].
  - symmetry. apply Int_part_spec. lra.
  - rewrite <- opp_IZR. rewrite <- (Int_part_spec (IZR (- z)) (- z)); [lia|lra].
Qed.

(** Truncating [z + f] for a fraction [0 <= f < 1] and [0 <= z]. *)
Lemma py_int_frac (z : Z) (f : R) :
  0 <= z -> (0 <= f < 1)%R -> py_int (IZR z + f) = z.
Proof.
  intros Hz Hf. unfold py_int.
  assert (0 <= IZR z)%R by (apply IZR_le in Hz; simpl in Hz; lra).
  destruct (Rle_dec 0 (IZR z + f)) as [_|H']; [|lra].
  symmetry. apply Int_part_spec. lra.
Qed.

Lemma sqrt_0_0 : sqrt (0 * 0 + 0 * 0) = 0%R.
Proof. replace (0 * 0 + 0 * 0)%R with 0%R by lra. apply sqrt_0. Qed.

(** The length of a vector scaled by [k]. *)
Lemma sqrt_scaled (k a b : R) :
  sqrt (k * a * (k * a) + k * b * (k * b)) = (Rabs k * sqrt (a * a + b * b))%R.
Proof.
  replace (k * a * (k * a) + k * b * (k * b))%R
    with (Rsqr k * (a * a + b * b))%R by (unfold Rsqr; ring).
  rewrite sqrt_mult_alt by apply Rle_0_sqr.
  now rewrite sqrt_Rsqr_abs.
Qed.

(** ** The generator monad *)

Lemma bind_Some {A B} (m : Random.M A) (k : A -> Random.M B)
    (g g' : Random.state) (b : B) :
  Random.bind m k g = Some (b, g')
  <-> exists a g1, m g = Some (a, g1) /\ k a g1 = Some (b, g').
Proof.
  unfold Random.bind. split.
  - destruct (m g) as [[a g1]|]; [eauto|discriminate].
  - intros (a & g1 & -> & H). exact H.
Qed.

Lemma ret_Some {A} (a b : A) (g g' : Random.state) :
  Random.ret a g = Some (b, g') <-> a = b /\ g = g'.
Proof. unfold Random.ret. split; [intros [= -> ->]|intros [-> ->]]; done. Qed.

Lemma bind_ret_l {A B} (a : A) (k : A -> Random.M B) (g : Random.state) :
  Random.bind (Random.ret a) k g = k a g.
Proof. reflexivity. Qed.

Lemma randbelow_Some (n : nat) (g g' : Random.state) (j : nat) :
  Random.randbelow n g = Some (j, g') -> (j < n)%nat.
Proof.
  destruct n as [|n]; [discriminate|]. unfold Random.randbelow.
  intros H. apply bind_Some in H as (r & g1 & _ & H).
  apply ret_Some in H as [<- _]. apply Nat.mod_upper_bound. lia.
Qed.

Lemma randbelow_total (n : nat) (g : Random.state) :
  (0 < n)%nat -> exists j g', Random.randbelow n g = Some (j, g') /\ (j < n)%nat.
Proof.
  intros Hn. destruct n as [|n]; [lia|].
  eexists _, _. split; [reflexivity|]. apply Nat.mod_upper_bound. lia.
Qed.

Lemma choice_Some {A} (l : list A) (g g' : Random.state) (a : A) :
  Random.choice l g = Some (a, g') -> a ∈ l.
Proof.
  unfold Random.choice. intros H.
  apply bind_Some in H as (i & g1 & _ & H).
  destruct (l !! i) as [b|] eqn:E; [|discriminate].
  apply ret_Some in H as [<- _]. eapply list_elem_of_lookup_2, E.
Qed.

Lemma choice_total {A} (l : list A) (g : Random.state) :
  l <> [] -> exists a g', Random.choice l g = Some (a, g') /\ a ∈ l.
Proof.
  intros Hl.
  destruct (randbelow_total (length l) g) as (i & g1 & Hi & Hlt).
  { destruct l; [done|cbn; lia]. }
  destruct (lookup_lt_is_Some_2 l i Hlt) as [a Ha].
  exists a, g1. split; [|eapply list_elem_of_lookup_2, Ha].
  unfold Random.choice, Random.bind. rewrite Hi, Ha. reflexivity.
Qed.

Lemma random_total (g : Random.state) :
  exists u g', Random.random g = Some (u, g').
Proof. eexists _, _. reflexivity. Qed.

(** One turn of the selection loop takes [a] out of the live part of the
    pool. *)
Lemma pool_step {A} (pool : list A) (m j : nat) (a last : A) :
  (j < m)%nat ->
  pool !! j = Some a -> pool !! (m - 1)%nat = Some last ->
  take m pool ≡ₚ a :: take (m - 1) (<[j := last]> pool).
Proof.
  intros Hj Ha Hlast. destruct m as [|m]; [lia|].
  replace (S m - 1)%nat with m in * by lia.
  rewrite (take_S_r pool m last Hlast).
  destruct (decide (j = m)) as [->|Hne].
  - rewrite take_insert_ge by lia.
    assert (a = last) as -> by congruence.
    symmetry. apply Permutation_cons_append.
  - rewrite take_insert_lt by lia.
    assert (Hl : take m pool !! j = Some a).
    { rewrite lookup_take_lt by lia. exact Ha. }
    assert (Hlen : (j < length (take m pool))%nat).
    { eapply lookup_lt_Some, Hl. }
    rewrite insert_take_drop by exact Hlen.
    rewrite <- (take_drop_middle (take m pool) j a Hl) at 1.
    rewrite <- app_assoc. cbn [app]. rewrite <- !Permutation_middle.
    rewrite app_nil_r. reflexivity.
Qed.

(** The selection loop succeeds and returns [k] distinct entries of the
    live part of the pool. *)
Lemma sample_loop_spec {A} (k : nat) :
  forall (m : nat) (pool : list A) (g : Random.state),
    (k <= m)%nat -> (m <= length pool)%nat -> NoDup (take m pool) ->
    exists res g',
      Random.sample_loop k m pool g = Some (res, g')
      /\ length res = k /\ NoDup res
      /\ forall x, x ∈ res -> x ∈ take m pool.
Proof.
  induction k as [|k IH]; intros m pool g Hk Hm Hnd.
  - exists [], g. repeat split; [constructor|]. intros x Hx. inversion Hx.
  - destruct (randbelow_total m g) as (j & g1 & Hj & Hlt); [lia|].
    destruct (lookup_lt_is_Some_2 pool j) as [a Ha]; [lia|].
    destruct (lookup_lt_is_Some_2 pool (m - 1)) as [last Hlast]; [lia|].
    pose proof (pool_step pool m j a last Hlt Ha Hlast) as Hperm.
    assert (Hnd' : NoDup (a :: take (m - 1) (<[j := last]> pool))).
    { rewrite <- Hperm. exact Hnd. }
    apply NoDup_cons in Hnd' as [Hnotin Hnd'].
    destruct (IH (m - 1)%nat (<[j := last]> pool) g1) as (res & g2 & Hres & Hlen & Hndr & Hsub).
    { lia. } { rewrite length_insert. lia. } { exact Hnd'. }
    exists (a :: res), g2. split; [|split; [|split]].
    + cbn [Random.sample_loop]. unfold Random.bind at 1. rewrite Hj, Ha, Hlast.
      unfold Random.bind. rewrite Hres. reflexivity.
    + cbn. lia.
    + apply NoDup_cons. split; [|exact Hndr]. intros Hin. apply Hnotin, Hsub, Hin.
    + intros x Hx. rewrite Hperm. apply elem_of_cons in Hx as [->|Hx].
      * left.
      * right. apply Hsub, Hx.
Qed.

(** [random.sample] of a duplicate-free population: [k] distinct entries
    of it whenever [0 <= k <= len(population)]. *)
Lemma sample_spec {A} (population : list A) (k : Z) (g : Random.state) :
  NoDup population -> 0 <= k <= Z.of_nat (length population) ->
  exists res g',
    Random.sample population k g = Some (res, g')
    /\ length res = Z.to_nat k /\ NoDup res
    /\ forall x, x ∈ res -> x ∈ population.
Proof.
  intros Hnd Hk. unfold Random.sample.
  destruct (Z.ltb_spec k 0); [lia|].
  destruct (Z.ltb_spec (Z.of_nat (length population)) k); [lia|]. cbn [orb].
  destruct (sample_loop_spec (Z.to_nat k) (length population) population g)
    as (res & g' & H1 & H2 & H3 & H4).
  { lia. } { lia. } { rewrite firstn_all. exact Hnd. }
  exists res, g'. repeat split; try assumption.
  intros x Hx. rewrite <- (firstn_all population). apply H4, Hx.
Qed.

(** ** Rounding *)

Lemma Int_part_spec (x : R) : (IZR (Int_part x) <= x < IZR (Int_part x) + 1)%R.
Proof. destruct (base_Int_part x). lra. Qed.

Lemma Int_part_unique (x : R) (n : Z) :
  (IZR n <= x < IZR n + 1)%R -> Int_part x = n.
Proof.
  intros H. pose proof (Int_part_spec x) as Hx.
  assert (H1 : (IZR (Int_part x) < IZR (n + 1))%R) by (rewrite plus_IZR; lra).
  assert (H2 : (IZR n < IZR (Int_part x + 1))%R) by (rewrite plus_IZR; lra).
  apply lt_IZR in H1, H2. lia.
Qed.

Lemma Int_part_IZR (n : Z) : Int_part (IZR n) = n.
Proof. apply Int_part_unique. lra. Qed.

Lemma Int_part_mono (x y : R) : (x <= y)%R -> Int_part x <= Int_part y.
Proof.
  intros H. pose proof (Int_part_spec x) as Hx.
  pose proof (Int_part_spec y) as Hy.
  assert (H1 : (IZR (Int_part x) < IZR (Int_part y + 1))%R)
    by (rewrite plus_IZR; lra).
  apply lt_IZR in H1. lia.
Qed.

(** The three cases of [rne]. *)
Lemma rne_cases (y : R) :
  let f := Int_part y in
  ((y - IZR f < 1 / 2)%R /\ Float64.rne y = f)
  \/ ((1 / 2 < y - IZR f)%R /\ Float64.rne y = f + 1)
  \/ ((y - IZR f = 1 / 2)%R
      /\ Float64.rne y = if Z.even f then f else f + 1).
Proof.
  cbv zeta. unfold Float64.rne, Rltb.
  destruct (Rlt_dec (y - IZR (Int_part y)) (1 / 2)); [left; auto|].
  destruct (Rlt_dec (1 / 2) (y - IZR (Int_part y))); [right; left; auto|].
  right; right. split; [lra|reflexivity].
Qed.

Lemma rne_bounds (y : R) : Int_part y <= Float64.rne y <= Int_part y + 1.
Proof.
  destruct (rne_cases y) as [[_ ->]|[[_ ->]|[_ ->]]]; try lia.
  destruct (Z.even _); lia.
Qed.

Lemma rne_IZR (n : Z) : Float64.rne (IZR n) = n.
Proof.
  destruct (rne_cases (IZR n)) as [[_ H]|[[H _]|[H _]]];
    rewrite Int_part_IZR in *; [exact H|lra|lra].
Qed.

Lemma rne_eq (y : R) (m : Z) : (Rabs (y - IZR m) < 1 / 2)%R -> Float64.rne y = m.
Proof.
  intros H. apply Rabs_def2 in H as [H1 H2].
  destruct (Rle_dec (IZR m) y) as [Hle|Hgt].
  - assert (Hf : Int_part y = m) by (apply Int_part_unique; lra).
    destruct (rne_cases y) as [[_ E]|[[E _]|[E _]]]; rewrite Hf in *;
      [exact E|lra|lra].
  - assert (Hf : Int_part y = m - 1).
    { apply Int_part_unique. rewrite minus_IZR. lra. }
    destruct (rne_cases y) as [[E _]|[[_ E]|[E _]]]; rewrite Hf in *;
      rewrite ?minus_IZR in *; [lra|rewrite E; lia|lra].
Qed.

Lemma rne_near (y : R) : (Rabs (IZR (Float64.rne y) - y) <= 1 / 2)%R.
Proof.
  pose proof (Int_part_spec y) as Hy.
  destruct (rne_cases y) as [[H ->]|[[H ->]|[H ->]]].
  - apply Rabs_le. lra.
  - rewrite plus_IZR. apply Rabs_le. lra.
  - destruct (Z.even _); rewrite ?plus_IZR; apply Rabs_le; lra.
Qed.

Lemma rne_mono (x y : R) : (x <= y)%R -> Float64.rne x <= Float64.rne y.
Proof.
  intros Hxy. pose proof (Int_part_mono x y Hxy) as Hf.
  pose proof (rne_bounds x) as Hx. pose proof (rne_bounds y) as Hy.
  destruct (Z.eq_dec (Int_part x) (Int_part y)) as [E|E]; [|lia].
  destruct (rne_cases x) as [[Hx1 Ex]|[[Hx1 Ex]|[Hx1 Ex]]];
    destruct (rne_cases y) as [[Hy1 Ey]|[[Hy1 Ey]|[Hy1 Ey]]];
    rewrite Ex, Ey; rewrite E in *; try lia; try lra;
    destruct (Z.even _); lia.
Qed.

Lemma rne_opp (y : R) : Float64.rne (- y) = - Float64.rne y.
Proof.
  pose proof (Int_part_spec y) as Hy.
  destruct (Req_dec_T y (IZR (Int_part y))) as [E|E].
  - clear Hy. revert E. generalize (Int_part y). intros n ->.
    rewrite <- opp_IZR, !rne_IZR. reflexivity.
  - assert (Hf : Int_part (- y) = - Int_part y - 1).
    { apply Int_part_unique. rewrite minus_IZR, opp_IZR. lra. }
    destruct (rne_cases y) as [[H1 E1]|[[H1 E1]|[H1 E1]]];
      destruct (rne_cases (- y)) as [[H2 E2]|[[H2 E2]|[H2 E2]]];
      rewrite Hf in *; rewrite ?minus_IZR, ?opp_IZR in *;
      rewrite E1, E2; try lra; try lia.
    replace (- Int_part y - 1) with (- (Int_part y + 1)) by lia.
    rewrite Z.even_opp, Z.even_add. cbn.
    destruct (Z.even (Int_part y)); cbn; lia.
Qed.

(** Powers of two. *)
Lemma pow2_exp (e : Z) : powerRZ 2 e = exp (IZR e * ln 2).
Proof. rewrite powerRZ_Rpower by lra. reflexivity. Qed.

Lemma pow2_pos (e : Z) : (0 < powerRZ 2 e)%R.
Proof. apply powerRZ_lt. lra. Qed.

Lemma pow2_add (a b : Z) : powerRZ 2 (a + b) = (powerRZ 2 a * powerRZ 2 b)%R.
Proof. apply powerRZ_add. lra. Qed.

Lemma pow2_lt (a b : Z) : a < b -> (powerRZ 2 a < powerRZ 2 b)%R.
Proof.
  intros H. rewrite !pow2_exp. apply exp_increasing.
  apply Rmult_lt_compat_r; [pose proof ln_lt_2; lra|]. apply IZR_lt, H.
Qed.

Lemma pow2_le (a b : Z) : a <= b -> (powerRZ 2 a <= powerRZ 2 b)%R.
Proof.
  intros H. destruct (Z.eq_dec a b) as [->|E]; [lra|].
  apply Rlt_le, pow2_lt. lia.
Qed.

Lemma pow2_lt_inv (a b : Z) : (powerRZ 2 a < powerRZ 2 b)%R -> a < b.
Proof.
  intros H. destruct (Z.lt_ge_cases a b) as [Hlt|Hge]; [exact Hlt|].
  apply pow2_le in Hge. lra.
Qed.

Lemma pow2_IZR (e : Z) : 0 <= e -> powerRZ 2 e = IZR (2 ^ e).
Proof.
  intros H. rewrite <- (Z2Nat.id e H) at 1.
  rewrite <- pow_powerRZ, pow_IZR, Z2Nat.id by exact H. reflexivity.
Qed.

Lemma pow2_opp (e : Z) : (powerRZ 2 (- e) * powerRZ 2 e = 1)%R.
Proof. rewrite <- pow2_add. replace (- e + e) with 0 by lia. reflexivity. Qed.

(** The binary exponent. *)
Lemma mag_spec (x : R) :
  x <> 0%R ->
  (powerRZ 2 (Float64.mag x) <= Rabs x < powerRZ 2 (Float64.mag x + 1))%R.
Proof.
  intros Hx. unfold Float64.mag.
  assert (Hpos : (0 < Rabs x)%R) by (apply Rabs_pos_lt, Hx).
  pose proof ln_lt_2 as H2.
  pose proof (Int_part_spec (ln (Rabs x) / ln 2)) as [Hl Hu].
  set (e := Int_part (ln (Rabs x) / ln 2)) in *.
  assert (Hq : (ln (Rabs x) / ln 2 * ln 2 = ln (Rabs x))%R) by (field; lra).
  rewrite !pow2_exp, plus_IZR.
  split; rewrite <- (exp_ln (Rabs x) Hpos) at 1.
  - assert (H : (IZR e * ln 2 <= ln (Rabs x))%R).
    { rewrite <- Hq. apply Rmult_le_compat_r; lra. }
    destruct H as [H|H]; [apply Rlt_le, exp_increasing, H|rewrite H; lra].
  - apply exp_increasing. rewrite <- Hq. apply Rmult_lt_compat_r; lra.
Qed.

Lemma mag_unique (x : R) (e : Z) :
  (powerRZ 2 e <= Rabs x < powerRZ 2 (e + 1))%R -> Float64.mag x = e.
Proof.
  intros [Hl Hu]. unfold Float64.mag. apply Int_part_unique.
  pose proof ln_lt_2 as H2. pose proof (pow2_pos e) as Hp.
  assert (Hpos : (0 < Rabs x)%R) by lra.
  assert (H1 : (IZR e * ln 2 <= ln (Rabs x))%R).
  { rewrite <- (ln_exp (IZR e * ln 2)), <- pow2_exp.
    destruct Hl as [Hl|Hl]; [apply Rlt_le, ln_increasing; lra|rewrite Hl; lra]. }
  assert (H3 : (ln (Rabs x) < (IZR e + 1) * ln 2)%R).
  { rewrite <- plus_IZR, <- (ln_exp (IZR (e + 1) * ln 2)), <- pow2_exp.
    apply ln_increasing; lra. }
  split.
  - apply Rmult_le_reg_r with (ln 2); [lra|].
    replace (ln (Rabs x) / ln 2 * ln 2)%R with (ln (Rabs x)) by (field; lra).
    exact H1.
  - apply Rmult_lt_reg_r with (ln 2); [lra|].
    replace (ln (Rabs x) / ln 2 * ln 2)%R with (ln (Rabs x)) by (field; lra).
    exact H3.
Qed.

Lemma mag_opp (x : R) : Float64.mag (- x) = Float64.mag x.
Proof. unfold Float64.mag. rewrite Rabs_Ropp. reflexivity. Qed.

Lemma mag_le (x : R) (e : Z) :
  x <> 0%R -> (Rabs x < powerRZ 2 (e + 1))%R -> Float64.mag x <= e.
Proof.
  intros Hx H. pose proof (mag_spec x Hx) as [Hl _].
  assert (Hlt : (powerRZ 2 (Float64.mag x) < powerRZ 2 (e + 1))%R) by lra.
  apply pow2_lt_inv in Hlt. lia.
Qed.

Lemma mag_ge (x : R) (e : Z) :
  (powerRZ 2 e <= Rabs x)%R -> e <= Float64.mag x.
Proof.
  intros H. pose proof (pow2_pos e) as Hp.
  assert (Hx : x <> 0%R) by (intros ->; rewrite Rabs_R0 in H; lra).
  pose proof (mag_spec x Hx) as [_ Hu].
  assert (Hlt : (powerRZ 2 e < powerRZ 2 (Float64.mag x + 1))%R) by lra.
  apply pow2_lt_inv in Hlt. lia.
Qed.

Lemma mag_mono (x y : R) :
  x <> 0%R -> (Rabs x <= Rabs y)%R -> Float64.mag x <= Float64.mag y.
Proof.
  intros Hx H. apply mag_ge. pose proof (mag_spec x Hx). lra.
Qed.

Lemma fexp_mono (a b : Z) : a <= b -> Float64.fexp a <= Float64.fexp b.
Proof. unfold Float64.fexp. lia. Qed.

(** Rounding to binary64. *)
Lemma round_0 : Float64.round 0 = 0%R.
Proof.
  unfold Float64.round, Reqb. destruct (Req_dec_T 0 0); [reflexivity|lra].
Qed.

Lemma round_nonzero (x : R) :
  x <> 0%R ->
  Float64.round x
  = (IZR (Float64.rne (x * powerRZ 2 (- Float64.fexp (Float64.mag x))))
     * powerRZ 2 (Float64.fexp (Float64.mag x)))%R.
Proof.
  intros H. unfold Float64.round, Reqb.
  destruct (Req_dec_T x 0); [contradiction|reflexivity].
Qed.

Lemma round_opp (x : R) : Float64.round (- x) = (- Float64.round x)%R.
Proof.
  destruct (Req_dec_T x 0) as [->|Hx].
  - rewrite Ropp_0, round_0. lra.
  - rewrite !round_nonzero by lra. rewrite mag_opp.
    rewrite Ropp_mult_distr_l_reverse, rne_opp, opp_IZR. lra.
Qed.

(** A number of at most 53 bits, times a power of two that is not below
    the least, is a float. *)
Lemma round_exact (m e : Z) :
  Z.abs m < 2 ^ 53 -> -1074 <= e ->
  Float64.round (IZR m * powerRZ 2 e) = (IZR m * powerRZ 2 e)%R.
Proof.
  intros Hm He. pose proof (pow2_pos e) as Hp.
  destruct (Z.eq_dec m 0) as [->|Hm0].
  { rewrite Rmult_0_l. apply round_0. }
  assert (Hx : (IZR m * powerRZ 2 e)%R <> 0%R).
  { apply Rmult_integral_contrapositive_currified; [|lra].
    intros H. apply eq_IZR in H. contradiction. }
  rewrite round_nonzero by exact Hx.
  set (x := (IZR m * powerRZ 2 e)%R) in *.
  assert (Hg : Float64.mag x <= 52 + e).
  { apply mag_le; [exact Hx|]. subst x.
    rewrite Rabs_mult, (Rabs_pos_eq (powerRZ 2 e)) by lra.
    replace (52 + e + 1) with (53 + e) by lia. rewrite pow2_add.
    apply Rmult_lt_compat_r; [exact Hp|].
    rewrite pow2_IZR by lia. rewrite <- abs_IZR. apply IZR_lt, Hm. }
  set (f := Float64.fexp (Float64.mag x)).
  assert (Hf : f <= e) by (subst f; unfold Float64.fexp; lia).
  assert (Hs : (x * powerRZ 2 (- f))%R = IZR (m * 2 ^ (e - f))).
  { subst x. rewrite mult_IZR, <- pow2_IZR by lia.
    replace (e - f) with (e + - f) by lia. rewrite pow2_add. lra. }
  rewrite Hs, rne_IZR, mult_IZR, <- pow2_IZR by lia.
  subst x. rewrite Rmult_assoc, <- pow2_add. f_equal. f_equal. lia.
Qed.

Lemma round_pow2 (e : Z) :
  -1074 <= e -> Float64.round (powerRZ 2 e) = powerRZ 2 e.
Proof.
  intros He. rewrite <- (Rmult_1_l (powerRZ 2 e)).
  apply (round_exact 1 e); [reflexivity|exact He].
Qed.

Lemma round_IZR (n : Z) :
  Z.abs n <= 2 ^ 53 -> Float64.round (IZR n) = IZR n.
Proof.
  intros Hn. destruct (Z.eq_dec (Z.abs n) (2 ^ 53)) as [E|E].
  - assert (Hn' : n = 2 ^ 52 * 2 \/ n = - 2 ^ 52 * 2) by lia.
    destruct Hn' as [-> | ->]; rewrite mult_IZR;
      replace (IZR 2) with (powerRZ 2 1) by (simpl; lra);
      apply round_exact; try lia; reflexivity.
  - rewrite <- (Rmult_1_r (IZR n)). change 1%R with (powerRZ 2 0).
    apply round_exact; lia.
Qed.

(** The scaled mantissa of a positive number. *)
Lemma round_pos_le (x : R) :
  (0 < x)%R -> (Float64.round x <= powerRZ 2 (Float64.mag x + 1))%R.
Proof.
  intros Hx. assert (Hx0 : x <> 0%R) by lra.
  rewrite round_nonzero by exact Hx0.
  pose proof (mag_spec x Hx0) as [_ Hu]. rewrite Rabs_pos_eq in Hu by lra.
  set (e := Float64.mag x) in *. set (f := Float64.fexp e).
  pose proof (pow2_pos f) as Hpf. pose proof (pow2_pos (- f)) as Hpf'.
  assert (Hs : (x * powerRZ 2 (- f) < powerRZ 2 (e + 1 - f))%R).
  { replace (e + 1 - f) with (e + 1 + - f) by lia. rewrite pow2_add.
    apply Rmult_lt_compat_r; assumption. }
  destruct (Z.le_gt_cases 0 (e + 1 - f)) as [Hk|Hk].
  - rewrite (pow2_IZR (e + 1 - f)) in Hs by exact Hk.
    assert (Hr : Float64.rne (x * powerRZ 2 (- f)) <= 2 ^ (e + 1 - f)).
    { rewrite <- (rne_IZR (2 ^ (e + 1 - f))). apply rne_mono. lra. }
    apply IZR_le in Hr. rewrite <- pow2_IZR in Hr by exact Hk.
    replace (e + 1) with (e + 1 - f + f) by lia. rewrite pow2_add.
    apply Rmult_le_compat_r; lra.
  - assert (Hhalf : (powerRZ 2 (e + 1 - f) <= powerRZ 2 (-1))%R)
      by (apply pow2_le; lia).
    replace (powerRZ 2 (-1)) with (1 / 2)%R in Hhalf by (simpl; lra).
    assert (Hr : Float64.rne (x * powerRZ 2 (- f)) = 0).
    { apply rne_eq. rewrite Rminus_0_r, Rabs_pos_eq; [lra|].
      apply Rmult_le_pos; lra. }
    rewrite Hr, Rmult_0_l. apply Rlt_le, pow2_pos.
Qed.

Lemma round_pos_ge (x : R) :
  (0 < x)%R -> -1022 <= Float64.mag x ->
  (powerRZ 2 (Float64.mag x) <= Float64.round x)%R.
Proof.
  intros Hx He. assert (Hx0 : x <> 0%R) by lra.
  rewrite round_nonzero by exact Hx0.
  pose proof (mag_spec x Hx0) as [Hl _]. rewrite Rabs_pos_eq in Hl by lra.
  set (e := Float64.mag x) in *.
  assert (Hf : Float64.fexp e = e - 52) by (unfold Float64.fexp; lia).
  rewrite Hf. pose proof (pow2_pos (e - 52)) as Hpf.
  pose proof (pow2_pos (- (e - 52))) as Hpf'.
  assert (Hs : (IZR (2 ^ 52) <= x * powerRZ 2 (- (e - 52)))%R).
  { rewrite <- pow2_IZR by lia.
    replace 52 with (e + - (e - 52)) at 1 by lia. rewrite pow2_add.
    apply Rmult_le_compat_r; lra. }
  assert (Hr : 2 ^ 52 <= Float64.rne (x * powerRZ 2 (- (e - 52)))).
  { rewrite <- (rne_IZR (2 ^ 52)). apply rne_mono, Hs. }
  apply IZR_le in Hr. rewrite <- pow2_IZR in Hr by lia.
  replace e with (52 + (e - 52)) at 1 by lia. rewrite pow2_add.
  apply Rmult_le_compat_r; lra.
Qed.

Lemma round_nonneg (x : R) : (0 <= x)%R -> (0 <= Float64.round x)%R.
Proof.
  intros Hx. destruct (Req_dec_T x 0) as [->|Hx0]; [rewrite round_0; lra|].
  rewrite round_nonzero by exact Hx0.
  set (f := Float64.fexp (Float64.mag x)).
  pose proof (pow2_pos f). pose proof (pow2_pos (- f)).
  apply Rmult_le_pos; [|lra]. apply IZR_le.
  rewrite <- (rne_IZR 0). apply rne_mono. apply Rmult_le_pos; lra.
Qed.

Lemma round_mono_pos (x y : R) :
  (0 < x <= y)%R -> (Float64.round x <= Float64.round y)%R.
Proof.
  intros [Hx Hxy]. assert (Hx0 : x <> 0%R) by lra.
  assert (Hy0 : y <> 0%R) by lra.
  assert (He : Float64.mag x <= Float64.mag y).
  { apply mag_mono; [exact Hx0|]. rewrite !Rabs_pos_eq by lra. exact Hxy. }
  pose proof (fexp_mono _ _ He) as Hf.
  destruct (Z.eq_dec (Float64.fexp (Float64.mag x))
                     (Float64.fexp (Float64.mag y))) as [E|E].
  - rewrite !round_nonzero by assumption. rewrite E.
    set (f := Float64.fexp (Float64.mag y)).
    pose proof (pow2_pos f). pose proof (pow2_pos (- f)).
    apply Rmult_le_compat_r; [lra|]. apply IZR_le, rne_mono.
    apply Rmult_le_compat_r; lra.
  - assert (Hlt : Float64.mag x + 1 <= Float64.mag y)
      by (unfold Float64.fexp in *; lia).
    assert (Hn : -1022 <= Float64.mag y) by (unfold Float64.fexp in *; lia).
    pose proof (round_pos_le x Hx) as H1.
    pose proof (round_pos_ge y ltac:(lra) Hn) as H2.
    pose proof (pow2_le _ _ Hlt). lra.
Qed.

Lemma round_mono (x y : R) :
  (x <= y)%R -> (Float64.round x <= Float64.round y)%R.
Proof.
  intros Hxy. destruct (Rlt_dec 0 x) as [Hx|Hx].
  - apply round_mono_pos. lra.
  - destruct (Rle_dec 0 y) as [Hy|Hy].
    + pose proof (round_nonneg y Hy).
      pose proof (round_nonneg (- x) ltac:(lra)) as H1.
      rewrite round_opp in H1. lra.
    + pose proof (round_mono_pos (- y) (- x) ltac:(lra)) as H1.
      rewrite !round_opp in H1. lra.
Qed.

Lemma round_abs (x : R) : Float64.round (Rabs x) = Rabs (Float64.round x).
Proof.
  destruct (Rle_dec 0 x) as [Hx|Hx].
  - rewrite !Rabs_pos_eq; [reflexivity|apply round_nonneg, Hx|exact Hx].
  - rewrite (Rabs_left x) by lra. rewrite round_opp.
    pose proof (round_nonneg (- x) ltac:(lra)) as H. rewrite round_opp in H.
    rewrite Rabs_left1 by lra. reflexivity.
Qed.

(** The error of a rounding is at most half the last bit. *)
Lemma round_error (x : R) :
  (Rabs (Float64.round x - x)
   <= powerRZ 2 (Float64.fexp (Float64.mag x)) / 2)%R.
Proof.
  set (f := Float64.fexp (Float64.mag x)).
  pose proof (pow2_pos f) as Hp.
  destruct (Req_dec_T x 0) as [->|Hx].
  { rewrite round_0, Rminus_0_r, Rabs_R0. lra. }
  rewrite round_nonzero by exact Hx. fold f.
  pose proof (rne_near (x * powerRZ 2 (- f))) as Hn.
  pose proof (pow2_opp f) as Ho.
  replace (IZR (Float64.rne (x * powerRZ 2 (- f))) * powerRZ 2 f - x)%R
    with ((IZR (Float64.rne (x * powerRZ 2 (- f))) - x * powerRZ 2 (- f))
          * powerRZ 2 f)%R.
  2:{ rewrite Rmult_minus_distr_r, Rmult_assoc, Ho. lra. }
  rewrite Rabs_mult, (Rabs_pos_eq (powerRZ 2 f)) by lra.
  apply Rle_trans with (1 / 2 * powerRZ 2 f)%R; [|lra].
  apply Rmult_le_compat_r; lra.
Qed.

Lemma round_error_le (x : R) (k : Z) :
  (Rabs x <= powerRZ 2 k)%R -> -1074 <= k - 53 ->
  (Rabs (Float64.round x - x) <= powerRZ 2 (k - 54))%R.
Proof.
  intros Hx Hk. destruct (Req_dec_T (Rabs x) (powerRZ 2 k)) as [E|E].
  - assert (Hr : Float64.round x = x).
    { destruct (Rle_dec 0 x) as [H0|H0].
      - rewrite Rabs_pos_eq in E by exact H0. rewrite E.
        apply round_pow2. lia.
      - rewrite Rabs_left in E by lra.
        replace x with (- powerRZ 2 k)%R by lra.
        rewrite round_opp, round_pow2 by lia. reflexivity. }
    rewrite Hr, Rminus_diag, Rabs_R0. apply Rlt_le, pow2_pos.
  - destruct (Req_dec_T x 0) as [->|Hx0].
    { rewrite round_0, Rminus_0_r, Rabs_R0. apply Rlt_le, pow2_pos. }
    assert (Hm : Float64.mag x <= k - 1).
    { apply mag_le; [exact Hx0|]. replace (k - 1 + 1) with k by lia. lra. }
    pose proof (round_error x) as He.
    assert (Hf : Float64.fexp (Float64.mag x) <= k - 53)
      by (unfold Float64.fexp; lia).
    apply pow2_le in Hf.
    replace (k - 53) with (k - 54 + 1) in Hf by lia.
    rewrite pow2_add in Hf.
    replace (powerRZ 2 1) with 2%R in Hf by (simpl; lra). lra.
Qed.

(** The value of a rounding, from the binade of the number and the
    integer nearest to its scaled mantissa. *)
Lemma round_eq (x : R) (e m : Z) :
  (powerRZ 2 (e + 52) <= Rabs x < powerRZ 2 (e + 53))%R -> -1074 <= e ->
  (Rabs (x * powerRZ 2 (- e) - IZR m) < 1 / 2)%R ->
  Float64.round x = (IZR m * powerRZ 2 e)%R.
Proof.
  intros Hx He Hm. pose proof (pow2_pos (e + 52)) as Hp.
  assert (Hx0 : x <> 0%R).
  { intros ->. rewrite Rabs_R0 in Hx. lra. }
  assert (Hg : Float64.mag x = e + 52).
  { apply mag_unique. replace (e + 52 + 1) with (e + 53) by lia. exact Hx. }
  rewrite round_nonzero by exact Hx0. rewrite Hg.
  assert (Hf : Float64.fexp (e + 52) = e) by (unfold Float64.fexp; lia).
  rewrite Hf, (rne_eq _ m Hm). reflexivity.
Qed.

(** A number just below a whole number that binary64 holds rounds up to
    it. *)
Lemma round_reaches (n : Z) (z : R) :
  1 <= n <= 2 ^ 53 ->
  (IZR n * (1 - powerRZ 2 (-54)) < z)%R ->
  (IZR n <= Float64.round z)%R.
Proof.
  intros Hn Hz.
  destruct (Rle_dec (IZR n) z) as [Hle|Hgt].
  { rewrite <- (round_IZR n) by lia. apply round_mono, Hle. }
  assert (Hzn : (z < IZR n)%R) by lra. clear Hgt.
  assert (Hn1 : (1 <= IZR n)%R) by (apply IZR_le; lia).
  assert (Hn53 : (IZR n <= powerRZ 2 53)%R).
  { rewrite pow2_IZR by lia. apply IZR_le. lia. }
  assert (Hn0 : IZR n <> 0%R) by lra.
  pose proof (mag_spec (IZR n) Hn0) as [Hgl Hgu].
  rewrite Rabs_pos_eq in Hgl, Hgu by lra.
  set (g := Float64.mag (IZR n)) in *.
  assert (Hg0 : 0 <= g).
  { apply mag_ge. rewrite Rabs_pos_eq by lra. exact Hn1. }
  assert (Hg53 : g <= 53).
  { apply mag_le; [exact Hn0|]. rewrite Rabs_pos_eq by lra.
    pose proof (pow2_lt 53 (53 + 1) ltac:(lia)). lra. }
  pose proof (pow2_pos (-54)) as Hp54.
  assert (H54 : (powerRZ 2 53 * powerRZ 2 (-54) = 1 / 2)%R).
  { rewrite <- pow2_add. simpl. lra. }
  assert (Heps : (IZR n * powerRZ 2 (-54) <= 1 / 2)%R).
  { rewrite <- H54. apply Rmult_le_compat_r; lra. }
  assert (Hzpos : (0 < z)%R) by nra.
  destruct (Rle_dec (powerRZ 2 g) z) as [HA|HB].
  - (* same binade as [n] *)
    assert (Hg52 : g <= 52).
    { destruct (Z.eq_dec g 53) as [E|E]; [|lia].
      rewrite E in HA. lra. }
    pose proof (pow2_pos (52 - g)) as Hps.
    assert (Hk : (IZR (n * 2 ^ (52 - g)) = IZR n * powerRZ 2 (52 - g))%R).
    { rewrite mult_IZR, <- pow2_IZR by lia. reflexivity. }
    assert (Hsc : (powerRZ 2 (52 - g) <= powerRZ 2 52)%R)
      by (apply pow2_le; lia).
    assert (H52 : (powerRZ 2 52 * powerRZ 2 (-54) = 1 / 4)%R).
    { rewrite <- pow2_add. simpl. lra. }
    rewrite (round_eq z (g - 52) (n * 2 ^ (52 - g))).
    + rewrite Hk, Rmult_assoc, <- pow2_add.
      replace (52 - g + (g - 52)) with 0 by lia. simpl. lra.
    + replace (g - 52 + 52) with g by lia.
      replace (g - 52 + 53) with (g + 1) by lia.
      rewrite Rabs_pos_eq by lra. lra.
    + lia.
    + replace (- (g - 52)) with (52 - g) by lia. rewrite Hk.
      rewrite <- Rmult_minus_distr_r, Rabs_mult.
      rewrite (Rabs_pos_eq (powerRZ 2 (52 - g))) by lra.
      rewrite Rabs_left by lra.
      assert (Hd : (- (z - IZR n) < IZR n * powerRZ 2 (-54))%R) by lra.
      assert (Hd0 : (0 < - (z - IZR n))%R) by lra.
      assert (Hb : (IZR n * powerRZ 2 (-54) * powerRZ 2 (52 - g) < 1 / 2)%R).
      { destruct (Z.eq_dec g 0) as [E0|E0].
        - assert (Hn2 : (IZR n < 2)%R).
          { rewrite E0 in Hgu. simpl in Hgu. lra. }
          rewrite E0. replace (52 - 0) with 52 by lia.
          rewrite Rmult_assoc, (Rmult_comm (powerRZ 2 (-54))), H52. lra.
        - assert (Hs2 : (powerRZ 2 (52 - g) <= powerRZ 2 51)%R)
            by (apply pow2_le; lia).
          assert (H51 : (powerRZ 2 51 * powerRZ 2 (-54) = 1 / 8)%R).
          { rewrite <- pow2_add. simpl. lra. }
          assert (Hng : (IZR n * powerRZ 2 (52 - g) < powerRZ 2 53)%R).
          { replace 53 with (g + 1 + (52 - g)) by lia. rewrite pow2_add.
            apply Rmult_lt_compat_r; lra. }
          rewrite Rmult_assoc, (Rmult_comm (powerRZ 2 (-54))), <- Rmult_assoc.
          apply Rlt_le_trans with (powerRZ 2 53 * powerRZ 2 (-54))%R; [|lra].
          apply Rmult_lt_compat_r; lra. }
      apply Rle_lt_trans
        with (IZR n * powerRZ 2 (-54) * powerRZ 2 (52 - g))%R; [|exact Hb].
      apply Rmult_le_compat_r; lra.
  - (* [n] is a power of two and [z] lies in the binade below *)
    assert (HB' : (z < powerRZ 2 g)%R) by lra. clear HB.
    assert (Hg2 : (powerRZ 2 g <= powerRZ 2 53)%R) by (apply pow2_le; lia).
    assert (Hpg : (powerRZ 2 g = IZR (2 ^ g))%R) by (apply pow2_IZR; lia).
    assert (Hnp : n = 2 ^ g).
    { assert (Hlt : (IZR n < IZR (2 ^ g + 1))%R).
      { rewrite plus_IZR, <- Hpg. nra. }
      apply lt_IZR in Hlt. rewrite Hpg in Hgl. apply le_IZR in Hgl. lia. }
    assert (Hnr : IZR n = powerRZ 2 g) by (rewrite Hnp; symmetry; exact Hpg).
    rewrite Hnr in *.
    pose proof (pow2_pos (53 - g)) as Hps.
    assert (Hhalf : (powerRZ 2 g = 2 * powerRZ 2 (g - 1))%R).
    { replace g with (1 + (g - 1)) at 1 by lia. rewrite pow2_add.
      simpl. lra. }
    pose proof (pow2_pos (g - 1)) as Hpg1.
    pose proof (pow2_pos g) as Hpg0.
    rewrite (round_eq z (g - 53) (2 ^ 53)).
    + rewrite <- pow2_IZR, <- pow2_add by lia.
      replace (53 + (g - 53)) with g by lia. lra.
    + replace (g - 53 + 52) with (g - 1) by lia.
      replace (g - 53 + 53) with g by lia.
      rewrite Rabs_pos_eq by lra. split; [|exact HB']. nra.
    + lia.
    + replace (- (g - 53)) with (53 - g) by lia.
      rewrite <- pow2_IZR by lia.
      replace 53 with (g + (53 - g)) at 2 by lia. rewrite pow2_add.
      rewrite <- Rmult_minus_distr_r, Rabs_mult.
      rewrite (Rabs_pos_eq (powerRZ 2 (53 - g))) by lra.
      rewrite Rabs_left by lra.
      assert (Hd : (- (z - powerRZ 2 g) < powerRZ 2 g * powerRZ 2 (-54))%R)
        by lra.
      assert (Hd0 : (0 < - (z - powerRZ 2 g))%R) by lra.
      assert (Hb : (powerRZ 2 g * powerRZ 2 (-54) * powerRZ 2 (53 - g)
                    = 1 / 2)%R).
      { rewrite <- !pow2_add. replace (g + -54 + (53 - g)) with (-1) by lia.
        simpl. lra. }
      rewrite <- Hb. apply Rmult_lt_compat_r; lra.
Qed.

(** Results that are not infinite. *)
Lemma huge_ge : (powerRZ 2 1023 <= Float64.huge)%R.
Proof.
  unfold Float64.huge.
  replace 1024 with (1 + 1023) by lia. rewrite pow2_add.
  pose proof (pow2_le 970 1023 ltac:(lia)).
  replace (powerRZ 2 1) with 2%R by (simpl; lra). lra.
Qed.

Lemma overflow_false (x : R) (k : Z) :
  (Rabs x <= powerRZ 2 k)%R -> k < 1023 -> Float64.overflow x = false.
Proof.
  intros Hx Hk. unfold Float64.overflow, Rleb.
  destruct (Rle_dec _ _) as [H|H]; [|reflexivity].
  pose proof huge_ge. pose proof (pow2_lt k 1023 Hk). lra.
Qed.

Lemma finite_Some (x : R) (k : Z) :
  (Rabs x <= powerRZ 2 k)%R -> k < 1023 ->
  Float64.finite x = Some (Float64.round x).
Proof.
  intros Hx Hk. unfold Float64.finite.
  rewrite (overflow_false x k Hx Hk). reflexivity.
Qed.

Lemma of_int_exact (n : Z) :
  Z.abs n <= 2 ^ 53 -> Float64.of_int n = Some (IZR n).
Proof.
  intros Hn. unfold Float64.of_int.
  rewrite (finite_Some _ 53), round_IZR by
    (try lia; try exact Hn; rewrite pow2_IZR by lia; rewrite <- abs_IZR;
     apply IZR_le, Hn).
  reflexivity.
Qed.

(** ** The FIGHT mini-game *)

(** The floats that [0.8] and [0.6] denote. *)
Lemma round_0_8 :
  Float64.round 0.8 = (IZR 7205759403792794 * powerRZ 2 (-53))%R.
Proof.
  apply round_eq; [|lia|].
  - rewrite Rabs_pos_eq by lra. simpl. lra.
  - apply Rabs_def1; simpl; lra.
Qed.

Lemma round_0_6 :
  Float64.round 0.6 = (IZR 5404319552844595 * powerRZ 2 (-53))%R.
Proof.
  apply round_eq; [|lia|].
  - rewrite Rabs_pos_eq by lra. simpl. lra.
  - apply Rabs_def1; simpl; lra.
Qed.

Lemma round_half : Float64.round 0.5 = 0.5%R.
Proof.
  replace 0.5%R with (IZR 1 * powerRZ 2 (-1))%R by (simpl; lra).
  apply round_exact; [reflexivity|lia].
Qed.

Lemma round_1 : Float64.round 1 = 1%R.
Proof. apply (round_IZR 1). cbn. lia. Qed.

Lemma round_0_8_bounds : (0 <= Float64.round 0.8 <= 1)%R.
Proof.
  split.
  - apply round_nonneg. lra.
  - rewrite <- round_1. apply round_mono. lra.
Qed.

(** The distance from the centre, as the code has it. *)
Lemma distance_from_center_le (p : R) :
  (0 <= p <= 1)%R -> (Rabs (Float64.round (p - 0.5)) <= 0.5)%R.
Proof.
  intros Hp. apply Rabs_le. split.
  - apply Rle_trans with (Float64.round (Ropp 0.5)).
    + rewrite round_opp, round_half. lra.
    + apply round_mono. lra.
  - apply Rle_trans with (Float64.round 0.5).
    + apply round_mono. lra.
    + rewrite round_half. lra.
Qed.

Lemma damage_multiplier_center : BattleBox.damage_multiplier 0.5 = 1.0%R.
Proof.
  unfold BattleBox.damage_multiplier.
  replace (0.5 - 0.5)%R with 0%R by lra.
  rewrite round_0, Rabs_R0, Rmult_0_l, round_0.
  replace (1.0 - 0)%R with 1%R by lra. rewrite round_1. lra.
Qed.

(** At both ends of the bar the distance is [0.5] and every operation
    is exact but the reading of [0.8]. *)
Lemma damage_multiplier_end :
  Float64.round (1.0 - Float64.round (0.5 * Float64.round 0.8))
  = Float64.round 0.6.
Proof.
  rewrite round_0_8, round_0_6.
  replace (0.5 * (IZR 7205759403792794 * powerRZ 2 (-53)))%R
    with (IZR 7205759403792794 * powerRZ 2 (-54))%R by (simpl; lra).
  rewrite round_exact by (try reflexivity; lia).
  replace (1.0 - IZR 7205759403792794 * powerRZ 2 (-54))%R
    with (IZR 5404319552844595 * powerRZ 2 (-53))%R by (simpl; lra).
  apply round_exact; [reflexivity|lia].
Qed.

Lemma damage_multiplier_left :
  BattleBox.damage_multiplier 0.0 = Float64.round 0.6.
Proof.
  unfold BattleBox.damage_multiplier.
  replace (0.0 - 0.5)%R with (Ropp 0.5) by lra.
  rewrite round_opp, round_half, Rabs_Ropp, Rabs_pos_eq by lra.
  apply damage_multiplier_end.
Qed.

Lemma damage_multiplier_right :
  BattleBox.damage_multiplier 1.0 = Float64.round 0.6.
Proof.
  unfold BattleBox.damage_multiplier.
  replace (1.0 - 0.5)%R with 0.5%R by lra.
  rewrite round_half, Rabs_pos_eq by lra.
  apply damage_multiplier_end.
Qed.

Lemma damage_multiplier_monotone (p q : R) :
  (Rabs (p - 0.5) <= Rabs (q - 0.5))%R ->
  (BattleBox.damage_multiplier q <= BattleBox.damage_multiplier p)%R.
Proof.
  intros H. unfold BattleBox.damage_multiplier.
  pose proof round_0_8_bounds as [H8 _].
  apply round_mono. apply Rplus_le_compat_l, Ropp_le_contravar.
  apply round_mono. apply Rmult_le_compat_r; [exact H8|].
  rewrite <- !round_abs. apply round_mono, H.
Qed.

Lemma damage_multiplier_range (p : R) :
  (0 <= p <= 1)%R ->
  (Float64.round 0.6 <= BattleBox.damage_multiplier p <= 1)%R.
Proof.
  intros Hp. split.
  - rewrite <- damage_multiplier_left. apply damage_multiplier_monotone.
    replace (0.0 - 0.5)%R with (Ropp 0.5) by lra.
    rewrite Rabs_Ropp, (Rabs_pos_eq 0.5) by lra. apply Rabs_le. lra.
  - apply Rle_trans with (BattleBox.damage_multiplier 0.5).
    + apply damage_multiplier_monotone.
      replace (0.5 - 0.5)%R with 0%R by lra. rewrite Rabs_R0. apply Rabs_pos.
    + rewrite damage_multiplier_center. lra.
Qed.

Lemma Rabs_bound (x y : R) : (Rabs x <= y)%R -> (- y <= x <= y)%R.
Proof. unfold Rabs. destruct (Rcase_abs x); lra. Qed.

(** The float [0.6] is the real [0.6] to the last bit. *)
Lemma round_0_6_near : (Rabs (Float64.round 0.6 - 0.6) <= powerRZ 2 (-54))%R.
Proof.
  apply (round_error_le 0.6 0); [|lia].
  rewrite Rabs_pos_eq by lra. simpl. lra.
Qed.

(** The multiplier the code computes is the multiplier of the formula,
    to the last bit but one. *)
Lemma damage_multiplier_near (p : R) :
  (0 <= p <= 1)%R ->
  (Rabs (BattleBox.damage_multiplier p - (1.0 - 0.8 * Rabs (p - 0.5)))
   <= powerRZ 2 (-52))%R.
Proof.
  intros Hp. unfold BattleBox.damage_multiplier.
  pose proof (distance_from_center_le p Hp) as Ht2.
  pose proof round_0_8_bounds as [Hc0 Hc1].
  set (t1 := Float64.round (p - 0.5)) in *.
  set (c8 := Float64.round 0.8) in *.
  assert (Ht2' : (0 <= Rabs t1)%R) by apply Rabs_pos.
  assert (E1 : (Rabs (t1 - (p - 0.5)) <= powerRZ 2 (-55))%R).
  { apply (round_error_le (p - 0.5) (-1)); [|lia].
    replace (powerRZ 2 (-1)) with 0.5%R by (simpl; lra).
    apply Rabs_le. lra. }
  assert (E1' : (Rabs (Rabs t1 - Rabs (p - 0.5)) <= powerRZ 2 (-55))%R).
  { eapply Rle_trans; [apply Rabs_triang_inv2|exact E1]. }
  assert (E8 : (Rabs (c8 - 0.8) <= powerRZ 2 (-54))%R).
  { apply (round_error_le 0.8 0); [|lia].
    rewrite Rabs_pos_eq by lra. simpl. lra. }
  assert (Hprod : (0 <= Rabs t1 * c8 <= 0.5)%R) by nra.
  set (t3 := Float64.round (Rabs t1 * c8)).
  assert (E3 : (Rabs (t3 - Rabs t1 * c8) <= powerRZ 2 (-55))%R).
  { apply (round_error_le _ (-1)); [|lia].
    replace (powerRZ 2 (-1)) with 0.5%R by (simpl; lra).
    apply Rabs_le. lra. }
  assert (Ht3 : (0 <= t3 <= 0.5)%R).
  { split.
    - apply round_nonneg. lra.
    - rewrite <- round_half. apply round_mono. lra. }
  assert (E4 : (Rabs (Float64.round (1.0 - t3) - (1.0 - t3))
                <= powerRZ 2 (-54))%R).
  { apply (round_error_le _ 0); [|lia]. simpl. apply Rabs_le. lra. }
  set (m := Float64.round (1.0 - t3)) in *.
  set (d := Rabs (p - 0.5)) in *.
  assert (Hd : (0 <= d <= 0.5)%R).
  { split; [apply Rabs_pos|]. apply Rabs_le. lra. }
  apply Rabs_bound in E1', E8, E3, E4.
  replace (powerRZ 2 (-55)) with (/ 36028797018963968)%R in * by (simpl; lra).
  replace (powerRZ 2 (-54)) with (/ 18014398509481984)%R in * by (simpl; lra).
  replace (powerRZ 2 (-52)) with (/ 4503599627370496)%R by (simpl; lra).
  apply Rabs_le.
  assert (Hx : (- / 18014398509481984 * Rabs t1 <= Rabs t1 * (c8 - 0.8)
                <= / 18014398509481984 * Rabs t1)%R) by nra.
  lra.
Qed.

(** Just below the centre the multiplier is [1.0] already: the last
    subtraction rounds up. *)
Lemma damage_multiplier_below_center :
  BattleBox.damage_multiplier (0.5 - powerRZ 2 (-54)) = 1%R.
Proof.
  unfold BattleBox.damage_multiplier.
  replace (0.5 - powerRZ 2 (-54) - 0.5)%R
    with (- (IZR 1 * powerRZ 2 (-54)))%R by lra.
  rewrite round_opp, round_exact by (try reflexivity; lia).
  pose proof (pow2_pos (-54)).
  rewrite Rabs_Ropp, Rabs_pos_eq by lra.
  rewrite round_0_8.
  replace (IZR 1 * powerRZ 2 (-54)
           * (IZR 7205759403792794 * powerRZ 2 (-53)))%R
    with (IZR 7205759403792794 * powerRZ 2 (-107))%R.
  2:{ replace (-107) with (-54 + -53) by lia. rewrite pow2_add. lra. }
  rewrite round_exact by (try reflexivity; lia).
  rewrite (round_eq _ (-53) (2 ^ 53)).
  - rewrite <- pow2_IZR, <- pow2_add by lia. reflexivity.
  - assert (H107 : (0 < powerRZ 2 (-107) <= powerRZ 2 (-54))%R).
    { split; [apply pow2_pos|apply pow2_le; lia]. }
    replace (-53 + 52) with (-1) by lia. replace (-53 + 53) with 0 by lia.
    rewrite Rabs_pos_eq; simpl (powerRZ 2 (-1)); simpl (powerRZ 2 0);
      simpl (powerRZ 2 (-54)) in *; nra.
  - lia.
  - replace (- -53) with 53 by lia.
    rewrite Rmult_minus_distr_r, Rmult_assoc, <- pow2_add.
    replace (-107 + 53) with (-54) by lia.
    rewrite <- pow2_IZR by lia.
    apply Rabs_def1; simpl; lra.
Qed.

(** What [_process_fight_attack] does with an enemy present and an
    attack constant that binary64 holds exactly: the damage is the
    truncated product, rounded, of the constant and the multiplier, and
    the enemy loses that many hit points (not below zero). *)
Lemma process_fight_attack_damage (cfg : Settings) (b : BattleBox.t)
    (e : Enemy.t) :
  BattleBox.current_enemy b = Some e ->
  Z.abs (PLAYER_ATTACK_DAMAGE cfg) <= 2 ^ 53 ->
  (0 <= BattleBox.fight_bar_position b <= 1)%R ->
  let d := py_int (Float64.round
                     (IZR (PLAYER_ATTACK_DAMAGE cfg)
                      * BattleBox.damage_multiplier
                          (BattleBox.fight_bar_position b))) in
  exists o e' b',
    BattleBox._process_fight_attack cfg b = Some (Some o, b')
    /\ BattleBox.outcome_damage o = d
    /\ BattleBox.current_enemy b' = Some e'
    /\ Enemy.hp e' = Z.max 0 (Enemy.hp e - d)
    /\ BattleBox.battle_mode b' = BattleBox.Menu.
Proof.
  intros He HA Hp d. unfold BattleBox._process_fight_attack. rewrite He.
  pose proof (damage_multiplier_range _ Hp) as [Hm0 Hm1].
  pose proof (round_nonneg 0.6 ltac:(lra)) as H6.
  set (m := BattleBox.damage_multiplier (BattleBox.fight_bar_position b)) in *.
  assert (Hprod : (Rabs (IZR (PLAYER_ATTACK_DAMAGE cfg) * m)
                   <= powerRZ 2 53)%R).
  { rewrite Rabs_mult, (Rabs_pos_eq m) by lra.
    rewrite pow2_IZR by lia. rewrite <- abs_IZR.
    apply IZR_le in HA. pose proof (Rabs_pos (IZR (PLAYER_ATTACK_DAMAGE cfg))).
    rewrite <- abs_IZR in *. nra. }
  unfold Float64.int_mul. rewrite (of_int_exact _ HA).
  unfold Float64.to_int. rewrite (finite_Some _ 53 Hprod) by lia. fold d.
  unfold Enemy.take_damage. cbn [Enemy.is_boss Enemy.phase Enemy.max_hp].
  destruct (Enemy.is_boss e && (Enemy.phase e =? 1)) eqn:Hb;
    [destruct (Rleb _ _) eqn:Hr|]; cbn;
    repeat match goal with
           | |- context [if ?c then _ else _] => destruct c eqn:?
           end; cbn; eauto 10.
Qed.

(** At the float just below the centre of the bar the full damage is
    dealt. *)
Lemma fight_attack_below_center (cfg : Settings) (b : BattleBox.t)
    (e : Enemy.t) :
  BattleBox.current_enemy b = Some e ->
  BattleBox.fight_bar_position b = (0.5 - powerRZ 2 (-54))%R ->
  PLAYER_ATTACK_DAMAGE cfg = 10 ->
  exists o b',
    BattleBox._process_fight_attack cfg b = Some (Some o, b')
    /\ BattleBox.outcome_damage o = 10.
Proof.
  intros He Hp HA.
  destruct (process_fight_attack_damage cfg b e He) as (o & e' & b' & H & Hd & _).
  - rewrite HA. cbn. lia.
  - rewrite Hp. simpl. lra.
  - exists o, b'. split; [exact H|]. rewrite Hd, Hp, HA.
    rewrite damage_multiplier_below_center, Rmult_1_r.
    rewrite (round_IZR 10) by (cbn; lia). apply py_int_IZR.
Qed.

(** C4, as amended. For every fight-bar position [p] of [[0, 1]] the FIGHT
    mini-game applies the damage multiplier [1 - 0.8 * |p - 0.5|] as
    binary64 computes it, within [2 ^ -52] of the exact value: with an
    attack constant that binary64 holds exactly, the damage dealt is the
    constant times that multiplier, rounded and truncated. At [p = 0.5] the
    multiplier is [1.0]; at [p = 0.0] and at [p = 1.0] it is the float
    [0.6], its minimum on [[0, 1]]; and it does not grow as [|p - 0.5|]
    grows. *)
Theorem C4_fight_multiplier (cfg : Settings) (b : BattleBox.t) (e : Enemy.t)
    (p : R) :
  BattleBox.current_enemy b = Some e ->
  BattleBox.fight_bar_position b = p ->
  (0 <= p <= 1)%R ->
  Z.abs (PLAYER_ATTACK_DAMAGE cfg) <= 2 ^ 53 ->
  (exists o e' b',
      BattleBox._process_fight_attack cfg b = Some (Some o, b')
      /\ BattleBox.outcome_damage o
         = py_int (Float64.round (IZR (PLAYER_ATTACK_DAMAGE cfg)
                                  * BattleBox.damage_multiplier p))
      /\ BattleBox.current_enemy b' = Some e'
      /\ Enemy.hp e' = Z.max 0 (Enemy.hp e - BattleBox.outcome_damage o))
  /\ BattleBox.damage_multiplier p
     = Float64.round
         (1.0 - Float64.round (Rabs (Float64.round (p - 0.5))
                               * Float64.round 0.8))
  /\ (Rabs (BattleBox.damage_multiplier p - (1.0 - 0.8 * Rabs (p - 0.5)))
      <= powerRZ 2 (-52))%R
  /\ BattleBox.damage_multiplier 0.5 = 1.0%R
  /\ BattleBox.damage_multiplier 0.0 = Float64.round 0.6
  /\ BattleBox.damage_multiplier 1.0 = Float64.round 0.6
  /\ (Rabs (Float64.round 0.6 - 0.6) <= powerRZ 2 (-54))%R
  /\ (Float64.round 0.6 <= BattleBox.damage_multiplier p <= 1.0)%R
  /\ (forall q : R, (Rabs (p - 0.5) <= Rabs (q - 0.5))%R ->
        (BattleBox.damage_multiplier q <= BattleBox.damage_multiplier p)%R).
Proof.
  intros He Hp Hr HA.
  destruct (process_fight_attack_damage cfg b e He HA)
    as (o & e' & b' & H1 & H2 & H3 & H4 & _).
  { rewrite Hp. exact Hr. }
  rewrite Hp in H2, H4.
  split.
  { exists o, e', b'. repeat split; try assumption.
    rewrite H4, H2. reflexivity. }
  split. { reflexivity. }
  split. { apply damage_multiplier_near, Hr. }
  split. { apply damage_multiplier_center. }
  split. { apply damage_multiplier_left. }
  split. { apply damage_multiplier_right. }
  split. { apply round_0_6_near. }
  split. { pose proof (damage_multiplier_range p Hr). lra. }
  intros q. apply damage_multiplier_monotone.
Qed.

(** C4 as stated fails at the ends of the bar: the multiplier at
    [p = 0.0] is not [0.2]. *)
Lemma C4_counterexample : BattleBox.damage_multiplier 0.0 <> 0.2%R.
Proof.
  rewrite damage_multiplier_left. pose proof round_0_6_near as H.
  apply Rabs_bound in H.
  replace (powerRZ 2 (-54)) with (/ 18014398509481984)%R in H by (simpl; lra).
  lra.
Qed.

Lemma C4_witness :
  BattleBox.current_enemy sample_battle = Some sample_enemy
  /\ (0 <= 0.5 <= 1)%R
  /\ BattleBox.damage_multiplier 0.5 = 1.0%R
  /\ (exists o e' b',
         BattleBox._process_fight_attack sample_settings sample_battle
         = Some (Some o, b')
         /\ BattleBox.outcome_damage o
            = py_int (Float64.round
                        (IZR (PLAYER_ATTACK_DAMAGE sample_settings)
                         * BattleBox.damage_multiplier 0.5))
         /\ BattleBox.current_enemy b' = Some e'
         /\ Enemy.hp e'
            = Z.max 0 (Enemy.hp sample_enemy - BattleBox.outcome_damage o))
  /\ (forall q : R, (Rabs (0.5 - 0.5) <= Rabs (q - 0.5))%R ->
        (BattleBox.damage_multiplier q <= BattleBox.damage_multiplier 0.5)%R).
Proof.
  assert (Hr : (0 <= 0.5 <= 1)%R) by lra.
  assert (HA : Z.abs (PLAYER_ATTACK_DAMAGE sample_settings) <= 2 ^ 53)
    by (cbn; lia).
  pose proof (C4_fight_multiplier sample_settings sample_battle sample_enemy
                0.5 eq_refl eq_refl Hr HA)
    as (Hd & _ & _ & Hc & _ & _ & _ & _ & Hm).
  repeat split; try assumption; lra.
Defined.

(** ** Invulnerability of the player *)

Lemma frames_S (n : nat) (p : Player.t) :
  Player.frames (S n) p = Player.update_invulnerability (Player.frames n p).
Proof. reflexivity. Qed.

(** The timer after [n] frames: it counts down to zero and stays; a
    timer that is not positive never moves. *)
Lemma frames_timer (n : nat) (p : Player.t) :
  Player.invulnerability_timer (Player.frames n p)
  = if Player.invulnerability_timer p >? 0
    then Z.max 0 (Player.invulnerability_timer p - Z.of_nat n)
    else Player.invulnerability_timer p.
Proof.
  induction n as [|n IH].
  - cbn. destruct (Z.gtb_spec (Player.invulnerability_timer p) 0); lia.
  - rewrite frames_S. unfold Player.update_invulnerability.
    destruct (Z.gtb_spec (Player.invulnerability_timer (Player.frames n p)) 0)
      as [Hpos|Hnot]; cbn [Player.invulnerability_timer]; rewrite IH in *;
      destruct (Z.gtb_spec (Player.invulnerability_timer p) 0); lia.
Qed.

Lemma frames_hp (n : nat) (p : Player.t) :
  Player.hp (Player.frames n p) = Player.hp p.
Proof.
  induction n as [|n IH]; [reflexivity|].
  rewrite frames_S. unfold Player.update_invulnerability.
  destruct (_ >? 0); cbn; exact IH.
Qed.

(** C5. [Player.take_damage] with a positive invulnerability timer
    returns false and leaves the player as it is. With the timer at zero
    it returns true, lowers the hit points by the damage (not below zero)
    and sets the timer to [INVULNERABILITY_TIME]; from there a second hit
    after fewer than [INVULNERABILITY_TIME] frames of
    [update_invulnerability] is rejected and changes nothing, and a hit
    after [INVULNERABILITY_TIME] frames or more succeeds. *)
Theorem C5_invulnerability (cfg : Settings) (p : Player.t) (damage : Z) :
  (0 < Player.invulnerability_timer p ->
     Player.take_damage cfg damage p = (false, p))
  /\ (Player.invulnerability_timer p = 0 ->
      let hit := Player.take_damage cfg damage p in
      fst hit = true
      /\ Player.hp (snd hit) = Z.max 0 (Player.hp p - damage)
      /\ (0 <= damage -> 0 <= Player.hp p -> Player.hp (snd hit) <= Player.hp p)
      /\ (0 < damage -> 0 < Player.hp p -> Player.hp (snd hit) < Player.hp p)
      /\ Player.invulnerability_timer (snd hit) = INVULNERABILITY_TIME cfg
      /\ forall (n : nat) (damage2 : Z),
           let later := Player.frames n (snd hit) in
           (Z.of_nat n < INVULNERABILITY_TIME cfg ->
              Player.take_damage cfg damage2 later = (false, later)
              /\ Player.hp later = Player.hp (snd hit))
           /\ (INVULNERABILITY_TIME cfg <= Z.of_nat n ->
                 fst (Player.take_damage cfg damage2 later) = true
                 /\ Player.hp (snd (Player.take_damage cfg damage2 later))
                    = Z.max 0 (Player.hp (snd hit) - damage2))).
Proof.
  split.
  - intros H. unfold Player.take_damage.
    destruct (Z.gtb_spec (Player.invulnerability_timer p) 0); [reflexivity|lia].
  - intros H0.
    assert (E : Player.take_damage cfg damage p
                = (true, Player.mk (Z.max 0 (Player.hp p - damage))
                                   (Player.max_hp p) (INVULNERABILITY_TIME cfg))).
    { unfold Player.take_damage. rewrite H0. reflexivity. }
    cbv zeta. rewrite E. cbn [fst snd Player.hp Player.invulnerability_timer].
    repeat split; try lia.
    + unfold Player.take_damage. rewrite frames_timer.
      cbn [Player.invulnerability_timer].
      destruct (Z.gtb_spec (INVULNERABILITY_TIME cfg) 0); [|lia].
      destruct (Z.gtb_spec (Z.max 0 (INVULNERABILITY_TIME cfg - Z.of_nat n)) 0);
        [reflexivity|lia].
    + apply frames_hp.
    + unfold Player.take_damage. rewrite frames_timer.
      cbn [Player.invulnerability_timer].
      destruct (Z.gtb_spec (INVULNERABILITY_TIME cfg) 0) as [Hpos|Hnot].
      * destruct (Z.gtb_spec (Z.max 0 (INVULNERABILITY_TIME cfg - Z.of_nat n)) 0);
          [lia|reflexivity].
      * destruct (Z.gtb_spec (INVULNERABILITY_TIME cfg) 0); [lia|reflexivity].
    + unfold Player.take_damage. rewrite frames_timer.
      cbn [Player.invulnerability_timer].
      destruct (Z.gtb_spec (INVULNERABILITY_TIME cfg) 0) as [Hpos|Hnot].
      * destruct (Z.gtb_spec (Z.max 0 (INVULNERABILITY_TIME cfg - Z.of_nat n)) 0);
          [lia|]. cbn. rewrite frames_hp. reflexivity.
      * destruct (Z.gtb_spec (INVULNERABILITY_TIME cfg) 0); [lia|].
        cbn. rewrite frames_hp. reflexivity.
Qed.

Lemma C5_witness :
  Player.invulnerability_timer sample_player = 0
  /\ fst (Player.take_damage sample_settings 2 sample_player) = true
  /\ Player.hp (snd (Player.take_damage sample_settings 2 sample_player)) = 18
  /\ fst (Player.take_damage sample_settings 2
            (Player.frames 59
               (snd (Player.take_damage sample_settings 2 sample_player))))
     = false
  /\ fst (Player.take_damage sample_settings 2
            (Player.frames 60
               (snd (Player.take_damage sample_settings 2 sample_player))))
     = true.
Proof.
  pose proof (C5_invulnerability sample_settings sample_player 2) as [_ H].
  destruct (H eq_refl) as (H1 & H2 & _ & _ & _ & Hlater).
  split; [reflexivity|]. split; [exact H1|]. split; [exact H2|]. split.
  - destruct (Hlater 59%nat 2) as [Hin _].
    destruct Hin as [Hrej _]; [cbn; lia|]. rewrite Hrej. reflexivity.
  - destruct (Hlater 60%nat 2) as [_ Hout].
    destruct Hout as [Hacc _]; [cbn; lia|]. exact Hacc.
Defined.


(** ** The gravity well *)

Lemma distance_nonneg (g : GravityWell.t) (px py : R) :
  (0 <= GravityWell.distance g px py)%R.
Proof. apply sqrt_pos. Qed.

Lemma distance_sqr (g : GravityWell.t) (px py : R) :
  (GravityWell.distance g px py * GravityWell.distance g px py
   = (GravityWell.x g - px) * (GravityWell.x g - px)
     + (GravityWell.y g - py) * (GravityWell.y g - py))%R.
Proof.
  unfold GravityWell.distance. apply sqrt_sqrt.
  pose proof (Rle_0_sqr (GravityWell.x g - px)) as H1.
  pose proof (Rle_0_sqr (GravityWell.y g - py)) as H2.
  unfold Rsqr in H1, H2. lra.
Qed.

(** The force of an active well, with the clamped divisor [c]. *)
Lemma apply_force_active (g : GravityWell.t) (px py : R) :
  GravityWell.active g = true ->
  let d := GravityWell.distance g px py in
  let c := if Rltb d 10 then 10%R else d in
  let m := (GravityWell.strength g * (100 / c))%R in
  let m := if GravityWell.repel g then (- m)%R else m in
  GravityWell.apply_force g px py
  = ((GravityWell.x g - px) / c * m, (GravityWell.y g - py) / c * m)%R.
Proof.
  intros Ha. unfold GravityWell.apply_force, GravityWell.distance.
  rewrite Ha. reflexivity.
Qed.

(** The sign of the polarity has absolute value one. *)
Lemma polarity_abs (repel : bool) :
  Rabs (if repel then (-1)%R else 1%R) = 1%R.
Proof. destruct repel; unfold Rabs; destruct (Rcase_abs _); lra. Qed.

(** At ten units or more: the unit vector from the player to the well,
    times [strength * 100 / d]. *)
Lemma apply_force_far (g : GravityWell.t) (px py : R) :
  let d := GravityWell.distance g px py in
  let dx := (GravityWell.x g - px)%R in
  let dy := (GravityWell.y g - py)%R in
  let sign := if GravityWell.repel g then (-1)%R else 1%R in
  GravityWell.active g = true -> (10 <= d)%R ->
  GravityWell.apply_force g px py
  = (dx / d * (sign * (GravityWell.strength g * (100 / d))),
     dy / d * (sign * (GravityWell.strength g * (100 / d))))%R
  /\ GravityWell.magnitude (GravityWell.apply_force g px py)
     = (Rabs (GravityWell.strength g) * (100 / d))%R.
Proof.
  intros d dx dy sign Ha Hd.
  pose proof (polarity_abs (GravityWell.repel g)) as Hsign. fold sign in Hsign.
  rewrite (apply_force_active g px py Ha). fold d dx dy.
  assert (Hc : Rltb d 10 = false) by (apply Rltb_false; exact Hd).
  rewrite Hc. cbv zeta.
  assert (E : (if GravityWell.repel g
               then (- (GravityWell.strength g * (100 / d)))%R
               else (GravityWell.strength g * (100 / d))%R)
              = (sign * (GravityWell.strength g * (100 / d)))%R).
  { subst sign. destruct (GravityWell.repel g); lra. }
  rewrite E. split; [reflexivity|].
  unfold GravityWell.magnitude. cbn [fst snd].
  set (k := (sign * (GravityWell.strength g * (100 / d)) / d)%R).
  replace (dx / d * (sign * (GravityWell.strength g * (100 / d))))%R
    with (k * dx)%R by (subst k; field; lra).
  replace (dy / d * (sign * (GravityWell.strength g * (100 / d))))%R
    with (k * dy)%R by (subst k; field; lra).
  rewrite sqrt_scaled. subst k. unfold Rdiv. rewrite !Rabs_mult, Hsign.
  rewrite (Rabs_right 100) by lra.
  rewrite (Rabs_right (/ d)) by (apply Rle_ge; left; apply Rinv_0_lt_compat; lra).
  change (sqrt (dx * dx + dy * dy)) with d.
  field. lra.
Qed.

(** Below ten units the divisor is 10 in the magnitude and in the
    direction: the force is [strength * (dx, dy)]. *)
Lemma apply_force_near (g : GravityWell.t) (px py : R) :
  let d := GravityWell.distance g px py in
  let dx := (GravityWell.x g - px)%R in
  let dy := (GravityWell.y g - py)%R in
  let sign := if GravityWell.repel g then (-1)%R else 1%R in
  GravityWell.active g = true -> (d < 10)%R ->
  GravityWell.apply_force g px py
  = (sign * GravityWell.strength g * dx, sign * GravityWell.strength g * dy)%R
  /\ GravityWell.magnitude (GravityWell.apply_force g px py)
     = (Rabs (GravityWell.strength g) * d)%R.
Proof.
  intros d dx dy sign Ha Hd.
  pose proof (polarity_abs (GravityWell.repel g)) as Hsign. fold sign in Hsign.
  rewrite (apply_force_active g px py Ha). fold d dx dy.
  assert (Hc : Rltb d 10 = true) by (apply Rltb_true; exact Hd).
  rewrite Hc. cbv zeta.
  assert (E : ((dx / 10 *
                (if GravityWell.repel g
                 then (- (GravityWell.strength g * (100 / 10)))%R
                 else (GravityWell.strength g * (100 / 10))%R),
                dy / 10 *
                (if GravityWell.repel g
                 then (- (GravityWell.strength g * (100 / 10)))%R
                 else (GravityWell.strength g * (100 / 10))%R))%R : R * R)
              = (sign * GravityWell.strength g * dx,
                 sign * GravityWell.strength g * dy)%R).
  { subst sign. destruct (GravityWell.repel g); f_equal; field. }
  rewrite E. split; [reflexivity|].
  unfold GravityWell.magnitude. cbn [fst snd]. rewrite sqrt_scaled.
  change (sqrt (dx * dx + dy * dy)) with d.
  rewrite Rabs_mult, Hsign. lra.
Qed.

(** C6, as amended. An inactive well returns [(0, 0)]. An active well at
    distance [d >= 10] from the player returns the unit vector from the
    player to the well times [strength * 100 / d], negated if repelling:
    a force of magnitude [|strength| * 100 / d]. At distance [d < 10] the
    divisor is 10 both in the magnitude and in the direction, so the
    force is [strength * (dx, dy)], negated if repelling: its magnitude
    is [|strength| * d], below [|strength| * 10], and there is no
    singularity. *)
Theorem C6_gravity_force (g : GravityWell.t) (px py : R) :
  let d := GravityWell.distance g px py in
  let dx := (GravityWell.x g - px)%R in
  let dy := (GravityWell.y g - py)%R in
  let sign := if GravityWell.repel g then (-1)%R else 1%R in
  (GravityWell.active g = false ->
     GravityWell.apply_force g px py = (0, 0)%R)
  /\ (GravityWell.active g = true -> (10 <= d)%R ->
      GravityWell.apply_force g px py
      = (dx / d * (sign * (GravityWell.strength g * (100 / d))),
         dy / d * (sign * (GravityWell.strength g * (100 / d))))%R
      /\ GravityWell.magnitude (GravityWell.apply_force g px py)
         = (Rabs (GravityWell.strength g) * (100 / d))%R)
  /\ (GravityWell.active g = true -> (d < 10)%R ->
      GravityWell.apply_force g px py
      = (sign * GravityWell.strength g * dx,
         sign * GravityWell.strength g * dy)%R
      /\ GravityWell.magnitude (GravityWell.apply_force g px py)
         = (Rabs (GravityWell.strength g) * d)%R
      /\ (GravityWell.magnitude (GravityWell.apply_force g px py)
          <= Rabs (GravityWell.strength g) * 10)%R).
Proof.
  intros d dx dy sign. split; [|split].
  - intros Ha. unfold GravityWell.apply_force. rewrite Ha. reflexivity.
  - intros Ha Hd. exact (apply_force_far g px py Ha Hd).
  - intros Ha Hd.
    destruct (apply_force_near g px py Ha Hd) as [E M].
    split; [exact E|split; [exact M|]]. rewrite M.
    apply Rmult_le_compat_l; [apply Rabs_pos|]. fold d. lra.
Qed.

(** The well of the counterexample: the constructor's default strength,
    attracting; the player stands five units away. *)
Lemma sample_well_distance : GravityWell.distance sample_well 3 4 = 5%R.
Proof.
  unfold GravityWell.distance, sample_well, GravityWell.init.
  cbn [GravityWell.x GravityWell.y].
  replace ((0 - 3) * (0 - 3) + (0 - 4) * (0 - 4))%R with (5 * 5)%R by lra.
  apply sqrt_square. lra.
Qed.

(** C6 as stated fails below ten units: five units away from a well of
    strength 0.5 the force has magnitude 2.5, not
    [0.5 * (100 / max(5, 10)) = 5]. *)
Lemma C6_counterexample :
  GravityWell.active sample_well = true
  /\ GravityWell.distance sample_well 3 4 = 5%R
  /\ GravityWell.magnitude (GravityWell.apply_force sample_well 3 4)
     <> (GravityWell.strength sample_well
         * (100 / Rmax (GravityWell.distance sample_well 3 4) 10))%R.
Proof.
  split; [reflexivity|]. split; [apply sample_well_distance|].
  assert (Hd : (GravityWell.distance sample_well 3 4 < 10)%R)
    by (rewrite sample_well_distance; lra).
  destruct (apply_force_near sample_well 3 4 eq_refl Hd) as [_ M].
  rewrite M, sample_well_distance.
  rewrite Rmax_right by lra.
  cbn [sample_well GravityWell.init GravityWell.strength].
  rewrite Rabs_right by lra. lra.
Qed.

Lemma C6_witness :
  GravityWell.active sample_well = true
  /\ (GravityWell.distance sample_well 3 4 < 10)%R
  /\ GravityWell.apply_force sample_well 3 4
     = (1 * GravityWell.strength sample_well * (GravityWell.x sample_well - 3),
        1 * GravityWell.strength sample_well * (GravityWell.y sample_well - 4))%R.
Proof.
  assert (Hd : (GravityWell.distance sample_well 3 4 < 10)%R)
    by (rewrite sample_well_distance; lra).
  split; [reflexivity|]. split; [exact Hd|].
  pose proof (C6_gravity_force sample_well 3 4) as (_ & _ & Hnear).
  destruct (Hnear eq_refl Hd) as (E & _). exact E.
Defined.


(** ** The laser beam *)

(** Two rects collide exactly when they share a pixel. *)
Lemma colliderect_spec (a b : Rect.t) :
  Rect.colliderect a b = true
  <-> exists px py : Z, Rect.covers a px py /\ Rect.covers b px py.
Proof.
  unfold Rect.colliderect, Rect.covers. split.
  - destruct (Z.eqb_spec (Rect.w a) 0), (Z.eqb_spec (Rect.h a) 0),
      (Z.eqb_spec (Rect.w b) 0), (Z.eqb_spec (Rect.h b) 0);
      cbn [orb]; try discriminate.
    rewrite !andb_true_iff. intros [[[H1 H2] H3] H4].
    apply Z.ltb_lt in H1, H2. apply Z.gtb_lt in H3, H4.
    exists (Z.max (Z.min (Rect.x a) (Rect.x a + Rect.w a))
                  (Z.min (Rect.x b) (Rect.x b + Rect.w b))),
           (Z.max (Z.min (Rect.y a) (Rect.y a + Rect.h a))
                  (Z.min (Rect.y b) (Rect.y b + Rect.h b))).
    lia.
  - intros (px & py & [Hax Hay] & [Hbx Hby]).
    destruct (Z.eqb_spec (Rect.w a) 0); [lia|].
    destruct (Z.eqb_spec (Rect.h a) 0); [lia|].
    destruct (Z.eqb_spec (Rect.w b) 0); [lia|].
    destruct (Z.eqb_spec (Rect.h b) 0); [lia|].
    cbn [orb]. rewrite !andb_true_iff.
    repeat split; first [apply Z.ltb_lt | apply Z.gtb_lt]; lia.
Qed.

Lemma updates_S (n : nat) (l : LaserBeam.t) :
  LaserBeam.updates (S n) l = LaserBeam.update (LaserBeam.updates n l).
Proof. reflexivity. Qed.

(** One call moves the phase forward by at most one place. *)
Lemma update_rank (l : LaserBeam.t) :
  (LaserBeam.rank (LaserBeam.state l)
   <= LaserBeam.rank (LaserBeam.state (LaserBeam.update l))
   <= S (LaserBeam.rank (LaserBeam.state l)))%nat.
Proof.
  unfold LaserBeam.update.
  destruct (LaserBeam.state l) eqn:E;
    repeat match goal with
           | |- context [if ?c then _ else _] => destruct c
           end; cbn; lia.
Qed.

Lemma updates_rank (n : nat) (l : LaserBeam.t) :
  (LaserBeam.rank (LaserBeam.state l)
   <= LaserBeam.rank (LaserBeam.state (LaserBeam.updates n l)))%nat.
Proof.
  induction n as [|n IH]; [reflexivity|].
  rewrite updates_S.
  pose proof (update_rank (LaserBeam.updates n l)). lia.
Qed.

Lemma updates_done (n : nat) (l : LaserBeam.t) :
  LaserBeam.state l = LaserBeam.done ->
  LaserBeam.state (LaserBeam.updates n l) = LaserBeam.done.
Proof.
  intros H. pose proof (updates_rank n l) as Hr. rewrite H in Hr.
  destruct (LaserBeam.state (LaserBeam.updates n l)); cbn in Hr; try lia.
  reflexivity.
Qed.

(** The phase and the timer of a fresh beam after [n] calls. *)
Lemma updates_fresh (n : nat) (l : LaserBeam.t) :
  LaserBeam.state l = LaserBeam.warning ->
  LaserBeam.timer l = 0 ->
  1 <= LaserBeam.warning_duration l ->
  1 <= LaserBeam.active_duration l ->
  LaserBeam.updates n l
  = if Z.of_nat n <? LaserBeam.warning_duration l
    then LaserBeam.with_state LaserBeam.warning (Z.of_nat n) l
    else if Z.of_nat n <? LaserBeam.warning_duration l + LaserBeam.active_duration l
         then LaserBeam.with_state LaserBeam.active
                (Z.of_nat n - LaserBeam.warning_duration l) l
         else LaserBeam.with_state LaserBeam.done
                (Z.of_nat n - LaserBeam.warning_duration l) l.
Proof.
  intros Hs Ht Hw Ha. induction n as [|n IH].
  - destruct (Z.ltb_spec (Z.of_nat 0) (LaserBeam.warning_duration l)); [|lia].
    destruct l; cbn in *; subst; reflexivity.
  - rewrite updates_S, IH. clear IH.
    replace (Z.of_nat (S n)) with (Z.of_nat n + 1) by lia.
    unfold LaserBeam.update.
    destruct (Z.ltb_spec (Z.of_nat n) (LaserBeam.warning_duration l)).
    + cbn [LaserBeam.with_state LaserBeam.state LaserBeam.timer
           LaserBeam.warning_duration LaserBeam.active_duration].
      destruct (Z.geb_spec (Z.of_nat n + 1) (LaserBeam.warning_duration l)).
      * destruct (Z.ltb_spec (Z.of_nat n + 1) (LaserBeam.warning_duration l)); [lia|].
        destruct (Z.ltb_spec (Z.of_nat n + 1)
                    (LaserBeam.warning_duration l + LaserBeam.active_duration l));
          [|lia].
        unfold LaserBeam.with_state; cbn. do 2 f_equal. lia.
      * destruct (Z.ltb_spec (Z.of_nat n + 1) (LaserBeam.warning_duration l)); [|lia].
        reflexivity.
    + destruct (Z.ltb_spec (Z.of_nat n + 1) (LaserBeam.warning_duration l)); [lia|].
      destruct (Z.ltb_spec (Z.of_nat n)
                  (LaserBeam.warning_duration l + LaserBeam.active_duration l)).
      * cbn [LaserBeam.with_state LaserBeam.state LaserBeam.timer
             LaserBeam.warning_duration LaserBeam.active_duration].
        destruct (Z.geb_spec (Z.of_nat n - LaserBeam.warning_duration l + 1)
                    (LaserBeam.active_duration l));
          destruct (Z.ltb_spec (Z.of_nat n + 1)
                      (LaserBeam.warning_duration l + LaserBeam.active_duration l));
          try lia; unfold LaserBeam.with_state; cbn; do 2 f_equal; lia.
      * cbn [LaserBeam.with_state LaserBeam.state LaserBeam.timer
             LaserBeam.warning_duration LaserBeam.active_duration].
        destruct (Z.ltb_spec (Z.of_nat n + 1)
                    (LaserBeam.warning_duration l + LaserBeam.active_duration l));
          [lia|].
        unfold LaserBeam.with_state; cbn. do 2 f_equal. lia.
Qed.

(** What the constructor fixes: phase, timer, durations and width. *)
Lemma init_fresh (box : Rect.t) (g g' : Random.state) (l : LaserBeam.t) :
  LaserBeam.init box g = Some (l, g') ->
  LaserBeam.state l = LaserBeam.warning /\ LaserBeam.timer l = 0
  /\ LaserBeam.warning_duration l = 30 /\ LaserBeam.active_duration l = 15
  /\ LaserBeam.beam_width l = 30 /\ LaserBeam.box_rect l = box.
Proof.
  unfold LaserBeam.init. intros H.
  apply bind_Some in H as (hz & g1 & _ & H).
  apply bind_Some in H as (p & g2 & _ & H).
  apply ret_Some in H as [<- _]. cbn. repeat split.
Qed.

(** C7. Over any sequence of [LaserBeam.update] calls the phase never
    moves backward in the order warning, active, done, advances by one
    place at most per call, and stays done once done. A beam in its
    warning phase with timer zero is in warning for the first
    [warning_duration] calls, active for the next [active_duration] and
    done from then on; a beam from the constructor has 30 and 15 there.
    [check_collision] is true exactly when the beam is active and its
    rectangle ([beam_width] thick from [pos - beam_width // 2] across its
    orientation, spanning the arena along it) shares a pixel with the
    box. *)
Theorem C7_laser_beam (l : LaserBeam.t) (player_rect : Rect.t) :
  (forall n : nat,
     (LaserBeam.rank (LaserBeam.state l)
      <= LaserBeam.rank (LaserBeam.state (LaserBeam.updates n l)))%nat)
  /\ (forall n : nat,
       (LaserBeam.rank (LaserBeam.state (LaserBeam.updates n l))
        <= LaserBeam.rank (LaserBeam.state (LaserBeam.updates (S n) l))
        <= S (LaserBeam.rank (LaserBeam.state (LaserBeam.updates n l))))%nat)
  /\ (LaserBeam.state l = LaserBeam.done ->
       forall n : nat,
         LaserBeam.state (LaserBeam.updates n l) = LaserBeam.done)
  /\ (LaserBeam.state l = LaserBeam.warning -> LaserBeam.timer l = 0 ->
       1 <= LaserBeam.warning_duration l -> 1 <= LaserBeam.active_duration l ->
       forall n : nat,
         LaserBeam.state (LaserBeam.updates n l)
         = if Z.of_nat n <? LaserBeam.warning_duration l
           then LaserBeam.warning
           else if Z.of_nat n
                   <? LaserBeam.warning_duration l + LaserBeam.active_duration l
                then LaserBeam.active
                else LaserBeam.done)
  /\ (forall (g g' : Random.state) (fresh : LaserBeam.t) (n : nat),
       LaserBeam.init (LaserBeam.box_rect l) g = Some (fresh, g') ->
       LaserBeam.state (LaserBeam.updates n fresh)
       = if Z.of_nat n <? 30 then LaserBeam.warning
         else if Z.of_nat n <? 45 then LaserBeam.active
              else LaserBeam.done)
  /\ (LaserBeam.check_collision l player_rect = true
       <-> LaserBeam.state l = LaserBeam.active
           /\ exists px py : Z,
                Rect.covers player_rect px py
                /\ Rect.covers
                     (if LaserBeam.is_horizontal l
                      then Rect.mk (Rect.left (LaserBeam.box_rect l))
                                   (LaserBeam.pos l - LaserBeam.beam_width l / 2)
                                   (Rect.width (LaserBeam.box_rect l))
                                   (LaserBeam.beam_width l)
                      else Rect.mk (LaserBeam.pos l - LaserBeam.beam_width l / 2)
                                   (Rect.top (LaserBeam.box_rect l))
                                   (LaserBeam.beam_width l)
                                   (Rect.height (LaserBeam.box_rect l)))
                     px py).
Proof.
  split; [intros n; apply updates_rank|].
  split; [intros n; rewrite updates_S; apply update_rank|].
  split; [intros H n; apply updates_done; exact H|].
  split.
  { intros Hs Ht Hw Ha n. rewrite (updates_fresh n l Hs Ht Hw Ha).
    repeat match goal with
           | |- context [if ?c then _ else _] => destruct c
           end; reflexivity. }
  split.
  { intros g g' fresh n Hinit.
    destruct (init_fresh _ _ _ _ Hinit) as (Hs & Ht & Hw & Ha & _).
    rewrite (updates_fresh n fresh Hs Ht) by lia. rewrite Hw, Ha.
    change (30 + 15) with 45.
    repeat match goal with
           | |- context [if ?c then _ else _] => destruct c
           end; reflexivity. }
  unfold LaserBeam.check_collision.
  change (if LaserBeam.is_horizontal l then _ else _) with (LaserBeam.beam_rect l).
  split.
  - destruct (LaserBeam.state l); try discriminate.
    intros H. apply colliderect_spec in H as (px & py & Hb & Hp). eauto.
  - intros [Hs (px & py & Hp & Hb)]. rewrite Hs.
    apply colliderect_spec. eauto.
Qed.

Lemma C7_witness :
  LaserBeam.state sample_laser = LaserBeam.warning
  /\ LaserBeam.state (LaserBeam.updates 29 sample_laser) = LaserBeam.warning
  /\ LaserBeam.state (LaserBeam.updates 30 sample_laser) = LaserBeam.active
  /\ LaserBeam.state (LaserBeam.updates 44 sample_laser) = LaserBeam.active
  /\ LaserBeam.state (LaserBeam.updates 45 sample_laser) = LaserBeam.done
  /\ LaserBeam.check_collision (LaserBeam.updates 30 sample_laser)
       sample_player_rect = true.
Proof.
  pose proof (C7_laser_beam sample_laser sample_player_rect)
    as (_ & _ & _ & Htime & _ & _).
  assert (H1 : 1 <= LaserBeam.warning_duration sample_laser) by (cbn; lia).
  assert (H2 : 1 <= LaserBeam.active_duration sample_laser) by (cbn; lia).
  pose proof (Htime eq_refl eq_refl H1 H2) as Ht.
  split; [reflexivity|].
  split; [exact (Ht 29%nat)|].
  split; [exact (Ht 30%nat)|].
  split; [exact (Ht 44%nat)|].
  split; [exact (Ht 45%nat)|].
  vm_compute. reflexivity.
Defined.

(** ** Projectiles *)

(** The position [update] leaves: each coordinate is the truncated sum
    of the old coordinate and the velocity. *)
Lemma projectile_update_rect (p : Projectile.t) :
  Projectile.rect (fst (Projectile.update p))
  = Rect.mk (py_int (IZR (Rect.x (Projectile.rect p)) + Projectile.vx p))
            (py_int (IZR (Rect.y (Projectile.rect p)) + Projectile.vy p))
            (Rect.w (Projectile.rect p)) (Rect.h (Projectile.rect p)).
Proof. reflexivity. Qed.

(** With a whole-number velocity the position moves by the velocity. *)
Lemma projectile_update_integral (p : Projectile.t) (a b : Z) :
  Projectile.vx p = IZR a -> Projectile.vy p = IZR b ->
  Rect.x (Projectile.rect (fst (Projectile.update p)))
  = Rect.x (Projectile.rect p) + a
  /\ Rect.y (Projectile.rect (fst (Projectile.update p)))
     = Rect.y (Projectile.rect p) + b.
Proof.
  intros Hx Hy. rewrite projectile_update_rect, Hx, Hy. cbn [Rect.x Rect.y].
  rewrite <- !plus_IZR, !py_int_IZR. split; reflexivity.
Qed.

(** The velocity is kept, so the same step is taken at each call. *)
Lemma projectile_update_velocity (p : Projectile.t) :
  Projectile.vx (fst (Projectile.update p)) = Projectile.vx p
  /\ Projectile.vy (fst (Projectile.update p)) = Projectile.vy p.
Proof. split; reflexivity. Qed.

(** The sample is what the constructor of [CircleBullet] builds at
    (5, 5) with the velocity (0.5, 0.5). *)
Lemma sample_projectile_built :
  Projectile.circle_bullet sample_settings Projectile.CircleBullet 5 5 0.5 0.5
  = sample_projectile.
Proof.
  unfold Projectile.circle_bullet, Projectile.init, sample_projectile.
  cbn [Rect.set_x Rect.set_y Rect.x Rect.y Rect.w Rect.h
       BULLET_SPEED_MULT sample_settings].
  rewrite (py_int_IZR 5). f_equal; lra.
Qed.

(** C8, at the failing input. A projectile at (5, 5) with the velocity
    (0.5, 0.5) is still at (5, 5) after one [update], and after any number
    of them: its position changes by (0, 0) per tick, not by its velocity
    vector. The rect holds integers and the sum [5 + 0.5] is truncated
    when it is assigned. *)
Theorem C8_update_truncates :
  Projectile.circle_bullet sample_settings Projectile.CircleBullet 5 5 0.5 0.5
  = sample_projectile
  /\ Projectile.vx sample_projectile = 0.5%R
  /\ Projectile.vy sample_projectile = 0.5%R
  /\ Projectile.update sample_projectile = (sample_projectile, true)
  /\ forall n : nat,
       Nat.iter n (fun p => fst (Projectile.update p)) sample_projectile
       = sample_projectile.
Proof.
  assert (E : Projectile.update sample_projectile = (sample_projectile, true)).
  { unfold Projectile.update, sample_projectile.
    cbn [Projectile.rect Projectile.vx Projectile.vy Projectile.bounds
         Rect.x Rect.y Rect.set_x Rect.set_y Rect.w Rect.h
         Projectile.with_rect Projectile.cls Projectile.extra negb].
    rewrite (py_int_frac 5 0.5) by (try lia; lra). reflexivity. }
  split; [exact sample_projectile_built|].
  split; [reflexivity|]. split; [reflexivity|]. split; [exact E|].
  induction n as [|n IH]; [reflexivity|].
  rewrite Nat.iter_succ, IH, E. reflexivity.
Qed.

(** [TargetingBullet]: a target at the spawn position gives the velocity
    straight down, [(0, speed)] scaled by [BULLET_SPEED_MULT] like every
    velocity. *)
Lemma targeting_bullet_degenerate (cfg : Settings) (x y speed : R) :
  speed <> 0%R ->
  Projectile.vx (Projectile.targeting_bullet cfg x y x y (Some speed))
  = (0 * BULLET_SPEED_MULT cfg)%R
  /\ Projectile.vy (Projectile.targeting_bullet cfg x y x y (Some speed))
     = (speed * BULLET_SPEED_MULT cfg)%R.
Proof.
  intros Hs. unfold Projectile.targeting_bullet.
  replace (x - x)%R with 0%R by lra. replace (y - y)%R with 0%R by lra.
  rewrite sqrt_0_0.
  assert (Rltb 0 0 = false) as -> by (apply Rltb_false; lra).
  assert (Reqb speed 0 = false) as ->.
  { destruct (Reqb speed 0) eqn:E; [|reflexivity].
    apply Reqb_true in E. contradiction. }
  split; reflexivity.
Qed.

(** [HomingBlade]: at the end of the aiming with the target at the
    blade's position the velocity is left as it was. *)
Lemma homing_blade_degenerate (b : HomingBlade.t) :
  HomingBlade.state b = HomingBlade.aiming ->
  HomingBlade.timer b + 1 >= HomingBlade.aim_duration b ->
  HomingBlade.target_x b = HomingBlade.x b ->
  HomingBlade.target_y b = HomingBlade.y b ->
  HomingBlade.state (fst (HomingBlade.update b)) = HomingBlade.charging
  /\ HomingBlade.vx (fst (HomingBlade.update b)) = HomingBlade.vx b
  /\ HomingBlade.vy (fst (HomingBlade.update b)) = HomingBlade.vy b.
Proof.
  intros Hs Ht Hx Hy. unfold HomingBlade.update. rewrite Hs, Hx, Hy.
  destruct (Z.geb_spec (HomingBlade.timer b + 1) (HomingBlade.aim_duration b));
    [|lia].
  replace (HomingBlade.x b - HomingBlade.x b)%R with 0%R by lra.
  replace (HomingBlade.y b - HomingBlade.y b)%R with 0%R by lra.
  rewrite sqrt_0_0.
  assert (Rltb 0 0 = false) as -> by (apply Rltb_false; lra).
  repeat split.
Qed.

(** The sample is a blade spawned on the top edge of the arena after 59
    frames of aiming at a player who stands on it. *)
Lemma sample_blade_arises :
  Nat.iter 59
    (fun b => HomingBlade.set_target 200 160 (fst (HomingBlade.update b)))
    (HomingBlade.set_target 200 160 (HomingBlade.init 200 160 sample_box))
  = sample_blade.
Proof. vm_compute. reflexivity. Qed.

(** C9, at the failing input. A blade whose target is its own position
    leaves the aiming phase with the velocity (0, 0), not with the default
    direction straight down at its speed, (0, 15): [HomingBlade.update]
    has no branch for a zero distance, where [TargetingBullet] has one. *)
Theorem C9_homing_blade_no_fallback :
  Nat.iter 59
    (fun b => HomingBlade.set_target 200 160 (fst (HomingBlade.update b)))
    (HomingBlade.set_target 200 160 (HomingBlade.init 200 160 sample_box))
  = sample_blade
  /\ HomingBlade.state sample_blade = HomingBlade.aiming
  /\ HomingBlade.target_x sample_blade = HomingBlade.x sample_blade
  /\ HomingBlade.target_y sample_blade = HomingBlade.y sample_blade
  /\ HomingBlade.state (fst (HomingBlade.update sample_blade))
     = HomingBlade.charging
  /\ HomingBlade.vx (fst (HomingBlade.update sample_blade)) = 0%R
  /\ HomingBlade.vy (fst (HomingBlade.update sample_blade)) = 0%R
  /\ HomingBlade.vy (fst (HomingBlade.update sample_blade))
     <> HomingBlade.speed sample_blade.
Proof.
  destruct (homing_blade_degenerate sample_blade) as (H1 & H2 & H3);
    try reflexivity; [cbn; lia|].
  split; [exact sample_blade_arises|].
  repeat split; try assumption.
  rewrite H3. cbn. lra.
Qed.

(** ** The attack manager: what the patterns leave alone *)

Import AttackManager.

Lemma keeps_ret (s s1 : t) :
  round_view s1 = round_view s -> keeps s (Random.ret s1).
Proof. intros H g s' g' E. apply ret_Some in E as [<- _]. exact H. Qed.

Lemma keeps_raise (s : t) : keeps s Random.raise.
Proof. intros g s' g' E. discriminate. Qed.

(** A draw in front of the computation. *)
Lemma keeps_draw {A} (s : t) (m : Random.M A) (k : A -> Random.M t) :
  (forall a, keeps s (k a)) -> keeps s (Random.bind m k).
Proof.
  intros H g s' g' E. apply bind_Some in E as (a & g1 & _ & E).
  eapply H, E.
Qed.

(** Two computations on the state in sequence. *)
Lemma keeps_seq (s : t) (c : Random.M t) (k : t -> Random.M t) :
  keeps s c ->
  (forall s1, round_view s1 = round_view s -> keeps s (k s1)) ->
  keeps s (Random.bind c k).
Proof.
  intros Hc Hk g s' g' E. apply bind_Some in E as (s1 & g1 & E1 & E).
  eapply Hk, E. eapply Hc, E1.
Qed.

Lemma keeps_for_each {A} (s : t) (l : list A) (body : A -> t -> Random.M t) :
  (forall a s1, round_view s1 = round_view s -> keeps s (body a s1)) ->
  forall s0, round_view s0 = round_view s -> keeps s (for_each l body s0).
Proof.
  intros Hb. induction l as [|a l IH]; intros s0 H0; cbn [for_each].
  - apply keeps_ret, H0.
  - apply keeps_seq; [apply Hb, H0|]. intros s1 H1. apply IH, H1.
Qed.

Lemma view_fold_left {A} (s : t) (l : list A) (f : t -> A -> t) :
  (forall s1 a, round_view s1 = round_view s -> round_view (f s1 a) = round_view s) ->
  forall s0, round_view s0 = round_view s ->
             round_view (fold_left f l s0) = round_view s.
Proof.
  intros Hf. induction l as [|a l IH]; intros s0 H0; cbn [fold_left].
  - exact H0.
  - apply IH, Hf, H0.
Qed.

(** Assignments outside the scheduling part do not show in the view. *)
Lemma view_put_timer (b : bool) (v : Z) (s : t) :
  round_view (put_timer b v s) = round_view s.
Proof. destruct b; reflexivity. Qed.

Lemma view_spawn (sp : Sprite) (s : t) : round_view (spawn sp s) = round_view s.
Proof. reflexivity. Qed.

Lemma view_kill (k : nat) (s : t) : round_view (kill k s) = round_view s.
Proof. reflexivity. Qed.

Lemma view_with_sprites v (s : t) :
  round_view (with_sprites v s) = round_view s.
Proof. reflexivity. Qed.

Lemma view_with_next_sprite v (s : t) :
  round_view (with_next_sprite v s) = round_view s.
Proof. reflexivity. Qed.

Lemma view_with_bullets_group v (s : t) :
  round_view (with_bullets_group v s) = round_view s.
Proof. reflexivity. Qed.

Lemma view_with_difficulty v (s : t) :
  round_view (with_difficulty v s) = round_view s.
Proof. reflexivity. Qed.

Lemma view_with_pattern_internal_timer v (s : t) :
  round_view (with_pattern_internal_timer v s) = round_view s.
Proof. reflexivity. Qed.

Lemma view_with_pattern_internal_timer_2 v (s : t) :
  round_view (with_pattern_internal_timer_2 v s) = round_view s.
Proof. reflexivity. Qed.

Lemma view_with_lasers v (s : t) :
  round_view (with_lasers v s) = round_view s.
Proof. reflexivity. Qed.

Lemma view_with_laser_spawn_timer v (s : t) :
  round_view (with_laser_spawn_timer v s) = round_view s.
Proof. reflexivity. Qed.

Lemma view_with_gravity_mode v (s : t) :
  round_view (with_gravity_mode v s) = round_view s.
Proof. reflexivity. Qed.

Lemma view_with_gravity_wells v (s : t) :
  round_view (with_gravity_wells v s) = round_view s.
Proof. reflexivity. Qed.

Lemma view_with_cross_bullets v (s : t) :
  round_view (with_cross_bullets v s) = round_view s.
Proof. reflexivity. Qed.

Lemma view_with_cross_angle v (s : t) :
  round_view (with_cross_angle v s) = round_view s.
Proof. reflexivity. Qed.

Lemma view_with_cross_center v (s : t) :
  round_view (with_cross_center v s) = round_view s.
Proof. reflexivity. Qed.

Lemma view_with_ring_timer v (s : t) :
  round_view (with_ring_timer v s) = round_view s.
Proof. reflexivity. Qed.

Lemma view_with_homing_blades v (s : t) :
  round_view (with_homing_blades v s) = round_view s.
Proof. reflexivity. Qed.

Lemma view_with__patterns_per_round v (s : t) :
  round_view (with__patterns_per_round v s) = round_view s.
Proof. reflexivity. Qed.

Create Rewrite HintDb view.
#[local] Hint Rewrite
  view_put_timer
  view_spawn
  view_kill
  view_with_sprites
  view_with_next_sprite
  view_with_bullets_group
  view_with_difficulty
  view_with_pattern_internal_timer
  view_with_pattern_internal_timer_2
  view_with_lasers
  view_with_laser_spawn_timer
  view_with_gravity_mode
  view_with_gravity_wells
  view_with_cross_bullets
  view_with_cross_angle
  view_with_cross_center
  view_with_ring_timer
  view_with_homing_blades
  view_with__patterns_per_round : view.

Ltac keeps_step :=
  lazymatch goal with
  | |- keeps _ (Random.ret _) => apply keeps_ret
  | |- keeps _ Random.raise => apply keeps_raise
  | |- keeps _ (for_each _ _ _) => apply keeps_for_each; [intros ? ? ?|]
  | |- keeps _ (Random.bind ?m _) =>
      lazymatch type of m with
      | Random.M t => apply keeps_seq; [|intros ? ?]
      | _ => apply keeps_draw; intros ?
      end
  | |- keeps _ (if ?c then _ else _) => destruct c
  | |- keeps _ (match add_sprite _ _ with _ => _ end) =>
      unfold add_sprite; cbv beta iota
  | |- keeps _ (match ?x with _ => _ end) => destruct x
  | |- round_view (fold_left _ _ _) = _ => apply view_fold_left; [intros ? ? ?|]
  | |- round_view (if ?c then _ else _) = _ => destruct c
  | |- round_view (match add_sprite _ _ with _ => _ end) = _ =>
      unfold add_sprite; cbv beta iota
  | |- round_view ?x = round_view ?s =>
      first [ assumption | progress autorewrite with view ]
  end.

Ltac keeps_auto := cbv zeta; repeat keeps_step.

Lemma keeps_line_rain (cfg : Settings) (secondary : bool) (s s0 : t) :
  round_view s0 = round_view s -> keeps s (_pattern_line_rain cfg secondary s0).
Proof.
  intros H. unfold _pattern_line_rain. keeps_auto.
Qed.

Lemma keeps_circle_burst (cfg : Settings) (secondary : bool) (s s0 : t) :
  round_view s0 = round_view s ->
  keeps s (_pattern_circle_burst cfg secondary s0).
Proof.
  intros H. unfold _pattern_circle_burst. keeps_auto.
Qed.

Lemma keeps_targeting (cfg : Settings) (px py : R) (secondary : bool)
    (s s0 : t) :
  round_view s0 = round_view s ->
  keeps s (_pattern_targeting cfg px py secondary s0).
Proof.
  intros H. unfold _pattern_targeting. keeps_auto.
Qed.

Lemma keeps_bouncing_walls (secondary : bool) (s s0 : t) :
  round_view s0 = round_view s ->
  keeps s (_pattern_bouncing_walls secondary s0).
Proof.
  intros H. unfold _pattern_bouncing_walls. keeps_auto.
Qed.

Lemma keeps_spiral (cfg : Settings) (s s0 : t) :
  round_view s0 = round_view s -> keeps s (_pattern_spiral cfg s0).
Proof. intros H. unfold _pattern_spiral. keeps_auto. Qed.

Lemma keeps_laser_warning (s s0 : t) :
  round_view s0 = round_view s -> keeps s (_pattern_laser_warning s0).
Proof.
  intros H. unfold _pattern_laser_warning, LaserBeam.init. keeps_auto.
Qed.

Lemma keeps_snake_wave (s s0 : t) :
  round_view s0 = round_view s -> keeps s (_pattern_snake_wave s0).
Proof. intros H. unfold _pattern_snake_wave. keeps_auto. Qed.

Lemma view_step_blade (px py : R) (s : t) (k : nat) :
  round_view (step_blade px py s k) = round_view s.
Proof.
  unfold step_blade.
  destruct (sprites s !! k) as [[?|?|?|blade]|]; try reflexivity.
  destruct (HomingBlade.update blade) as [blade' ok].
  destruct ok, (alive k _); reflexivity.
Qed.

Lemma view_step_ring (s : t) (k : nat) :
  round_view (step_ring s k) = round_view s.
Proof.
  unfold step_ring.
  destruct (sprites s !! k) as [[bullet|?|?|?]|]; try reflexivity.
  destruct (Projectile.extra bullet); try reflexivity.
  cbv zeta. destruct (Rgtb _ _); reflexivity.
Qed.

Lemma view_step_cross (s : t) (k : nat) :
  round_view (step_cross s k) = round_view s.
Proof.
  unfold step_cross.
  destruct (sprites s !! k) as [[bullet|?|?|?]|]; try reflexivity.
  destruct (Projectile.extra bullet); reflexivity.
Qed.

#[local] Hint Rewrite view_step_blade view_step_ring view_step_cross : view.

Lemma keeps_homing_blades (px py : R) (s s0 : t) :
  round_view s0 = round_view s -> keeps s (_pattern_homing_blades px py s0).
Proof. intros H. unfold _pattern_homing_blades. keeps_auto. Qed.

Lemma keeps_expanding_ring (cfg : Settings) (s s0 : t) :
  round_view s0 = round_view s -> keeps s (_pattern_expanding_ring cfg s0).
Proof. intros H. unfold _pattern_expanding_ring. keeps_auto. Qed.

Lemma keeps_gravity_wells (cfg : Settings) (px py : R) (s s0 : t) :
  round_view s0 = round_view s -> keeps s (_pattern_gravity_wells cfg px py s0).
Proof. intros H. unfold _pattern_gravity_wells. keeps_auto. Qed.

Lemma keeps_rotating_cross (cfg : Settings) (px py : R) (s s0 : t) :
  round_view s0 = round_view s -> keeps s (_pattern_rotating_cross cfg px py s0).
Proof. intros H. unfold _pattern_rotating_cross. keeps_auto. Qed.

(** The primary pattern, whichever it is, leaves the scheduling part as
    it is. *)
Lemma keeps_execute_current (cfg : Settings) (px py : R) (s s0 : t) :
  round_view s0 = round_view s ->
  keeps s (_execute_current_pattern cfg px py s0).
Proof.
  intros H. unfold _execute_current_pattern.
  destruct (current_pattern s0) as [pattern|]; [|apply keeps_ret, H].
  repeat match goal with
         | |- keeps _ (if ?c then _ else _) => destruct c
         end;
    eauto using keeps_line_rain, keeps_circle_burst, keeps_targeting,
      keeps_bouncing_walls, keeps_spiral, keeps_laser_warning,
      keeps_snake_wave, keeps_homing_blades, keeps_expanding_ring,
      keeps_gravity_wells, keeps_rotating_cross, keeps_ret.
Qed.

Lemma keeps_execute_secondary (cfg : Settings) (px py : R) (s s0 : t) :
  round_view s0 = round_view s ->
  keeps s (_execute_secondary_pattern cfg px py s0).
Proof.
  intros H. unfold _execute_secondary_pattern.
  destruct (secondary_pattern s0) as [pattern|]; [|apply keeps_ret, H].
  repeat match goal with
         | |- keeps _ (if ?c then _ else _) => destruct c
         end;
    eauto using keeps_line_rain, keeps_circle_burst, keeps_targeting,
      keeps_bouncing_walls, keeps_ret.
Qed.

(** ** The attack manager: rounds *)

Lemma PATTERN_TYPES_NoDup : NoDup PATTERN_TYPES.
Proof. apply (bool_decide_unpack _). vm_compute. reflexivity. Qed.

Lemma PATTERN_TYPES_length : length PATTERN_TYPES = 11%nat.
Proof. reflexivity. Qed.

(** No pattern is both basic and complex. *)
Lemma basic_not_complex (p : string) :
  p ∈ BASIC_PATTERNS -> p ∈ COMPLEX_PATTERNS -> False.
Proof.
  intros Hb Hc. pose proof PATTERN_TYPES_NoDup as Hnd.
  unfold PATTERN_TYPES in Hnd. apply NoDup_app in Hnd as (_ & Hdis & _).
  exact (Hdis p Hb Hc).
Qed.

(** A basic pattern has another basic pattern next to it. *)
Lemma other_basic_nonempty (p : string) :
  filter (fun q => q <> p) BASIC_PATTERNS <> [].
Proof.
  intros E.
  destruct (decide ("line_rain" = p)) as [<-|Hne].
  - assert (H : "circle_burst" ∈ filter (fun q => q <> "line_rain") BASIC_PATTERNS).
    { apply list_elem_of_filter. split; [done|]. unfold BASIC_PATTERNS.
      apply elem_of_cons. right. left. }
    rewrite E in H. inversion H.
  - assert (H : "line_rain" ∈ filter (fun q => q <> p) BASIC_PATTERNS).
    { apply list_elem_of_filter. split; [exact Hne|]. left. }
    rewrite E in H. inversion H.
Qed.

Lemma choose_secondary_inv (p : string) (s s' : t) (g g' : Random.state) :
  choose_secondary p s g = Some (s', g') ->
  exists o, s' = with_secondary_pattern o s /\ secondary_for p o.
Proof.
  unfold choose_secondary. destruct (bool_decide (p ∈ BASIC_PATTERNS)) eqn:Hb.
  - apply bool_decide_eq_true in Hb. intros H.
    apply bind_Some in H as (u & g1 & _ & H).
    destruct (Rltb u 0.3).
    + apply bind_Some in H as (c & g2 & Hc & H).
      apply ret_Some in H as [<- _].
      apply choice_Some, list_elem_of_filter in Hc as [Hne Hin].
      exists (Some c). split; [reflexivity|]. cbn. auto.
    + apply ret_Some in H as [<- _]. exists None. split; [reflexivity|exact I].
  - intros H. apply ret_Some in H as [<- _].
    exists None. split; [reflexivity|exact I].
Qed.

Lemma choose_secondary_total (p : string) (s : t) (g : Random.state) :
  exists s' g', choose_secondary p s g = Some (s', g').
Proof.
  unfold choose_secondary. destruct (bool_decide (p ∈ BASIC_PATTERNS)).
  - unfold Random.bind at 1. cbn [Random.random Random.bind Random.next Random.ret].
    destruct (Rltb _ 0.3).
    + destruct (choice_total (filter (fun q => q <> p) BASIC_PATTERNS)
                  (Random.mk (Random.draws g) (S (Random.cursor g))))
        as (c & g2 & Hc & _); [apply other_basic_nonempty|].
      unfold Random.bind. rewrite Hc. eexists _, _. reflexivity.
    + eexists _, _. reflexivity.
  - eexists _, _. reflexivity.
Qed.

(** [start_round_with_pattern_count] never fails; the queue has
    [max(1, min(patterns_count, 11))] entries, distinct and valid. *)
Lemma start_round_with_pattern_count_spec (n : Z) (s : t) (g : Random.state) :
  exists queue first o g',
    start_round_with_pattern_count n s g = Some (started queue first o s, g')
    /\ length queue = Z.to_nat (Z.max 1 (Z.min n 11))
    /\ NoDup queue
    /\ (forall p, p ∈ queue -> p ∈ PATTERN_TYPES)
    /\ queue !! 0%nat = Some first
    /\ secondary_for first o.
Proof.
  unfold start_round_with_pattern_count. rewrite PATTERN_TYPES_length.
  change (Z.of_nat 11) with 11.
  set (count := Z.max 1 (Z.min n 11)).
  destruct (sample_spec PATTERN_TYPES count g PATTERN_TYPES_NoDup)
    as (queue & g1 & Hs & Hlen & Hnd & Hsub).
  { rewrite PATTERN_TYPES_length. subst count. lia. }
  destruct queue as [|first queue'] eqn:Hq.
  { cbn in Hlen. subst count. lia. }
  rewrite <- Hq in *.
  destruct (choose_secondary_total first
              (with_current_pattern (Some first)
                 (with_current_pattern_index 0%nat (with_attack_queue queue s))) g1)
    as (s2 & g2 & Hc).
  destruct (choose_secondary_inv _ _ _ _ _ Hc) as (o & -> & Ho).
  exists queue, first, o, g2.
  split; [|repeat split; try assumption; subst queue; reflexivity].
  unfold Random.bind at 1. rewrite Hs.
  unfold Random.bind at 1.
  replace (Z.to_nat (count - Z.of_nat (length queue))) with 0%nat by lia.
  cbn [fill_queue Random.ret].
  replace (queue !! 0%nat) with (Some first) by (subst queue; reflexivity).
  unfold Random.bind. rewrite Hc. reflexivity.
Qed.

(** C2, as amended. For every requested [patterns_count], starting a
    round with [start_round_with_pattern_count] succeeds and yields an
    active round at the first entry of a queue whose entries are all
    valid pattern identifiers. When [patterns_count] is at most 11 the
    queue has [max(1, patterns_count)] entries, a request below one being
    raised to one, and the entries are pairwise distinct (sampled without
    replacement). *)
Theorem C2_start_round_queue (patterns_count : Z) (s : t) (g : Random.state) :
  exists s' g',
    start_round_with_pattern_count patterns_count s g = Some (s', g')
    /\ (forall p, p ∈ attack_queue s' -> p ∈ PATTERN_TYPES)
    /\ (patterns_count <= 11 ->
        Z.of_nat (length (attack_queue s')) = Z.max 1 patterns_count
        /\ NoDup (attack_queue s'))
    /\ round_active s' = true
    /\ current_pattern_index s' = 0%nat
    /\ current_pattern s' = attack_queue s' !! 0%nat.
Proof.
  destruct (start_round_with_pattern_count_spec patterns_count s g)
    as (queue & first & o & g' & H & Hlen & Hnd & Hsub & Hfirst & _).
  exists (started queue first o s), g'.
  split; [exact H|].
  change (attack_queue (started queue first o s)) with queue.
  change (round_active (started queue first o s)) with true.
  change (current_pattern_index (started queue first o s)) with 0%nat.
  change (current_pattern (started queue first o s)) with (Some first).
  repeat split; try assumption; try lia. symmetry. exact Hfirst.
Qed.

(** C2 as stated fails for a request below one: a round started with
    [patterns_count = 0] has a queue of one entry, not of none. *)
Lemma C2_counterexample :
  ~ exists s' g',
      start_round_with_pattern_count 0
        (sample_manager "line_rain" None 0 false) sample_rng = Some (s', g')
      /\ Z.of_nat (length (attack_queue s')) = 0.
Proof.
  intros (s' & g' & H & Hlen).
  destruct (start_round_with_pattern_count_spec 0
              (sample_manager "line_rain" None 0 false) sample_rng)
    as (queue & first & o & g1 & H1 & Hl & _).
  rewrite H1 in H. injection H as <- _.
  change (attack_queue (started queue first o _)) with queue in Hlen.
  rewrite Hl in Hlen. vm_compute in Hlen. discriminate.
Qed.

(** ** The attack manager: the tick *)

(** [_next_pattern] never fails. It moves the index by one; past the end
    of the queue it ends the round, otherwise it starts the entry at the
    new index with a secondary pattern fit for it. The arena is not
    touched. *)
Lemma next_pattern_spec (s : t) (g : Random.state) :
  exists s' g',
    _next_pattern s g = Some (s', g')
    /\ current_pattern_index s' = S (current_pattern_index s)
    /\ attack_queue s' = attack_queue s
    /\ arena_view s' = arena_view s
    /\ in_gap s' = in_gap s /\ gap_timer s' = gap_timer s
    /\ ((length (attack_queue s) <= S (current_pattern_index s))%nat ->
        round_active s' = false /\ current_pattern s' = None)
    /\ ((S (current_pattern_index s) < length (attack_queue s))%nat ->
        round_active s' = round_active s
        /\ pattern_timer s' = 0
        /\ exists next,
             attack_queue s !! S (current_pattern_index s) = Some next
             /\ current_pattern s' = Some next
             /\ secondary_for next (secondary_pattern s')).
Proof.
  unfold _next_pattern.
  replace (current_pattern_index s + 1)%nat with (S (current_pattern_index s))
    by lia.
  cbv zeta. cbn [attack_queue current_pattern_index with_current_pattern_index].
  destruct (bool_decide _) eqn:Hb.
  - apply bool_decide_eq_true in Hb.
    eexists _, _. split; [reflexivity|].
    repeat split; try lia.
  - apply bool_decide_eq_false in Hb.
    destruct (lookup_lt_is_Some_2 (attack_queue s) (S (current_pattern_index s)))
      as [next Hnext]; [lia|].
    rewrite Hnext.
    match goal with
    | |- context [choose_secondary next ?s0 g] =>
        destruct (choose_secondary_total next s0 g) as (s2 & g2 & Hc);
        destruct (choose_secondary_inv _ _ _ _ _ Hc) as (o & -> & Ho)
    end.
    eexists _, g2. split; [exact Hc|].
    repeat split; try lia. exists next. repeat split. exact Ho.
Qed.

(** A tick of a running pattern whose time is up. *)
Lemma update_pattern_over (cfg : Settings) (px py : R) (s : t)
    (g : Random.state) :
  round_active s = true -> in_gap s = false ->
  ATTACK_DURATION cfg <= pattern_timer s + 1 ->
  update cfg px py s g
  = Some ((true, _end_current_pattern
                   (with_pattern_timer (pattern_timer s + 1) s)), g).
Proof.
  intros Ha Hg Ht. unfold update. rewrite Ha, Hg. cbn [negb].
  cbv zeta. cbn [pattern_timer with_pattern_timer].
  destruct (Z.geb_spec (pattern_timer s + 1) (ATTACK_DURATION cfg)); [|lia].
  reflexivity.
Qed.

(** A tick inside the gap. *)
Lemma update_gap_waits (cfg : Settings) (px py : R) (s : t)
    (g : Random.state) :
  round_active s = true -> in_gap s = true ->
  gap_timer s + 1 < GAP_BETWEEN_ATTACKS cfg ->
  update cfg px py s g = Some ((true, with_gap_timer (gap_timer s + 1) s), g).
Proof.
  intros Ha Hg Ht. unfold update. rewrite Ha, Hg. cbn [negb].
  cbv zeta. cbn [gap_timer with_gap_timer].
  destruct (Z.geb_spec (gap_timer s + 1) (GAP_BETWEEN_ATTACKS cfg)); [lia|].
  reflexivity.
Qed.

(** The tick that ends the gap. *)
Lemma update_gap_over (cfg : Settings) (px py : R) (s : t)
    (g : Random.state) :
  round_active s = true -> in_gap s = true ->
  GAP_BETWEEN_ATTACKS cfg <= gap_timer s + 1 ->
  update cfg px py s g
  = (s' <- _next_pattern
             (with_gap_timer 0
                (with_in_gap false (with_gap_timer (gap_timer s + 1) s))) ;;
     Random.ret (true, s')) g.
Proof.
  intros Ha Hg Ht. unfold update. rewrite Ha, Hg. cbn [negb].
  cbv zeta. cbn [gap_timer with_gap_timer].
  destruct (Z.geb_spec (gap_timer s + 1) (GAP_BETWEEN_ATTACKS cfg)); [|lia].
  reflexivity.
Qed.

(** Inside the gap the ticks only count. *)
Lemma ticks_in_gap (cfg : Settings) (px py : R) (n : nat) :
  forall (s : t) (g : Random.state),
    round_active s = true -> in_gap s = true ->
    gap_timer s + Z.of_nat n < GAP_BETWEEN_ATTACKS cfg ->
    ticks cfg px py n s g
    = Some (with_gap_timer (gap_timer s + Z.of_nat n) s, g).
Proof.
  induction n as [|n IH]; intros s g Ha Hg Ht.
  - cbn [ticks Random.ret].
    replace (gap_timer s + Z.of_nat 0) with (gap_timer s) by lia.
    destruct s; reflexivity.
  - cbn [ticks]. unfold Random.bind.
    rewrite update_gap_waits by (try assumption; lia).
    cbn [snd]. rewrite IH by (cbn; try assumption; lia).
    do 2 f_equal. unfold with_gap_timer; cbn. f_equal. lia.
Qed.

(** C1. On a tick of [AttackManager.update] in an active round:
    - when the running pattern's counter reaches [ATTACK_DURATION], the
      manager empties the bullets group, drops the lasers, the gravity
      wells, the cross and the blades, and enters the gap, the queue
      index staying where it is;
    - in the gap the tick succeeds and leaves the arena as it is: no
      projectile and no hazard is spawned;
    - while the gap counter is below [GAP_BETWEEN_ATTACKS] the tick only
      counts, and so do any number of ticks that stay below it; the tick
      on which the counter reaches [GAP_BETWEEN_ATTACKS] leaves the gap
      and moves the queue index forward by exactly one, starting the
      pattern at the new index, or ending the round when the index has
      reached the length of the queue. *)
Theorem C1_pattern_end_and_gap (cfg : Settings) (px py : R) (s : t)
    (g : Random.state) :
  round_active s = true ->
  (in_gap s = false -> ATTACK_DURATION cfg <= pattern_timer s + 1 ->
     exists s',
       update cfg px py s g = Some ((true, s'), g)
       /\ bullets_group s' = [] /\ lasers s' = [] /\ gravity_wells s' = []
       /\ gravity_mode s' = false /\ cross_bullets s' = []
       /\ homing_blades s' = []
       /\ in_gap s' = true /\ gap_timer s' = 0 /\ round_active s' = true
       /\ current_pattern_index s' = current_pattern_index s)
  /\ (in_gap s = true ->
      exists s' g',
        update cfg px py s g = Some ((true, s'), g')
        /\ arena_view s' = arena_view s
        /\ attack_queue s' = attack_queue s
        /\ (gap_timer s + 1 < GAP_BETWEEN_ATTACKS cfg ->
            in_gap s' = true /\ gap_timer s' = gap_timer s + 1
            /\ current_pattern_index s' = current_pattern_index s
            /\ round_active s' = true)
        /\ (GAP_BETWEEN_ATTACKS cfg <= gap_timer s + 1 ->
            in_gap s' = false
            /\ current_pattern_index s' = S (current_pattern_index s)
            /\ (round_active s' = false
                <-> (length (attack_queue s) <= S (current_pattern_index s))%nat)
            /\ ((S (current_pattern_index s) < length (attack_queue s))%nat ->
                current_pattern s'
                = attack_queue s !! S (current_pattern_index s)
                /\ pattern_timer s' = 0)))
  /\ (in_gap s = true ->
      forall n : nat,
        gap_timer s + Z.of_nat n < GAP_BETWEEN_ATTACKS cfg ->
        exists s',
          ticks cfg px py n s g = Some (s', g)
          /\ arena_view s' = arena_view s
          /\ in_gap s' = true /\ round_active s' = true
          /\ gap_timer s' = gap_timer s + Z.of_nat n
          /\ current_pattern_index s' = current_pattern_index s).
Proof.
  intros Ha. split; [|split].
  - intros Hg Ht. eexists. split; [apply update_pattern_over; assumption|].
    cbn. repeat split; assumption.
  - intros Hg.
    destruct (Z.lt_ge_cases (gap_timer s + 1) (GAP_BETWEEN_ATTACKS cfg))
      as [Hlt|Hge].
    + eexists _, g. split; [apply update_gap_waits; assumption|].
      cbn. repeat split; try assumption; try lia.
    + rewrite (update_gap_over cfg px py s g Ha Hg Hge).
      destruct (next_pattern_spec
                  (with_gap_timer 0
                     (with_in_gap false (with_gap_timer (gap_timer s + 1) s))) g)
        as (s' & g' & Hn & Hi & Hq & Hv & Hgap & _ & Hend & Hnext).
      cbn [current_pattern_index attack_queue in_gap round_active
           with_gap_timer with_in_gap] in Hi, Hq, Hgap, Hend, Hnext.
      exists s', g'. split; [unfold Random.bind; rewrite Hn; reflexivity|].
      split; [exact Hv|]. split; [exact Hq|]. split; [lia|].
      intros _. split; [exact Hgap|]. split; [exact Hi|]. split.
      * split.
        -- intros Hr.
           destruct (Nat.le_gt_cases (length (attack_queue s))
                       (S (current_pattern_index s))) as [Hle|Hgt]; [exact Hle|].
           destruct (Hnext Hgt) as (Hr' & _). congruence.
        -- intros Hle. apply Hend, Hle.
      * intros Hlt. destruct (Hnext Hlt) as (_ & Hpt & next & Hl & Hc & _).
        rewrite Hl. split; assumption.
  - intros Hg n Hn. eexists. split; [apply ticks_in_gap; assumption|].
    cbn. repeat split; assumption.
Qed.

Lemma C1_witness :
  round_active (sample_manager "line_rain" None 299 false) = true
  /\ exists s',
       update sample_settings 0 0 (sample_manager "line_rain" None 299 false)
         sample_rng = Some ((true, s'), sample_rng)
       /\ bullets_group s' = [] /\ in_gap s' = true.
Proof.
  split; [reflexivity|].
  destruct (C1_pattern_end_and_gap sample_settings 0 0
              (sample_manager "line_rain" None 299 false) sample_rng eq_refl)
    as (Hend & _ & _).
  destruct (Hend eq_refl) as (s' & Hu & Hb & _ & _ & _ & _ & _ & Hg & _).
  { cbn. lia. }
  exists s'. repeat split; assumption.
Defined.

(** ** The attack manager: the secondary pattern *)

(** A tick of a running pattern whose time is not up. *)
Lemma update_running (cfg : Settings) (px py : R) (s : t) (g : Random.state) :
  round_active s = true -> in_gap s = false ->
  pattern_timer s + 1 < ATTACK_DURATION cfg ->
  update cfg px py s g
  = (s2 <- _execute_current_pattern cfg px py
             (with_pattern_timer (pattern_timer s + 1) s) ;;
     s3 <- (if has_secondary s2
            then _execute_secondary_pattern cfg px py s2
            else Random.ret s2) ;;
     Random.ret (true, s3)) g.
Proof.
  intros Ha Hg Ht. unfold update. rewrite Ha, Hg. cbn [negb].
  cbv zeta. cbn [pattern_timer with_pattern_timer].
  destruct (Z.geb_spec (pattern_timer s + 1) (ATTACK_DURATION cfg)); [lia|].
  reflexivity.
Qed.

(** With a secondary pattern present, the tick runs the primary pattern
    once and then hands the secondary one to
    [_execute_secondary_pattern], once. *)
Lemma update_running_secondary (cfg : Settings) (px py : R) (s : t)
    (g : Random.state) (q : string) :
  round_active s = true -> in_gap s = false ->
  pattern_timer s + 1 < ATTACK_DURATION cfg ->
  secondary_pattern s = Some q -> q <> "" ->
  update cfg px py s g
  = (s2 <- _execute_current_pattern cfg px py
             (with_pattern_timer (pattern_timer s + 1) s) ;;
     s3 <- _execute_secondary_pattern cfg px py s2 ;;
     Random.ret (true, s3)) g.
Proof.
  intros Ha Hg Ht Hq Hne. rewrite update_running by assumption.
  unfold Random.bind at 1 3.
  destruct (_execute_current_pattern cfg px py _ g) as [[s2 g2]|] eqn:E;
    [|reflexivity].
  assert (Hv : round_view s2
               = round_view (with_pattern_timer (pattern_timer s + 1) s)).
  { eapply keeps_execute_current; [reflexivity|exact E]. }
  assert (Hs : secondary_pattern s2 = Some q).
  { unfold round_view in Hv. cbn in Hv. congruence. }
  unfold has_secondary. rewrite Hs.
  destruct (String.eqb_spec q ""); [contradiction|]. reflexivity.
Qed.

(** The four branches of [_execute_secondary_pattern]. *)
Lemma execute_secondary_branches (cfg : Settings) (px py : R) (s : t) :
  (secondary_pattern s = Some "line_rain" ->
     _execute_secondary_pattern cfg px py s = _pattern_line_rain cfg true s)
  /\ (secondary_pattern s = Some "circle_burst" ->
      _execute_secondary_pattern cfg px py s = _pattern_circle_burst cfg true s)
  /\ (secondary_pattern s = Some "targeting" ->
      _execute_secondary_pattern cfg px py s
      = _pattern_targeting cfg px py true s)
  /\ (secondary_pattern s = Some "bouncing_walls" ->
      _execute_secondary_pattern cfg px py s = _pattern_bouncing_walls true s).
Proof.
  unfold _execute_secondary_pattern.
  repeat split; intros ->; reflexivity.
Qed.

(** No branch for the two remaining basic patterns. *)
Lemma execute_secondary_missing (cfg : Settings) (px py : R) (s : t) :
  secondary_pattern s = Some "spiral"
  \/ secondary_pattern s = Some "laser_warning" ->
  _execute_secondary_pattern cfg px py s = Random.ret s.
Proof.
  unfold _execute_secondary_pattern. intros [-> | ->]; reflexivity.
Qed.

(** The spiral pattern, when it runs, changes the manager. *)
Lemma spiral_changes (cfg : Settings) (s s' : t) (g g' : Random.state) :
  _pattern_spiral cfg s g = Some (s', g') -> s' <> s.
Proof.
  unfold _pattern_spiral. cbv zeta.
  cbn [pattern_internal_timer with_pattern_internal_timer].
  destruct (Z.geb_spec (pattern_internal_timer s + 1) 3) as [Hge|Hlt];
    intros H; apply ret_Some in H as [<- _]; intros E.
  - apply (f_equal next_sprite) in E.
    change (py_range 2) with [0; 1] in E. cbn in E. lia.
  - apply (f_equal pattern_internal_timer) in E. cbn in E. lia.
Qed.

(** The laser pattern, when it runs, changes the manager. *)
Lemma laser_warning_changes (s s' : t) (g g' : Random.state) :
  _pattern_laser_warning s g = Some (s', g') -> s' <> s.
Proof.
  unfold _pattern_laser_warning. cbv zeta.
  cbn [laser_spawn_timer with_laser_spawn_timer with_lasers].
  destruct (Z.geb_spec (laser_spawn_timer s + 1) 60) as [Hge|Hlt]; intros H.
  - apply bind_Some in H as (l & g1 & _ & H). apply ret_Some in H as [<- _].
    intros E. apply (f_equal laser_spawn_timer) in E. cbn in E. lia.
  - apply ret_Some in H as [<- _].
    intros E. apply (f_equal laser_spawn_timer) in E. cbn in E. lia.
Qed.

(** C3, where the code departs from it. In a running pattern whose time
    is not up, with [spiral] or [laser_warning] as the secondary pattern,
    a tick is the primary pattern alone: [_execute_secondary_pattern] has
    no branch for these two and returns the manager as it got it, whereas
    a run of [_pattern_spiral] or of [_pattern_laser_warning] always
    changes the manager. The secondary pattern is executed zero times on
    that tick, not once. *)
Theorem C3_secondary_not_executed (cfg : Settings) (px py : R) (s : t)
    (g : Random.state) :
  round_active s = true -> in_gap s = false ->
  pattern_timer s + 1 < ATTACK_DURATION cfg ->
  secondary_pattern s = Some "spiral"
  \/ secondary_pattern s = Some "laser_warning" ->
  update cfg px py s g
  = (s2 <- _execute_current_pattern cfg px py
             (with_pattern_timer (pattern_timer s + 1) s) ;;
     Random.ret (true, s2)) g
  /\ (forall s0 g0 s1 g1,
        _pattern_spiral cfg s0 g0 = Some (s1, g1) -> s1 <> s0)
  /\ (forall s0 g0 s1 g1,
        _pattern_laser_warning s0 g0 = Some (s1, g1) -> s1 <> s0).
Proof.
  intros Ha Hg Ht Hq.
  split; [|split; [intros; eapply spiral_changes; eauto
                  |intros; eapply laser_warning_changes; eauto]].
  assert (exists q, secondary_pattern s = Some q /\ q <> ""
                    /\ (q = "spiral" \/ q = "laser_warning"))
    as (q & Hs & Hne & Hq').
  { destruct Hq as [Hq|Hq]; eexists; (split; [exact Hq|]); split; auto; done. }
  rewrite (update_running_secondary cfg px py s g q) by assumption.
  unfold Random.bind at 1 3.
  destruct (_execute_current_pattern cfg px py _ g) as [[s2 g2]|] eqn:E;
    [|reflexivity].
  assert (Hv : round_view s2
               = round_view (with_pattern_timer (pattern_timer s + 1) s)).
  { eapply keeps_execute_current; [reflexivity|exact E]. }
  assert (Hs2 : secondary_pattern s2 = Some q).
  { unfold round_view in Hv. cbn in Hv. congruence. }
  rewrite execute_secondary_missing; [reflexivity|].
  rewrite Hs2. destruct Hq' as [-> | ->]; auto.
Qed.

Lemma C3_witness :
  secondary_pattern (sample_manager "line_rain" (Some "spiral") 0 false)
  = Some "spiral"
  /\ update sample_settings 0 0
       (sample_manager "line_rain" (Some "spiral") 0 false) sample_rng
     = (s2 <- _pattern_line_rain sample_settings false
                (sample_manager "line_rain" (Some "spiral") 1 false) ;;
        Random.ret (true, s2)) sample_rng.
Proof.
  split; [reflexivity|].
  refine (proj1 (C3_secondary_not_executed sample_settings 0 0
                   (sample_manager "line_rain" (Some "spiral") 0 false)
                   sample_rng eq_refl eq_refl _ (or_introl eq_refl))).
  cbn. lia.
Defined.

(** ** The attack manager: the invariant of the secondary pattern *)

Lemma secondary_ok_same (s s' : t) :
  round_active s' = round_active s ->
  current_pattern s' = current_pattern s ->
  secondary_pattern s' = secondary_pattern s ->
  secondary_ok s -> secondary_ok s'.
Proof. unfold secondary_ok. intros -> -> ->. auto. Qed.

Lemma secondary_ok_view (s s' : t) :
  round_view s' = round_view s -> secondary_ok s -> secondary_ok s'.
Proof.
  unfold round_view. intros [= _ _ _ _ _ Ha Hc Hs].
  apply secondary_ok_same; assumption.
Qed.

Lemma secondary_ok_inactive (s : t) : round_active s = false -> secondary_ok s.
Proof. unfold secondary_ok. intros ->. discriminate. Qed.

Lemma secondary_ok_for (s : t) (p : string) :
  current_pattern s = Some p -> secondary_for p (secondary_pattern s) ->
  secondary_ok s.
Proof.
  unfold secondary_ok, secondary_for. intros Hc Hs _.
  destruct (secondary_pattern s) as [q|]; [|exact I].
  destruct Hs as (Hp & Hq & Hne). eauto.
Qed.

Lemma secondary_ok_started (queue : list string) (first : string)
    (o : option string) (s : t) :
  secondary_for first o -> secondary_ok (started queue first o s).
Proof. intros Ho. apply (secondary_ok_for _ first); [reflexivity|exact Ho]. Qed.

(** The outcomes of [_start_new_round]. *)
Lemma start_new_round_inv (cfg : Settings) (s s' : t) (g g' : Random.state) :
  _start_new_round cfg s g = Some (s', g') ->
  exists queue first o,
    s' = started queue first o s /\ secondary_for first o.
Proof.
  unfold _start_new_round. intros H.
  apply bind_Some in H as (q0 & g1 & _ & H).
  apply bind_Some in H as (queue & g2 & _ & H).
  destruct (queue !! 0%nat) as [first|]; [|discriminate].
  apply bind_Some in H as (s2 & g3 & Hc & H).
  apply ret_Some in H as [<- _].
  apply choose_secondary_inv in Hc as (o & -> & Ho).
  exists queue, first, o. split; [reflexivity|exact Ho].
Qed.

(** A tick keeps the invariant. *)
Lemma update_secondary_ok (cfg : Settings) (px py : R) (s s' : t)
    (g g' : Random.state) (flag : bool) :
  secondary_ok s -> update cfg px py s g = Some ((flag, s'), g') ->
  secondary_ok s'.
Proof.
  intros Hok H.
  destruct (round_active s) eqn:Ha.
  2:{ unfold update in H. rewrite Ha in H. cbn in H. injection H as _ <- _.
      exact Hok. }
  destruct (in_gap s) eqn:Hg.
  - destruct (Z.lt_ge_cases (gap_timer s + 1) (GAP_BETWEEN_ATTACKS cfg))
      as [Hlt|Hge].
    + rewrite update_gap_waits in H by assumption. injection H as _ <- _.
      revert Hok. apply secondary_ok_same; reflexivity.
    + rewrite update_gap_over in H by assumption.
      apply bind_Some in H as (s1 & g1 & Hn & H).
      apply ret_Some in H as [[= _ <-] _].
      destruct (next_pattern_spec
                  (with_gap_timer 0
                     (with_in_gap false (with_gap_timer (gap_timer s + 1) s))) g)
        as (s2 & g2 & Hn' & _ & _ & _ & _ & _ & Hend & Hnext).
      rewrite Hn in Hn'. injection Hn' as <- <-.
      cbn [current_pattern_index attack_queue with_gap_timer with_in_gap]
        in Hend, Hnext.
      destruct (Nat.le_gt_cases (length (attack_queue s))
                  (S (current_pattern_index s))) as [Hle|Hgt].
      * apply secondary_ok_inactive, Hend, Hle.
      * destruct (Hnext Hgt) as (_ & _ & next & _ & Hc & Hs).
        apply (secondary_ok_for _ next); assumption.
  - destruct (Z.lt_ge_cases (pattern_timer s + 1) (ATTACK_DURATION cfg))
      as [Hlt|Hge].
    + rewrite update_running in H by assumption.
      apply bind_Some in H as (s2 & g2 & H2 & H).
      apply bind_Some in H as (s3 & g3 & H3 & H).
      apply ret_Some in H as [[= _ <-] _].
      set (s1 := with_pattern_timer (pattern_timer s + 1) s) in *.
      assert (Hv2 : round_view s2 = round_view s1).
      { eapply (keeps_execute_current cfg px py s1); [|exact H2]. reflexivity. }
      assert (Hv3 : round_view s3 = round_view s1).
      { destruct (has_secondary s2).
        - eapply (keeps_execute_secondary cfg px py s1); [exact Hv2|exact H3].
        - apply ret_Some in H3 as [<- _]. exact Hv2. }
      apply (secondary_ok_view s1 s3 Hv3).
      revert Hok. apply secondary_ok_same; reflexivity.
    + rewrite update_pattern_over in H by assumption. injection H as _ <- _.
      revert Hok. apply secondary_ok_same; reflexivity.
Qed.

(** Every call of a public method keeps the invariant. *)
Lemma run_secondary_ok (cfg : Settings) (c : call) (s s' : t)
    (g g' : Random.state) :
  secondary_ok s -> run cfg c s g = Some (s', g') -> secondary_ok s'.
Proof.
  intros Hok H. destruct c; cbn [run] in H.
  - apply bind_Some in H as ([flag s1] & g1 & Hu & H).
    apply ret_Some in H as [<- _]. cbn [snd].
    eapply update_secondary_ok; eauto.
  - apply start_new_round_inv in H as (queue & first & o & -> & Ho).
    apply secondary_ok_started, Ho.
  - destruct (start_round_with_pattern_count_spec patterns_count s g)
      as (queue & first & o & g1 & H1 & _ & _ & _ & _ & Ho).
    rewrite H1 in H. injection H as <- _.
    apply secondary_ok_started, Ho.
  - apply ret_Some in H as [<- _]. apply secondary_ok_inactive. reflexivity.
  - apply ret_Some in H as [<- _]. revert Hok. apply secondary_ok_same; reflexivity.
  - apply ret_Some in H as [<- _]. revert Hok. apply secondary_ok_same; reflexivity.
  - apply ret_Some in H as [<- _]. revert Hok. apply secondary_ok_same; reflexivity.
Qed.

Lemma reachable_secondary_ok (cfg : Settings) (s : t) :
  reachable cfg s -> secondary_ok s.
Proof.
  induction 1 as [box g g' s Hinit|c g g' s s' _ IH Hrun|store group s _ IH].
  - unfold init in Hinit.
    apply start_new_round_inv in Hinit as (queue & first & o & -> & Ho).
    apply secondary_ok_started, Ho.
  - eapply run_secondary_ok; eauto.
  - revert IH. apply secondary_ok_same; reflexivity.
Qed.

(** C10. In every state the manager can reach, from its constructor
    through any calls of [update], [start_round],
    [start_round_with_pattern_count], [reset], [set_difficulty],
    [clear_bullets] and [set_patterns_per_round] with any draws of the
    generator, and whatever the engine does to the bullets group in
    between, an active round has no secondary pattern or has a basic one,
    next to a basic primary pattern that differs from it; with a complex
    primary pattern there is no secondary pattern. *)
Theorem C10_secondary_invariant (cfg : Settings) (s : t) :
  reachable cfg s -> round_active s = true ->
  (secondary_pattern s = None
   \/ exists q p,
        secondary_pattern s = Some q /\ current_pattern s = Some p
        /\ q ∈ BASIC_PATTERNS /\ p ∈ BASIC_PATTERNS /\ q <> p)
  /\ (forall p, current_pattern s = Some p -> p ∈ COMPLEX_PATTERNS ->
        secondary_pattern s = None).
Proof.
  intros Hr Ha. pose proof (reachable_secondary_ok cfg s Hr Ha) as Hok.
  destruct (secondary_pattern s) as [q|]; [|split; [left|]; reflexivity].
  destruct Hok as (Hq & p & Hc & Hp & Hne). split.
  - right. exists q, p. repeat split; assumption.
  - intros p' Hc' Hcomplex. rewrite Hc in Hc'. injection Hc' as <-.
    destruct (basic_not_complex p Hp Hcomplex).
Qed.

Lemma C10_witness :
  exists s g',
    init sample_settings sample_box sample_rng_6 = Some (s, g')
    /\ round_active s = true
    /\ current_pattern s = Some "snake_wave"
    /\ secondary_pattern s = None.
Proof.
  assert (E : exists s g',
             init sample_settings sample_box sample_rng_6 = Some (s, g')
             /\ round_active s = true
             /\ current_pattern s = Some "snake_wave").
  { vm_compute. eexists _, _. repeat split. }
  destruct E as (s & g' & Hinit & Ha & Hc).
  exists s, g'. repeat split; try assumption.
  destruct (C10_secondary_invariant sample_settings s
              (reachable_init _ _ _ _ _ Hinit) Ha) as [_ Hcomplex].
  apply (Hcomplex "snake_wave" Hc).
  unfold COMPLEX_PATTERNS. left.
Defined.

(* ================================================================== *)
(** * Part III: further properties of the code *)
(* ================================================================== *)

(** ** Projectiles: the kill region, whole-number velocities, aiming *)

(** A projectile bound to the arena survives an [update] exactly when
    its rect, after the move, lies inside the arena widened by 100 on
    every side. *)
Theorem projectile_alive_iff_in_region (box : Rect.t) (p : Projectile.t) :
  0 <= Rect.w box -> 0 <= Rect.h box ->
  0 < Rect.w (Projectile.rect p) -> 0 < Rect.h (Projectile.rect p) ->
  let moved := Projectile.update (Projectile.set_bounds box p) in
  Projectile.bounds (Projectile.set_bounds box p)
  = Some (Projectile.kill_region box)
  /\ (snd moved = true
      <-> Rect.inside (Projectile.kill_region box) (Projectile.rect (fst moved)))
  /\ (Rect.inside (Projectile.kill_region box) (Projectile.rect (fst moved))
      <-> Rect.left box - 100 <= Rect.left (Projectile.rect (fst moved))
          /\ Rect.right (Projectile.rect (fst moved)) <= Rect.right box + 100
          /\ Rect.top box - 100 <= Rect.top (Projectile.rect (fst moved))
          /\ Rect.bottom (Projectile.rect (fst moved)) <= Rect.bottom box + 100).
Proof.
  intros Hw Hh Hpw Hph moved. split; [reflexivity|]. split.
  - subst moved. unfold Projectile.update, Projectile.set_bounds.
    cbn [Projectile.bounds Projectile.rect Projectile.vx Projectile.vy snd fst
         Projectile.with_rect].
    unfold Rect.nonzero, Rect.contains, Rect.inside, Projectile.kill_region,
      Rect.left, Rect.right, Rect.top, Rect.bottom, Rect.width, Rect.height,
      Rect.set_x, Rect.set_y.
    cbn [Rect.x Rect.y Rect.w Rect.h].
    change (100 * 2) with 200.
    destruct (Z.eqb_spec (Rect.w box + 200) 0); [lia|].
    destruct (Z.eqb_spec (Rect.h box + 200) 0); [lia|].
    cbn [negb andb]. rewrite negb_involutive, !andb_true_iff.
    rewrite !Z.leb_le, !Z.geb_le, !Z.gtb_lt. lia.
  - unfold Rect.inside, Projectile.kill_region, Rect.left, Rect.right,
      Rect.top, Rect.bottom, Rect.width, Rect.height.
    cbn [Rect.x Rect.y Rect.w Rect.h]. lia.
Qed.

Lemma projectile_updates_S (n : nat) (p : Projectile.t) :
  Projectile.updates (S n) p = fst (Projectile.update (Projectile.updates n p)).
Proof. reflexivity. Qed.

(** With a whole-number velocity [(a, b)] the position after [n]
    updates is the start plus [n] times the velocity; size and velocity
    stay as they are. *)
Theorem projectile_integral_motion (p : Projectile.t) (a b : Z) (n : nat) :
  Projectile.vx p = IZR a -> Projectile.vy p = IZR b ->
  Projectile.rect (Projectile.updates n p)
  = Rect.mk (Rect.x (Projectile.rect p) + Z.of_nat n * a)
            (Rect.y (Projectile.rect p) + Z.of_nat n * b)
            (Rect.w (Projectile.rect p)) (Rect.h (Projectile.rect p))
  /\ Projectile.vx (Projectile.updates n p) = IZR a
  /\ Projectile.vy (Projectile.updates n p) = IZR b.
Proof.
  intros Hx Hy. induction n as [|n (IHr & IHx & IHy)].
  - cbn. split; [|split; assumption].
    destruct (Projectile.rect p); cbn. f_equal; lia.
  - rewrite projectile_updates_S.
    split; [|split; assumption].
    rewrite projectile_update_rect, IHr, IHx, IHy. cbn [Rect.x Rect.y Rect.w Rect.h].
    rewrite <- !plus_IZR, !py_int_IZR. f_equal; lia.
Qed.

(** The distance to a target that is not the spawn point is positive. *)
Lemma dist_pos (dx dy : R) :
  dx <> 0%R \/ dy <> 0%R -> (0 < sqrt (dx * dx + dy * dy))%R.
Proof.
  intros H. apply sqrt_lt_R0.
  pose proof (Rle_0_sqr dx) as H1. pose proof (Rle_0_sqr dy) as H2.
  unfold Rsqr in H1, H2.
  destruct H as [H|H].
  - assert (0 < dx * dx)%R by (apply Rsqr_pos_lt in H; exact H). lra.
  - assert (0 < dy * dy)%R by (apply Rsqr_pos_lt in H; exact H). lra.
Qed.

(** The length of [(dx / d * s, dy / d * s)] for the length [d] of
    [(dx, dy)]. *)
Lemma unit_scaled_length (dx dy s : R) :
  let d := sqrt (dx * dx + dy * dy) in
  (0 < d)%R ->
  sqrt (dx / d * s * (dx / d * s) + dy / d * s * (dy / d * s)) = Rabs s.
Proof.
  intros d Hd.
  replace (dx / d * s * (dx / d * s) + dy / d * s * (dy / d * s))%R
    with (s / d * dx * (s / d * dx) + s / d * dy * (s / d * dy))%R
    by (field; lra).
  rewrite sqrt_scaled. change (sqrt (dx * dx + dy * dy)) with d.
  unfold Rdiv. rewrite Rabs_mult.
  rewrite (Rabs_right (/ d)) by (apply Rle_ge; left; apply Rinv_0_lt_compat; lra).
  field. lra.
Qed.

(** A [TargetingBullet] aimed at a target away from its spawn point
    flies along the unit vector toward the target at the given speed,
    scaled by [BULLET_SPEED_MULT]: its velocity has the length
    [|speed * BULLET_SPEED_MULT|]. *)
Theorem targeting_bullet_aims (cfg : Settings) (x y tx ty speed : R) :
  speed <> 0%R -> (tx <> x \/ ty <> y) ->
  let b := Projectile.targeting_bullet cfg x y tx ty (Some speed) in
  let d := sqrt ((tx - x) * (tx - x) + (ty - y) * (ty - y)) in
  (0 < d)%R
  /\ Projectile.vx b = ((tx - x) / d * speed * BULLET_SPEED_MULT cfg)%R
  /\ Projectile.vy b = ((ty - y) / d * speed * BULLET_SPEED_MULT cfg)%R
  /\ sqrt (Projectile.vx b * Projectile.vx b + Projectile.vy b * Projectile.vy b)
     = Rabs (speed * BULLET_SPEED_MULT cfg)
  /\ Projectile.rect b = Rect.mk (py_int x) (py_int y) 10 10.
Proof.
  intros Hs Ht b d.
  assert (Hd : (0 < d)%R).
  { apply dist_pos. destruct Ht; [left|right]; lra. }
  assert (Hvx : Projectile.vx b = ((tx - x) / d * speed * BULLET_SPEED_MULT cfg)%R
          /\ Projectile.vy b = ((ty - y) / d * speed * BULLET_SPEED_MULT cfg)%R
          /\ Projectile.rect b = Rect.mk (py_int x) (py_int y) 10 10).
  { subst b. unfold Projectile.targeting_bullet. fold d.
    assert (Rltb 0 d = true) as -> by (apply Rltb_true; exact Hd).
    assert (Reqb speed 0 = false) as ->.
    { destruct (Reqb speed 0) eqn:E; [|reflexivity].
      apply Reqb_true in E. contradiction. }
    repeat split. }
  destruct Hvx as (Hx & Hy & Hr).
  split; [exact Hd|]. split; [exact Hx|]. split; [exact Hy|].
  split; [|exact Hr].
  rewrite Hx, Hy.
  replace ((tx - x) / d * speed * BULLET_SPEED_MULT cfg)%R
    with ((tx - x) / d * (speed * BULLET_SPEED_MULT cfg))%R by ring.
  replace ((ty - y) / d * speed * BULLET_SPEED_MULT cfg)%R
    with ((ty - y) / d * (speed * BULLET_SPEED_MULT cfg))%R by ring.
  apply (unit_scaled_length (tx - x) (ty - y)). exact Hd.
Qed.

Lemma targeting_bullet_aims_witness :
  let b := Projectile.targeting_bullet sample_settings 0 0 3 4 (Some 5%R) in
  Projectile.vx b = (3 / 5 * 5 * 1)%R.
Proof.
  assert (H5 : (5 <> 0)%R) by lra.
  assert (Ht : (3 <> 0 \/ 4 <> 0)%R) by (left; lra).
  destruct (targeting_bullet_aims sample_settings 0 0 3 4 5 H5 Ht)
    as (_ & Hx & _).
  cbv zeta. rewrite Hx.
  replace ((3 - 0) * (3 - 0) + (4 - 0) * (4 - 0))%R with (5 * 5)%R by lra.
  rewrite sqrt_square by lra. cbn [BULLET_SPEED_MULT sample_settings].
  lra.
Defined.

Lemma projectile_alive_witness :
  snd (Projectile.update (Projectile.set_bounds sample_box sample_line_bullet))
  = true.
Proof.
  assert (H1 : 0 <= Rect.w sample_box) by (cbn; lia).
  assert (H2 : 0 <= Rect.h sample_box) by (cbn; lia).
  assert (H3 : 0 < Rect.w (Projectile.rect sample_line_bullet)) by (cbn; lia).
  assert (H4 : 0 < Rect.h (Projectile.rect sample_line_bullet)) by (cbn; lia).
  destruct (projectile_alive_iff_in_region sample_box sample_line_bullet
              H1 H2 H3 H4) as (_ & Halive & _).
  apply Halive.
  unfold Projectile.update, Projectile.set_bounds, sample_line_bullet.
  cbn [Projectile.rect Projectile.vx Projectile.vy fst Projectile.with_rect
       Rect.set_x Rect.set_y Rect.x Rect.y Rect.w Rect.h Projectile.cls
       Projectile.extra Projectile.bounds].
  rewrite <- !plus_IZR, !py_int_IZR.
  unfold Rect.inside, Projectile.kill_region, Rect.left, Rect.right, Rect.top,
    Rect.bottom, Rect.width, Rect.height, sample_box.
  cbn [Rect.x Rect.y Rect.w Rect.h Rect.set_x Rect.set_y]. lia.
Defined.

Lemma projectile_integral_witness :
  Projectile.rect (Projectile.updates 10 sample_line_bullet)
  = Rect.mk 200 150 40 6.
Proof.
  destruct (projectile_integral_motion sample_line_bullet 0 3 10
              eq_refl eq_refl) as (H & _).
  exact H.
Defined.

(** ** The bouncing square *)

(** Whatever its position and velocity before, a bouncing bullet that
    fits into the arena lies inside the arena after [update]. Each
    velocity component keeps its absolute value; the bounces are counted,
    at most two a call, and the bullet is killed exactly when the count
    has reached [max_bounces]. A bullet smaller than the arena that ends
    on the left or on the top wall has bounced there and flies to the
    right or downward afterwards. *)
Theorem bouncing_bullet_stays_inside (b : BouncingBullet.t) :
  0 <= Rect.w (BouncingBullet.rect b) <= Rect.w (BouncingBullet.box_rect b) ->
  0 <= Rect.h (BouncingBullet.rect b) <= Rect.h (BouncingBullet.box_rect b) ->
  let b' := fst (BouncingBullet.update b) in
  Rect.inside (BouncingBullet.box_rect b) (BouncingBullet.rect b')
  /\ Rabs (BouncingBullet.vx b') = Rabs (BouncingBullet.vx b)
  /\ Rabs (BouncingBullet.vy b') = Rabs (BouncingBullet.vy b)
  /\ BouncingBullet.bounce_count b <= BouncingBullet.bounce_count b'
     <= BouncingBullet.bounce_count b + 2
  /\ (snd (BouncingBullet.update b) = true
      <-> BouncingBullet.bounce_count b' < BouncingBullet.max_bounces b)
  /\ (Rect.w (BouncingBullet.rect b) < Rect.w (BouncingBullet.box_rect b) ->
      Rect.left (BouncingBullet.rect b') = Rect.left (BouncingBullet.box_rect b)
      -> (0 <= BouncingBullet.vx b')%R
         /\ BouncingBullet.bounce_count b < BouncingBullet.bounce_count b')
  /\ (Rect.h (BouncingBullet.rect b) < Rect.h (BouncingBullet.box_rect b) ->
      Rect.top (BouncingBullet.rect b') = Rect.top (BouncingBullet.box_rect b)
      -> (0 <= BouncingBullet.vy b')%R
         /\ BouncingBullet.bounce_count b < BouncingBullet.bounce_count b').
Proof.
  intros Hw Hh b'. subst b'. unfold BouncingBullet.update.
  set (x1 := py_int (IZR (Rect.x (BouncingBullet.rect b)) + BouncingBullet.vx b)).
  set (y1 := py_int (IZR (Rect.y (Rect.set_x x1 (BouncingBullet.rect b)))
                     + BouncingBullet.vy b)).
  unfold Rect.inside, Rect.left, Rect.right, Rect.top, Rect.bottom,
    Rect.set_left, Rect.set_right, Rect.set_top, Rect.set_bottom,
    Rect.set_x, Rect.set_y.
  cbn [Rect.x Rect.y Rect.w Rect.h].
  pose proof (Rabs_pos (BouncingBullet.vx b)) as Hax.
  pose proof (Rabs_pos (BouncingBullet.vy b)) as Hay.
  destruct (Z.leb_spec x1 (Rect.x (BouncingBullet.box_rect b)));
    [|destruct (Z.geb_spec (x1 + Rect.w (BouncingBullet.rect b))
                 (Rect.x (BouncingBullet.box_rect b)
                  + Rect.w (BouncingBullet.box_rect b)))];
    cbn [Rect.x Rect.y Rect.w Rect.h];
    (destruct (Z.leb_spec y1 (Rect.y (BouncingBullet.box_rect b)));
     [|destruct (Z.geb_spec (y1 + Rect.h (BouncingBullet.rect b))
                  (Rect.y (BouncingBullet.box_rect b)
                   + Rect.h (BouncingBullet.box_rect b)))]);
    cbn [fst snd BouncingBullet.rect BouncingBullet.vx BouncingBullet.vy
         BouncingBullet.bounce_count BouncingBullet.max_bounces
         BouncingBullet.box_rect Rect.x Rect.y Rect.w Rect.h];
    rewrite ?Rabs_Ropp, ?Rabs_Rabsolu, negb_true_iff, Z.geb_leb, Z.leb_gt;
    repeat split; try lia; try lra; intros; try lia; try lra.
Qed.

Lemma bouncing_bullet_witness :
  Rect.left (BouncingBullet.rect (fst (BouncingBullet.update sample_bouncing)))
  = 170
  /\ (0 <= BouncingBullet.vx (fst (BouncingBullet.update sample_bouncing)))%R.
Proof.
  assert (Hw : 0 <= Rect.w (BouncingBullet.rect sample_bouncing)
               <= Rect.w (BouncingBullet.box_rect sample_bouncing)) by (cbn; lia).
  assert (Hh : 0 <= Rect.h (BouncingBullet.rect sample_bouncing)
               <= Rect.h (BouncingBullet.box_rect sample_bouncing)) by (cbn; lia).
  destruct (bouncing_bullet_stays_inside sample_bouncing Hw Hh)
    as (_ & _ & _ & _ & _ & Hleft & _).
  assert (E : Rect.left (BouncingBullet.rect
                           (fst (BouncingBullet.update sample_bouncing))) = 170).
  { unfold BouncingBullet.update, sample_bouncing.
    cbn [BouncingBullet.rect BouncingBullet.vx BouncingBullet.vy Rect.x Rect.y
         Rect.set_x Rect.set_y Rect.w Rect.h].
    rewrite <- !plus_IZR, !py_int_IZR. reflexivity. }
  split; [exact E|]. apply Hleft; [cbn; lia|exact E].
Defined.

(** ** The wave bullet *)

Lemma finite_inv (z x : R) :
  Float64.finite z = Some x -> x = Float64.round z.
Proof.
  unfold Float64.finite. destruct (Float64.overflow z); congruence.
Qed.

(** A float is within a power of two when the exact result is. *)
Lemma round_abs_le (z : R) (k : Z) :
  (Rabs z <= powerRZ 2 k)%R -> -1074 <= k ->
  (Rabs (Float64.round z) <= powerRZ 2 k)%R.
Proof.
  intros Hz Hk. rewrite <- round_abs, <- (round_pow2 k Hk).
  apply round_mono, Hz.
Qed.

(** A float is within a whole number that binary64 holds when the exact
    result is. *)
Lemma round_abs_le_IZR (z : R) (n : Z) :
  (Rabs z <= IZR n)%R -> n <= 2 ^ 53 ->
  (Rabs (Float64.round z) <= IZR n)%R.
Proof.
  intros Hz Hn. pose proof (Rabs_pos z) as H0.
  assert (Hn0 : 0 <= n) by (apply le_IZR; lra).
  rewrite <- round_abs, <- (round_IZR n) by lia.
  apply round_mono, Hz.
Qed.

(** The sine that [math.sin] returns is within [[-1, 1]]. *)
Lemma round_sin_bound (a : R) : (Rabs (Float64.round (sin a)) <= 1)%R.
Proof.
  apply (round_abs_le_IZR _ 1); [|lia].
  pose proof (SIN_bound a). apply Rabs_le. lra.
Qed.

(** The ordinate of a wave bullet is within the rounded amplitude of
    its start. *)
Lemma wave_y_bound (w : WaveBullet.t) (t : Z) (y : R) :
  WaveBullet.wave_y w t = Some y ->
  (Float64.round (WaveBullet.start_y w
                  - Float64.round (Rabs (WaveBullet.amplitude w)))
   <= y
   <= Float64.round (WaveBullet.start_y w
                     + Float64.round (Rabs (WaveBullet.amplitude w))))%R.
Proof.
  unfold WaveBullet.wave_y. intros H.
  destruct (Float64.of_int t) as [tf|]; [|discriminate]. cbn in H.
  destruct (Float64.finite (tf * WaveBullet.frequency w)) as [a|];
    [|discriminate]. cbn in H.
  destruct (Float64.finite (Float64.round (sin a) * WaveBullet.amplitude w))
    as [p|] eqn:Hp; [|discriminate]. cbn in H.
  apply finite_inv in Hp, H. subst y.
  pose proof (round_sin_bound a) as Hs.
  set (A := WaveBullet.amplitude w) in *.
  assert (Hq : (Rabs (Float64.round (sin a) * A) <= Rabs A)%R).
  { rewrite Rabs_mult. pose proof (Rabs_pos A).
    pose proof (Rabs_pos (Float64.round (sin a))). nra. }
  assert (Hpb : (Rabs p <= Float64.round (Rabs A))%R).
  { rewrite Hp, <- round_abs. apply round_mono, Hq. }
  apply Rabs_bound in Hpb.
  split; apply round_mono; lra.
Qed.

(** What one [update] does, when it returns. *)
Lemma wave_update_inv (w w1 : WaveBullet.t) (alive : bool) :
  WaveBullet.update w = Some (w1, alive) ->
  WaveBullet.time w1 = WaveBullet.time w + 1
  /\ WaveBullet.x w1 = Float64.round (WaveBullet.x w + WaveBullet.speed_x w)
  /\ WaveBullet.wave_y w (WaveBullet.time w + 1) = Some (WaveBullet.y w1)
  /\ WaveBullet.start_y w1 = WaveBullet.start_y w
  /\ WaveBullet.speed_x w1 = WaveBullet.speed_x w
  /\ WaveBullet.amplitude w1 = WaveBullet.amplitude w
  /\ WaveBullet.frequency w1 = WaveBullet.frequency w
  /\ WaveBullet.box_rect w1 = WaveBullet.box_rect w
  /\ WaveBullet.rect w1
     = Rect.set_center (py_int (WaveBullet.x w1)) (py_int (WaveBullet.y w1))
         (WaveBullet.rect w)
  /\ (alive = true
      <-> Rect.left (WaveBullet.box_rect w) - 20 <= Rect.right (WaveBullet.rect w1)
          /\ Rect.left (WaveBullet.rect w1)
             <= Rect.right (WaveBullet.box_rect w) + 20).
Proof.
  unfold WaveBullet.update. intros H.
  destruct (Float64.finite (WaveBullet.x w + WaveBullet.speed_x w))
    as [x'|] eqn:Hx; [|discriminate]. cbn in H.
  destruct (WaveBullet.wave_y w (WaveBullet.time w + 1)) as [y'|] eqn:Hy;
    [|discriminate]. cbn in H.
  apply finite_inv in Hx. injection H as <- <-.
  cbn [WaveBullet.time WaveBullet.x WaveBullet.y WaveBullet.start_y
       WaveBullet.speed_x WaveBullet.amplitude WaveBullet.frequency
       WaveBullet.box_rect WaveBullet.rect].
  repeat split; try assumption; try reflexivity.
  - rewrite negb_true_iff, orb_false_iff, Z.ltb_ge, Z.gtb_ltb, Z.ltb_ge in H.
    tauto.
  - rewrite negb_true_iff, orb_false_iff, Z.ltb_ge, Z.gtb_ltb, Z.ltb_ge in H.
    tauto.
  - intros [H1 H2].
    rewrite negb_true_iff, orb_false_iff, Z.ltb_ge, Z.gtb_ltb, Z.ltb_ge.
    split; assumption.
Qed.

(** [wave_y] returns when the numbers are of a moderate size. *)
Lemma wave_y_total (w : WaveBullet.t) (t : Z) :
  Z.abs t <= 2 ^ 53 ->
  (Rabs (WaveBullet.frequency w) <= powerRZ 2 900)%R ->
  (Rabs (WaveBullet.amplitude w) <= powerRZ 2 1000)%R ->
  (Rabs (WaveBullet.start_y w) <= powerRZ 2 1000)%R ->
  exists y, WaveBullet.wave_y w t = Some y.
Proof.
  intros Ht Hf Ha Hs. unfold WaveBullet.wave_y.
  rewrite (of_int_exact t Ht). cbn.
  assert (Htf : (Rabs (IZR t * WaveBullet.frequency w) <= powerRZ 2 953)%R).
  { rewrite Rabs_mult. replace 953 with (53 + 900) by lia. rewrite pow2_add.
    assert (H53 : (Rabs (IZR t) <= powerRZ 2 53)%R).
    { rewrite pow2_IZR, <- abs_IZR by lia. apply IZR_le, Ht. }
    pose proof (Rabs_pos (IZR t)). pose proof (Rabs_pos (WaveBullet.frequency w)).
    pose proof (pow2_pos 53). nra. }
  rewrite (finite_Some _ 953 Htf) by lia. cbn.
  set (a := Float64.round (IZR t * WaveBullet.frequency w)).
  pose proof (round_sin_bound a) as Hsin.
  assert (Hp : (Rabs (Float64.round (sin a) * WaveBullet.amplitude w)
                <= powerRZ 2 1000)%R).
  { rewrite Rabs_mult. pose proof (Rabs_pos (WaveBullet.amplitude w)).
    pose proof (Rabs_pos (Float64.round (sin a))). nra. }
  rewrite (finite_Some _ 1000 Hp) by lia. cbn.
  pose proof (round_abs_le _ 1000 Hp ltac:(lia)) as Hp'.
  assert (Hy : (Rabs (WaveBullet.start_y w
                      + Float64.round (Float64.round (sin a)
                                       * WaveBullet.amplitude w))
                <= powerRZ 2 1001)%R).
  { eapply Rle_trans; [apply Rabs_triang|].
    replace 1001 with (1 + 1000) by lia. rewrite pow2_add.
    replace (powerRZ 2 1) with 2%R by (simpl; lra). lra. }
  rewrite (finite_Some _ 1001 Hy) by lia. eauto.
Qed.

Lemma wave_updates_S (n : nat) (w : WaveBullet.t) :
  WaveBullet.updates (S n) w
  = match WaveBullet.updates n w with
    | Some w' => fst <$> WaveBullet.update w'
    | None => None
    end.
Proof. cbn [WaveBullet.updates]. destruct (WaveBullet.updates n w); reflexivity. Qed.

(** What [n] updates leave as they are, and what they count. *)
Lemma wave_updates_fields (n : nat) (w w' : WaveBullet.t) :
  WaveBullet.updates n w = Some w' ->
  WaveBullet.time w' = WaveBullet.time w + Z.of_nat n
  /\ WaveBullet.x w'
     = Nat.iter n (fun x => Float64.round (x + WaveBullet.speed_x w))
                (WaveBullet.x w)
  /\ WaveBullet.start_y w' = WaveBullet.start_y w
  /\ WaveBullet.speed_x w' = WaveBullet.speed_x w
  /\ WaveBullet.amplitude w' = WaveBullet.amplitude w
  /\ WaveBullet.frequency w' = WaveBullet.frequency w
  /\ WaveBullet.box_rect w' = WaveBullet.box_rect w
  /\ Rect.w (WaveBullet.rect w') = Rect.w (WaveBullet.rect w)
  /\ Rect.h (WaveBullet.rect w') = Rect.h (WaveBullet.rect w).
Proof.
  revert w'. induction n as [|n IH]; intros w' H.
  - cbn in H. injection H as <-. cbn. repeat split; lia.
  - rewrite wave_updates_S in H.
    destruct (WaveBullet.updates n w) as [w0|]; [|discriminate].
    destruct (WaveBullet.update w0) as [[w1 alive]|] eqn:E; [|discriminate].
    cbn in H. injection H as <-.
    destruct (IH w0 eq_refl) as (Ht & Hx & Hs & Hv & Ha & Hf & Hb & Hw & Hh).
    apply wave_update_inv in E
      as (Et & Ex & _ & Es & Ev & Ea & Ef & Eb & Er & _).
    rewrite Er. cbn [Rect.set_center Rect.w Rect.h].
    repeat split; try congruence; try lia.
    rewrite Ex, Hv, Hx. reflexivity.
Qed.

(** With whole numbers the abscissa moves without an error. *)
Lemma wave_iter_whole (a v : Z) (n : nat) :
  Z.abs a + Z.of_nat n * Z.abs v <= 2 ^ 53 ->
  Nat.iter n (fun x => Float64.round (x + IZR v)) (IZR a)
  = IZR (a + Z.of_nat n * v).
Proof.
  induction n as [|n IH]; intros H.
  - cbn. f_equal. lia.
  - change (Nat.iter (S n) (fun x => Float64.round (x + IZR v)) (IZR a))
      with (Float64.round
              (Nat.iter n (fun x => Float64.round (x + IZR v)) (IZR a)
               + IZR v)).
    rewrite IH by lia.
    rewrite <- plus_IZR, round_IZR by nia. f_equal. lia.
Qed.

(** [n] updates return when the numbers are of a moderate size. *)
Lemma wave_updates_total (n : nat) (w : WaveBullet.t) (A V : Z) :
  (Rabs (WaveBullet.x w) <= IZR A)%R ->
  (Rabs (WaveBullet.speed_x w) <= IZR V)%R ->
  A + Z.of_nat n * V <= 2 ^ 53 ->
  Z.abs (WaveBullet.time w) + Z.of_nat n <= 2 ^ 53 ->
  (Rabs (WaveBullet.frequency w) <= powerRZ 2 900)%R ->
  (Rabs (WaveBullet.amplitude w) <= powerRZ 2 1000)%R ->
  (Rabs (WaveBullet.start_y w) <= powerRZ 2 1000)%R ->
  exists w',
    WaveBullet.updates n w = Some w'
    /\ (Rabs (WaveBullet.x w') <= IZR (A + Z.of_nat n * V))%R.
Proof.
  intros Hx Hv HA Ht Hf Ha Hs.
  assert (HV : 0 <= V).
  { apply le_IZR. pose proof (Rabs_pos (WaveBullet.speed_x w)). lra. }
  induction n as [|n IH].
  - exists w. split; [reflexivity|].
    replace (A + Z.of_nat 0 * V) with A by lia. exact Hx.
  - destruct IH as (w0 & H0 & Hx0); [nia|lia|].
    pose proof (wave_updates_fields n w w0 H0)
      as (Et & _ & Es & Ev & Ea & Ef & _).
    destruct (wave_y_total w0 (WaveBullet.time w0 + 1)) as [y' Hy];
      [lia|congruence|congruence|congruence|].
    assert (Hsum : (Rabs (WaveBullet.x w0 + WaveBullet.speed_x w0)
                    <= IZR (A + Z.of_nat (S n) * V))%R).
    { eapply Rle_trans; [apply Rabs_triang|]. rewrite Ev.
      replace (A + Z.of_nat (S n) * V) with (A + Z.of_nat n * V + V) by lia.
      rewrite (plus_IZR _ V). lra. }
    assert (Hfin : Float64.finite (WaveBullet.x w0 + WaveBullet.speed_x w0)
                   = Some (Float64.round
                             (WaveBullet.x w0 + WaveBullet.speed_x w0))).
    { apply (finite_Some _ 53); [|lia]. eapply Rle_trans; [exact Hsum|].
      rewrite pow2_IZR by lia. apply IZR_le. lia. }
    rewrite wave_updates_S, H0. unfold WaveBullet.update.
    rewrite Hfin. cbn. rewrite Hy. cbn. eexists. split; [reflexivity|].
    cbn [WaveBullet.x]. apply round_abs_le_IZR; [exact Hsum|lia].
Qed.

(** The trajectory of a wave bullet, in the arithmetic of binary64.
    With numbers of a moderate size [n >= 1] updates return. The abscissa
    moves by the horizontal speed, rounded at every update; with whole
    numbers no update rounds, and it has advanced by [n] times the speed.
    The ordinate is [start_y + sin(time * frequency) * amplitude], every
    operation rounded and [math.sin] taken to round the sine, for the
    frame count [time]; it is within the rounded amplitude of [start_y].
    The rect is centred on the truncated position, and an update leaves
    the bullet alive exactly while its rect is not entirely more than 20
    pixels beyond the left or the right edge of the arena. *)
Theorem wave_bullet_trajectory (w : WaveBullet.t) (n : nat) (A V : Z) :
  (1 <= n)%nat ->
  (Rabs (WaveBullet.x w) <= IZR A)%R ->
  (Rabs (WaveBullet.speed_x w) <= IZR V)%R ->
  A + Z.of_nat n * V <= 2 ^ 53 ->
  Z.abs (WaveBullet.time w) + Z.of_nat n <= 2 ^ 53 ->
  (Rabs (WaveBullet.frequency w) <= powerRZ 2 900)%R ->
  (Rabs (WaveBullet.amplitude w) <= powerRZ 2 1000)%R ->
  (Rabs (WaveBullet.start_y w) <= powerRZ 2 1000)%R ->
  exists w',
    WaveBullet.updates n w = Some w'
    /\ WaveBullet.time w' = WaveBullet.time w + Z.of_nat n
    /\ WaveBullet.x w'
       = Nat.iter n (fun x => Float64.round (x + WaveBullet.speed_x w))
                  (WaveBullet.x w)
    /\ (forall a v : Z,
          WaveBullet.x w = IZR a -> WaveBullet.speed_x w = IZR v ->
          WaveBullet.x w' = IZR (a + Z.of_nat n * v))
    /\ WaveBullet.wave_y w (WaveBullet.time w') = Some (WaveBullet.y w')
    /\ (Float64.round (WaveBullet.start_y w
                       - Float64.round (Rabs (WaveBullet.amplitude w)))
        <= WaveBullet.y w'
        <= Float64.round (WaveBullet.start_y w
                          + Float64.round (Rabs (WaveBullet.amplitude w))))%R
    /\ WaveBullet.rect w'
       = Rect.set_center (py_int (WaveBullet.x w')) (py_int (WaveBullet.y w'))
           (WaveBullet.rect w)
    /\ forall w1 alive,
         WaveBullet.update w = Some (w1, alive) ->
         (alive = true
          <-> Rect.left (WaveBullet.box_rect w) - 20
              <= Rect.right (WaveBullet.rect w1)
              /\ Rect.left (WaveBullet.rect w1)
                 <= Rect.right (WaveBullet.box_rect w) + 20).
Proof.
  intros Hn Hx Hv HA Ht Hf Ha Hs.
  destruct (wave_updates_total n w A V Hx Hv HA Ht Hf Ha Hs) as (w' & H & _).
  exists w'. split; [exact H|].
  pose proof (wave_updates_fields n w w' H) as (Et & Ex & _).
  split; [exact Et|]. split; [exact Ex|].
  assert (HV : 0 <= V).
  { apply le_IZR. pose proof (Rabs_pos (WaveBullet.speed_x w)). lra. }
  split.
  { intros a v Ea Ev. rewrite Ex, Ea, Ev. apply wave_iter_whole.
    rewrite Ea, <- abs_IZR in Hx. rewrite Ev, <- abs_IZR in Hv.
    apply le_IZR in Hx, Hv. nia. }
  destruct n as [|n]; [lia|]. clear Hn.
  rewrite wave_updates_S in H.
  destruct (WaveBullet.updates n w) as [w0|] eqn:H0; [|discriminate].
  destruct (WaveBullet.update w0) as [[w1 alive]|] eqn:E; [|discriminate].
  cbn in H. injection H as <-.
  pose proof (wave_updates_fields n w w0 H0)
    as (Et0 & _ & Es0 & Ev0 & Ea0 & Ef0 & Eb0 & Ew0 & Eh0).
  apply wave_update_inv in E
    as (Et1 & Ex1 & Ey1 & Es1 & Ev1 & Ea1 & Ef1 & Eb1 & Er1 & _).
  assert (Hy : WaveBullet.wave_y w (WaveBullet.time w1)
               = Some (WaveBullet.y w1)).
  { rewrite <- Ey1, Et1. unfold WaveBullet.wave_y.
    rewrite Es0, Ea0, Ef0. reflexivity. }
  split; [exact Hy|]. split; [apply (wave_y_bound w _ _ Hy)|].
  split.
  { rewrite Er1. unfold Rect.set_center. rewrite Ew0, Eh0. reflexivity. }
  intros w2 alive2 E2. apply wave_update_inv in E2. tauto.
Qed.

Lemma wave_bullet_witness :
  exists w',
    WaveBullet.updates 40 sample_wave = Some w'
    /\ WaveBullet.x w' = IZR (160 + 40 * 3)
    /\ (Float64.round (150 - Float64.round (Rabs 30)) <= WaveBullet.y w'
        <= Float64.round (150 + Float64.round (Rabs 30)))%R.
Proof.
  destruct (wave_bullet_trajectory sample_wave 40 160 3)
    as (w' & H & _ & _ & Hx & _ & Hy & _).
  - lia.
  - cbn. rewrite Rabs_pos_eq; lra.
  - cbn. rewrite Rabs_pos_eq; lra.
  - lia.
  - cbn. lia.
  - cbn [sample_wave WaveBullet.init WaveBullet.frequency].
    apply Rle_trans with (powerRZ 2 0); [|apply pow2_le; lia].
    apply round_abs_le; [|lia]. rewrite Rabs_pos_eq by lra. simpl. lra.
  - cbn [sample_wave WaveBullet.init WaveBullet.amplitude].
    apply Rle_trans with (powerRZ 2 5); [|apply pow2_le; lia].
    rewrite Rabs_pos_eq by lra. simpl. lra.
  - cbn [sample_wave WaveBullet.init WaveBullet.start_y].
    apply Rle_trans with (powerRZ 2 8); [|apply pow2_le; lia].
    rewrite Rabs_pos_eq by lra. simpl. lra.
  - exists w'. split; [exact H|]. split; [|exact Hy].
    apply (Hx 160 3); reflexivity.
Defined.

(** ** The homing blade *)













(** ** The life of a gravity well *)

Lemma well_updates_S (n : nat) (g : GravityWell.t) :
  GravityWell.updates (S n) g = GravityWell.update (GravityWell.updates n g).
Proof. reflexivity. Qed.

(** A well from the constructor is active after [n >= 1] updates
    exactly when [n] is below its duration; once inactive it stays so
    and exerts no force. Position, strength and polarity never change. *)
Theorem gravity_well_lifetime (x y strength : R) (repel : bool)
    (duration : Z) (n : nat) :
  let g := GravityWell.updates n (GravityWell.init x y strength repel duration) in
  GravityWell.timer g = Z.of_nat n
  /\ GravityWell.x g = x /\ GravityWell.y g = y
  /\ GravityWell.strength g = strength /\ GravityWell.repel g = repel
  /\ GravityWell.duration g = duration
  /\ (GravityWell.active g = true <-> n = 0%nat \/ Z.of_nat n < duration)
  /\ (GravityWell.active g = false ->
      forall (m : nat) (px py : R),
        GravityWell.apply_force (GravityWell.updates m g) px py = (0, 0)%R).
Proof.
  cbv zeta.
  assert (H : GravityWell.timer
                (GravityWell.updates n (GravityWell.init x y strength repel duration))
              = Z.of_nat n
              /\ GravityWell.x (GravityWell.updates n (GravityWell.init x y strength repel duration)) = x
              /\ GravityWell.y (GravityWell.updates n (GravityWell.init x y strength repel duration)) = y
              /\ GravityWell.strength (GravityWell.updates n (GravityWell.init x y strength repel duration)) = strength
              /\ GravityWell.repel (GravityWell.updates n (GravityWell.init x y strength repel duration)) = repel
              /\ GravityWell.duration (GravityWell.updates n (GravityWell.init x y strength repel duration)) = duration
              /\ (GravityWell.active (GravityWell.updates n (GravityWell.init x y strength repel duration)) = true
                  <-> n = 0%nat \/ Z.of_nat n < duration)).
  { induction n as [|n (Ht & Hx & Hy & Hs & Hr & Hd & Ha)].
    - cbn. repeat split; auto.
    - rewrite well_updates_S. unfold GravityWell.update.
      cbn [GravityWell.timer GravityWell.x GravityWell.y GravityWell.strength
           GravityWell.repel GravityWell.duration GravityWell.active].
      rewrite Ht, Hd. repeat split; try assumption; try lia.
      + destruct (Z.geb_spec (Z.of_nat n + 1) duration); [discriminate|].
        intros _. right. lia.
      + intros [Hn|Hn]; [lia|].
        destruct (Z.geb_spec (Z.of_nat n + 1) duration); [lia|].
        apply Ha. right. lia. }
  destruct H as (Ht & Hx & Hy & Hs & Hr & Hd & Ha).
  repeat split; try assumption; try apply Ha.
  intros Hoff m px py.
  assert (Hm : GravityWell.active
                 (GravityWell.updates m
                    (GravityWell.updates n
                       (GravityWell.init x y strength repel duration))) = false).
  { induction m as [|m IH]; [exact Hoff|].
    rewrite well_updates_S. unfold GravityWell.update.
    cbn [GravityWell.active]. rewrite IH. destruct (_ >=? _); reflexivity. }
  unfold GravityWell.apply_force. rewrite Hm. reflexivity.
Qed.

(** ** The construction of a laser beam *)

Lemma randint_Some (a b r : Z) (g g' : Random.state) :
  Random.randint a b g = Some (r, g') -> a <= r <= b.
Proof.
  unfold Random.randint. destruct (Z.ltb_spec b a) as [Hlt|Hle]; [discriminate|].
  intros Hr. apply bind_Some in Hr as (j & g1 & Hj & Hr).
  apply ret_Some in Hr as [<- _]. apply randbelow_Some in Hj. lia.
Qed.

Lemma randint_total (a b : Z) (g : Random.state) :
  a <= b -> exists r g', Random.randint a b g = Some (r, g') /\ a <= r <= b.
Proof.
  intros Hab. unfold Random.randint. destruct (Z.ltb_spec b a); [lia|].
  destruct (randbelow_total (Z.to_nat (b - a + 1)) g) as (j & g1 & Hj & Hlt);
    [lia|].
  exists (a + Z.of_nat j), g1. split; [|lia].
  unfold Random.bind. rewrite Hj. reflexivity.
Qed.

(** In an arena of at least 40 by 40 pixels the constructor of a laser
    beam succeeds, and a beam it returns lies across the arena: its
    position is at least 20 pixels from the two walls it runs along, so
    its 30 pixel wide rectangle is inside the arena and spans it from
    wall to wall. *)
Theorem laser_beam_init_in_arena (box : Rect.t) (g : Random.state) :
  40 <= Rect.w box -> 40 <= Rect.h box ->
  (exists l g', LaserBeam.init box g = Some (l, g'))
  /\ forall l g',
       LaserBeam.init box g = Some (l, g') ->
       (if LaserBeam.is_horizontal l
        then Rect.top box + 20 <= LaserBeam.pos l <= Rect.bottom box - 20
             /\ Rect.left (LaserBeam.beam_rect l) = Rect.left box
             /\ Rect.right (LaserBeam.beam_rect l) = Rect.right box
        else Rect.left box + 20 <= LaserBeam.pos l <= Rect.right box - 20
             /\ Rect.top (LaserBeam.beam_rect l) = Rect.top box
             /\ Rect.bottom (LaserBeam.beam_rect l) = Rect.bottom box)
       /\ Rect.inside box (LaserBeam.beam_rect l)
       /\ LaserBeam.check_collision l (LaserBeam.beam_rect l) = false.
Proof.
  intros Hw Hh. split.
  - unfold LaserBeam.init.
    destruct (choice_total [true; false] g) as (hz & g1 & Hc & _); [done|].
    destruct hz.
    + destruct (randint_total (Rect.top box + 20) (Rect.bottom box - 20) g1)
        as (p & g2 & Hp & _); [unfold Rect.top, Rect.bottom; lia|].
      eexists _, g2. unfold Random.bind at 1. rewrite Hc.
      unfold Random.bind. rewrite Hp. reflexivity.
    + destruct (randint_total (Rect.left box + 20) (Rect.right box - 20) g1)
        as (p & g2 & Hp & _); [unfold Rect.left, Rect.right; lia|].
      eexists _, g2. unfold Random.bind at 1. rewrite Hc.
      unfold Random.bind. rewrite Hp. reflexivity.
  - intros l g' Hl. unfold LaserBeam.init in Hl.
    apply bind_Some in Hl as (hz & g1 & _ & Hl).
    apply bind_Some in Hl as (p & g2 & Hp & Hl).
    apply ret_Some in Hl as [<- _].
    unfold LaserBeam.check_collision, LaserBeam.beam_rect, Rect.inside,
      Rect.left, Rect.right, Rect.top, Rect.bottom, Rect.width, Rect.height in *.
    cbn [LaserBeam.is_horizontal LaserBeam.pos LaserBeam.box_rect
         LaserBeam.beam_width LaserBeam.state].
    change (30 / 2) with 15.
    destruct hz; apply randint_Some in Hp; cbn [Rect.x Rect.y Rect.w Rect.h];
      repeat split; lia.
Qed.

Lemma laser_beam_init_witness :
  exists l g', LaserBeam.init sample_box sample_rng = Some (l, g')
               /\ Rect.inside sample_box (LaserBeam.beam_rect l).
Proof.
  assert (Hw : 40 <= Rect.w sample_box) by (cbn; lia).
  assert (Hh : 40 <= Rect.h sample_box) by (cbn; lia).
  destruct (laser_beam_init_in_arena sample_box sample_rng Hw Hh)
    as [(l & g' & Hinit) Hall].
  exists l, g'. split; [exact Hinit|].
  exact (proj1 (proj2 (Hall l g' Hinit))).
Defined.

(** ** The attack manager: hazards and the queries of the engine *)

Lemma harmless_cleared (s : t) :
  bullets_group s = [] -> lasers s = [] -> gravity_mode s = false ->
  gravity_wells s = [] -> harmless s.
Proof.
  intros Hb Hl Hm Hw. unfold harmless, is_gravity_mode,
    check_laser_collision, get_gravity_force.
  rewrite Hb, Hl, Hm, Hw. repeat split.
Qed.

(** A tick of a manager whose round is over. *)
Lemma update_inactive (cfg : Settings) (px py : R) (s : t) (g : Random.state) :
  round_active s = false -> update cfg px py s g = Some ((false, s), g).
Proof. intros Ha. unfold update. rewrite Ha. reflexivity. Qed.

(** Whatever the manager holds, after [clear_bullets], after [reset]
    and after [_end_current_pattern] the bullets group is empty,
    [is_gravity_mode] is false, [check_laser_collision] is false for
    every player box and [get_gravity_force] is zero at every place.
    [clear_bullets] leaves the round as it is; [reset] ends it, with
    nothing left to attack and [update] then returning false without a
    change. *)
Theorem clearing_leaves_no_hazard (cfg : Settings) (s : t) :
  harmless (clear_bullets s)
  /\ round_view (clear_bullets s) = round_view s
  /\ harmless (_end_current_pattern s)
  /\ harmless (reset s)
  /\ is_round_active (reset s) = false
  /\ get_remaining_attacks (reset s) = 0
  /\ forall px py g, update cfg px py (reset s) g = Some ((false, reset s), g).
Proof.
  split; [apply harmless_cleared; reflexivity|].
  split; [reflexivity|].
  split; [apply harmless_cleared; reflexivity|].
  split; [apply harmless_cleared; reflexivity|].
  split; [reflexivity|].
  split; [reflexivity|].
  intros px py g. apply update_inactive. reflexivity.
Qed.

(** The tick that ends a pattern and the ticks of the gap after it: for
    [n] below [GAP_BETWEEN_ATTACKS], the tick on which the pattern's time
    is up followed by [n] more ticks succeeds without a draw, and leaves
    an active round in its gap with no hazard in the arena. *)
Theorem gap_is_harmless (cfg : Settings) (px py : R) (s : t)
    (g : Random.state) (n : nat) :
  round_active s = true -> in_gap s = false ->
  ATTACK_DURATION cfg <= pattern_timer s + 1 ->
  Z.of_nat n < GAP_BETWEEN_ATTACKS cfg ->
  exists s',
    ticks cfg px py (S n) s g = Some (s', g)
    /\ harmless s'
    /\ round_active s' = true /\ in_gap s' = true
    /\ gap_timer s' = Z.of_nat n
    /\ current_pattern_index s' = current_pattern_index s.
Proof.
  intros Ha Hg Ht Hn.
  eexists. split.
  - cbn [ticks]. unfold Random.bind at 1.
    rewrite update_pattern_over by assumption. cbn [snd].
    apply ticks_in_gap; [exact Ha|reflexivity|cbn; lia].
  - split; [apply harmless_cleared; reflexivity|].
    repeat split; try assumption.
Qed.

Lemma gap_is_harmless_witness :
  exists s',
    ticks sample_settings 0 0 30
      (sample_manager "spiral" None 299 false) sample_rng = Some (s', sample_rng)
    /\ harmless s'
    /\ round_active s' = true /\ in_gap s' = true
    /\ gap_timer s' = 29
    /\ current_pattern_index s' = 0%nat.
Proof.
  apply (gap_is_harmless sample_settings 0 0
           (sample_manager "spiral" None 299 false) sample_rng 29);
    [reflexivity|reflexivity|cbn; lia|cbn; lia].
Defined.

(** [check_laser_collision] is true exactly when one of the manager's
    lasers is in its active phase and its beam shares a pixel with the
    player's box. *)
Theorem check_laser_collision_spec (player_rect : Rect.t) (s : t) :
  check_laser_collision player_rect s = true
  <-> exists laser,
        laser ∈ lasers s
        /\ LaserBeam.state laser = LaserBeam.active
        /\ exists px py : Z,
             Rect.covers (LaserBeam.beam_rect laser) px py
             /\ Rect.covers player_rect px py.
Proof.
  unfold check_laser_collision. rewrite existsb_exists. split.
  - intros (laser & Hin & Hc). exists laser. split; [apply list_elem_of_In, Hin|].
    unfold LaserBeam.check_collision in Hc.
    destruct (LaserBeam.state laser); try discriminate.
    split; [reflexivity|]. apply colliderect_spec, Hc.
  - intros (laser & Hin & Hs & Hp). exists laser.
    split; [apply list_elem_of_In, Hin|].
    unfold LaserBeam.check_collision. rewrite Hs. apply colliderect_spec, Hp.
Qed.

(** ** The attack manager: the queue of a round *)

(** What a successful [random.sample] of a duplicate-free population
    returns. *)
Lemma sample_Some {A} (population res : list A) (k : Z)
    (g g' : Random.state) :
  NoDup population ->
  Random.sample population k g = Some (res, g') ->
  0 <= k <= Z.of_nat (length population)
  /\ length res = Z.to_nat k /\ NoDup res
  /\ forall x, x ∈ res -> x ∈ population.
Proof.
  intros Hnd H.
  assert (Hk : 0 <= k <= Z.of_nat (length population)).
  { unfold Random.sample in H.
    destruct (Z.ltb_spec k 0); [discriminate|].
    destruct (Z.ltb_spec (Z.of_nat (length population)) k); [discriminate|].
    lia. }
  split; [exact Hk|].
  destruct (sample_spec population k g Hnd Hk) as (res' & g1 & H1 & Hspec).
  rewrite H1 in H. injection H as <- _. exact Hspec.
Qed.

(** A sample below zero is refused. *)
Lemma sample_negative {A} (population : list A) (k : Z) (g : Random.state) :
  k < 0 -> Random.sample population k g = None.
Proof.
  intros Hk. unfold Random.sample.
  destruct (Z.ltb_spec k 0); [reflexivity|lia].
Qed.

(** The filling loop appends [n] valid entries. *)
Lemma fill_queue_spec (n : nat) :
  forall (queue : list string) (g : Random.state),
    exists extra g',
      fill_queue n queue g = Some (queue ++ extra, g')
      /\ length extra = n
      /\ forall p, p ∈ extra -> p ∈ PATTERN_TYPES.
Proof.
  induction n as [|n IH]; intros queue g.
  - exists [], g. rewrite app_nil_r. repeat split. intros p Hp. inversion Hp.
  - destruct (choice_total PATTERN_TYPES g) as (c & g1 & Hc & Hin); [discriminate|].
    destruct (IH (queue ++ [c]) g1) as (extra & g2 & Hf & Hlen & Hsub).
    exists (c :: extra), g2. split; [|split].
    + cbn [fill_queue]. unfold Random.bind. rewrite Hc, Hf.
      rewrite <- app_assoc. reflexivity.
    + cbn. lia.
    + intros p Hp. apply elem_of_cons in Hp as [->|Hp]; [exact Hin|apply Hsub, Hp].
Qed.

(** [_start_new_round] with at least one pattern per round: the queue
    has [PATTERNS_PER_ROUND] valid entries, the first eleven of them
    distinct. *)
Lemma start_new_round_total (cfg : Settings) (s : t) (g : Random.state) :
  1 <= PATTERNS_PER_ROUND cfg ->
  exists queue first o g',
    _start_new_round cfg s g = Some (started queue first o s, g')
    /\ length queue = Z.to_nat (PATTERNS_PER_ROUND cfg)
    /\ NoDup (take 11 queue)
    /\ (forall p, p ∈ queue -> p ∈ PATTERN_TYPES)
    /\ queue !! 0%nat = Some first
    /\ secondary_for first o.
Proof.
  intros Hn. unfold _start_new_round. rewrite PATTERN_TYPES_length.
  change (Z.of_nat 11) with 11. cbv zeta.
  set (count := Z.min (PATTERNS_PER_ROUND cfg) 11).
  destruct (sample_spec PATTERN_TYPES count g PATTERN_TYPES_NoDup)
    as (q0 & g1 & Hs & Hlen & Hnd & Hsub).
  { rewrite PATTERN_TYPES_length. subst count. lia. }
  destruct (fill_queue_spec
              (Z.to_nat (PATTERNS_PER_ROUND cfg - Z.of_nat (length q0))) q0 g1)
    as (extra & g2 & Hf & Hlen2 & Hsub2).
  destruct q0 as [|first q0'] eqn:Hq.
  { cbn in Hlen. subst count. lia. }
  rewrite <- Hq in *.
  set (queue := q0 ++ extra) in *.
  assert (Hfirst : queue !! 0%nat = Some first).
  { subst queue q0. reflexivity. }
  destruct (choose_secondary_total first
              (with_current_pattern (Some first)
                 (with_current_pattern_index 0%nat (with_attack_queue queue s))) g2)
    as (s2 & g3 & Hc).
  destruct (choose_secondary_inv _ _ _ _ _ Hc) as (o & -> & Ho).
  exists queue, first, o, g3.
  split; [|split; [|split; [|split; [|split]]]].
  - unfold Random.bind at 1. rewrite Hs.
    unfold Random.bind at 1. rewrite Hf. rewrite Hfirst.
    unfold Random.bind. rewrite Hc. reflexivity.
  - subst queue. rewrite length_app, Hlen, Hlen2. subst count. lia.
  - subst queue.
    destruct (Z.le_gt_cases (PATTERNS_PER_ROUND cfg) 11) as [Hle|Hgt].
    + assert (extra = []) as ->.
      { apply length_zero_iff_nil. rewrite Hlen2, Hlen. subst count. lia. }
      rewrite app_nil_r. rewrite firstn_all2; [exact Hnd|].
      rewrite Hlen. subst count. lia.
    + rewrite take_app_le by (rewrite Hlen; subst count; lia).
      rewrite firstn_all2; [exact Hnd|]. rewrite Hlen. subst count. lia.
  - subst queue. intros p Hp. apply elem_of_app in Hp as [Hp|Hp]; auto.
  - exact Hfirst.
  - exact Ho.
Qed.

(** [_start_new_round] without a pattern to run is an error. *)
Lemma start_new_round_fails (cfg : Settings) (s : t) (g : Random.state) :
  PATTERNS_PER_ROUND cfg <= 0 -> _start_new_round cfg s g = None.
Proof.
  intros Hn. unfold _start_new_round. rewrite PATTERN_TYPES_length.
  change (Z.of_nat 11) with 11. cbv zeta.
  destruct (Z.eq_dec (PATTERNS_PER_ROUND cfg) 0) as [E|E].
  - rewrite E. reflexivity.
  - unfold Random.bind at 1. rewrite sample_negative by lia. reflexivity.
Qed.

(** [start_round], the public entry of [_start_new_round], succeeds
    exactly when [PATTERNS_PER_ROUND] is at least one. The round it
    starts is active, at the first entry of a queue of
    [PATTERNS_PER_ROUND] valid patterns, of which the first eleven are
    pairwise distinct (the rest is drawn with replacement), with its
    timers at zero and no hazard of the manager's own. The count given to
    [set_patterns_per_round] is not read: the queue has
    [PATTERNS_PER_ROUND] entries whatever was set. With
    [PATTERNS_PER_ROUND] below one [start_round] raises. *)
Theorem start_round_spec (cfg : Settings) (s : t) (g : Random.state)
    (count : Z) :
  (1 <= PATTERNS_PER_ROUND cfg ->
   exists s' g',
     start_round cfg (set_patterns_per_round count s) g = Some (s', g')
     /\ Z.of_nat (length (attack_queue s')) = PATTERNS_PER_ROUND cfg
     /\ NoDup (take 11 (attack_queue s'))
     /\ (forall p, p ∈ attack_queue s' -> p ∈ PATTERN_TYPES)
     /\ round_active s' = true /\ in_gap s' = false
     /\ current_pattern_index s' = 0%nat
     /\ current_pattern s' = attack_queue s' !! 0%nat
     /\ pattern_timer s' = 0 /\ gap_timer s' = 0
     /\ lasers s' = [] /\ gravity_wells s' = [] /\ is_gravity_mode s' = false
     /\ bullets_group s' = bullets_group s)
  /\ (PATTERNS_PER_ROUND cfg <= 0 ->
      start_round cfg (set_patterns_per_round count s) g = None).
Proof.
  split.
  - intros Hn.
    destruct (start_new_round_total cfg (set_patterns_per_round count s) g Hn)
      as (queue & first & o & g' & H & Hlen & Hnd & Hsub & Hfirst & _).
    eexists _, g'. split; [exact H|].
    change (attack_queue (started queue first o _)) with queue.
    split; [lia|]. split; [exact Hnd|]. split; [exact Hsub|].
    split; [reflexivity|]. split; [reflexivity|]. split; [reflexivity|].
    split; [symmetry; exact Hfirst|].
    repeat split.
  - apply start_new_round_fails.
Qed.

Lemma start_round_spec_witness :
  exists s' g',
    start_round sample_settings
      (set_patterns_per_round 7 (sample_manager "spiral" None 0 false))
      sample_rng = Some (s', g')
    /\ Z.of_nat (length (attack_queue s')) = 3.
Proof.
  destruct (start_round_spec sample_settings
              (sample_manager "spiral" None 0 false) sample_rng 7)
    as [Hok _].
  destruct Hok as (s' & g' & H & Hlen & _); [cbn; lia|].
  exists s', g'. split; [exact H|exact Hlen].
Defined.

(** ** The attack manager: the queue and the index *)

Lemma queue_ok_same (s s' : t) :
  attack_queue s' = attack_queue s ->
  current_pattern_index s' = current_pattern_index s ->
  round_active s' = round_active s ->
  current_pattern s' = current_pattern s ->
  queue_ok s -> queue_ok s'.
Proof. unfold queue_ok. intros -> -> -> ->. auto. Qed.

Lemma queue_ok_view (s s' : t) :
  round_view s' = round_view s -> queue_ok s -> queue_ok s'.
Proof.
  unfold round_view. intros [= Hq Hi _ _ _ Ha Hc _].
  apply queue_ok_same; assumption.
Qed.

Lemma queue_ok_started (queue : list string) (first : string)
    (o : option string) (s : t) :
  (forall p, p ∈ queue -> p ∈ PATTERN_TYPES) ->
  queue !! 0%nat = Some first ->
  queue_ok (started queue first o s).
Proof.
  intros Hsub Hfirst. split; [exact Hsub|].
  change (round_active (started queue first o s)) with true. cbv iota.
  exists first. split; [exact Hfirst|reflexivity].
Qed.

(** The outcomes of [_start_new_round], with the queue. *)
Lemma start_new_round_queue (cfg : Settings) (s s' : t) (g g' : Random.state) :
  _start_new_round cfg s g = Some (s', g') -> queue_ok s'.
Proof.
  intros H.
  destruct (Z.le_gt_cases (PATTERNS_PER_ROUND cfg) 0) as [Hle|Hgt].
  - rewrite start_new_round_fails in H by exact Hle. discriminate.
  - destruct (start_new_round_total cfg s g) as
      (queue & first & o & g1 & H1 & _ & _ & Hsub & Hfirst & _); [lia|].
    rewrite H1 in H. injection H as <- _.
    apply queue_ok_started; assumption.
Qed.

(** A tick keeps the queue and the index together. *)
Lemma update_queue_ok (cfg : Settings) (px py : R) (s s' : t)
    (g g' : Random.state) (flag : bool) :
  queue_ok s -> update cfg px py s g = Some ((flag, s'), g') -> queue_ok s'.
Proof.
  intros Hok H.
  destruct (round_active s) eqn:Ha.
  2:{ rewrite update_inactive in H by exact Ha. injection H as _ <- _.
      exact Hok. }
  destruct (in_gap s) eqn:Hg.
  - destruct (Z.lt_ge_cases (gap_timer s + 1) (GAP_BETWEEN_ATTACKS cfg))
      as [Hlt|Hge].
    + rewrite update_gap_waits in H by assumption. injection H as _ <- _.
      revert Hok. apply queue_ok_same; reflexivity.
    + rewrite update_gap_over in H by assumption.
      apply bind_Some in H as (s1 & g1 & Hn & H).
      apply ret_Some in H as [[= _ <-] _].
      destruct (next_pattern_spec
                  (with_gap_timer 0
                     (with_in_gap false (with_gap_timer (gap_timer s + 1) s))) g)
        as (s2 & g2 & Hn' & Hi & Hq & _ & _ & _ & Hend & Hnext).
      rewrite Hn in Hn'. injection Hn' as <- <-.
      cbn [current_pattern_index attack_queue round_active
             with_gap_timer with_in_gap] in Hi, Hq, Hend, Hnext.
      destruct Hok as [Hsub Hcur]. rewrite Ha in Hcur.
      destruct Hcur as (p & Hp & _).
      apply lookup_lt_Some in Hp.
      split; [rewrite Hq; exact Hsub|].
      destruct (Nat.le_gt_cases (length (attack_queue s))
                  (S (current_pattern_index s))) as [Hle|Hgt].
      * destruct (Hend Hle) as [-> ->]. rewrite Hi, Hq. split; [lia|reflexivity].
      * destruct (Hnext Hgt) as (-> & _ & next & Hlook & Hc & _).
        rewrite Ha. exists next. rewrite Hi, Hq. split; assumption.
  - destruct (Z.lt_ge_cases (pattern_timer s + 1) (ATTACK_DURATION cfg))
      as [Hlt|Hge].
    + rewrite update_running in H by assumption.
      apply bind_Some in H as (s2 & g2 & H2 & H).
      apply bind_Some in H as (s3 & g3 & H3 & H).
      apply ret_Some in H as [[= _ <-] _].
      set (s1 := with_pattern_timer (pattern_timer s + 1) s) in *.
      assert (Hv2 : round_view s2 = round_view s1).
      { eapply (keeps_execute_current cfg px py s1); [|exact H2]. reflexivity. }
      assert (Hv3 : round_view s3 = round_view s1).
      { destruct (has_secondary s2).
        - eapply (keeps_execute_secondary cfg px py s1); [exact Hv2|exact H3].
        - apply ret_Some in H3 as [<- _]. exact Hv2. }
      apply (queue_ok_view s1 s3 Hv3).
      revert Hok. apply queue_ok_same; reflexivity.
    + rewrite update_pattern_over in H by assumption. injection H as _ <- _.
      revert Hok. apply queue_ok_same; reflexivity.
Qed.

Lemma run_queue_ok (cfg : Settings) (c : call) (s s' : t)
    (g g' : Random.state) :
  queue_ok s -> run cfg c s g = Some (s', g') -> queue_ok s'.
Proof.
  intros Hok H. destruct c; cbn [run] in H.
  - apply bind_Some in H as ([flag s1] & g1 & Hu & H).
    apply ret_Some in H as [<- _]. cbn [snd].
    eapply update_queue_ok; eauto.
  - eapply start_new_round_queue, H.
  - destruct (start_round_with_pattern_count_spec patterns_count s g)
      as (queue & first & o & g1 & H1 & _ & _ & Hsub & Hfirst & _).
    rewrite H1 in H. injection H as <- _.
    apply queue_ok_started; assumption.
  - apply ret_Some in H as [<- _]. split; [|split; reflexivity].
    intros p Hp. inversion Hp.
  - apply ret_Some in H as [<- _]. revert Hok. apply queue_ok_same; reflexivity.
  - apply ret_Some in H as [<- _]. revert Hok. apply queue_ok_same; reflexivity.
  - apply ret_Some in H as [<- _]. revert Hok. apply queue_ok_same; reflexivity.
Qed.

Lemma reachable_queue_ok (cfg : Settings) (s : t) :
  reachable cfg s -> queue_ok s.
Proof.
  induction 1 as [box g g' s Hinit|c g g' s s' _ IH Hrun|store group s _ IH].
  - unfold init in Hinit. eapply start_new_round_queue, Hinit.
  - eapply run_queue_ok; eauto.
  - revert IH. apply queue_ok_same; reflexivity.
Qed.

(** In every state the manager can reach, by any calls of its public
    methods with any draws and whatever the engine does to the bullets
    group: the index never passes the end of the queue, so
    [get_remaining_attacks] is between zero and the length of the queue;
    the round is active exactly when an attack remains; an active round
    has a current pattern, which is the entry of the queue at the index
    and one of the eleven known patterns; a manager without an active
    round has no current pattern and nothing remaining. *)
Theorem queue_index_invariant (cfg : Settings) (s : t) :
  reachable cfg s ->
  0 <= get_remaining_attacks s <= Z.of_nat (length (attack_queue s))
  /\ (is_round_active s = true <-> 1 <= get_remaining_attacks s)
  /\ (is_round_active s = true ->
      exists p, current_pattern s = Some p
                /\ attack_queue s !! current_pattern_index s = Some p
                /\ p ∈ PATTERN_TYPES)
  /\ (is_round_active s = false ->
      current_pattern s = None /\ get_remaining_attacks s = 0).
Proof.
  intros Hr. destruct (reachable_queue_ok cfg s Hr) as [Hsub Hcur].
  unfold is_round_active, get_remaining_attacks.
  destruct (round_active s).
  - destruct Hcur as (p & Hlook & Hc).
    pose proof (lookup_lt_Some _ _ _ Hlook) as Hlt.
    split; [lia|]. split; [split; [lia|reflexivity]|].
    split; [|discriminate].
    intros _. exists p. split; [exact Hc|]. split; [exact Hlook|].
    apply Hsub. eapply list_elem_of_lookup_2, Hlook.
  - destruct Hcur as [Hi Hc]. rewrite Hi.
    split; [lia|]. split; [split; [discriminate|lia]|].
    split; [discriminate|]. intros _. split; [exact Hc|lia].
Qed.

Lemma queue_index_invariant_witness :
  exists s g',
    init sample_settings sample_box sample_rng_6 = Some (s, g')
    /\ round_active s = true
    /\ 1 <= get_remaining_attacks s.
Proof.
  assert (E : exists s g',
             init sample_settings sample_box sample_rng_6 = Some (s, g')
             /\ round_active s = true).
  { vm_compute. eexists _, _. repeat split. }
  destruct E as (s & g' & Hinit & Ha).
  exists s, g'. repeat split; try assumption.
  destruct (queue_index_invariant sample_settings s
              (reachable_init _ _ _ _ _ Hinit)) as (_ & Hiff & _).
  apply Hiff, Ha.
Defined.

(** ** The attack manager: what the patterns leave alone, in general *)

Section Frames.

Context {A : Type} (V : t -> A).

Hypothesis V_sprites : forall v s, V (with_sprites v s) = V s.
Hypothesis V_next_sprite : forall v s, V (with_next_sprite v s) = V s.
Hypothesis V_bullets_group : forall v s, V (with_bullets_group v s) = V s.
Hypothesis V_timer : forall v s, V (with_pattern_internal_timer v s) = V s.
Hypothesis V_timer_2 : forall v s, V (with_pattern_internal_timer_2 v s) = V s.
Hypothesis V_cross_bullets : forall v s, V (with_cross_bullets v s) = V s.
Hypothesis V_cross_angle : forall v s, V (with_cross_angle v s) = V s.
Hypothesis V_cross_center : forall v s, V (with_cross_center v s) = V s.
Hypothesis V_ring_timer : forall v s, V (with_ring_timer v s) = V s.
Hypothesis V_homing_blades : forall v s, V (with_homing_blades v s) = V s.

Lemma frames_ret (s s1 : t) : V s1 = V s -> frames V s (Random.ret s1).
Proof. intros H g s' g' E. apply ret_Some in E as [<- _]. exact H. Qed.

Lemma frames_raise (s : t) : frames V s Random.raise.
Proof. intros g s' g' E. discriminate. Qed.

Lemma frames_draw {B} (s : t) (m : Random.M B) (k : B -> Random.M t) :
  (forall a, frames V s (k a)) -> frames V s (Random.bind m k).
Proof.
  intros H g s' g' E. apply bind_Some in E as (a & g1 & _ & E).
  eapply H, E.
Qed.

Lemma frames_seq (s : t) (c : Random.M t) (k : t -> Random.M t) :
  frames V s c ->
  (forall s1, V s1 = V s -> frames V s (k s1)) ->
  frames V s (Random.bind c k).
Proof.
  intros Hc Hk g s' g' E. apply bind_Some in E as (s1 & g1 & E1 & E).
  eapply Hk, E. eapply Hc, E1.
Qed.

Lemma frames_for_each {B} (s : t) (l : list B) (body : B -> t -> Random.M t) :
  (forall a s1, V s1 = V s -> frames V s (body a s1)) ->
  forall s0, V s0 = V s -> frames V s (for_each l body s0).
Proof.
  intros Hb. induction l as [|a l IH]; intros s0 H0; cbn [for_each].
  - apply frames_ret, H0.
  - apply frames_seq; [apply Hb, H0|]. intros s1 H1. apply IH, H1.
Qed.

Lemma frame_fold_left {B} (l : list B) (f : t -> B -> t) :
  (forall s1 a, V (f s1 a) = V s1) ->
  forall s0, V (fold_left f l s0) = V s0.
Proof.
  intros Hf. induction l as [|a l IH]; intros s0; cbn [fold_left].
  - reflexivity.
  - rewrite IH. apply Hf.
Qed.

Lemma frame_put_timer (b : bool) (v : Z) (s : t) : V (put_timer b v s) = V s.
Proof. destruct b; cbn [put_timer]; [apply V_timer_2|apply V_timer]. Qed.

Lemma frame_spawn (sp : Sprite) (s : t) : V (spawn sp s) = V s.
Proof.
  unfold spawn, add_sprite. cbn [snd].
  rewrite V_bullets_group, V_next_sprite, V_sprites. reflexivity.
Qed.

Lemma frame_kill (k : nat) (s : t) : V (kill k s) = V s.
Proof. unfold kill. apply V_bullets_group. Qed.

Lemma frame_step_blade (px py : R) (s : t) (k : nat) :
  V (step_blade px py s k) = V s.
Proof.
  unfold step_blade.
  destruct (sprites s !! k) as [[?|?|?|blade]|]; try reflexivity.
  destruct (HomingBlade.update blade) as [blade' ok].
  destruct ok, (alive k _);
    rewrite ?V_homing_blades, ?V_sprites, ?frame_kill; reflexivity.
Qed.

Lemma frame_step_ring (s : t) (k : nat) : V (step_ring s k) = V s.
Proof.
  unfold step_ring.
  destruct (sprites s !! k) as [[bullet|?|?|?]|]; try reflexivity.
  destruct (Projectile.extra bullet); try reflexivity.
  cbv zeta. destruct (Rgtb _ _); rewrite ?frame_kill, ?V_sprites; reflexivity.
Qed.

Lemma frame_step_cross (s : t) (k : nat) : V (step_cross s k) = V s.
Proof.
  unfold step_cross.
  destruct (sprites s !! k) as [[bullet|?|?|?]|]; try reflexivity.
  destruct (Projectile.extra bullet); rewrite ?V_sprites; reflexivity.
Qed.

Ltac frame_norm_with extra :=
  repeat first
    [ extra | rewrite V_sprites | rewrite V_next_sprite | rewrite V_bullets_group
    | rewrite V_timer | rewrite V_timer_2 | rewrite V_cross_bullets
    | rewrite V_cross_angle | rewrite V_cross_center | rewrite V_ring_timer
    | rewrite V_homing_blades
    | rewrite frame_put_timer | rewrite frame_spawn | rewrite frame_kill
    | rewrite (frame_fold_left _ (step_blade _ _))
        by (intros; apply frame_step_blade)
    | rewrite (frame_fold_left _ step_ring) by (intros; apply frame_step_ring)
    | rewrite (frame_fold_left _ step_cross) by (intros; apply frame_step_cross)
    | rewrite frame_fold_left by (intros; frame_norm_with extra; reflexivity)
    | progress unfold add_sprite
    | progress cbv beta iota zeta
    | match goal with
      | |- context [if ?c then _ else _] => destruct c
      end ].

Ltac frames_step_with extra :=
  lazymatch goal with
  | |- frames _ _ (Random.ret _) => apply frames_ret
  | |- frames _ _ Random.raise => apply frames_raise
  | |- frames _ _ (for_each _ _ _) => apply frames_for_each; [intros ? ? ?|]
  | |- frames _ _ (Random.bind ?m _) =>
      lazymatch type of m with
      | Random.M t => apply frames_seq; [|intros ? ?]
      | _ => apply frames_draw; intros ?
      end
  | |- frames _ _ (if ?c then _ else _) => destruct c
  | |- frames _ _ (match add_sprite _ _ with _ => _ end) =>
      unfold add_sprite; cbv beta iota
  | |- frames _ _ (match ?x with _ => _ end) => destruct x
  | |- V _ = V _ =>
      first [ assumption
            | frame_norm_with extra; first [assumption|reflexivity] ]
  end.

Ltac frames_auto_with extra := cbv zeta; repeat frames_step_with extra.
Ltac frames_auto := frames_auto_with fail.

Lemma frames_line_rain (cfg : Settings) (secondary : bool) (s s0 : t) :
  V s0 = V s -> frames V s (_pattern_line_rain cfg secondary s0).
Proof. intros H. unfold _pattern_line_rain. frames_auto. Qed.

Lemma frames_circle_burst (cfg : Settings) (secondary : bool) (s s0 : t) :
  V s0 = V s -> frames V s (_pattern_circle_burst cfg secondary s0).
Proof. intros H. unfold _pattern_circle_burst. frames_auto. Qed.

Lemma frames_targeting (cfg : Settings) (px py : R) (secondary : bool)
    (s s0 : t) :
  V s0 = V s -> frames V s (_pattern_targeting cfg px py secondary s0).
Proof. intros H. unfold _pattern_targeting. frames_auto. Qed.

Lemma frames_bouncing_walls (secondary : bool) (s s0 : t) :
  V s0 = V s -> frames V s (_pattern_bouncing_walls secondary s0).
Proof. intros H. unfold _pattern_bouncing_walls. frames_auto. Qed.

Lemma frames_spiral (cfg : Settings) (s s0 : t) :
  V s0 = V s -> frames V s (_pattern_spiral cfg s0).
Proof. intros H. unfold _pattern_spiral. frames_auto. Qed.

Lemma frames_snake_wave (s s0 : t) :
  V s0 = V s -> frames V s (_pattern_snake_wave s0).
Proof. intros H. unfold _pattern_snake_wave. frames_auto. Qed.

Lemma frames_homing_blades (px py : R) (s s0 : t) :
  V s0 = V s -> frames V s (_pattern_homing_blades px py s0).
Proof. intros H. unfold _pattern_homing_blades. frames_auto. Qed.

Lemma frames_expanding_ring (cfg : Settings) (s s0 : t) :
  V s0 = V s -> frames V s (_pattern_expanding_ring cfg s0).
Proof. intros H. unfold _pattern_expanding_ring. frames_auto. Qed.

Lemma frames_rotating_cross (cfg : Settings) (px py : R) (s s0 : t) :
  V s0 = V s -> frames V s (_pattern_rotating_cross cfg px py s0).
Proof. intros H. unfold _pattern_rotating_cross. frames_auto. Qed.

(** The two patterns with state of their own: they leave alone a part
    that ignores that state as well. *)
Lemma frames_laser_warning (s s0 : t) :
  (forall v s, V (with_lasers v s) = V s) ->
  (forall v s, V (with_laser_spawn_timer v s) = V s) ->
  V s0 = V s -> frames V s (_pattern_laser_warning s0).
Proof.
  intros V_lasers V_laser_spawn_timer H.
  unfold _pattern_laser_warning, LaserBeam.init.
  frames_auto_with ltac:(first [rewrite V_lasers|rewrite V_laser_spawn_timer]).
Qed.

Lemma frames_gravity_wells (cfg : Settings) (px py : R) (s s0 : t) :
  (forall v s, V (with_gravity_mode v s) = V s) ->
  (forall v s, V (with_gravity_wells v s) = V s) ->
  V s0 = V s -> frames V s (_pattern_gravity_wells cfg px py s0).
Proof.
  intros V_gravity_mode V_gravity_wells H.
  unfold _pattern_gravity_wells.
  frames_auto_with ltac:(first [rewrite V_gravity_mode|rewrite V_gravity_wells]).
Qed.

(** The secondary pattern is one of the four that touch only the
    sprites and their own counters. *)
Lemma frames_execute_secondary (cfg : Settings) (px py : R) (s s0 : t) :
  V s0 = V s -> frames V s (_execute_secondary_pattern cfg px py s0).
Proof.
  intros H. unfold _execute_secondary_pattern.
  destruct (secondary_pattern s0) as [pattern|]; [|apply frames_ret, H].
  repeat match goal with
         | |- frames _ _ (if ?c then _ else _) => destruct c
         end;
    eauto using frames_line_rain, frames_circle_burst, frames_targeting,
      frames_bouncing_walls, frames_ret.
Qed.

(** The primary pattern, given what the laser pattern and the gravity
    pattern do when it is their turn. *)
Lemma frames_execute_current (cfg : Settings) (px py : R) (s s0 : t) :
  (current_pattern s0 = Some "laser_warning" ->
   frames V s (_pattern_laser_warning s0)) ->
  (current_pattern s0 = Some "gravity_wells" ->
   frames V s (_pattern_gravity_wells cfg px py s0)) ->
  V s0 = V s -> frames V s (_execute_current_pattern cfg px py s0).
Proof.
  intros Hlaser Hgravity H. unfold _execute_current_pattern.
  destruct (current_pattern s0) as [pattern|]; [|apply frames_ret, H].
  repeat match goal with
         | |- frames _ _ (if String.eqb ?p ?q then _ else _) =>
             destruct (String.eqb_spec p q)
         end;
    subst;
    eauto using frames_line_rain, frames_circle_burst, frames_targeting,
      frames_bouncing_walls, frames_spiral, frames_snake_wave,
      frames_homing_blades, frames_expanding_ring, frames_rotating_cross,
      frames_ret.
Qed.

(** A tick that runs the patterns. *)
Lemma frame_update_running (cfg : Settings) (px py : R) (s s' : t)
    (g g' : Random.state) (flag : bool) :
  (forall v s, V (with_pattern_timer v s) = V s) ->
  (current_pattern s = Some "laser_warning" ->
   forall s0, V s0 = V s -> current_pattern s0 = current_pattern s ->
              frames V s (_pattern_laser_warning s0)) ->
  (current_pattern s = Some "gravity_wells" ->
   forall s0, V s0 = V s -> current_pattern s0 = current_pattern s ->
              frames V s (_pattern_gravity_wells cfg px py s0)) ->
  round_active s = true -> in_gap s = false ->
  pattern_timer s + 1 < ATTACK_DURATION cfg ->
  update cfg px py s g = Some ((flag, s'), g') -> V s' = V s.
Proof.
  intros V_pattern_timer Hlaser Hgravity Ha Hg Hlt H.
  rewrite update_running in H by assumption.
  apply bind_Some in H as (s2 & g2 & H2 & H).
  apply bind_Some in H as (s3 & g3 & H3 & H).
  apply ret_Some in H as [[= _ <-] _].
  set (s1 := with_pattern_timer (pattern_timer s + 1) s) in *.
  assert (H1 : V s1 = V s) by apply V_pattern_timer.
  assert (Hv2 : V s2 = V s).
  { eapply (frames_execute_current cfg px py s s1); [| |exact H1|exact H2].
    - intros Hc. apply Hlaser; [exact Hc|exact H1|reflexivity].
    - intros Hc. apply Hgravity; [exact Hc|exact H1|reflexivity]. }
  destruct (has_secondary s2).
  - eapply (frames_execute_secondary cfg px py s s2); [exact Hv2|exact H3].
  - apply ret_Some in H3 as [<- _]. exact Hv2.
Qed.

End Frames.

(** ** The attack manager: the arena and the difficulty *)

Lemma next_pattern_config (s s' : t) (g g' : Random.state) :
  _next_pattern s g = Some (s', g') -> config_view s' = config_view s.
Proof.
  unfold _next_pattern. cbv zeta. intros H.
  destruct (bool_decide _).
  - apply ret_Some in H as [<- _]. reflexivity.
  - destruct (_ !! _) as [next|]; [|discriminate].
    apply choose_secondary_inv in H as (o & -> & _). reflexivity.
Qed.

(** A tick leaves the arena and the difficulty as they are. *)
Lemma update_config (cfg : Settings) (px py : R) (s s' : t)
    (g g' : Random.state) (flag : bool) :
  update cfg px py s g = Some ((flag, s'), g') ->
  config_view s' = config_view s.
Proof.
  intros H.
  destruct (round_active s) eqn:Ha.
  2:{ rewrite update_inactive in H by exact Ha. injection H as _ <- _.
      reflexivity. }
  destruct (in_gap s) eqn:Hg.
  - destruct (Z.lt_ge_cases (gap_timer s + 1) (GAP_BETWEEN_ATTACKS cfg))
      as [Hlt|Hge].
    + rewrite update_gap_waits in H by assumption. injection H as _ <- _.
      reflexivity.
    + rewrite update_gap_over in H by assumption.
      apply bind_Some in H as (s1 & g1 & Hn & H).
      apply ret_Some in H as [[= _ <-] _].
      apply next_pattern_config in Hn. exact Hn.
  - destruct (Z.lt_ge_cases (pattern_timer s + 1) (ATTACK_DURATION cfg))
      as [Hlt|Hge].
    + eapply (frame_update_running config_view); try eassumption;
        try (intros; reflexivity).
      * intros _ s0 H0 _.
        apply frames_laser_warning; try (intros; reflexivity). exact H0.
      * intros _ s0 H0 _.
        apply frames_gravity_wells; try (intros; reflexivity). exact H0.
    + rewrite update_pattern_over in H by assumption. injection H as _ <- _.
      reflexivity.
Qed.

(** What a call of a public method does to the arena and to the
    difficulty. *)
Lemma run_config (cfg : Settings) (c : call) (s s' : t) (g g' : Random.state) :
  run cfg c s g = Some (s', g') ->
  box_rect s' = box_rect s
  /\ difficulty s'
     = match c with
       | call_set_difficulty d => Rmax 0.5 (Rmin d 3.0)
       | _ => difficulty s
       end.
Proof.
  intros H. destruct c; cbn [run] in H.
  - apply bind_Some in H as ([flag s1] & g1 & Hu & H).
    apply ret_Some in H as [<- _]. cbn [snd].
    apply update_config in Hu. injection Hu as -> ->. split; reflexivity.
  - apply start_new_round_inv in H as (queue & first & o & -> & _).
    split; reflexivity.
  - destruct (start_round_with_pattern_count_spec patterns_count s g)
      as (queue & first & o & g1 & H1 & _).
    rewrite H1 in H. injection H as <- _. split; reflexivity.
  - apply ret_Some in H as [<- _]. split; reflexivity.
  - apply ret_Some in H as [<- _]. split; reflexivity.
  - apply ret_Some in H as [<- _]. split; reflexivity.
  - apply ret_Some in H as [<- _]. split; reflexivity.
Qed.

(** The arena of a manager is the one it was built with, and its
    difficulty moves only by [set_difficulty]: no tick, no start of a
    round, no [reset] and no [clear_bullets] changes either, and
    [set_difficulty d] sets the difficulty to [d] clamped to
    [[0.5, 3.0]]. Hence in every state the manager can reach the
    difficulty is between 0.5 and 3.0, and the intervals of the patterns
    are never divided by zero. *)
Theorem arena_and_difficulty (cfg : Settings) (s : t) :
  reachable cfg s ->
  (0.5 <= difficulty s <= 3.0)%R
  /\ forall (c : call) (g g' : Random.state) (s' : t),
       run cfg c s g = Some (s', g') ->
       box_rect s' = box_rect s
       /\ difficulty s'
          = match c with
            | call_set_difficulty d => Rmax 0.5 (Rmin d 3.0)
            | _ => difficulty s
            end.
Proof.
  intros Hr. split; [|intros c g g' s'; apply run_config].
  induction Hr as [box g g' s Hinit|c g g' s s' _ IH Hrun|store group s _ IH].
  - unfold init in Hinit.
    apply start_new_round_inv in Hinit as (queue & first & o & -> & _).
    change (difficulty (started queue first o _)) with 1.0%R. lra.
  - apply run_config in Hrun as [_ Hd]. rewrite Hd.
    destruct c; try exact IH.
    unfold Rmax, Rmin.
    repeat match goal with
           | |- context [Rle_dec ?a ?b] => destruct (Rle_dec a b)
           end; lra.
  - exact IH.
Qed.

Lemma arena_and_difficulty_witness :
  exists s g',
    init sample_settings sample_box sample_rng_6 = Some (s, g')
    /\ (0.5 <= difficulty s <= 3.0)%R.
Proof.
  assert (E : exists s g',
             init sample_settings sample_box sample_rng_6 = Some (s, g')).
  { vm_compute. eexists _, _. reflexivity. }
  destruct E as (s & g' & Hinit).
  exists s, g'. split; [exact Hinit|].
  apply (arena_and_difficulty sample_settings s
           (reachable_init _ _ _ _ _ Hinit)).
Defined.

(** ** The attack manager: gravity *)

(** The force of a well is never stronger than ten times its
    strength. *)
Lemma apply_force_bound (w : GravityWell.t) (px py : R) :
  (GravityWell.magnitude (GravityWell.apply_force w px py)
   <= Rabs (GravityWell.strength w) * 10)%R.
Proof.
  destruct (GravityWell.active w) eqn:Ha.
  - destruct (Rlt_le_dec (GravityWell.distance w px py) 10) as [Hd|Hd].
    + destruct (apply_force_near w px py Ha Hd) as [_ ->].
      apply Rmult_le_compat_l; [apply Rabs_pos|lra].
    + destruct (apply_force_far w px py Ha Hd) as [_ ->].
      apply Rmult_le_compat_l; [apply Rabs_pos|].
      apply (Rmult_le_reg_r (GravityWell.distance w px py)); [lra|].
      unfold Rdiv. rewrite Rmult_assoc, Rinv_l by lra. lra.
  - unfold GravityWell.apply_force. rewrite Ha. cbn [negb].
    unfold GravityWell.magnitude. cbn [fst snd]. rewrite sqrt_0_0.
    pose proof (Rabs_pos (GravityWell.strength w)). lra.
Qed.

Lemma gravity_ok_off (s : t) :
  gravity_mode s = false -> gravity_wells s = [] -> gravity_ok s.
Proof.
  intros Hm Hw. unfold gravity_ok, is_gravity_mode. rewrite Hm, Hw.
  split; [discriminate|]. split; [cbn; lia|].
  intros w Hin. inversion Hin.
Qed.

Lemma gravity_ok_same (s s' : t) :
  gravity_view s' = gravity_view s -> box_rect s' = box_rect s ->
  round_active s' = round_active s -> in_gap s' = in_gap s ->
  current_pattern s' = current_pattern s ->
  gravity_ok s -> gravity_ok s'.
Proof.
  unfold gravity_ok, is_gravity_mode, gravity_view.
  intros [= -> ->] -> -> -> ->. auto.
Qed.

(** Dispatch to the gravity pattern. *)
Lemma execute_current_gravity (cfg : Settings) (px py : R) (s : t) :
  current_pattern s = Some "gravity_wells" ->
  _execute_current_pattern cfg px py s = _pattern_gravity_wells cfg px py s.
Proof. intros H. unfold _execute_current_pattern. rewrite H. reflexivity. Qed.

(** What the gravity pattern leaves: the wells it found, one frame
    older, or a first well at the centre of the arena; gravity on. *)
Lemma gravity_wells_result (cfg : Settings) (px py : R) (s s' : t)
    (g g' : Random.state) :
  _pattern_gravity_wells cfg px py s g = Some (s', g') ->
  gravity_mode s' = true
  /\ box_rect s' = box_rect s
  /\ round_view s' = round_view s
  /\ (gravity_wells s' = map GravityWell.update (gravity_wells s)
      \/ gravity_wells s = []
         /\ exists repel,
              gravity_wells s'
              = [GravityWell.update
                   (GravityWell.init (IZR (Rect.centerx (box_rect s)))
                      (IZR (Rect.centery (box_rect s))) 0.4 repel
                      (ATTACK_DURATION cfg))]).
Proof.
  intros H.
  assert (Hv : round_view s' = round_view s).
  { eapply keeps_gravity_wells; [|exact H]. reflexivity. }
  assert (Hc : config_view s' = config_view s).
  { eapply (frames_gravity_wells config_view); try exact H;
      intros; reflexivity. }
  unfold _pattern_gravity_wells in H. cbv zeta in H.
  apply bind_Some in H as (s1 & g1 & H1 & H).
  assert (Hg : gravity_mode s' = true
               /\ gravity_wells s' = map GravityWell.update (gravity_wells s1)).
  { destruct (_ >=? 30).
    - apply bind_Some in H as (cx & g2 & _ & H).
      apply bind_Some in H as (cy & g3 & _ & H).
      apply bind_Some in H as (j & g4 & _ & H).
      apply ret_Some in H as [<- _]. split; reflexivity.
    - apply ret_Some in H as [<- _]. split; reflexivity. }
  destruct Hg as [Hm Hw]. split; [exact Hm|].
  split; [injection Hc as -> _; reflexivity|]. split; [exact Hv|].
  cbn [gravity_wells with_pattern_internal_timer] in H1.
  destruct (gravity_wells s) as [|w ws] eqn:E.
  - right. split; [reflexivity|].
    apply bind_Some in H1 as (repel & g2 & _ & H1).
    apply ret_Some in H1 as [<- _]. exists repel. rewrite Hw.
    cbn [gravity_wells with_gravity_wells with_pattern_internal_timer box_rect].
    rewrite ?E. reflexivity.
  - left. apply ret_Some in H1 as [<- _]. rewrite Hw.
    cbn [gravity_wells with_pattern_internal_timer]. rewrite ?E. reflexivity.
Qed.

(** A tick keeps the gravity in order. *)
Lemma update_gravity_ok (cfg : Settings) (px py : R) (s s' : t)
    (g g' : Random.state) (flag : bool) :
  gravity_ok s -> update cfg px py s g = Some ((flag, s'), g') ->
  gravity_ok s'.
Proof.
  intros Hok H.
  pose proof (update_config _ _ _ _ _ _ _ _ H) as Hcfg.
  injection Hcfg as Hbox _.
  destruct (round_active s) eqn:Ha.
  2:{ rewrite update_inactive in H by exact Ha. injection H as _ <- _.
      exact Hok. }
  assert (Hoff : in_gap s = true ->
                 gravity_mode s = false /\ gravity_wells s = []).
  { intros Hg. destruct Hok as (Hmode & _ & _).
    unfold is_gravity_mode in Hmode.
    destruct (gravity_mode s).
    - destruct (Hmode eq_refl) as (_ & Hg' & _). congruence.
    - destruct (gravity_wells s) as [|w ws]; [split; reflexivity|].
      destruct (Hmode eq_refl) as (_ & Hg' & _). congruence. }
  destruct (in_gap s) eqn:Hg.
  - destruct (Hoff eq_refl) as [Hm Hw].
    destruct (Z.lt_ge_cases (gap_timer s + 1) (GAP_BETWEEN_ATTACKS cfg))
      as [Hlt|Hge].
    + rewrite update_gap_waits in H by assumption. injection H as _ <- _.
      apply gravity_ok_off; assumption.
    + rewrite update_gap_over in H by assumption.
      apply bind_Some in H as (s1 & g1 & Hn & H).
      apply ret_Some in H as [[= _ <-] _].
      destruct (next_pattern_spec
                  (with_gap_timer 0
                     (with_in_gap false (with_gap_timer (gap_timer s + 1) s))) g)
        as (s2 & g2 & Hn' & _ & _ & Harena & _).
      rewrite Hn in Hn'. injection Hn' as <- <-.
      unfold arena_view in Harena. injection Harena as _ _ _ _ Hw' Hm' _ _.
      apply gravity_ok_off; [rewrite Hm'; exact Hm|rewrite Hw'; exact Hw].
  - destruct (Z.lt_ge_cases (pattern_timer s + 1) (ATTACK_DURATION cfg))
      as [Hlt|Hge].
    2:{ rewrite update_pattern_over in H by assumption. injection H as _ <- _.
        apply gravity_ok_off; reflexivity. }
    destruct (decide (current_pattern s = Some "gravity_wells")) as [Hc|Hc].
    + rewrite update_running in H by assumption.
      apply bind_Some in H as (s2 & g2 & H2 & H).
      apply bind_Some in H as (s3 & g3 & H3 & H).
      apply ret_Some in H as [[= _ <-] _].
      set (s1 := with_pattern_timer (pattern_timer s + 1) s) in *.
      rewrite execute_current_gravity in H2 by exact Hc.
      apply gravity_wells_result in H2 as (Hm2 & Hb2 & Hv2 & Hw2).
      assert (Hg3 : gravity_view s3 = gravity_view s2
                    /\ round_view s3 = round_view s2).
      { destruct (has_secondary s2).
        - split.
          + eapply (frames_execute_secondary gravity_view); try exact H3;
              intros; reflexivity.
          + eapply keeps_execute_secondary; [|exact H3]. reflexivity.
        - apply ret_Some in H3 as [<- _]. split; reflexivity. }
      destruct Hg3 as [Hg3 Hv3]. unfold gravity_view in Hg3.
      injection Hg3 as Hm3 Hw3.
      rewrite Hv2 in Hv3. unfold round_view in Hv3.
      injection Hv3 as _ _ _ _ Hg' Ha' Hc' _.
      cbn [in_gap round_active current_pattern s1 with_pattern_timer]
        in Hg', Ha', Hc'.
      destruct Hok as (_ & Hlen & Hwells).
      unfold gravity_ok. rewrite Hw3, Hbox.
      split; [intros _; rewrite Ha', Hg', Hc'; auto|].
      cbn [gravity_wells box_rect s1 with_pattern_timer] in Hw2.
      destruct Hw2 as [->|[_ [repel ->]]].
      * split; [rewrite length_map; exact Hlen|].
        intros w Hin. apply list_elem_of_fmap in Hin as (w0 & -> & Hin).
        apply Hwells in Hin. exact Hin.
      * split; [cbn; lia|].
        intros w Hin. apply list_elem_of_singleton in Hin as ->.
        repeat split.
    + assert (Hgv : gravity_view s' = gravity_view s).
      { eapply (frame_update_running gravity_view); try eassumption;
          try (intros; reflexivity).
        - intros _ s0 H0 _.
          apply frames_laser_warning; try (intros; reflexivity). exact H0.
        - intros Hc'. contradiction. }
      assert (Hrv : round_view s' = round_view (with_pattern_timer
                                                  (pattern_timer s + 1) s)).
      { rewrite update_running in H by assumption.
        apply bind_Some in H as (s2 & g2 & H2 & H).
        apply bind_Some in H as (s3 & g3 & H3 & H).
        apply ret_Some in H as [[= _ <-] _].
        assert (Hv2 : round_view s2
                      = round_view (with_pattern_timer (pattern_timer s + 1) s)).
        { eapply keeps_execute_current; [|exact H2]. reflexivity. }
        destruct (has_secondary s2).
        - eapply keeps_execute_secondary; [exact Hv2|exact H3].
        - apply ret_Some in H3 as [<- _]. exact Hv2. }
      unfold round_view in Hrv. injection Hrv as _ _ _ _ Hg' Ha' Hc' _.
      revert Hok. apply gravity_ok_same; assumption.
Qed.

Lemma run_gravity_ok (cfg : Settings) (c : call) (s s' : t)
    (g g' : Random.state) :
  gravity_ok s -> run cfg c s g = Some (s', g') -> gravity_ok s'.
Proof.
  intros Hok H. destruct c; cbn [run] in H.
  - apply bind_Some in H as ([flag s1] & g1 & Hu & H).
    apply ret_Some in H as [<- _]. cbn [snd].
    eapply update_gravity_ok; eauto.
  - apply start_new_round_inv in H as (queue & first & o & -> & _).
    apply gravity_ok_off; reflexivity.
  - destruct (start_round_with_pattern_count_spec patterns_count s g)
      as (queue & first & o & g1 & H1 & _).
    rewrite H1 in H. injection H as <- _.
    apply gravity_ok_off; reflexivity.
  - apply ret_Some in H as [<- _]. apply gravity_ok_off; reflexivity.
  - apply ret_Some in H as [<- _]. revert Hok. apply gravity_ok_same; reflexivity.
  - apply ret_Some in H as [<- _]. apply gravity_ok_off; reflexivity.
  - apply ret_Some in H as [<- _]. revert Hok. apply gravity_ok_same; reflexivity.
Qed.

Lemma reachable_gravity_ok (cfg : Settings) (s : t) :
  reachable cfg s -> gravity_ok s.
Proof.
  induction 1 as [box g g' s Hinit|c g g' s s' _ IH Hrun|store group s _ IH].
  - unfold init in Hinit.
    apply start_new_round_inv in Hinit as (queue & first & o & -> & _).
    apply gravity_ok_off; reflexivity.
  - eapply run_gravity_ok; eauto.
  - revert IH. apply gravity_ok_same; reflexivity.
Qed.

(** In every state the manager can reach: [is_gravity_mode] is true
    only while the round is active, outside a gap, with [gravity_wells]
    as its current pattern; there is at most one gravity well, of
    strength 0.4 at the centre of the arena; and the force
    [get_gravity_force] returns, at whatever place the player stands, is
    never longer than 4. *)
Theorem gravity_invariant (cfg : Settings) (s : t) :
  reachable cfg s ->
  (is_gravity_mode s = true ->
   is_round_active s = true /\ in_gap s = false
   /\ current_pattern s = Some "gravity_wells")
  /\ (length (gravity_wells s) <= 1)%nat
  /\ (forall w, w ∈ gravity_wells s ->
        GravityWell.strength w = 0.4%R
        /\ GravityWell.x w = IZR (Rect.centerx (box_rect s))
        /\ GravityWell.y w = IZR (Rect.centery (box_rect s)))
  /\ forall px py : R,
       (GravityWell.magnitude (get_gravity_force px py s) <= 4)%R.
Proof.
  intros Hr. destruct (reachable_gravity_ok cfg s Hr) as (Hm & Hlen & Hw).
  split; [exact Hm|]. split; [exact Hlen|]. split; [exact Hw|].
  intros px py. unfold get_gravity_force.
  destruct (gravity_wells s) as [|w [|w' ws]]; [| |cbn in Hlen; lia].
  - cbn [fold_left]. unfold GravityWell.magnitude. cbn [fst snd].
    rewrite sqrt_0_0. lra.
  - cbn [fold_left fst snd]. cbv zeta. rewrite !Rplus_0_l.
    rewrite <- surjective_pairing.
    pose proof (apply_force_bound w px py) as Hb.
    destruct (Hw w) as (Hs & _); [left|].
    rewrite Hs in Hb. rewrite Rabs_right in Hb by lra. lra.
Qed.

Lemma gravity_invariant_witness :
  exists s g',
    init sample_settings sample_box sample_rng_6 = Some (s, g')
    /\ (GravityWell.magnitude (get_gravity_force 0 0 s) <= 4)%R.
Proof.
  assert (E : exists s g',
             init sample_settings sample_box sample_rng_6 = Some (s, g')).
  { vm_compute. eexists _, _. reflexivity. }
  destruct E as (s & g' & Hinit).
  exists s, g'. split; [exact Hinit|].
  apply (gravity_invariant sample_settings s
           (reachable_init _ _ _ _ _ Hinit)).
Defined.

(** ** The attack manager: lasers *)

(** A frame in the life of a laser. *)
Lemma laser_fine_update (box : Rect.t) (age : Z) (l : LaserBeam.t) :
  laser_fine box age l ->
  LaserBeam.is_done (LaserBeam.update l) = false ->
  laser_fine box (age + 1) (LaserBeam.update l).
Proof.
  unfold laser_fine, laser_age, LaserBeam.update, LaserBeam.is_done.
  intros (Hb & Hw & Ha & Hage & Ht). cbv zeta.
  destruct (LaserBeam.state l); [| |contradiction].
  - rewrite Hw. destruct (Z.geb_spec (LaserBeam.timer l + 1) 30); intros _;
      cbn; rewrite ?Hw; repeat split; try assumption; lia.
  - rewrite Ha. destruct (Z.geb_spec (LaserBeam.timer l + 1) 15);
      [discriminate|]. intros _.
    cbn; rewrite ?Hw; repeat split; try assumption; lia.
Qed.

Lemma laser_fine_age (box : Rect.t) (age : Z) (l : LaserBeam.t) :
  laser_fine box age l -> 0 <= age < 45.
Proof.
  unfold laser_fine, laser_age. intros (_ & Hw & _ & Hage & Ht).
  destruct (LaserBeam.state l); [| |contradiction]; lia.
Qed.

Lemma laser_fine_fresh (box : Rect.t) (g g' : Random.state) (l : LaserBeam.t) :
  LaserBeam.init box g = Some (l, g') -> laser_fine box 0 l.
Proof.
  intros H. apply init_fresh in H as (Hs & Ht & Hw & Ha & _ & Hb).
  unfold laser_fine, laser_age. rewrite Hs, Ht. repeat split; try assumption; lia.
Qed.

Lemma laser_ok_off (s : t) : lasers s = [] -> laser_ok s.
Proof.
  intros Hl. unfold laser_ok. rewrite Hl.
  split; [congruence|]. split; [cbn; lia|]. intros l Hin. inversion Hin.
Qed.

Lemma laser_ok_same (s s' : t) :
  laser_view s' = laser_view s -> box_rect s' = box_rect s ->
  round_active s' = round_active s -> in_gap s' = in_gap s ->
  current_pattern s' = current_pattern s ->
  laser_ok s -> laser_ok s'.
Proof.
  unfold laser_ok, laser_view.
  intros [= -> ->] -> -> -> ->. auto.
Qed.

Lemma execute_current_laser (cfg : Settings) (px py : R) (s : t) :
  current_pattern s = Some "laser_warning" ->
  _execute_current_pattern cfg px py s = _pattern_laser_warning s.
Proof. intros H. unfold _execute_current_pattern. rewrite H. reflexivity. Qed.

(** What the laser pattern leaves: the lasers it found, one frame older
    and without those that are done; on every sixtieth frame, a fresh
    one after them. *)
Lemma laser_warning_result (s s' : t) (g g' : Random.state) :
  _pattern_laser_warning s g = Some (s', g') ->
  let survivors :=
    filter (fun l => LaserBeam.is_done l = false)
           (map LaserBeam.update (lasers s)) in
  (laser_spawn_timer s + 1 < 60
   /\ laser_spawn_timer s' = laser_spawn_timer s + 1
   /\ lasers s' = survivors)
  \/ (60 <= laser_spawn_timer s + 1
      /\ laser_spawn_timer s' = 0
      /\ exists fresh g1 g2,
           LaserBeam.init (box_rect s) g1 = Some (fresh, g2)
           /\ lasers s' = survivors ++ [fresh]).
Proof.
  unfold _pattern_laser_warning. cbv zeta.
  cbn [laser_spawn_timer with_laser_spawn_timer with_lasers lasers box_rect].
  destruct (Z.geb_spec (laser_spawn_timer s + 1) 60) as [Hge|Hlt]; intros H.
  - right. apply bind_Some in H as (fresh & g1 & Hf & H).
    apply ret_Some in H as [<- _].
    split; [exact Hge|]. split; [reflexivity|].
    exists fresh, g, g1. split; [exact Hf|reflexivity].
  - left. apply ret_Some in H as [<- _].
    split; [exact Hlt|]. split; reflexivity.
Qed.

(** A hit comes from an active laser of the list. *)
Lemma check_laser_collision_core (player_rect : Rect.t) (s : t) :
  check_laser_collision player_rect s = true ->
  exists l, l ∈ lasers s /\ LaserBeam.state l = LaserBeam.active.
Proof.
  unfold check_laser_collision. rewrite existsb_exists.
  intros (l & Hin & Hc). exists l. split; [apply list_elem_of_In, Hin|].
  unfold LaserBeam.check_collision in Hc.
  destruct (LaserBeam.state l); try discriminate. reflexivity.
Qed.

(** A tick keeps the lasers in order. *)
Lemma update_laser_ok (cfg : Settings) (px py : R) (s s' : t)
    (g g' : Random.state) (flag : bool) :
  laser_ok s -> update cfg px py s g = Some ((flag, s'), g') -> laser_ok s'.
Proof.
  intros Hok H.
  pose proof (update_config _ _ _ _ _ _ _ _ H) as Hcfg.
  injection Hcfg as Hbox _.
  destruct (round_active s) eqn:Ha.
  2:{ rewrite update_inactive in H by exact Ha. injection H as _ <- _.
      exact Hok. }
  assert (Hoff : in_gap s = true -> lasers s = []).
  { intros Hg. destruct Hok as (Hon & _ & _).
    destruct (lasers s) as [|l ls]; [reflexivity|].
    destruct Hon as (_ & Hg' & _); congruence. }
  destruct (in_gap s) eqn:Hg.
  - pose proof (Hoff eq_refl) as Hl.
    destruct (Z.lt_ge_cases (gap_timer s + 1) (GAP_BETWEEN_ATTACKS cfg))
      as [Hlt|Hge].
    + rewrite update_gap_waits in H by assumption. injection H as _ <- _.
      apply laser_ok_off. exact Hl.
    + rewrite update_gap_over in H by assumption.
      apply bind_Some in H as (s1 & g1 & Hn & H).
      apply ret_Some in H as [[= _ <-] _].
      destruct (next_pattern_spec
                  (with_gap_timer 0
                     (with_in_gap false (with_gap_timer (gap_timer s + 1) s))) g)
        as (s2 & g2 & Hn' & _ & _ & Harena & _).
      rewrite Hn in Hn'. injection Hn' as <- <-.
      unfold arena_view in Harena. injection Harena as _ _ _ Hl' _ _ _ _.
      apply laser_ok_off. rewrite Hl'. exact Hl.
  - destruct (Z.lt_ge_cases (pattern_timer s + 1) (ATTACK_DURATION cfg))
      as [Hlt|Hge].
    2:{ rewrite update_pattern_over in H by assumption. injection H as _ <- _.
        apply laser_ok_off. reflexivity. }
    assert (Hrv : round_view s' = round_view (with_pattern_timer
                                                (pattern_timer s + 1) s)).
    { pose proof H as H'.
      rewrite update_running in H' by assumption.
      apply bind_Some in H' as (s2 & g2 & H2 & H').
      apply bind_Some in H' as (s3 & g3 & H3 & H').
      apply ret_Some in H' as [[= _ <-] _].
      assert (Hv2 : round_view s2
                    = round_view (with_pattern_timer (pattern_timer s + 1) s)).
      { eapply keeps_execute_current; [|exact H2]. reflexivity. }
      destruct (has_secondary s2).
      - eapply keeps_execute_secondary; [exact Hv2|exact H3].
      - apply ret_Some in H3 as [<- _]. exact Hv2. }
    unfold round_view in Hrv. injection Hrv as _ _ _ _ Hg' Ha' Hc' _.
    cbn [in_gap round_active current_pattern with_pattern_timer]
      in Hg', Ha', Hc'.
    destruct (decide (current_pattern s = Some "laser_warning")) as [Hc|Hc].
    + rewrite update_running in H by assumption.
      apply bind_Some in H as (s2 & g2 & H2 & H).
      apply bind_Some in H as (s3 & g3 & H3 & H).
      apply ret_Some in H as [[= _ <-] _].
      set (s1 := with_pattern_timer (pattern_timer s + 1) s) in *.
      rewrite execute_current_laser in H2 by exact Hc.
      apply laser_warning_result in H2.
      cbn [lasers laser_spawn_timer box_rect s1 with_pattern_timer] in H2.
      assert (Hl3 : laser_view s3 = laser_view s2).
      { destruct (has_secondary s2).
        - eapply (frames_execute_secondary laser_view); try exact H3;
            intros; reflexivity.
        - apply ret_Some in H3 as [<- _]. reflexivity. }
      unfold laser_view in Hl3. injection Hl3 as Hl3 Ht3.
      destruct Hok as (_ & Hlen & Hfine).
      assert (Hsurv : forall l,
                 l ∈ filter (fun l => LaserBeam.is_done l = false)
                            (map LaserBeam.update (lasers s)) ->
                 laser_fine (box_rect s) (laser_spawn_timer s + 1) l).
      { intros l Hin. apply list_elem_of_filter in Hin as [Hnd Hin].
        apply list_elem_of_fmap in Hin as (l0 & -> & Hin).
        apply laser_fine_update; [apply Hfine, Hin|exact Hnd]. }
      unfold laser_ok. rewrite Hl3, Ht3, Hbox, Ha', Hg', Hc'.
      split; [auto|].
      destruct H2 as [(_ & -> & ->)|(Hge & -> & fresh & g4 & g5 & Hf & ->)].
      * split; [|exact Hsurv].
        etransitivity; [apply length_filter|]. rewrite length_map. exact Hlen.
      * assert (Hnone : filter (fun l => LaserBeam.is_done l = false)
                               (map LaserBeam.update (lasers s)) = []).
        { destruct (filter _ _) as [|l ls] eqn:E; [reflexivity|].
          assert (Hin : l ∈ l :: ls) by left.
          apply Hsurv, laser_fine_age in Hin. lia. }
        rewrite Hnone. cbn [app]. split; [cbn; lia|].
        intros l Hin. apply list_elem_of_singleton in Hin as ->.
        eapply laser_fine_fresh, Hf.
    + assert (Hlv : laser_view s' = laser_view s).
      { eapply (frame_update_running laser_view); try eassumption;
          try (intros; reflexivity).
        - intros Hc'0. contradiction.
        - intros _ s0 H0 _.
          apply frames_gravity_wells; try (intros; reflexivity). exact H0. }
      revert Hok. apply laser_ok_same; assumption.
Qed.

Lemma run_laser_ok (cfg : Settings) (c : call) (s s' : t)
    (g g' : Random.state) :
  laser_ok s -> run cfg c s g = Some (s', g') -> laser_ok s'.
Proof.
  intros Hok H. destruct c; cbn [run] in H.
  - apply bind_Some in H as ([flag s1] & g1 & Hu & H).
    apply ret_Some in H as [<- _]. cbn [snd].
    eapply update_laser_ok; eauto.
  - apply start_new_round_inv in H as (queue & first & o & -> & _).
    apply laser_ok_off; reflexivity.
  - destruct (start_round_with_pattern_count_spec patterns_count s g)
      as (queue & first & o & g1 & H1 & _).
    rewrite H1 in H. injection H as <- _.
    apply laser_ok_off; reflexivity.
  - apply ret_Some in H as [<- _]. apply laser_ok_off; reflexivity.
  - apply ret_Some in H as [<- _]. revert Hok. apply laser_ok_same; reflexivity.
  - apply ret_Some in H as [<- _]. apply laser_ok_off; reflexivity.
  - apply ret_Some in H as [<- _]. revert Hok. apply laser_ok_same; reflexivity.
Qed.

Lemma reachable_laser_ok (cfg : Settings) (s : t) :
  reachable cfg s -> laser_ok s.
Proof.
  induction 1 as [box g g' s Hinit|c g g' s s' _ IH Hrun|store group s _ IH].
  - unfold init in Hinit.
    apply start_new_round_inv in Hinit as (queue & first & o & -> & _).
    apply laser_ok_off; reflexivity.
  - eapply run_laser_ok; eauto.
  - revert IH. apply laser_ok_same; reflexivity.
Qed.

(** In every state the manager can reach there is at most one laser. A
    laser it holds spans the manager's arena, is in its warning or its
    active phase (done lasers are dropped on the tick they finish), and
    is as many frames old as [laser_spawn_timer] says. So
    [check_laser_collision] can be true only while the round is active,
    outside a gap, with [laser_warning] as its current pattern, and only
    from the 30th to the 44th frame after a laser was spawned: 15 frames
    in every 60. *)
Theorem laser_invariant (cfg : Settings) (s : t) :
  reachable cfg s ->
  (length (lasers s) <= 1)%nat
  /\ (forall l, l ∈ lasers s ->
        LaserBeam.state l <> LaserBeam.done
        /\ LaserBeam.box_rect l = box_rect s
        /\ laser_age l = laser_spawn_timer s)
  /\ forall player_rect,
       check_laser_collision player_rect s = true ->
       is_round_active s = true /\ in_gap s = false
       /\ current_pattern s = Some "laser_warning"
       /\ 30 <= laser_spawn_timer s < 45.
Proof.
  intros Hr. destruct (reachable_laser_ok cfg s Hr) as (Hon & Hlen & Hfine).
  split; [exact Hlen|]. split.
  - intros l Hin. destruct (Hfine l Hin) as (Hb & _ & _ & Hage & Hst).
    split; [|split; assumption].
    intros Hd. rewrite Hd in Hst. exact Hst.
  - intros player_rect Hc.
    apply check_laser_collision_core in Hc as (l & Hin & Hs).
    destruct Hon as (Ha & Hg & Hcur).
    { intros E. rewrite E in Hin. inversion Hin. }
    split; [exact Ha|]. split; [exact Hg|]. split; [exact Hcur|].
    destruct (Hfine l Hin) as (_ & Hw & _ & Hage & Hst).
    unfold laser_age in Hage. rewrite Hs in Hage, Hst. lia.
Qed.

Lemma laser_invariant_witness :
  exists s g',
    init sample_settings sample_box sample_rng_6 = Some (s, g')
    /\ (length (lasers s) <= 1)%nat.
Proof.
  assert (E : exists s g',
             init sample_settings sample_box sample_rng_6 = Some (s, g')).
  { vm_compute. eexists _, _. reflexivity. }
  destruct E as (s & g' & Hinit).
  exists s, g'. split; [exact Hinit|].
  apply (laser_invariant sample_settings s
           (reachable_init _ _ _ _ _ Hinit)).
Defined.

(** ** The attack manager: a tick does not raise *)

Lemma yields_ret {A} (a : A) (P : A -> Prop) : P a -> yields (Random.ret a) P.
Proof. intros H g. exists a, g. split; [reflexivity|exact H]. Qed.

Lemma yields_bind {A B} (m : Random.M A) (k : A -> Random.M B)
    (Q : A -> Prop) (P : B -> Prop) :
  yields m Q -> (forall a, Q a -> yields (k a) P) ->
  yields (Random.bind m k) P.
Proof.
  intros Hm Hk g. destruct (Hm g) as (a & g1 & E & Ha).
  destruct (Hk a Ha g1) as (b & g2 & E' & Hb).
  exists b, g2. split; [|exact Hb]. unfold Random.bind. rewrite E. exact E'.
Qed.

Lemma yields_weaken {A} (m : Random.M A) (Q P : A -> Prop) :
  yields m Q -> (forall a, Q a -> P a) -> yields m P.
Proof.
  intros Hm HQ g. destruct (Hm g) as (a & g1 & E & Ha). eauto.
Qed.

Lemma yields_randint (a b : Z) :
  a <= b -> yields (Random.randint a b) (fun x => a <= x <= b).
Proof. intros H g. apply randint_total, H. Qed.

Lemma yields_choice {A} (l : list A) :
  l <> [] -> yields (Random.choice l) (fun x => x ∈ l).
Proof. intros H g. apply choice_total, H. Qed.

Lemma yields_random : yields Random.random (fun _ => True).
Proof. intros g. eexists _, _. split; [reflexivity|exact I]. Qed.

Lemma yields_uniform (a b : R) : yields (Random.uniform a b) (fun _ => True).
Proof. intros g. eexists _, _. split; [reflexivity|exact I]. Qed.

(** The selection loop succeeds on any pool that is long enough. *)
Lemma sample_loop_total {A} (k : nat) :
  forall (m : nat) (pool : list A) (g : Random.state),
    (k <= m)%nat -> (m <= length pool)%nat ->
    exists res g', Random.sample_loop k m pool g = Some (res, g')
                   /\ length res = k.
Proof.
  induction k as [|k IH]; intros m pool g Hk Hm.
  - exists [], g. split; reflexivity.
  - destruct (randbelow_total m g) as (j & g1 & Hj & Hlt); [lia|].
    destruct (lookup_lt_is_Some_2 pool j) as [a Ha]; [lia|].
    destruct (lookup_lt_is_Some_2 pool (m - 1)) as [last Hlast]; [lia|].
    destruct (IH (m - 1)%nat (<[j := last]> pool) g1) as (res & g2 & Hres & Hlen).
    { lia. } { rewrite length_insert. lia. }
    exists (a :: res), g2. split; [|cbn; lia].
    cbn [Random.sample_loop]. unfold Random.bind at 1. rewrite Hj, Ha, Hlast.
    unfold Random.bind. rewrite Hres. reflexivity.
Qed.

Lemma yields_sample {A} (population : list A) (k : Z) :
  0 <= k <= Z.of_nat (length population) ->
  yields (Random.sample population k) (fun res => length res = Z.to_nat k).
Proof.
  intros Hk g. unfold Random.sample.
  destruct (Z.ltb_spec k 0); [lia|].
  destruct (Z.ltb_spec (Z.of_nat (length population)) k); [lia|]. cbn [orb].
  apply sample_loop_total; lia.
Qed.

Lemma yields_bind_randint {B} (a b : Z) (k : Z -> Random.M B) (P : B -> Prop) :
  a <= b -> (forall x, a <= x <= b -> yields (k x) P) ->
  yields (Random.bind (Random.randint a b) k) P.
Proof. intros H Hk. eapply yields_bind; [apply yields_randint, H|exact Hk]. Qed.

Lemma yields_bind_choice {A B} (l : list A) (k : A -> Random.M B)
    (P : B -> Prop) :
  l <> [] -> (forall x, x ∈ l -> yields (k x) P) ->
  yields (Random.bind (Random.choice l) k) P.
Proof. intros H Hk. eapply yields_bind; [apply yields_choice, H|exact Hk]. Qed.

Lemma yields_bind_sample {A B} (population : list A) (n : Z)
    (k : list A -> Random.M B) (P : B -> Prop) :
  0 <= n <= Z.of_nat (length population) ->
  (forall res, length res = Z.to_nat n -> yields (k res) P) ->
  yields (Random.bind (Random.sample population n) k) P.
Proof. intros H Hk. eapply yields_bind; [apply yields_sample, H|exact Hk]. Qed.

(** A computation in front whose result does not matter. *)
Lemma yields_bind_any {A B} (m : Random.M A) (k : A -> Random.M B)
    (P : B -> Prop) :
  yields m (fun _ => True) -> (forall a, yields (k a) P) ->
  yields (Random.bind m k) P.
Proof. intros Hm Hk. eapply yields_bind; [exact Hm|]. intros a _. apply Hk. Qed.

(** A computation without draws that does not raise. *)
Lemma yields_bind_lift {A B} (o : option A) (k : A -> Random.M B)
    (P : B -> Prop) :
  (exists a, o = Some a) -> (forall a, yields (k a) P) ->
  yields (Random.bind (Random.lift o) k) P.
Proof.
  intros [a ->] Hk g. destruct (Hk a g) as (b & g' & E & Hb).
  exists b, g'. split; [exact E|exact Hb].
Qed.

(** The intervals and the count of the patterns: with a difficulty of
    [[0.5, 3.0]] and a constant that binary64 holds exactly, neither
    the division nor the conversion raises. *)
Lemma int_div_total (n : Z) (d : R) :
  Z.abs n <= 2 ^ 53 -> (0.5 <= d <= 3.0)%R ->
  exists i, Float64.int_div n d = Some i.
Proof.
  intros Hn Hd. unfold Float64.int_div. rewrite (of_int_exact n Hn).
  unfold Reqb. destruct (Req_dec_T d 0) as [E|_]; [lra|].
  unfold Float64.to_int. rewrite (finite_Some _ 54); [eauto| |lia].
  unfold Rdiv. rewrite Rabs_mult, Rabs_inv, (Rabs_pos_eq d) by lra.
  assert (H53 : (Rabs (IZR n) <= powerRZ 2 53)%R).
  { rewrite pow2_IZR, <- abs_IZR by lia. apply IZR_le, Hn. }
  replace 54 with (53 + 1) by lia. rewrite pow2_add.
  replace (powerRZ 2 1) with 2%R by (simpl; lra).
  assert (Hi : (0 < / d <= 2)%R).
  { split; [apply Rinv_0_lt_compat; lra|].
    replace 2%R with (/ 0.5)%R by lra. apply Rinv_le_contravar; lra. }
  pose proof (Rabs_pos (IZR n)). nra.
Qed.

(** At a zero difficulty the division raises. *)
Lemma int_div_zero (n : Z) : Float64.int_div n 0 = None.
Proof.
  unfold Float64.int_div. destruct (Float64.of_int n); [|reflexivity].
  unfold Reqb. destruct (Req_dec_T 0 0); [reflexivity|contradiction].
Qed.

(** Where the quotient is beyond the floats the conversion raises. *)
Lemma int_div_overflow (n : Z) (d : R) :
  Z.abs n <= 2 ^ 53 -> Float64.overflow (IZR n / d) = true ->
  Float64.int_div n d = None.
Proof.
  intros Hn Ho. unfold Float64.int_div. rewrite (of_int_exact n Hn).
  destruct (Reqb d 0); [reflexivity|].
  unfold Float64.to_int, Float64.finite. rewrite Ho. reflexivity.
Qed.

(** An interval of 30 at the difficulty [2 ^ -1070], a float below the
    normal ones: the quotient is an infinity. *)
Lemma int_div_subnormal : Float64.int_div 30 (powerRZ 2 (-1070)) = None.
Proof.
  apply int_div_overflow; [cbn; lia|].
  unfold Float64.overflow, Rleb.
  destruct (Rle_dec _ _) as [H|H]; [reflexivity|]. exfalso. apply H. clear H.
  pose proof (pow2_pos (-1070)) as Hp. pose proof (pow2_pos 1070) as Hq.
  pose proof (pow2_pos 970) as H970.
  pose proof (pow2_le 1024 1070 ltac:(lia)) as Hle.
  pose proof (pow2_opp 1070) as Ho.
  assert (E : powerRZ 2 1070 = (/ powerRZ 2 (-1070))%R).
  { apply Rmult_eq_reg_l with (powerRZ 2 (-1070)); [|lra].
    rewrite Rinv_r by lra. exact Ho. }
  unfold Rdiv. rewrite <- E, Rabs_pos_eq by nra.
  unfold Float64.huge. nra.
Qed.

(** The interval and the count, where they can be computed. *)
Lemma int_div_value (n i : Z) (d : R) :
  Z.abs n <= 2 ^ 53 -> Float64.int_div n d = Some i ->
  d <> 0%R /\ i = py_int (Float64.round (IZR n / d)).
Proof.
  intros Hn. unfold Float64.int_div. rewrite (of_int_exact n Hn).
  unfold Reqb. destruct (Req_dec_T d 0) as [E|E]; [discriminate|].
  unfold Float64.to_int, Float64.finite.
  destruct (Float64.overflow _); [discriminate|].
  intros [= <-]. split; [exact E|reflexivity].
Qed.

Lemma int_mul_value (n i : Z) (d : R) :
  Z.abs n <= 2 ^ 53 -> Float64.int_mul n d = Some i ->
  i = py_int (Float64.round (IZR n * d)).
Proof.
  intros Hn. unfold Float64.int_mul. rewrite (of_int_exact n Hn).
  unfold Float64.to_int, Float64.finite.
  destruct (Float64.overflow _); [discriminate|].
  intros [= <-]. reflexivity.
Qed.

Lemma bind_lift_Some {A B} (o : option A) (a : A) (k : A -> Random.M B)
    (g : Random.state) :
  o = Some a -> Random.bind (Random.lift o) k g = k a g.
Proof. intros ->. reflexivity. Qed.

Lemma bind_lift_None {A B} (o : option A) (k : A -> Random.M B)
    (g : Random.state) :
  o = None -> Random.bind (Random.lift o) k g = None.
Proof. intros ->. reflexivity. Qed.

(** A quotient that is a whole number. *)
Lemma int_div_exact (n k : Z) (d : R) :
  Z.abs n <= 2 ^ 53 -> Z.abs k <= 2 ^ 53 -> d <> 0%R ->
  (IZR n / d = IZR k)%R -> Float64.int_div n d = Some k.
Proof.
  intros Hn Hk Hd E. unfold Float64.int_div. rewrite (of_int_exact n Hn).
  unfold Reqb. destruct (Req_dec_T d 0) as [E0|_]; [contradiction|].
  unfold Float64.to_int. rewrite E.
  fold (Float64.of_int k). rewrite (of_int_exact k Hk), py_int_IZR.
  reflexivity.
Qed.

(** A product that is a whole number. *)
Lemma int_mul_exact (n k : Z) (d : R) :
  Z.abs n <= 2 ^ 53 -> Z.abs k <= 2 ^ 53 ->
  (IZR n * d = IZR k)%R -> Float64.int_mul n d = Some k.
Proof.
  intros Hn Hk E. unfold Float64.int_mul. rewrite (of_int_exact n Hn).
  unfold Float64.to_int. rewrite E.
  fold (Float64.of_int k). rewrite (of_int_exact k Hk), py_int_IZR.
  reflexivity.
Qed.

Lemma int_mul_total (n : Z) (d : R) :
  Z.abs n <= 2 ^ 53 -> (0.5 <= d <= 3.0)%R ->
  exists i, Float64.int_mul n d = Some i.
Proof.
  intros Hn Hd. unfold Float64.int_mul. rewrite (of_int_exact n Hn).
  unfold Float64.to_int. rewrite (finite_Some _ 55); [eauto| |lia].
  rewrite Rabs_mult, (Rabs_pos_eq d) by lra.
  assert (H53 : (Rabs (IZR n) <= powerRZ 2 53)%R).
  { rewrite pow2_IZR, <- abs_IZR by lia. apply IZR_le, Hn. }
  replace 55 with (53 + 2) by lia. rewrite pow2_add.
  replace (powerRZ 2 2) with 4%R by (simpl; lra).
  pose proof (Rabs_pos (IZR n)). nra.
Qed.

Lemma safe_seq (s : t) (c : Random.M t) (k : t -> Random.M t) :
  safe s c ->
  (forall s1, config_view s1 = config_view s -> safe s (k s1)) ->
  safe s (Random.bind c k).
Proof. intros Hc Hk. eapply yields_bind; [exact Hc|exact Hk]. Qed.

Lemma safe_for_each {B} (s : t) (l : list B) (body : B -> t -> Random.M t) :
  (forall a s1, config_view s1 = config_view s -> safe s (body a s1)) ->
  forall s0, config_view s0 = config_view s -> safe s (for_each l body s0).
Proof.
  intros Hb. induction l as [|a l IH]; intros s0 H0; cbn [for_each].
  - apply yields_ret, H0.
  - apply safe_seq; [apply Hb, H0|]. intros s1 H1. apply IH, H1.
Qed.

(** A safe computation leaves the arena and the difficulty, whatever
    it returns. *)
Lemma safe_frames (s : t) (c : Random.M t) :
  safe s c -> frames config_view s c.
Proof.
  intros H g s' g' E. destruct (H g) as (s1 & g1 & E1 & H1).
  rewrite E1 in E. injection E as <- _. exact H1.
Qed.

(** Assignments that the arena and the difficulty do not see. *)
Lemma config_put_timer (b : bool) (v : Z) (s : t) :
  config_view (put_timer b v s) = config_view s.
Proof. destruct b; reflexivity. Qed.

Lemma config_step_blade (px py : R) (s : t) (k : nat) :
  config_view (step_blade px py s k) = config_view s.
Proof. apply frame_step_blade; intros; reflexivity. Qed.

Lemma config_step_ring (s : t) (k : nat) :
  config_view (step_ring s k) = config_view s.
Proof. apply frame_step_ring; intros; reflexivity. Qed.

Lemma config_step_cross (s : t) (k : nat) :
  config_view (step_cross s k) = config_view s.
Proof. apply frame_step_cross; intros; reflexivity. Qed.

Lemma config_fold_left {B} (l : list B) (f : t -> B -> t) :
  (forall s1 a, config_view (f s1 a) = config_view s1) ->
  forall s0, config_view (fold_left f l s0) = config_view s0.
Proof. apply frame_fold_left. Qed.

Lemma config_with_sprites v (s : t) :
  config_view (with_sprites v s) = config_view s.
Proof. reflexivity. Qed.

Lemma config_with_next_sprite v (s : t) :
  config_view (with_next_sprite v s) = config_view s.
Proof. reflexivity. Qed.

Lemma config_with_bullets_group v (s : t) :
  config_view (with_bullets_group v s) = config_view s.
Proof. reflexivity. Qed.

Lemma config_with_pattern_internal_timer v (s : t) :
  config_view (with_pattern_internal_timer v s) = config_view s.
Proof. reflexivity. Qed.

Lemma config_with_pattern_internal_timer_2 v (s : t) :
  config_view (with_pattern_internal_timer_2 v s) = config_view s.
Proof. reflexivity. Qed.

Lemma config_with_lasers v (s : t) :
  config_view (with_lasers v s) = config_view s.
Proof. reflexivity. Qed.

Lemma config_with_laser_spawn_timer v (s : t) :
  config_view (with_laser_spawn_timer v s) = config_view s.
Proof. reflexivity. Qed.

Lemma config_with_gravity_mode v (s : t) :
  config_view (with_gravity_mode v s) = config_view s.
Proof. reflexivity. Qed.

Lemma config_with_gravity_wells v (s : t) :
  config_view (with_gravity_wells v s) = config_view s.
Proof. reflexivity. Qed.

Lemma config_with_cross_bullets v (s : t) :
  config_view (with_cross_bullets v s) = config_view s.
Proof. reflexivity. Qed.

Lemma config_with_cross_angle v (s : t) :
  config_view (with_cross_angle v s) = config_view s.
Proof. reflexivity. Qed.

Lemma config_with_cross_center v (s : t) :
  config_view (with_cross_center v s) = config_view s.
Proof. reflexivity. Qed.

Lemma config_with_ring_timer v (s : t) :
  config_view (with_ring_timer v s) = config_view s.
Proof. reflexivity. Qed.

Lemma config_with_homing_blades v (s : t) :
  config_view (with_homing_blades v s) = config_view s.
Proof. reflexivity. Qed.

Lemma config_spawn (sp : Sprite) (s : t) :
  config_view (spawn sp s) = config_view s.
Proof. reflexivity. Qed.

Lemma config_kill (k : nat) (s : t) : config_view (kill k s) = config_view s.
Proof. reflexivity. Qed.

Create Rewrite HintDb config.
#[local] Hint Rewrite
  config_with_sprites
  config_with_next_sprite
  config_with_bullets_group
  config_with_pattern_internal_timer
  config_with_pattern_internal_timer_2
  config_with_lasers
  config_with_laser_spawn_timer
  config_with_gravity_mode
  config_with_gravity_wells
  config_with_cross_bullets
  config_with_cross_angle
  config_with_cross_center
  config_with_ring_timer
  config_with_homing_blades
  config_put_timer
  config_spawn
  config_kill : config.

Lemma box_of_config (s1 s : t) :
  config_view s1 = config_view s -> box_rect s1 = box_rect s.
Proof. intros [= H _]. exact H. Qed.

Lemma difficulty_of_config (s1 s : t) :
  config_view s1 = config_view s -> difficulty s1 = difficulty s.
Proof. intros [= _ H]. exact H. Qed.

Ltac config_peel :=
  repeat first
    [ progress autorewrite with config
    | rewrite config_fold_left
        by (intros; first [ apply config_step_blade | apply config_step_ring
                          | apply config_step_cross
                          | config_peel; reflexivity ])
    | progress unfold add_sprite
    | progress cbv beta iota zeta
    | match goal with
      | |- context [if ?c then _ else _] => destruct c
      end ].

Ltac config_close :=
  first [ assumption | config_peel; first [assumption|reflexivity] ].

Ltac box_norm s :=
  repeat match goal with
         | |- context [box_rect ?e] =>
             lazymatch e with
             | s => fail
             | _ =>
                 let E := fresh "E" in
                 assert (E : box_rect e = box_rect s)
                   by (apply box_of_config; config_close);
                 rewrite E; clear E
             end
         end.

Ltac difficulty_norm s :=
  repeat match goal with
         | |- context [difficulty ?e] =>
             lazymatch e with
             | s => fail
             | _ =>
                 let E := fresh "E" in
                 assert (E : difficulty e = difficulty s)
                   by (apply difficulty_of_config; config_close);
                 rewrite E; clear E
             end
         end.

Ltac side s :=
  box_norm s;
  unfold Rect.left, Rect.right, Rect.top, Rect.bottom,
    Rect.width, Rect.height in *;
  first [ lia | cbn [length]; lia | vm_compute; split; discriminate ].

Ltac safe_step s :=
  lazymatch goal with
  | |- yields (Random.ret _) _ => apply yields_ret
  | |- yields (for_each _ _ _) _ => apply safe_for_each; [intros ? ? ?|]
  | |- yields (Random.bind ?m _) _ =>
      lazymatch m with
      | Random.randint _ _ => apply yields_bind_randint; [side s|intros ? ?]
      | Random.choice _ => apply yields_bind_choice; [discriminate|intros ? ?]
      | Random.uniform _ _ =>
          apply yields_bind_any; [apply yields_uniform|intros ?]
      | Random.random => apply yields_bind_any; [apply yields_random|intros ?]
      | Random.sample _ _ => apply yields_bind_sample; [side s|intros ? ?]
      | Random.lift (Float64.int_div _ _) =>
          apply yields_bind_lift;
          [difficulty_norm s; apply int_div_total;
           first [assumption|cbn; lia]
          |intros ?]
      | Random.lift (Float64.int_mul _ _) =>
          apply yields_bind_lift;
          [difficulty_norm s; apply int_mul_total;
           first [assumption|cbn; lia]
          |intros ?]
      | _ =>
          lazymatch type of m with
          | Random.M t => apply safe_seq; [|intros ? ?]
          | _ => apply yields_bind_any; [|intros ?]
          end
      end
  | |- yields (LaserBeam.init _) _ => unfold LaserBeam.init
  | |- yields (Random.randint _ _) (fun _ => True) =>
      eapply yields_weaken; [apply yields_randint; side s|intros ? _; exact I]
  | |- yields (Random.choice _) (fun _ => True) =>
      eapply yields_weaken; [apply yields_choice; discriminate|intros ? _; exact I]
  | |- yields (Random.uniform _ _) (fun _ => True) => apply yields_uniform
  | |- yields Random.random (fun _ => True) => apply yields_random
  | |- yields (if ?c then _ else _) _ => destruct c
  | |- yields (match add_sprite _ _ with _ => _ end) _ =>
      unfold add_sprite; cbv beta iota
  | |- yields (match ?x with _ => _ end) _ => destruct x
  | |- safe _ _ => unfold safe
  | |- config_view _ = config_view _ => config_close
  | |- True => exact I
  end.

Ltac safe_auto s := cbv zeta; repeat safe_step s.

Section Safe.

Context (cfg : Settings) (s : t).
Hypothesis Hfit : fit cfg s.

Lemma safe_line_rain (secondary : bool) (s0 : t) :
  config_view s0 = config_view s -> safe s (_pattern_line_rain cfg secondary s0).
Proof.
  destruct Hfit as (Hw & Hh & Hd & HT & HL & HC & HN & HG).
  intros H. unfold _pattern_line_rain. safe_auto s.
Qed.

Lemma safe_circle_burst (secondary : bool) (s0 : t) :
  config_view s0 = config_view s ->
  safe s (_pattern_circle_burst cfg secondary s0).
Proof.
  destruct Hfit as (Hw & Hh & Hd & HT & HL & HC & HN & HG).
  intros H. unfold _pattern_circle_burst. safe_auto s.
Qed.

Lemma safe_targeting (px py : R) (secondary : bool) (s0 : t) :
  config_view s0 = config_view s ->
  safe s (_pattern_targeting cfg px py secondary s0).
Proof.
  destruct Hfit as (Hw & Hh & Hd & HT & HL & HC & HN & HG).
  intros H. unfold _pattern_targeting. safe_auto s.
Qed.

Lemma safe_bouncing_walls (secondary : bool) (s0 : t) :
  config_view s0 = config_view s ->
  safe s (_pattern_bouncing_walls secondary s0).
Proof.
  destruct Hfit as (Hw & Hh & Hd & HT & HL & HC & HN & HG).
  intros H. unfold _pattern_bouncing_walls. safe_auto s.
Qed.

Lemma safe_spiral (s0 : t) :
  config_view s0 = config_view s -> safe s (_pattern_spiral cfg s0).
Proof.
  destruct Hfit as (Hw & Hh & Hd & HT).
  intros H. unfold _pattern_spiral. safe_auto s.
Qed.

Lemma safe_laser_warning (s0 : t) :
  config_view s0 = config_view s -> safe s (_pattern_laser_warning s0).
Proof.
  destruct Hfit as (Hw & Hh & Hd & HT).
  intros H. unfold _pattern_laser_warning. safe_auto s.
Qed.

Lemma safe_snake_wave (s0 : t) :
  config_view s0 = config_view s -> safe s (_pattern_snake_wave s0).
Proof.
  destruct Hfit as (Hw & Hh & Hd & HT).
  intros H. unfold _pattern_snake_wave. safe_auto s.
Qed.

Lemma safe_homing_blades (px py : R) (s0 : t) :
  config_view s0 = config_view s -> safe s (_pattern_homing_blades px py s0).
Proof.
  destruct Hfit as (Hw & Hh & Hd & HT).
  intros H. unfold _pattern_homing_blades. safe_auto s.
Qed.

Lemma safe_expanding_ring (s0 : t) :
  config_view s0 = config_view s -> safe s (_pattern_expanding_ring cfg s0).
Proof.
  destruct Hfit as (Hw & Hh & Hd & HT).
  intros H. unfold _pattern_expanding_ring. safe_auto s.
Qed.

Lemma safe_gravity_wells (px py : R) (s0 : t) :
  config_view s0 = config_view s ->
  safe s (_pattern_gravity_wells cfg px py s0).
Proof.
  destruct Hfit as (Hw & Hh & Hd & HT).
  intros H. unfold _pattern_gravity_wells. safe_auto s.
Qed.

Lemma safe_rotating_cross (px py : R) (s0 : t) :
  config_view s0 = config_view s ->
  safe s (_pattern_rotating_cross cfg px py s0).
Proof.
  destruct Hfit as (Hw & Hh & Hd & HT).
  intros H. unfold _pattern_rotating_cross. safe_auto s.
Qed.

Lemma safe_execute_current (px py : R) (s0 : t) :
  config_view s0 = config_view s ->
  safe s (_execute_current_pattern cfg px py s0).
Proof.
  intros H. unfold _execute_current_pattern.
  destruct (current_pattern s0) as [pattern|]; [|apply yields_ret, H].
  repeat match goal with
         | |- safe _ (if ?c then _ else _) => destruct c
         end;
    first [ apply safe_line_rain | apply safe_circle_burst
          | apply safe_targeting | apply safe_bouncing_walls
          | apply safe_spiral | apply safe_laser_warning
          | apply safe_snake_wave | apply safe_homing_blades
          | apply safe_expanding_ring | apply safe_gravity_wells
          | apply safe_rotating_cross | apply yields_ret ];
    exact H.
Qed.

Lemma safe_execute_secondary (px py : R) (s0 : t) :
  config_view s0 = config_view s ->
  safe s (_execute_secondary_pattern cfg px py s0).
Proof.
  intros H. unfold _execute_secondary_pattern.
  destruct (secondary_pattern s0) as [pattern|]; [|apply yields_ret, H].
  repeat match goal with
         | |- safe _ (if ?c then _ else _) => destruct c
         end;
    first [ apply safe_line_rain | apply safe_circle_burst
          | apply safe_targeting | apply safe_bouncing_walls
          | apply yields_ret ];
    exact H.
Qed.

(** A tick in a fit manager. *)
Lemma update_safe (px py : R) (g : Random.state) :
  exists s' g',
    update cfg px py s g = Some ((round_active s, s'), g')
    /\ config_view s' = config_view s.
Proof.
  destruct (round_active s) eqn:Ha.
  2:{ exists s, g. split; [apply update_inactive, Ha|reflexivity]. }
  destruct (in_gap s) eqn:Hg.
  - destruct (Z.lt_ge_cases (gap_timer s + 1) (GAP_BETWEEN_ATTACKS cfg))
      as [Hlt|Hge].
    + eexists _, g. split; [apply update_gap_waits; assumption|reflexivity].
    + destruct (next_pattern_spec
                  (with_gap_timer 0
                     (with_in_gap false (with_gap_timer (gap_timer s + 1) s))) g)
        as (s2 & g2 & Hn & _).
      exists s2, g2. split.
      * rewrite update_gap_over by assumption.
        unfold Random.bind. rewrite Hn. reflexivity.
      * apply next_pattern_config in Hn. exact Hn.
  - destruct (Z.lt_ge_cases (pattern_timer s + 1) (ATTACK_DURATION cfg))
      as [Hlt|Hge].
    + set (s1 := with_pattern_timer (pattern_timer s + 1) s).
      destruct (safe_execute_current px py s1 eq_refl g)
        as (s2 & g2 & H2 & Hc2).
      assert (H3 : exists s3 g3,
                 (if has_secondary s2
                  then _execute_secondary_pattern cfg px py s2
                  else Random.ret s2) g2 = Some (s3, g3)
                 /\ config_view s3 = config_view s).
      { destruct (has_secondary s2).
        - apply safe_execute_secondary, Hc2.
        - exists s2, g2. split; [reflexivity|exact Hc2]. }
      destruct H3 as (s3 & g3 & H3 & Hc3).
      exists s3, g3. split; [|exact Hc3].
      rewrite update_running by assumption. fold s1.
      unfold Random.bind at 1. rewrite H2.
      unfold Random.bind. rewrite H3. reflexivity.
    + eexists _, g. split; [apply update_pattern_over; assumption|reflexivity].
Qed.

End Safe.

Lemma fit_config (cfg : Settings) (s s' : t) :
  config_view s' = config_view s -> fit cfg s -> fit cfg s'.
Proof. unfold fit. intros [= -> ->]. auto. Qed.

(** Any number of ticks in a fit manager. *)
Lemma ticks_safe (cfg : Settings) (px py : R) (n : nat) :
  forall (s : t) (g : Random.state),
    fit cfg s ->
    exists s' g',
      ticks cfg px py n s g = Some (s', g')
      /\ config_view s' = config_view s.
Proof.
  induction n as [|n IH]; intros s g Hfit.
  - exists s, g. split; reflexivity.
  - destruct (update_safe cfg s Hfit px py g) as (s1 & g1 & H1 & Hc1).
    destruct (IH s1 g1 (fit_config cfg s s1 Hc1 Hfit)) as (s' & g' & H & Hc).
    exists s', g'. split; [|congruence].
    cbn [ticks]. unfold Random.bind. rewrite H1. exact H.
Qed.

(** In an arena of at least 100 by 100 pixels, with a difficulty of
    [[0.5, 3.0]], the range [set_difficulty] keeps it in, with intervals
    and a burst count that binary64 holds exactly and a count of
    targeting shots that is not negative, no draw, no sample, no division
    by the difficulty and no conversion of an interval or of a count
    raises in a tick of [AttackManager.update], whatever the state of the
    round, the running patterns, the place of the player and the draws of
    the generator: every range a pattern draws from is inhabited, every
    sample is within its population, the difficulty is not zero and the
    quotients and products are finite. The tick returns whether the round
    was active when it began, so the tick that ends a round still returns
    true; it leaves the arena and the difficulty as they are, and so any
    number of ticks go through. *)
Theorem update_never_raises (cfg : Settings) (s : t) :
  fit cfg s ->
  (forall (px py : R) (g : Random.state),
     exists s' g',
       update cfg px py s g = Some ((is_round_active s, s'), g')
       /\ box_rect s' = box_rect s /\ difficulty s' = difficulty s)
  /\ forall (n : nat) (px py : R) (g : Random.state),
       exists s' g',
         ticks cfg px py n s g = Some (s', g')
         /\ box_rect s' = box_rect s /\ difficulty s' = difficulty s.
Proof.
  intros Hfit. split.
  - intros px py g.
    destruct (update_safe cfg s Hfit px py g) as (s' & g' & H & Hc).
    exists s', g'. split; [exact H|]. injection Hc as -> ->. split; reflexivity.
  - intros n px py g.
    destruct (ticks_safe cfg px py n s g Hfit) as (s' & g' & H & Hc).
    exists s', g'. split; [exact H|]. injection Hc as -> ->. split; reflexivity.
Qed.

Lemma update_never_raises_witness :
  exists s' g',
    ticks sample_settings 0 0 1000 (sample_manager "homing_blades" None 0 false)
      sample_rng = Some (s', g')
    /\ box_rect s' = sample_box.
Proof.
  assert (Hfit : fit sample_settings (sample_manager "homing_blades" None 0 false)).
  { unfold fit. cbn. repeat split; try lia; lra. }
  destruct (update_never_raises sample_settings _ Hfit) as [_ Hticks].
  destruct (Hticks 1000%nat 0%R 0%R sample_rng) as (s' & g' & H & Hb & _).
  exists s', g'. split; [exact H|exact Hb].
Defined.

(** The patterns need their room. In an arena less than 80 pixels wide
    the tick on which the pattern [line_rain] is due to spawn its lines
    raises: the range it draws the place of a line from,
    [[left + 20, right - 60]], is empty. The pattern is due when its
    counter, after the tick, has reached the interval
    [int(LINE_RAIN_INTERVAL / difficulty)]; where that interval itself
    cannot be computed the tick raises as well. *)
Theorem line_rain_needs_room (cfg : Settings) (px py : R) (s : t)
    (g : Random.state) :
  round_active s = true -> in_gap s = false ->
  pattern_timer s + 1 < ATTACK_DURATION cfg ->
  current_pattern s = Some "line_rain" ->
  (forall interval,
     Float64.int_div (LINE_RAIN_INTERVAL cfg) (difficulty s) = Some interval ->
     interval <= pattern_internal_timer s + 1) ->
  1 <= LINE_RAIN_BULLET_COUNT cfg ->
  Rect.width (box_rect s) < 80 ->
  update cfg px py s g = None.
Proof.
  intros Ha Hg Hlt Hc Hdue Hcount Hnarrow.
  rewrite update_running by assumption.
  unfold Random.bind at 1.
  unfold _execute_current_pattern.
  cbn [current_pattern with_pattern_timer]. rewrite Hc.
  change (if ("line_rain" =? "line_rain")%string then ?a else ?b) with a.
  unfold _pattern_line_rain. cbv zeta.
  cbn [get_timer put_timer pattern_internal_timer difficulty
         with_pattern_internal_timer with_pattern_timer].
  unfold Random.bind at 1. unfold Random.lift at 1.
  destruct (Float64.int_div (LINE_RAIN_INTERVAL cfg) (difficulty s))
    as [interval|] eqn:Ei; [|reflexivity].
  specialize (Hdue interval eq_refl).
  destruct (Z.geb_spec (pattern_internal_timer s + 1) interval); [|lia].
  unfold py_range.
  destruct (Z.to_nat (LINE_RAIN_BULLET_COUNT cfg)) as [|k] eqn:Ek; [lia|].
  cbn [seq map for_each box_rect with_pattern_internal_timer with_pattern_timer].
  unfold Random.bind at 1 2 3. unfold Random.randint.
  unfold Rect.width, Rect.left, Rect.right in *.
  destruct (Z.ltb_spec (Rect.x (box_rect s) + Rect.w (box_rect s) - 60)
              (Rect.x (box_rect s) + 20)); [reflexivity|lia].
Qed.

Lemma line_rain_needs_room_witness :
  update sample_settings 0 0
    (AttackManager.mk (Rect.mk 170 140 70 200) ∅ 0%nat []
       ["line_rain"] 0%nat 29 0 false true (Some "line_rain") None 1.0%R
       29 0 [] 0 false [] [] 0%R (0, 0) 0 [] None)
    sample_rng = None.
Proof.
  apply line_rain_needs_room; try reflexivity; try (cbn; lia).
  cbn [LINE_RAIN_INTERVAL sample_settings difficulty pattern_internal_timer].
  intros interval Hi.
  rewrite (int_div_exact 30 30) in Hi by (try (cbn; lia); lra).
  injection Hi as <-. lia.
Defined.

(** ** The attack manager: the length of a round *)

(** A tick that runs the patterns moves the pattern's counter and
    nothing else of the scheduling part. *)
Lemma update_running_view (cfg : Settings) (px py : R) (s s' : t)
    (g g' : Random.state) (flag : bool) :
  round_active s = true -> in_gap s = false ->
  pattern_timer s + 1 < ATTACK_DURATION cfg ->
  update cfg px py s g = Some ((flag, s'), g') ->
  round_view s' = round_view (with_pattern_timer (pattern_timer s + 1) s).
Proof.
  intros Ha Hg Hlt H.
  rewrite update_running in H by assumption.
  apply bind_Some in H as (s2 & g2 & H2 & H).
  apply bind_Some in H as (s3 & g3 & H3 & H).
  apply ret_Some in H as [[= _ <-] _].
  assert (Hv2 : round_view s2
                = round_view (with_pattern_timer (pattern_timer s + 1) s)).
  { eapply keeps_execute_current; [|exact H2]. reflexivity. }
  destruct (has_secondary s2).
  - eapply keeps_execute_secondary; [exact Hv2|exact H3].
  - apply ret_Some in H3 as [<- _]. exact Hv2.
Qed.

(** One tick moves the clock of a round by one, until the round has
    lived [ATTACK_DURATION + GAP_BETWEEN_ATTACKS] ticks for every entry
    of its queue; the tick that completes them ends it. *)
Lemma update_clock (cfg : Settings) (px py : R) (s s' : t)
    (g g' : Random.state) (flag : bool) :
  1 <= ATTACK_DURATION cfg -> 1 <= GAP_BETWEEN_ATTACKS cfg ->
  on_time cfg s ->
  update cfg px py s g = Some ((flag, s'), g') ->
  attack_queue s' = attack_queue s
  /\ if round_clock cfg s + 1
        <? Z.of_nat (length (attack_queue s))
           * (ATTACK_DURATION cfg + GAP_BETWEEN_ATTACKS cfg)
     then on_time cfg s' /\ round_clock cfg s' = round_clock cfg s + 1
     else round_active s' = false
          /\ current_pattern_index s' = length (attack_queue s).
Proof.
  intros HA HG (Ha & Hi & Ht) H. unfold round_clock, on_time.
  set (A := ATTACK_DURATION cfg) in *. set (G := GAP_BETWEEN_ATTACKS cfg) in *.
  assert (Hk : (Z.of_nat (current_pattern_index s) + 1) * (A + G)
               <= Z.of_nat (length (attack_queue s)) * (A + G)).
  { apply Z.mul_le_mono_nonneg_r; lia. }
  destruct (in_gap s) eqn:Hg.
  - destruct (Z.lt_ge_cases (gap_timer s + 1) G) as [Hlt|Hge].
    + rewrite update_gap_waits in H by assumption. injection H as _ <- _.
      cbn [attack_queue current_pattern_index in_gap gap_timer round_active
             with_gap_timer].
      rewrite Hg. split; [reflexivity|].
      destruct (Z.ltb_spec
                  (Z.of_nat (current_pattern_index s) * (A + G)
                   + (A + gap_timer s) + 1)
                  (Z.of_nat (length (attack_queue s)) * (A + G))); [|lia].
      repeat split; try assumption; lia.
    + rewrite update_gap_over in H by assumption.
      apply bind_Some in H as (s1 & g1 & Hn & H).
      apply ret_Some in H as [[= _ <-] _].
      destruct (next_pattern_spec
                  (with_gap_timer 0
                     (with_in_gap false (with_gap_timer (gap_timer s + 1) s))) g)
        as (s2 & g2 & Hn' & Hidx & Hq & _ & Hg' & Hgt' & Hend & Hnext).
      rewrite Hn in Hn'. injection Hn' as <- <-.
      cbn [current_pattern_index attack_queue round_active in_gap gap_timer
             with_gap_timer with_in_gap] in Hidx, Hq, Hg', Hgt', Hend, Hnext.
      split; [exact Hq|]. rewrite Hidx, Hq, Hg'.
      destruct (Nat.le_gt_cases (length (attack_queue s))
                  (S (current_pattern_index s))) as [Hle|Hgt].
      * destruct (Hend Hle) as [Hoff _].
        assert (El : length (attack_queue s) = S (current_pattern_index s))
          by lia.
        rewrite El in *.
        destruct (Z.ltb_spec
                    (Z.of_nat (current_pattern_index s) * (A + G)
                     + (A + gap_timer s) + 1)
                    (Z.of_nat (S (current_pattern_index s)) * (A + G))); [lia|].
        split; [exact Hoff|reflexivity].
      * destruct (Hnext Hgt) as (Hon & Hpt & _).
        assert (Hk2 : (Z.of_nat (current_pattern_index s) + 2) * (A + G)
                      <= Z.of_nat (length (attack_queue s)) * (A + G)).
        { apply Z.mul_le_mono_nonneg_r; lia. }
        destruct (Z.ltb_spec
                    (Z.of_nat (current_pattern_index s) * (A + G)
                     + (A + gap_timer s) + 1)
                    (Z.of_nat (length (attack_queue s)) * (A + G))); [|lia].
        rewrite Hon, Hpt, Ha. repeat split; try lia.
  - destruct (Z.lt_ge_cases (pattern_timer s + 1) A) as [Hlt|Hge].
    + apply update_running_view in H; try assumption.
      unfold round_view in H. injection H as Hq Hidx Hpt _ Hg' Ha' _ _.
      cbn [attack_queue current_pattern_index pattern_timer in_gap round_active
             with_pattern_timer] in Hq, Hidx, Hpt, Hg', Ha'.
      rewrite Hq, Hidx, Hpt, Hg', Ha', Hg, Ha. split; [reflexivity|].
      destruct (Z.ltb_spec
                  (Z.of_nat (current_pattern_index s) * (A + G)
                   + pattern_timer s + 1)
                  (Z.of_nat (length (attack_queue s)) * (A + G))); [|lia].
      repeat split; try assumption; lia.
    + rewrite update_pattern_over in H by assumption. injection H as _ <- _.
      cbn [attack_queue current_pattern_index pattern_timer in_gap round_active
             gap_timer _end_current_pattern with_pattern_timer with_gap_timer
             with_in_gap with_homing_blades with_cross_bullets
             with_gravity_wells with_gravity_mode with_lasers empty_group
             with_bullets_group].
      split; [reflexivity|].
      destruct (Z.ltb_spec
                  (Z.of_nat (current_pattern_index s) * (A + G)
                   + pattern_timer s + 1)
                  (Z.of_nat (length (attack_queue s)) * (A + G))); [|lia].
      repeat split; try assumption; lia.
Qed.

(** The clock of a round on time is below the length of the round. *)
Lemma on_time_clock (cfg : Settings) (s : t) :
  1 <= ATTACK_DURATION cfg -> 1 <= GAP_BETWEEN_ATTACKS cfg ->
  on_time cfg s ->
  0 <= round_clock cfg s
  < Z.of_nat (length (attack_queue s))
    * (ATTACK_DURATION cfg + GAP_BETWEEN_ATTACKS cfg).
Proof.
  intros HA HG (_ & Hi & Ht). unfold round_clock.
  set (A := ATTACK_DURATION cfg) in *. set (G := GAP_BETWEEN_ATTACKS cfg) in *.
  assert (Hk : (Z.of_nat (current_pattern_index s) + 1) * (A + G)
               <= Z.of_nat (length (attack_queue s)) * (A + G)).
  { apply Z.mul_le_mono_nonneg_r; lia. }
  assert (H0 : 0 <= Z.of_nat (current_pattern_index s) * (A + G)).
  { apply Z.mul_nonneg_nonneg; lia. }
  destruct (in_gap s); lia.
Qed.

(** Ticks of a manager whose round is over change nothing. *)
Lemma ticks_inactive (cfg : Settings) (px py : R) (n : nat) (s : t)
    (g : Random.state) :
  round_active s = false -> ticks cfg px py n s g = Some (s, g).
Proof.
  intros Ha. induction n as [|n IH]; [reflexivity|].
  cbn [ticks]. unfold Random.bind. rewrite update_inactive by exact Ha.
  exact IH.
Qed.

(** Any number of ticks. *)
Lemma ticks_clock (cfg : Settings) (px py : R) (n : nat) :
  1 <= ATTACK_DURATION cfg -> 1 <= GAP_BETWEEN_ATTACKS cfg ->
  forall (s s' : t) (g g' : Random.state),
    on_time cfg s ->
    ticks cfg px py n s g = Some (s', g') ->
    attack_queue s' = attack_queue s
    /\ if round_clock cfg s + Z.of_nat n
          <? Z.of_nat (length (attack_queue s))
             * (ATTACK_DURATION cfg + GAP_BETWEEN_ATTACKS cfg)
       then on_time cfg s'
            /\ round_clock cfg s' = round_clock cfg s + Z.of_nat n
       else round_active s' = false
            /\ current_pattern_index s' = length (attack_queue s).
Proof.
  intros HA HG. induction n as [|n IH]; intros s s' g g' Hon H.
  - cbn [ticks] in H. apply ret_Some in H as [<- _].
    split; [reflexivity|].
    rewrite Z.add_0_r.
    pose proof (on_time_clock cfg s HA HG Hon) as Hlt.
    destruct (Z.ltb_spec (round_clock cfg s)
                (Z.of_nat (length (attack_queue s))
                 * (ATTACK_DURATION cfg + GAP_BETWEEN_ATTACKS cfg))); [|lia].
    split; [exact Hon|reflexivity].
  - cbn [ticks] in H. apply bind_Some in H as ([flag s1] & g1 & H1 & H).
    cbn [snd] in H.
    destruct (update_clock cfg px py s s1 g g1 flag HA HG Hon H1) as [Hq Hstep].
    destruct (Z.ltb_spec (round_clock cfg s + 1)
                (Z.of_nat (length (attack_queue s))
                 * (ATTACK_DURATION cfg + GAP_BETWEEN_ATTACKS cfg)))
      as [Hlt|Hge].
    + destruct Hstep as [Hon1 Hc1].
      destruct (IH s1 s' g1 g' Hon1 H) as [Hq' Hrest].
      rewrite Hq, Hc1 in Hrest. split; [congruence|].
      replace (round_clock cfg s + Z.of_nat (S n))
        with (round_clock cfg s + 1 + Z.of_nat n) by lia.
      exact Hrest.
    + destruct Hstep as [Hoff Hidx].
      rewrite ticks_inactive in H by exact Hoff. injection H as <- _.
      split; [exact Hq|].
      destruct (Z.ltb_spec (round_clock cfg s + Z.of_nat (S n))
                  (Z.of_nat (length (attack_queue s))
                   * (ATTACK_DURATION cfg + GAP_BETWEEN_ATTACKS cfg))); [lia|].
      split; assumption.
Qed.

(** The length of a round. In a fit manager, with [ATTACK_DURATION] and
    [GAP_BETWEEN_ATTACKS] of at least one tick, a round that has just
    started on a queue of [k] patterns goes through any number [n] of
    ticks, whatever the generator draws, and its schedule is a function of
    [n] alone. With [P = ATTACK_DURATION + GAP_BETWEEN_ATTACKS]: for
    [n < k * P] the round is active, at the entry [n / P] of its queue,
    in the gap exactly when [n mod P] has reached [ATTACK_DURATION], with
    the counter of the pattern or of the gap at the frames spent there;
    from [n = k * P] on the round is over and nothing remains. The queue
    is never changed. *)
Theorem round_length (cfg : Settings) (px py : R) (s : t) (n : nat)
    (g : Random.state) :
  fit cfg s ->
  1 <= ATTACK_DURATION cfg -> 1 <= GAP_BETWEEN_ATTACKS cfg ->
  round_active s = true -> in_gap s = false -> pattern_timer s = 0 ->
  current_pattern_index s = 0%nat -> attack_queue s <> [] ->
  exists s' g',
    ticks cfg px py n s g = Some (s', g')
    /\ attack_queue s' = attack_queue s
    /\ let P := ATTACK_DURATION cfg + GAP_BETWEEN_ATTACKS cfg in
       if Z.of_nat n <? Z.of_nat (length (attack_queue s)) * P
       then is_round_active s' = true
            /\ Z.of_nat (current_pattern_index s') = Z.of_nat n / P
            /\ in_gap s' = (ATTACK_DURATION cfg <=? Z.of_nat n mod P)
            /\ (if in_gap s'
                then gap_timer s' = Z.of_nat n mod P - ATTACK_DURATION cfg
                else pattern_timer s' = Z.of_nat n mod P)
       else is_round_active s' = false /\ get_remaining_attacks s' = 0.
Proof.
  intros Hfit HA HG Ha Hg Hpt Hidx Hq.
  destruct (ticks_safe cfg px py n s g Hfit) as (s' & g' & H & _).
  exists s', g'. split; [exact H|].
  assert (Hon : on_time cfg s).
  { unfold on_time. rewrite Ha, Hg, Hpt, Hidx. repeat split; try lia.
    destruct (attack_queue s); [contradiction|cbn; lia]. }
  assert (Hc0 : round_clock cfg s = 0).
  { unfold round_clock. rewrite Hg, Hpt, Hidx. lia. }
  destruct (ticks_clock cfg px py n HA HG s s' g g' Hon H) as [Hq' Hrest].
  split; [exact Hq'|]. cbv zeta. rewrite Hc0, Z.add_0_l in Hrest.
  set (P := ATTACK_DURATION cfg + GAP_BETWEEN_ATTACKS cfg) in *.
  destruct (Z.of_nat n <? Z.of_nat (length (attack_queue s)) * P).
  - destruct Hrest as [(Ha' & Hi' & Ht') Hc'].
    unfold round_clock in Hc'. fold P in Hc'.
    split; [exact Ha'|].
    destruct (in_gap s') eqn:Hg'.
    + assert (Hdiv : Z.of_nat n / P = Z.of_nat (current_pattern_index s')).
      { symmetry.
        apply (Z.div_unique _ _ _ (ATTACK_DURATION cfg + gap_timer s'));
          [left; subst P; lia|lia]. }
      assert (Hmod : Z.of_nat n mod P = ATTACK_DURATION cfg + gap_timer s').
      { symmetry.
        apply (Z.mod_unique _ _ (Z.of_nat (current_pattern_index s')));
          [left; subst P; lia|lia]. }
      rewrite Hdiv, Hmod. split; [reflexivity|]. split; [|lia].
      symmetry. apply Z.leb_le. lia.
    + assert (Hdiv : Z.of_nat n / P = Z.of_nat (current_pattern_index s')).
      { symmetry. apply (Z.div_unique _ _ _ (pattern_timer s'));
          [left; subst P; lia|lia]. }
      assert (Hmod : Z.of_nat n mod P = pattern_timer s').
      { symmetry.
        apply (Z.mod_unique _ _ (Z.of_nat (current_pattern_index s')));
          [left; subst P; lia|lia]. }
      rewrite Hdiv, Hmod. split; [reflexivity|]. split; [|reflexivity].
      symmetry. apply Z.leb_gt. lia.
  - destruct Hrest as [Hoff Hi']. split; [exact Hoff|].
    unfold get_remaining_attacks. rewrite Hq', Hi'. lia.
Qed.

Lemma sample_manager_fit (pattern : string) (secondary : option string)
    (timer : Z) (gap : bool) :
  fit sample_settings (sample_manager pattern secondary timer gap).
Proof.
  unfold fit, sample_manager, sample_box, Rect.width, Rect.height.
  cbn [box_rect difficulty Rect.w Rect.h TARGETING_BULLETS_PER_SHOT
         LINE_RAIN_INTERVAL CIRCLE_BURST_INTERVAL CIRCLE_BURST_COUNT
         TARGETING_INTERVAL sample_settings].
  repeat split; try lia; lra.
Qed.

Lemma round_length_witness :
  exists s' g',
    ticks sample_settings 0 0 500 (sample_manager "spiral" None 0 false)
      sample_rng = Some (s', g')
    /\ is_round_active s' = true
    /\ current_pattern_index s' = 1%nat
    /\ in_gap s' = false
    /\ pattern_timer s' = 170.
Proof.
  destruct (round_length sample_settings 0 0
              (sample_manager "spiral" None 0 false) 500 sample_rng
              (sample_manager_fit _ _ _ _))
    as (s' & g' & H & _ & Hrest).
  - cbn [ATTACK_DURATION sample_settings]. lia.
  - cbn [GAP_BETWEEN_ATTACKS sample_settings]. lia.
  - reflexivity.
  - reflexivity.
  - reflexivity.
  - reflexivity.
  - discriminate.
  - exists s', g'. split; [exact H|].
    cbv zeta in Hrest.
    cbn [ATTACK_DURATION GAP_BETWEEN_ATTACKS sample_settings attack_queue
           sample_manager length] in Hrest.
    change (Z.of_nat 500) with 500 in Hrest.
    change (Z.of_nat 3 * (300 + 30)) with 990 in Hrest.
    change (500 <? 990) with true in Hrest. cbv iota in Hrest.
    change (500 / (300 + 30)) with 1 in Hrest.
    change (500 mod (300 + 30)) with 170 in Hrest.
    change (300 <=? 170) with false in Hrest.
    destruct Hrest as (Ha & Hi & Hg & Ht). rewrite Hg in Ht.
    repeat split; try assumption. lia.
Defined.

(** ** The attack manager: what a pattern spawns *)

(** The sprites of a burst get the next keys, in order, at the end of
    the bullets group; nothing else of the manager changes. *)
Lemma spawned_spec (sps : list Sprite) :
  forall s0 : t,
    bullets_group (spawned s0 sps)
    = bullets_group s0 ++ seq (next_sprite s0) (length sps)
    /\ next_sprite (spawned s0 sps) = (next_sprite s0 + length sps)%nat
    /\ (forall i sp, sps !! i = Some sp ->
          sprites (spawned s0 sps) !! (next_sprite s0 + i)%nat = Some sp)
    /\ (forall k, (k < next_sprite s0)%nat ->
          sprites (spawned s0 sps) !! k = sprites s0 !! k)
    /\ round_view (spawned s0 sps) = round_view s0
    /\ config_view (spawned s0 sps) = config_view s0
    /\ pattern_internal_timer (spawned s0 sps) = pattern_internal_timer s0
    /\ pattern_internal_timer_2 (spawned s0 sps) = pattern_internal_timer_2 s0.
Proof.
  induction sps as [|sp sps IH]; intros s0.
  - cbn [spawned fold_left length seq]. rewrite app_nil_r, Nat.add_0_r.
    repeat split. intros i sp Hi. inversion Hi.
  - change (spawned s0 (sp :: sps)) with (spawned (spawn sp s0) sps).
    destruct (IH (spawn sp s0)) as (Hg & Hn & Hnew & Hold & Hv & Hc & Ht & Ht2).
    change (next_sprite (spawn sp s0)) with (S (next_sprite s0)) in *.
    change (bullets_group (spawn sp s0))
      with (bullets_group s0 ++ [next_sprite s0]) in *.
    change (sprites (spawn sp s0))
      with (<[next_sprite s0 := sp]> (sprites s0)) in *.
    split; [rewrite Hg, <- app_assoc; reflexivity|].
    split; [rewrite Hn; cbn [length]; lia|].
    split.
    { intros [|i] sp' Hi.
      - injection Hi as <-. rewrite Nat.add_0_r.
        rewrite Hold by lia. apply lookup_insert_eq.
      - replace (next_sprite s0 + S i)%nat with (S (next_sprite s0) + i)%nat
          by lia.
        apply Hnew. exact Hi. }
    split.
    { intros k Hk. rewrite Hold by lia. apply lookup_insert_ne. lia. }
    repeat split; assumption.
Qed.

(** A loop that constructs a sprite from each entry and adds it. *)
Lemma fold_spawn {B} (box : Rect.t) (F : B -> Sprite) (body : t -> B -> t)
    (l : list B) :
  (forall s1 a, box_rect s1 = box -> body s1 a = spawn (F a) s1) ->
  forall s0, box_rect s0 = box -> fold_left body l s0 = spawned s0 (map F l).
Proof.
  intros Hbody. induction l as [|a l IH]; intros s0 H0; [reflexivity|].
  cbn [fold_left map]. rewrite (Hbody s0 a H0).
  change (spawned s0 (F a :: map F l)) with (spawned (spawn (F a) s0) (map F l)).
  apply IH. exact H0.
Qed.

Lemma py_range_length (n : Z) : length (py_range n) = Z.to_nat n.
Proof. unfold py_range. rewrite length_map, length_seq. reflexivity. Qed.

Lemma py_range_lookup (n : Z) (i : nat) :
  (i < Z.to_nat n)%nat -> py_range n !! i = Some (Z.of_nat i).
Proof.
  intros Hi. unfold py_range. rewrite list_lookup_fmap.
  rewrite lookup_seq_lt by exact Hi. reflexivity.
Qed.

Lemma bullets_group_put_timer (b : bool) (v : Z) (s : t) :
  bullets_group (put_timer b v s) = bullets_group s.
Proof. destruct b; reflexivity. Qed.

Lemma sprites_put_timer (b : bool) (v : Z) (s : t) :
  sprites (put_timer b v s) = sprites s.
Proof. destruct b; reflexivity. Qed.

Lemma next_sprite_put_timer (b : bool) (v : Z) (s : t) :
  next_sprite (put_timer b v s) = next_sprite s.
Proof. destruct b; reflexivity. Qed.

Lemma box_rect_put_timer (b : bool) (v : Z) (s : t) :
  box_rect (put_timer b v s) = box_rect s.
Proof. destruct b; reflexivity. Qed.

Lemma difficulty_put_timer (b : bool) (v : Z) (s : t) :
  difficulty (put_timer b v s) = difficulty s.
Proof. destruct b; reflexivity. Qed.

Lemma get_put_timer (b : bool) (v : Z) (s : t) :
  get_timer b (put_timer b v s) = v.
Proof. destruct b; reflexivity. Qed.

Lemma put_put_timer (b : bool) (v w : Z) (s : t) :
  put_timer b w (put_timer b v s) = put_timer b w s.
Proof. destruct b; reflexivity. Qed.

(** The length of a velocity of the given speed along an angle. *)
Lemma polar_length (a speed : R) :
  sqrt ((cos a * speed) * (cos a * speed) + (sin a * speed) * (sin a * speed))
  = Rabs speed.
Proof.
  replace ((cos a * speed) * (cos a * speed) + (sin a * speed) * (sin a * speed))%R
    with ((speed * cos a) * (speed * cos a) + (speed * sin a) * (speed * sin a))%R
    by ring.
  rewrite sqrt_scaled.
  replace (cos a * cos a + sin a * sin a)%R with 1%R.
  - rewrite sqrt_1. ring.
  - pose proof (sin2_cos2 a) as H. unfold Rsqr in H. lra.
Qed.

(** The pattern [circle_burst], as the primary or as the secondary
    pattern. Its interval is [int(CIRCLE_BURST_INTERVAL / difficulty)] in
    the arithmetic of binary64: at a zero difficulty, and where the
    quotient is infinite, the tick raises; with a difficulty of
    [[0.5, 3.0]] and constants that binary64 holds exactly the interval
    and the count [int(CIRCLE_BURST_COUNT * difficulty)] are the rounded
    quotient and product, truncated. Below the interval a tick only
    counts. The tick on which the counter reaches the interval raises if
    the count cannot be computed; otherwise it draws nothing, sets the
    counter to zero and adds exactly [count] bullets at the end of the
    bullets group, leaving the sprites that were there. Each bullet is 8
    by 8 pixels with its top left corner at the centre of the arena, is
    bound to the kill region of the arena, and flies along the angle
    [2 * pi * i / count] of its number [i]; all of them have the same
    speed, [1.5 * BULLET_BASE_SPEED * BULLET_SPEED_MULT]. *)
Theorem circle_burst_fires (cfg : Settings) (secondary : bool) (s : t)
    (g : Random.state) :
  let speed := (BULLET_BASE_SPEED cfg * 1.5 * BULLET_SPEED_MULT cfg)%R in
  let interval_of :=
    Float64.int_div (CIRCLE_BURST_INTERVAL cfg) (difficulty s) in
  let count_of := Float64.int_mul (CIRCLE_BURST_COUNT cfg) (difficulty s) in
  (difficulty s = 0%R -> _pattern_circle_burst cfg secondary s g = None)
  /\ (Z.abs (CIRCLE_BURST_INTERVAL cfg) <= 2 ^ 53 ->
      Float64.overflow (IZR (CIRCLE_BURST_INTERVAL cfg) / difficulty s) = true ->
      _pattern_circle_burst cfg secondary s g = None)
  /\ (interval_of = None -> _pattern_circle_burst cfg secondary s g = None)
  /\ (Z.abs (CIRCLE_BURST_INTERVAL cfg) <= 2 ^ 53 ->
      Z.abs (CIRCLE_BURST_COUNT cfg) <= 2 ^ 53 ->
      (0.5 <= difficulty s <= 3.0)%R ->
      interval_of
      = Some (py_int (Float64.round
                        (IZR (CIRCLE_BURST_INTERVAL cfg) / difficulty s)))
      /\ count_of
         = Some (py_int (Float64.round
                           (IZR (CIRCLE_BURST_COUNT cfg) * difficulty s))))
  /\ forall interval : Z,
       interval_of = Some interval ->
       (get_timer secondary s + 1 < interval ->
        _pattern_circle_burst cfg secondary s g
        = Some (put_timer secondary (get_timer secondary s + 1) s, g))
       /\ (interval <= get_timer secondary s + 1 ->
           (count_of = None ->
            _pattern_circle_burst cfg secondary s g = None)
           /\ forall count : Z,
                count_of = Some count ->
                exists s',
                  _pattern_circle_burst cfg secondary s g = Some (s', g)
                  /\ get_timer secondary s' = 0
                  /\ bullets_group s'
                     = bullets_group s ++ seq (next_sprite s) (Z.to_nat count)
                  /\ (forall k, (k < next_sprite s)%nat ->
                        sprites s' !! k = sprites s !! k)
                  /\ forall i : nat, (i < Z.to_nat count)%nat ->
                       exists p,
                         sprites s' !! (next_sprite s + i)%nat
                         = Some (SProjectile p)
                         /\ Projectile.rect p
                            = Rect.mk (Rect.centerx (box_rect s))
                                      (Rect.centery (box_rect s)) 8 8
                         /\ Projectile.bounds p
                            = Some (Projectile.kill_region (box_rect s))
                         /\ Projectile.vx p
                            = (cos (2 * PI * IZR (Z.of_nat i) / IZR count)
                               * speed)%R
                         /\ Projectile.vy p
                            = (sin (2 * PI * IZR (Z.of_nat i) / IZR count)
                               * speed)%R
                         /\ sqrt (Projectile.vx p * Projectile.vx p
                                  + Projectile.vy p * Projectile.vy p)
                            = Rabs speed).
Proof.
  intros speed interval_of count_of.
  assert (Hnone : interval_of = None ->
                  _pattern_circle_burst cfg secondary s g = None).
  { intros E. unfold _pattern_circle_burst. cbv zeta.
    rewrite difficulty_put_timer. apply bind_lift_None, E. }
  split.
  { intros E. apply Hnone. subst interval_of. rewrite E. apply int_div_zero. }
  split.
  { intros HI Ho. apply Hnone, int_div_overflow; assumption. }
  split; [exact Hnone|]. split.
  { intros HI HC Hd.
    destruct (int_div_total _ _ HI Hd) as [i Ei].
    destruct (int_mul_total _ _ HC Hd) as [c Ec].
    subst interval_of count_of. rewrite Ei, Ec.
    apply (int_div_value _ _ _ HI) in Ei as [_ ->].
    apply (int_mul_value _ _ _ HC) in Ec as ->. split; reflexivity. }
  intros interval Ei.
  unfold _pattern_circle_burst. cbv zeta.
  rewrite get_put_timer, difficulty_put_timer, box_rect_put_timer.
  fold interval_of count_of. rewrite (bind_lift_Some _ _ _ _ Ei). split.
  - intros Hlt. destruct (Z.geb_spec (get_timer secondary s + 1) interval);
      [lia|].
    rewrite put_put_timer. reflexivity.
  - intros Hge. destruct (Z.geb_spec (get_timer secondary s + 1) interval);
      [|lia].
    split; [intros Ec; apply bind_lift_None, Ec|].
    intros count Ec. rewrite (bind_lift_Some _ _ _ _ Ec).
    set (s1 := put_timer secondary (get_timer secondary s + 1) s).
    set (F := fun i : Z =>
                SProjectile
                  (Projectile.set_bounds (box_rect s)
                     (Projectile.circle_bullet cfg Projectile.CircleBullet
                        (IZR (Rect.centerx (box_rect s)))
                        (IZR (Rect.centery (box_rect s)))
                        (cos (2 * PI * IZR i / IZR count)
                         * (BULLET_BASE_SPEED cfg * 1.5))
                        (sin (2 * PI * IZR i / IZR count)
                         * (BULLET_BASE_SPEED cfg * 1.5))))).
    rewrite (fold_spawn (box_rect s) F).
    2:{ intros s2 a Hb. rewrite Hb. reflexivity. }
    2:{ apply box_rect_put_timer. }
    destruct (spawned_spec (map F (py_range count)) s1)
      as (Hg & Hn & Hnew & Hold & _).
    rewrite length_map, py_range_length in Hg, Hn.
    unfold s1 in Hg, Hnew, Hold.
    rewrite bullets_group_put_timer in Hg.
    rewrite next_sprite_put_timer in Hg, Hnew, Hold.
    eexists. split; [reflexivity|].
    split; [apply get_put_timer|].
    split; [rewrite bullets_group_put_timer; exact Hg|].
    split.
    { intros k Hk. rewrite sprites_put_timer, Hold by exact Hk.
      apply (f_equal (fun m => m !! k)), sprites_put_timer. }
    intros i Hi. eexists. split.
    { rewrite sprites_put_timer. apply Hnew.
      rewrite list_lookup_fmap, py_range_lookup by exact Hi. reflexivity. }
    cbn [Projectile.rect Projectile.bounds Projectile.vx Projectile.vy
           Projectile.set_bounds Projectile.circle_bullet Projectile.init
           Rect.set_x Rect.set_y Rect.x Rect.y Rect.w Rect.h].
    rewrite !py_int_IZR.
    split; [reflexivity|]. split; [reflexivity|].
    split; [subst speed; ring|]. split; [subst speed; ring|].
    replace (cos (2 * PI * IZR (Z.of_nat i) / IZR count)
             * (BULLET_BASE_SPEED cfg * 1.5) * BULLET_SPEED_MULT cfg)%R
      with (cos (2 * PI * IZR (Z.of_nat i) / IZR count) * speed)%R
      by (subst speed; ring).
    replace (sin (2 * PI * IZR (Z.of_nat i) / IZR count)
             * (BULLET_BASE_SPEED cfg * 1.5) * BULLET_SPEED_MULT cfg)%R
      with (sin (2 * PI * IZR (Z.of_nat i) / IZR count) * speed)%R
      by (subst speed; ring).
    apply polar_length.
Qed.

Lemma circle_burst_fires_witness :
  exists s',
    _pattern_circle_burst sample_settings false
      (put_timer false 59 (sample_manager "circle_burst" None 5 false))
      sample_rng = Some (s', sample_rng)
    /\ get_timer false s' = 0
    /\ bullets_group s' = seq 0 12.
Proof.
  destruct (circle_burst_fires sample_settings false
              (put_timer false 59 (sample_manager "circle_burst" None 5 false))
              sample_rng)
    as (_ & _ & _ & _ & Hfire).
  cbn [CIRCLE_BURST_INTERVAL CIRCLE_BURST_COUNT sample_settings difficulty
         sample_manager put_timer with_pattern_internal_timer get_timer
         pattern_internal_timer next_sprite bullets_group] in Hfire.
  destruct (Hfire 60) as [_ Hdue].
  { apply (int_div_exact 60 60); try (cbn; lia); lra. }
  destruct Hdue as [_ Hcount]; [lia|].
  destruct (Hcount 12) as (s' & H & Ht & Hg & _).
  { apply (int_mul_exact 12 12); try (cbn; lia); lra. }
  exists s'. split; [exact H|]. split; [exact Ht|exact Hg].
Defined.

(** The pattern [spiral]. Two ticks out of three only count. Every
    third tick draws nothing, sets the counter to zero and adds exactly
    two bullets at the end of the bullets group: 8 by 8 pixels, top left
    corner at the centre of the arena, bound to the kill region of the
    arena, the first flying along the angle [pattern_timer * 0.1] at
    speed [1.2 * BULLET_BASE_SPEED * BULLET_SPEED_MULT], the second with
    the opposite velocity. *)
Theorem spiral_fires (cfg : Settings) (s : t) (g : Random.state) :
  let speed := (BULLET_BASE_SPEED cfg * 1.2 * BULLET_SPEED_MULT cfg)%R in
  let angle := (IZR (pattern_timer s) * 0.1)%R in
  (pattern_internal_timer s + 1 < 3 ->
   _pattern_spiral cfg s g
   = Some (with_pattern_internal_timer (pattern_internal_timer s + 1) s, g))
  /\ (3 <= pattern_internal_timer s + 1 ->
      exists s' p q,
        _pattern_spiral cfg s g = Some (s', g)
        /\ pattern_internal_timer s' = 0
        /\ bullets_group s'
           = bullets_group s ++ [next_sprite s; S (next_sprite s)]
        /\ (forall k, (k < next_sprite s)%nat ->
              sprites s' !! k = sprites s !! k)
        /\ sprites s' !! next_sprite s = Some (SProjectile p)
        /\ sprites s' !! S (next_sprite s) = Some (SProjectile q)
        /\ Projectile.rect p
           = Rect.mk (Rect.centerx (box_rect s)) (Rect.centery (box_rect s)) 8 8
        /\ Projectile.rect q = Projectile.rect p
        /\ Projectile.bounds p = Some (Projectile.kill_region (box_rect s))
        /\ Projectile.bounds q = Some (Projectile.kill_region (box_rect s))
        /\ Projectile.vx p = (cos angle * speed)%R
        /\ Projectile.vy p = (sin angle * speed)%R
        /\ Projectile.vx q = (- Projectile.vx p)%R
        /\ Projectile.vy q = (- Projectile.vy p)%R).
Proof.
  intros speed angle. unfold _pattern_spiral. cbv zeta.
  cbn [pattern_internal_timer pattern_timer box_rect
         with_pattern_internal_timer].
  split.
  - intros Hlt. destruct (Z.geb_spec (pattern_internal_timer s + 1) 3); [lia|].
    reflexivity.
  - intros Hge. destruct (Z.geb_spec (pattern_internal_timer s + 1) 3); [|lia].
    set (s1 := with_pattern_internal_timer (pattern_internal_timer s + 1) s).
    set (F := fun i : Z =>
                SProjectile
                  (Projectile.set_bounds (box_rect s)
                     (Projectile.circle_bullet cfg Projectile.SpiralBullet
                        (IZR (Rect.centerx (box_rect s)))
                        (IZR (Rect.centery (box_rect s)))
                        (cos (angle + IZR i * PI)
                         * (BULLET_BASE_SPEED cfg * 1.2))
                        (sin (angle + IZR i * PI)
                         * (BULLET_BASE_SPEED cfg * 1.2))))).
    rewrite (fold_spawn (box_rect s) F).
    2:{ intros s2 a Hb. rewrite Hb. reflexivity. }
    2:{ reflexivity. }
    change (py_range 2) with [0; 1].
    destruct (spawned_spec (map F [0; 1]) s1) as (Hg & Hn & Hnew & Hold & _).
    change (bullets_group s1) with (bullets_group s) in Hg.
    change (next_sprite s1) with (next_sprite s) in Hg, Hnew, Hold.
    change (sprites s1) with (sprites s) in Hold.
    pose proof (Hnew 0%nat _ eq_refl) as H0. rewrite Nat.add_0_r in H0.
    pose proof (Hnew 1%nat _ eq_refl) as H1.
    replace (next_sprite s + 1)%nat with (S (next_sprite s)) in H1 by lia.
    eexists _, _, _. split; [reflexivity|].
    split; [reflexivity|]. split; [exact Hg|]. split; [exact Hold|].
    split; [exact H0|]. split; [exact H1|].
    cbn [Projectile.rect Projectile.bounds Projectile.vx Projectile.vy
           Projectile.set_bounds Projectile.circle_bullet Projectile.init
           Rect.set_x Rect.set_y Rect.x Rect.y Rect.w Rect.h].
    rewrite !py_int_IZR.
    replace (angle + 0 * PI)%R with angle by ring.
    replace (angle + 1 * PI)%R with (angle + PI)%R by ring.
    rewrite neg_cos, neg_sin.
    repeat split; subst speed; ring.
Qed.

Lemma spiral_fires_witness :
  exists s' p q,
    _pattern_spiral sample_settings
      (with_pattern_internal_timer 2 (sample_manager "spiral" None 7 false))
      sample_rng = Some (s', sample_rng)
    /\ sprites s' !! 0%nat = Some (SProjectile p)
    /\ sprites s' !! 1%nat = Some (SProjectile q)
    /\ Projectile.vx q = (- Projectile.vx p)%R
    /\ Projectile.vy q = (- Projectile.vy p)%R.
Proof.
  destruct (spiral_fires sample_settings
              (with_pattern_internal_timer 2
                 (sample_manager "spiral" None 7 false)) sample_rng)
    as [_ Hfire].
  destruct Hfire
    as (s' & p & q & H & _ & _ & _ & Hp & Hq & _ & _ & _ & _ & _ & _ & Hx & Hy).
  { cbn [pattern_internal_timer with_pattern_internal_timer]. lia. }
  exists s', p, q. repeat split; assumption.
Defined.

(** The loop of [line_rain]: one draw and one line for every turn. *)
Lemma line_rain_loop (cfg : Settings) (box : Rect.t) (d : R) (l : list Z) :
  Rect.left box + 20 <= Rect.right box - 60 ->
  forall (s0 : t) (g : Random.state),
    box_rect s0 = box -> difficulty s0 = d ->
    exists xs g',
      for_each l
        (fun (_ : Z) (s : t) =>
           x <- Random.randint (Rect.left (box_rect s) + 20)
                               (Rect.right (box_rect s) - 60) ;;
           Random.ret
             (spawn
                (SProjectile
                   (Projectile.set_bounds (box_rect s)
                      (Projectile.line_bullet cfg (IZR x)
                         (IZR (Rect.top (box_rect s) - 20)) 0
                         (BULLET_BASE_SPEED cfg * difficulty s)))) s))
        s0 g
      = Some (spawned s0
                (map (fun x =>
                        SProjectile
                          (Projectile.set_bounds box
                             (Projectile.line_bullet cfg (IZR x)
                                (IZR (Rect.top box - 20)) 0
                                (BULLET_BASE_SPEED cfg * d)))) xs), g')
      /\ length xs = length l
      /\ Forall (fun x => Rect.left box + 20 <= x <= Rect.right box - 60) xs.
Proof.
  intros Hroom. induction l as [|a l IH]; intros s0 g Hb Hd.
  - exists [], g. repeat split. constructor.
  - destruct (randint_total (Rect.left box + 20) (Rect.right box - 60) g Hroom)
      as (x & g1 & Hx & Hrange).
    set (sp := SProjectile
                 (Projectile.set_bounds box
                    (Projectile.line_bullet cfg (IZR x)
                       (IZR (Rect.top box - 20)) 0
                       (BULLET_BASE_SPEED cfg * d)))).
    destruct (IH (spawn sp s0) g1 Hb Hd) as (xs & g2 & Hloop & Hlen & Hall).
    exists (x :: xs), g2. split; [|split].
    + cbn [for_each]. rewrite Hb, Hd.
      unfold Random.bind at 1. unfold Random.bind at 1. rewrite Hx.
      cbn [Random.ret]. fold sp. rewrite Hloop. reflexivity.
    + cbn. lia.
    + constructor; assumption.
Qed.

(** The pattern [line_rain], as the primary or as the secondary
    pattern, in an arena at least 80 pixels wide. Its interval is
    [int(LINE_RAIN_INTERVAL / difficulty)] in the arithmetic of binary64:
    at a zero difficulty, and where the quotient is infinite, the tick
    raises; with a difficulty of [[0.5, 3.0]] and a constant that
    binary64 holds exactly the interval is the rounded quotient,
    truncated. Below the interval a tick only counts, with no draw. The
    tick on which the counter reaches the interval sets the counter to
    zero and adds exactly [LINE_RAIN_BULLET_COUNT] lines at the end of the
    bullets group, leaving the sprites that were there. Each line is 40
    by 6 pixels, starts 20 pixels above the arena at a place of its own
    draw, between 20 pixels from the left wall and, with its right end,
    20 pixels from the right wall; it is bound to the kill region of the
    arena and falls straight down at
    [BULLET_BASE_SPEED * difficulty * BULLET_SPEED_MULT] pixels a
    frame. *)
Theorem line_rain_fires (cfg : Settings) (secondary : bool) (s : t)
    (g : Random.state) :
  80 <= Rect.width (box_rect s) ->
  let interval_of :=
    Float64.int_div (LINE_RAIN_INTERVAL cfg) (difficulty s) in
  (difficulty s = 0%R -> _pattern_line_rain cfg secondary s g = None)
  /\ (Z.abs (LINE_RAIN_INTERVAL cfg) <= 2 ^ 53 ->
      Float64.overflow (IZR (LINE_RAIN_INTERVAL cfg) / difficulty s) = true ->
      _pattern_line_rain cfg secondary s g = None)
  /\ (interval_of = None -> _pattern_line_rain cfg secondary s g = None)
  /\ (Z.abs (LINE_RAIN_INTERVAL cfg) <= 2 ^ 53 ->
      (0.5 <= difficulty s <= 3.0)%R ->
      interval_of
      = Some (py_int (Float64.round
                        (IZR (LINE_RAIN_INTERVAL cfg) / difficulty s))))
  /\ forall interval : Z,
       interval_of = Some interval ->
       (get_timer secondary s + 1 < interval ->
        _pattern_line_rain cfg secondary s g
        = Some (put_timer secondary (get_timer secondary s + 1) s, g))
       /\ (interval <= get_timer secondary s + 1 ->
           exists s' g' xs,
             _pattern_line_rain cfg secondary s g = Some (s', g')
             /\ length xs = Z.to_nat (LINE_RAIN_BULLET_COUNT cfg)
             /\ get_timer secondary s' = 0
             /\ bullets_group s'
                = bullets_group s ++ seq (next_sprite s) (length xs)
             /\ (forall k, (k < next_sprite s)%nat ->
                   sprites s' !! k = sprites s !! k)
             /\ forall (i : nat) (x : Z), xs !! i = Some x ->
                  Rect.left (box_rect s) + 20 <= x
                  /\ x + 40 <= Rect.right (box_rect s) - 20
                  /\ exists p,
                       sprites s' !! (next_sprite s + i)%nat
                       = Some (SProjectile p)
                       /\ Projectile.rect p
                          = Rect.mk x (Rect.top (box_rect s) - 20) 40 6
                       /\ Projectile.bounds p
                          = Some (Projectile.kill_region (box_rect s))
                       /\ Projectile.vx p = 0%R
                       /\ Projectile.vy p
                          = (BULLET_BASE_SPEED cfg * difficulty s
                             * BULLET_SPEED_MULT cfg)%R).
Proof.
  intros Hw interval_of.
  assert (Hnone : interval_of = None ->
                  _pattern_line_rain cfg secondary s g = None).
  { intros E. unfold _pattern_line_rain. cbv zeta.
    rewrite difficulty_put_timer. apply bind_lift_None, E. }
  split.
  { intros E. apply Hnone. subst interval_of. rewrite E. apply int_div_zero. }
  split.
  { intros HI Ho. apply Hnone, int_div_overflow; assumption. }
  split; [exact Hnone|]. split.
  { intros HI Hd. destruct (int_div_total _ _ HI Hd) as [i Ei].
    subst interval_of. rewrite Ei.
    apply (int_div_value _ _ _ HI) in Ei as [_ ->]. reflexivity. }
  intros interval Ei.
  unfold _pattern_line_rain. cbv zeta.
  rewrite get_put_timer, difficulty_put_timer.
  fold interval_of. rewrite (bind_lift_Some _ _ _ _ Ei). split.
  - intros Hlt. destruct (Z.geb_spec (get_timer secondary s + 1) interval);
      [lia|].
    rewrite put_put_timer. reflexivity.
  - intros Hge. destruct (Z.geb_spec (get_timer secondary s + 1) interval);
      [|lia].
    set (s1 := put_timer secondary (get_timer secondary s + 1) s).
    destruct (line_rain_loop cfg (box_rect s) (difficulty s)
                (py_range (LINE_RAIN_BULLET_COUNT cfg))
                ltac:(unfold Rect.left, Rect.right, Rect.width in *; lia)
                s1 g (box_rect_put_timer _ _ _) (difficulty_put_timer _ _ _))
      as (xs & g' & Hloop & Hlen & Hall).
    rewrite py_range_length in Hlen.
    match type of Hloop with
    | _ = Some (spawned s1 ?sps, _) =>
        destruct (spawned_spec sps s1) as (Hg & Hn & Hnew & Hold & _)
    end.
    rewrite length_map in Hg, Hn.
    unfold s1 in Hg, Hnew, Hold.
    rewrite bullets_group_put_timer in Hg.
    rewrite next_sprite_put_timer in Hg, Hnew, Hold.
    eexists _, g', xs. split.
    { unfold Random.bind at 1. rewrite Hloop. reflexivity. }
    split; [exact Hlen|]. split; [apply get_put_timer|].
    split; [rewrite bullets_group_put_timer; exact Hg|].
    split.
    { intros k Hk. rewrite sprites_put_timer, Hold by exact Hk.
      apply (f_equal (fun m => m !! k)), sprites_put_timer. }
    intros i x Hx.
    pose proof (proj1 (Forall_lookup _ _) Hall i x Hx) as Hrange.
    cbv beta in Hrange.
    split; [lia|]. split; [lia|].
    eexists. split.
    { rewrite sprites_put_timer. apply Hnew.
      rewrite list_lookup_fmap, Hx. reflexivity. }
    cbn [Projectile.rect Projectile.bounds Projectile.vx Projectile.vy
           Projectile.set_bounds Projectile.line_bullet Projectile.init
           Rect.set_x Rect.set_y Rect.x Rect.y Rect.w Rect.h].
    rewrite !py_int_IZR.
    split; [reflexivity|]. split; [reflexivity|]. split; ring.
Qed.

Lemma line_rain_fires_witness :
  exists s' g' (xs : list Z),
    _pattern_line_rain sample_settings false
      (put_timer false 29 (sample_manager "line_rain" None 5 false))
      sample_rng = Some (s', g')
    /\ length xs = 3%nat
    /\ bullets_group s' = seq 0 (length xs).
Proof.
  destruct (line_rain_fires sample_settings false
              (put_timer false 29 (sample_manager "line_rain" None 5 false))
              sample_rng)
    as (_ & _ & _ & _ & Hfire).
  { cbn. lia. }
  cbn [LINE_RAIN_INTERVAL LINE_RAIN_BULLET_COUNT sample_settings difficulty
         sample_manager put_timer with_pattern_internal_timer get_timer
         pattern_internal_timer next_sprite bullets_group] in Hfire.
  destruct (Hfire 30) as [_ Hdue].
  { apply (int_div_exact 30 30); try (cbn; lia); lra. }
  destruct Hdue as (s' & g' & xs & H & Hlen & _ & Hg & _); [lia|].
  exists s', g', xs. split; [exact H|]. split; [exact Hlen|exact Hg].
Defined.

(** ** The enemy under a series of hits *)








(** ** The player in the battle: movement *)

Lemma Rgeb_true (a b : R) : Rgeb a b = true <-> (b <= a)%R.
Proof. unfold Rgeb. apply Rleb_true. Qed.

Lemma has_box_Some (p : BattlePlayer.t) (box : Rect.t) :
  BattlePlayer.battle_box p = Some box -> Rect.nonzero box = true ->
  BattlePlayer.has_box p = Some box.
Proof. unfold BattlePlayer.has_box. intros -> ->. reflexivity. Qed.

(** One frame of keyboard movement. *)
Lemma handle_battle_input_step (keys : BattlePlayer.Keys)
    (p : BattlePlayer.t) (box : Rect.t) :
  BattlePlayer.battle_box p = Some box -> Rect.nonzero box = true ->
  BattlePlayer.in_box box p ->
  let p' := BattlePlayer.handle_battle_input keys p in
  BattlePlayer.in_box box p'
  /\ BattlePlayer.battle_box p' = Some box
  /\ BattlePlayer.battle_size p' = BattlePlayer.battle_size p
  /\ BattlePlayer.battle_speed p' = BattlePlayer.battle_speed p
  /\ BattlePlayer.stats p' = BattlePlayer.stats p
  /\ BattlePlayer.inventory p' = BattlePlayer.inventory p
  /\ BattlePlayer.battle_rect p'
     = Rect.of_floats (BattlePlayer.battle_x p') (BattlePlayer.battle_y p')
                      (BattlePlayer.battle_size p) (BattlePlayer.battle_size p)
  /\ (BattlePlayer.battle_x p' = BattlePlayer.battle_x p
      \/ BattlePlayer.battle_x p'
         = (BattlePlayer.battle_x p + BattlePlayer.battle_speed p)%R
      \/ BattlePlayer.battle_x p'
         = (BattlePlayer.battle_x p + - BattlePlayer.battle_speed p)%R)
  /\ (BattlePlayer.battle_y p' = BattlePlayer.battle_y p
      \/ BattlePlayer.battle_y p'
         = (BattlePlayer.battle_y p + BattlePlayer.battle_speed p)%R
      \/ BattlePlayer.battle_y p'
         = (BattlePlayer.battle_y p + - BattlePlayer.battle_speed p)%R).
Proof.
  intros Hbox Hnz (Hl & Hr & Ht & Hb).
  unfold BattlePlayer.handle_battle_input.
  rewrite (has_box_Some p box Hbox Hnz). cbv zeta.
  unfold BattlePlayer.in_box, BattlePlayer._update_battle_rect.
  cbn [BattlePlayer.battle_x BattlePlayer.battle_y BattlePlayer.battle_size
       BattlePlayer.battle_speed BattlePlayer.stats BattlePlayer.inventory
       BattlePlayer.battle_rect BattlePlayer.battle_box].
  split.
  { repeat match goal with
           | |- context [if ?a && ?b then _ else _] =>
               let Ea := fresh "E" in let Eb := fresh "E" in
               destruct a eqn:Ea; [destruct b eqn:Eb|]; cbn [andb];
               try apply Rgeb_true in Ea; try apply Rleb_true in Eb
           end;
      repeat split; assumption. }
  split; [exact Hbox|]. do 5 (split; [reflexivity|]).
  split.
  - destruct (_ && _); [|left; reflexivity].
    destruct (BattlePlayer.K_d keys || BattlePlayer.K_RIGHT keys);
      [right; left; reflexivity|].
    destruct (BattlePlayer.K_a keys || BattlePlayer.K_LEFT keys);
      [right; right; reflexivity|left; lra].
  - destruct (Rgeb (BattlePlayer.battle_y p + _) _ && _); [|left; reflexivity].
    destruct (BattlePlayer.K_s keys || BattlePlayer.K_DOWN keys);
      [right; left; reflexivity|].
    destruct (BattlePlayer.K_w keys || BattlePlayer.K_UP keys);
      [right; right; reflexivity|left; lra].
Qed.

(** The heart is put inside a box that it fits in. *)
Lemma set_battle_box_in_box (box : Rect.t) (p : BattlePlayer.t) :
  0 <= BattlePlayer.battle_size p <= Rect.width box ->
  BattlePlayer.battle_size p <= Rect.height box ->
  BattlePlayer.in_box box (BattlePlayer.set_battle_box box p).
Proof.
  intros Hw Hh. unfold BattlePlayer.in_box, BattlePlayer.set_battle_box,
    BattlePlayer._update_battle_rect.
  cbn [BattlePlayer.battle_x BattlePlayer.battle_y BattlePlayer.battle_size].
  unfold Rect.centerx, Rect.centery, Rect.left, Rect.right, Rect.top,
    Rect.bottom, Rect.width, Rect.height in *.
  rewrite <- !plus_IZR.
  repeat split; apply IZR_le; Z.div_mod_to_equations; lia.
Qed.

(** From the start of a battle on, the keyboard never takes the heart
    out of the arena. After [set_battle_box] with a box that is not empty
    and that the heart fits in, the heart lies inside the box, and it
    still does after any series of frames of [handle_battle_input],
    whatever keys are held: a step that would cross a wall is not taken,
    on that axis alone. On each axis a frame moves the heart by
    [battle_speed], forward or backward, or not at all; where two
    opposite keys are held, right and down win. The collision rect
    follows the position, truncated; the hit points and the inventory are
    not touched. *)
Theorem heart_stays_in_box (box : Rect.t) (p : BattlePlayer.t)
    (frames : list BattlePlayer.Keys) :
  Rect.nonzero box = true ->
  0 <= BattlePlayer.battle_size p <= Rect.width box ->
  BattlePlayer.battle_size p <= Rect.height box ->
  let start := BattlePlayer.set_battle_box box p in
  let p' := fold_left (fun p keys => BattlePlayer.handle_battle_input keys p)
                      frames start in
  BattlePlayer.get_battle_position start
  = (IZR (Rect.centerx box - BattlePlayer.battle_size p / 2
          + BattlePlayer.battle_size p / 2),
     IZR (Rect.centery box - BattlePlayer.battle_size p / 2
          + BattlePlayer.battle_size p / 2))
  /\ BattlePlayer.in_box box p'
  /\ BattlePlayer.battle_rect p'
     = Rect.of_floats (BattlePlayer.battle_x p') (BattlePlayer.battle_y p')
                      (BattlePlayer.battle_size p) (BattlePlayer.battle_size p)
  /\ BattlePlayer.stats p' = BattlePlayer.stats p
  /\ BattlePlayer.inventory p' = BattlePlayer.inventory p
  /\ forall keys : BattlePlayer.Keys,
       let p'' := BattlePlayer.handle_battle_input keys p' in
       (BattlePlayer.battle_x p'' = BattlePlayer.battle_x p'
        \/ BattlePlayer.battle_x p''
           = (BattlePlayer.battle_x p' + BattlePlayer.battle_speed p)%R
        \/ BattlePlayer.battle_x p''
           = (BattlePlayer.battle_x p' + - BattlePlayer.battle_speed p)%R)
       /\ (BattlePlayer.battle_y p'' = BattlePlayer.battle_y p'
           \/ BattlePlayer.battle_y p''
              = (BattlePlayer.battle_y p' + BattlePlayer.battle_speed p)%R
           \/ BattlePlayer.battle_y p''
              = (BattlePlayer.battle_y p' + - BattlePlayer.battle_speed p)%R)
       /\ (BattlePlayer.K_d keys = true ->
           (BattlePlayer.battle_x p' + BattlePlayer.battle_speed p
            + IZR (BattlePlayer.battle_size p) <= IZR (Rect.right box))%R ->
           (IZR (Rect.left box)
            <= BattlePlayer.battle_x p' + BattlePlayer.battle_speed p)%R ->
           BattlePlayer.battle_x p''
           = (BattlePlayer.battle_x p' + BattlePlayer.battle_speed p)%R).
Proof.
  intros Hnz Hw Hh start p'.
  split.
  { unfold start, BattlePlayer.get_battle_position, BattlePlayer.set_battle_box,
      BattlePlayer._update_battle_rect.
    cbn [BattlePlayer.battle_x BattlePlayer.battle_y BattlePlayer.battle_size].
    rewrite <- !plus_IZR. reflexivity. }
  assert (Hinv : BattlePlayer.in_box box p'
                 /\ BattlePlayer.battle_box p' = Some box
                 /\ BattlePlayer.battle_size p' = BattlePlayer.battle_size p
                 /\ BattlePlayer.battle_speed p' = BattlePlayer.battle_speed p
                 /\ BattlePlayer.stats p' = BattlePlayer.stats p
                 /\ BattlePlayer.inventory p' = BattlePlayer.inventory p
                 /\ BattlePlayer.battle_rect p'
                    = Rect.of_floats (BattlePlayer.battle_x p')
                        (BattlePlayer.battle_y p')
                        (BattlePlayer.battle_size p)
                        (BattlePlayer.battle_size p)).
  { subst p'.
    assert (H0 : BattlePlayer.in_box box start
                 /\ BattlePlayer.battle_box start = Some box
                 /\ BattlePlayer.battle_size start = BattlePlayer.battle_size p
                 /\ BattlePlayer.battle_speed start = BattlePlayer.battle_speed p
                 /\ BattlePlayer.stats start = BattlePlayer.stats p
                 /\ BattlePlayer.inventory start = BattlePlayer.inventory p
                 /\ BattlePlayer.battle_rect start
                    = Rect.of_floats (BattlePlayer.battle_x start)
                        (BattlePlayer.battle_y start)
                        (BattlePlayer.battle_size p)
                        (BattlePlayer.battle_size p)).
    { split; [apply set_battle_box_in_box; assumption|]. repeat split. }
    clearbody start. revert start H0.
    induction frames as [|keys frames IH]; intros q Hq; [exact Hq|].
    cbn [fold_left]. apply IH.
    destruct Hq as (Hin & Hb & Hs & Hv & Hst & Hi & Hr).
    destruct (handle_battle_input_step keys q box Hb Hnz Hin)
      as (Hin' & Hb' & Hs' & Hv' & Hst' & Hi' & Hr' & _).
    cbv zeta in *.
    repeat split; try congruence; try apply Hin'. }
  destruct Hinv as (Hin & Hb & Hs & Hv & Hst & Hi & Hr).
  split; [exact Hin|]. split; [exact Hr|]. split; [exact Hst|].
  split; [exact Hi|].
  intros keys p''.
  destruct (handle_battle_input_step keys p' box Hb Hnz Hin)
    as (_ & _ & _ & _ & _ & _ & _ & Hx & Hy).
  cbv zeta in Hx, Hy. fold p'' in Hx, Hy. rewrite Hv in Hx, Hy.
  split; [exact Hx|]. split; [exact Hy|].
  intros Hd Hfit Hleft. subst p''.
  unfold BattlePlayer.handle_battle_input.
  rewrite (has_box_Some p' box Hb Hnz). cbv zeta.
  unfold BattlePlayer._update_battle_rect. cbn [BattlePlayer.battle_x].
  rewrite Hd, Hv, Hs. cbn [orb].
  replace (if BattlePlayer.K_a keys || BattlePlayer.K_LEFT keys
           then _ else _) with (BattlePlayer.battle_speed p)
    by (destruct (_ || _); reflexivity).
  assert (E1 : Rgeb (BattlePlayer.battle_x p' + BattlePlayer.battle_speed p)
                    (IZR (Rect.left box)) = true)
    by (apply Rgeb_true; exact Hleft).
  assert (E2 : Rleb (BattlePlayer.battle_x p' + BattlePlayer.battle_speed p
                     + IZR (BattlePlayer.battle_size p))
                    (IZR (Rect.right box)) = true)
    by (apply Rleb_true; exact Hfit).
  rewrite E1, E2. reflexivity.
Qed.

Lemma heart_stays_in_box_witness :
  BattlePlayer.in_box sample_box
    (fold_left (fun p keys => BattlePlayer.handle_battle_input keys p)
       [sample_keys; sample_keys]
       (BattlePlayer.set_battle_box sample_box sample_heart)).
Proof.
  apply (heart_stays_in_box sample_box sample_heart [sample_keys; sample_keys]).
  - reflexivity.
  - cbn. lia.
  - cbn. lia.
Defined.

(** ** The player in the battle: gravity *)

(** The push of the gravity wells is clamped to the box by the centre
    line of the heart, not by its edges. With a box that is not empty,
    [apply_gravity_force] leaves the corner of the heart between
    [left + size // 2] and [right - size // 2], and between
    [top + size // 2] and [bottom - size // 2]: the heart can never be
    pushed against the left or the upper wall, and a push to the right
    that reaches the clamp leaves it hanging over the right wall by
    [size - size // 2] pixels. From there a heart slower than that
    overhang cannot move sideways by the keyboard at all, whatever keys
    are held. Without a box the push is not clamped and the collision
    rect is left where it was. *)
Theorem gravity_push_clamps (force_x force_y : R) (p : BattlePlayer.t)
    (box : Rect.t) :
  let margin := BattlePlayer.battle_size p / 2 in
  let p' := BattlePlayer.apply_gravity_force force_x force_y p in
  (BattlePlayer.battle_box p = Some box -> Rect.nonzero box = true ->
   Rect.left box + margin <= Rect.right box - margin ->
   Rect.top box + margin <= Rect.bottom box - margin ->
   (IZR (Rect.left box + margin) <= BattlePlayer.battle_x p'
    <= IZR (Rect.right box - margin))%R
   /\ (IZR (Rect.top box + margin) <= BattlePlayer.battle_y p'
       <= IZR (Rect.bottom box - margin))%R
   /\ BattlePlayer.battle_rect p'
      = Rect.of_floats (BattlePlayer.battle_x p') (BattlePlayer.battle_y p')
                       (BattlePlayer.battle_size p) (BattlePlayer.battle_size p)
   /\ ((IZR (Rect.right box - margin) <= BattlePlayer.battle_x p + force_x)%R ->
       BattlePlayer.battle_x p' = IZR (Rect.right box - margin)
       /\ (BattlePlayer.battle_x p' + IZR (BattlePlayer.battle_size p)
           = IZR (Rect.right box)
             + IZR (BattlePlayer.battle_size p - margin))%R
       /\ ((0 <= BattlePlayer.battle_speed p
            < IZR (BattlePlayer.battle_size p - margin))%R ->
           forall keys : BattlePlayer.Keys,
             BattlePlayer.battle_x (BattlePlayer.handle_battle_input keys p')
             = BattlePlayer.battle_x p')))
  /\ (BattlePlayer.battle_box p = None ->
      BattlePlayer.battle_x p' = (BattlePlayer.battle_x p + force_x)%R
      /\ BattlePlayer.battle_y p' = (BattlePlayer.battle_y p + force_y)%R
      /\ BattlePlayer.battle_rect p' = BattlePlayer.battle_rect p).
Proof.
  intros margin p'. split.
  - intros Hbox Hnz Hx Hy. subst p'.
    unfold BattlePlayer.apply_gravity_force.
    rewrite (has_box_Some p box Hbox Hnz). cbv zeta. fold margin.
    unfold BattlePlayer._update_battle_rect.
    cbn [BattlePlayer.battle_x BattlePlayer.battle_y BattlePlayer.battle_rect
         BattlePlayer.battle_size].
    apply IZR_le in Hx, Hy.
    split.
    { unfold Rmax, Rmin.
      repeat match goal with
             | |- context [Rle_dec ?a ?b] => destruct (Rle_dec a b)
             end; lra. }
    split.
    { unfold Rmax, Rmin.
      repeat match goal with
             | |- context [Rle_dec ?a ?b] => destruct (Rle_dec a b)
             end; lra. }
    split; [reflexivity|].
    intros Hpush.
    assert (Ex : Rmax (IZR (Rect.left box + margin))
                      (Rmin (IZR (Rect.right box - margin))
                            (BattlePlayer.battle_x p + force_x))
                 = IZR (Rect.right box - margin)).
    { rewrite Rmin_left by exact Hpush. apply Rmax_right. exact Hx. }
    rewrite Ex. split; [reflexivity|]. split.
    { rewrite <- !plus_IZR. f_equal. lia. }
    intros [Hs0 Hs1] keys.
    unfold BattlePlayer.handle_battle_input, BattlePlayer.has_box.
    cbn [BattlePlayer.battle_box BattlePlayer.battle_x BattlePlayer.battle_size
         BattlePlayer.battle_speed].
    rewrite Hbox, Hnz. cbv zeta.
    unfold BattlePlayer._update_battle_rect. cbn [BattlePlayer.battle_x].
    rewrite minus_IZR in Hs1.
    destruct (Rgeb _ _ && Rleb _ _) eqn:E; [|reflexivity].
    apply andb_true_iff in E as [E1 E2].
    apply Rgeb_true in E1. apply Rleb_true in E2.
    rewrite minus_IZR in E1, E2.
    destruct (BattlePlayer.K_d keys || BattlePlayer.K_RIGHT keys);
      [lra|].
    destruct (BattlePlayer.K_a keys || BattlePlayer.K_LEFT keys); lra.
  - intros Hbox. subst p'.
    unfold BattlePlayer.apply_gravity_force, BattlePlayer.has_box.
    rewrite Hbox. repeat split.
Qed.

Ltac heart_numbers :=
  cbv [BattlePlayer.battle_size BattlePlayer.battle_speed BattlePlayer.battle_x
       BattlePlayer.set_battle_box BattlePlayer._update_battle_rect
       sample_heart sample_box Rect.left Rect.right Rect.top Rect.bottom
       Rect.centerx Rect.centery Rect.width Rect.height
       Rect.x Rect.y Rect.w Rect.h];
  change (10 / 2) with 5; change (300 / 2) with 150; change (200 / 2) with 100.

Lemma gravity_push_clamps_witness :
  let p := BattlePlayer.apply_gravity_force 500 0
             (BattlePlayer.set_battle_box sample_box sample_heart) in
  BattlePlayer.battle_x p = IZR (170 + 300 - 5)
  /\ forall keys : BattlePlayer.Keys,
       BattlePlayer.battle_x (BattlePlayer.handle_battle_input keys p)
       = BattlePlayer.battle_x p.
Proof.
  destruct (gravity_push_clamps 500 0
              (BattlePlayer.set_battle_box sample_box sample_heart) sample_box)
    as [Hclamp _].
  destruct Hclamp as (_ & _ & _ & Hpush);
    [reflexivity|reflexivity|heart_numbers; lia|heart_numbers; lia|].
  destruct Hpush as (Hx & _ & Hstuck).
  { heart_numbers. rewrite !minus_IZR, !plus_IZR. lra. }
  cbv zeta. split.
  - rewrite Hx. heart_numbers. reflexivity.
  - apply Hstuck. heart_numbers. rewrite !minus_IZR. lra.
Defined.

(** ** The player: the inventory and healing *)

(** The inventory and the hit points. [use_item] with an index outside
    the inventory returns nothing and changes nothing. With an index
    inside it, and a heal value that is a number, it returns the item at
    the index and takes exactly that item out: the items before it keep
    their places, the items after it move down by one; the hit points
    rise by the heal value, but not above the maximum, and nothing else
    changes. An item added by [add_item] is the last of the inventory,
    and using it there gives the inventory back as it was; nothing and
    an empty dictionary are not added. [heal] returns the hit points it
    has restored: with hit points within the maximum and an amount that
    is not negative, no more than the amount and never above the
    maximum. *)
Theorem inventory_and_healing (p : BattlePlayer.t) :
  (forall index : Z,
     index < 0 \/ Z.of_nat (length (BattlePlayer.inventory p)) <= index ->
     BattlePlayer.use_item index p = Some (None, p))
  /\ (forall (i : nat) (item : ItemData.item) (v : Z),
        BattlePlayer.inventory p !! i = Some item ->
        ItemData.heal_value item = Some v ->
        exists p',
          BattlePlayer.use_item (Z.of_nat i) p = Some (Some item, p')
          /\ BattlePlayer.inventory p' = delete i (BattlePlayer.inventory p)
          /\ length (BattlePlayer.inventory p')
             = (length (BattlePlayer.inventory p) - 1)%nat
          /\ (forall j, (j < i)%nat ->
                BattlePlayer.inventory p' !! j = BattlePlayer.inventory p !! j)
          /\ (forall j, (i <= j)%nat ->
                BattlePlayer.inventory p' !! j
                = BattlePlayer.inventory p !! S j)
          /\ Player.hp (BattlePlayer.stats p')
             = Z.min (Player.max_hp (BattlePlayer.stats p))
                     (Player.hp (BattlePlayer.stats p) + v)
          /\ Player.max_hp (BattlePlayer.stats p')
             = Player.max_hp (BattlePlayer.stats p)
          /\ Player.invulnerability_timer (BattlePlayer.stats p')
             = Player.invulnerability_timer (BattlePlayer.stats p)
          /\ BattlePlayer.battle_x p' = BattlePlayer.battle_x p
          /\ BattlePlayer.battle_y p' = BattlePlayer.battle_y p)
  /\ (forall (d : ItemData.item) (v : Z),
        d <> ∅ -> ItemData.heal_value d = Some v ->
        BattlePlayer.inventory (BattlePlayer.add_item (Some d) p)
        = BattlePlayer.inventory p ++ [d]
        /\ exists p',
             BattlePlayer.use_item
               (Z.of_nat (length (BattlePlayer.inventory p)))
               (BattlePlayer.add_item (Some d) p)
             = Some (Some d, p')
             /\ BattlePlayer.inventory p' = BattlePlayer.inventory p)
  /\ BattlePlayer.add_item None p = p
  /\ BattlePlayer.add_item (Some ∅) p = p
  /\ (forall amount : Z,
        0 <= amount ->
        Player.hp (BattlePlayer.stats p) <= Player.max_hp (BattlePlayer.stats p) ->
        let '(restored, p') := BattlePlayer.heal amount p in
        0 <= restored <= amount
        /\ Player.hp (BattlePlayer.stats p')
           = Player.hp (BattlePlayer.stats p) + restored
        /\ Player.hp (BattlePlayer.stats p')
           <= Player.max_hp (BattlePlayer.stats p)).
Proof.
  split; [|split; [|split; [|split; [|split]]]].
  - intros index Hout. unfold BattlePlayer.use_item.
    destruct (Z.leb_spec 0 index); [|reflexivity].
    destruct (Z.ltb_spec index (Z.of_nat (length (BattlePlayer.inventory p))));
      [lia|reflexivity].
  - intros i item v Hi Hv.
    pose proof (lookup_lt_Some _ _ _ Hi) as Hlt.
    unfold BattlePlayer.use_item.
    destruct (Z.leb_spec 0 (Z.of_nat i)); [|lia].
    destruct (Z.ltb_spec (Z.of_nat i)
                (Z.of_nat (length (BattlePlayer.inventory p)))); [|lia].
    cbn [andb]. rewrite Nat2Z.id, Hi, Hv.
    eexists. split; [reflexivity|].
    cbn [BattlePlayer.inventory BattlePlayer.stats BattlePlayer.battle_x
         BattlePlayer.battle_y Player.hp Player.max_hp
         Player.invulnerability_timer].
    split; [reflexivity|].
    split; [apply length_delete; eauto|].
    split; [intros j Hj; apply list_lookup_delete_lt; exact Hj|].
    split; [intros j Hj; apply list_lookup_delete_ge; exact Hj|].
    repeat split.
  - intros d v Hne Hv. unfold BattlePlayer.add_item.
    rewrite bool_decide_eq_false_2 by exact Hne.
    cbn [BattlePlayer.inventory]. split; [reflexivity|].
    unfold BattlePlayer.use_item. cbn [BattlePlayer.inventory].
    rewrite length_app. cbn [length].
    destruct (Z.leb_spec 0 (Z.of_nat (length (BattlePlayer.inventory p))));
      [|lia].
    destruct (Z.ltb_spec (Z.of_nat (length (BattlePlayer.inventory p)))
                (Z.of_nat (length (BattlePlayer.inventory p) + 1))); [|lia].
    cbn [andb]. rewrite Nat2Z.id.
    rewrite lookup_app_r by lia. rewrite Nat.sub_diag. cbn [lookup list_lookup].
    rewrite Hv. eexists. split; [reflexivity|].
    cbn [BattlePlayer.inventory].
    rewrite (delete_middle (BattlePlayer.inventory p) [] d).
    apply app_nil_r.
  - reflexivity.
  - unfold BattlePlayer.add_item. rewrite bool_decide_eq_true_2 by reflexivity.
    reflexivity.
  - intros amount Ha Hhp. unfold BattlePlayer.heal. cbv zeta.
    cbn [BattlePlayer.stats BattlePlayer.with_stats Player.hp]. lia.
Qed.


(** ** The battle: collisions *)

(** An invulnerable player goes through the loop over the bullets
    untouched, and no bullet is killed. *)
Lemma check_bullets_invulnerable (cfg : Settings) (damage : Z)
    (player_rect : Rect.t) (l : list nat) :
  forall (m : AttackManager.t) (player : Player.t),
    0 < Player.invulnerability_timer player ->
    fold_left (Battle.check_bullet cfg damage player_rect) l (m, player)
    = (m, player).
Proof.
  induction l as [|k l IH]; intros m player Hinv; [reflexivity|].
  cbn [fold_left].
  assert (E : Battle.check_bullet cfg damage player_rect (m, player) k
              = (m, player)).
  { unfold Battle.check_bullet.
    destruct (AttackManager.sprites m !! k) as [sp|]; [|reflexivity].
    destruct (Rect.colliderect _ _); [|reflexivity].
    unfold Player.take_damage.
    destruct (Z.gtb_spec (Player.invulnerability_timer player) 0); [|lia].
    reflexivity. }
  rewrite E. apply IH, Hinv.
Qed.

(** The loop over the bullets with a vulnerable player: the first
    bullet that touches the player hits and is killed, and that is
    all. *)
Lemma check_bullets_vulnerable (cfg : Settings) (damage : Z)
    (player_rect : Rect.t) (l : list nat) :
  1 <= INVULNERABILITY_TIME cfg ->
  forall (m : AttackManager.t) (player : Player.t),
    Player.invulnerability_timer player <= 0 ->
    (Forall (fun k => Battle.touches m player_rect k = false) l
     /\ fold_left (Battle.check_bullet cfg damage player_rect) l (m, player)
        = (m, player))
    \/ exists l1 k l2,
         l = l1 ++ k :: l2
         /\ Forall (fun k => Battle.touches m player_rect k = false) l1
         /\ Battle.touches m player_rect k = true
         /\ fold_left (Battle.check_bullet cfg damage player_rect) l (m, player)
            = (AttackManager.kill k m,
               snd (Player.take_damage cfg damage player)).
Proof.
  intros HI. induction l as [|k l IH]; intros m player Hv.
  - left. split; [constructor|reflexivity].
  - cbn [fold_left].
    destruct (Battle.touches m player_rect k) eqn:Et.
    + right. exists [], k, l. split; [reflexivity|]. split; [constructor|].
      split; [exact Et|].
      assert (E : Battle.check_bullet cfg damage player_rect (m, player) k
                  = (AttackManager.kill k m,
                     snd (Player.take_damage cfg damage player))).
      { unfold Battle.check_bullet. unfold Battle.touches in Et.
        destruct (AttackManager.sprites m !! k) as [sp|]; [|discriminate].
        rewrite Et. unfold Player.take_damage.
        destruct (Z.gtb_spec (Player.invulnerability_timer player) 0); [lia|].
        reflexivity. }
      cbn [app fold_left]. rewrite E. apply check_bullets_invulnerable.
      unfold Player.take_damage.
      destruct (Z.gtb_spec (Player.invulnerability_timer player) 0); [lia|].
      cbn [snd Player.invulnerability_timer]. lia.
    + assert (E : Battle.check_bullet cfg damage player_rect (m, player) k
                  = (m, player)).
      { unfold Battle.check_bullet. unfold Battle.touches in Et.
        destruct (AttackManager.sprites m !! k) as [sp|]; [|reflexivity].
        rewrite Et. reflexivity. }
      rewrite E.
      destruct (IH m player Hv) as [[Hall Hr]|(l1 & k0 & l2 & -> & Hall & Hk & Hr)].
      * left. split; [constructor; assumption|exact Hr].
      * right. exists (k :: l1), k0, l2. split; [reflexivity|].
        split; [constructor; assumption|]. split; [exact Hk|exact Hr].
Qed.

(** The first entry of a list with a property is one entry. *)
Lemma first_unique {A} (P : A -> bool) (l1 l1' l2 l2' : list A) (k k' : A) :
  l1 ++ k :: l2 = l1' ++ k' :: l2' ->
  Forall (fun x => P x = false) l1 -> P k = true ->
  Forall (fun x => P x = false) l1' -> P k' = true ->
  l1 = l1' /\ k = k'.
Proof.
  revert l1'. induction l1 as [|a l1 IH]; intros [|a' l1'] E H1 Hk H1' Hk'.
  - injection E as -> _. split; reflexivity.
  - injection E as -> _. apply Forall_cons in H1' as [Ha _]. congruence.
  - injection E as -> _. apply Forall_cons in H1 as [Ha _]. congruence.
  - injection E as -> E. apply Forall_cons in H1 as [_ H1].
    apply Forall_cons in H1' as [_ H1'].
    destruct (IH l1' E H1 Hk H1' Hk') as [-> ->]. split; reflexivity.
Qed.

Lemma is_mode_Dodge (b : Battle.t) :
  Battle.is_mode BattleBox.Dodge b = true
  <-> Battle.battle_mode b = BattleBox.Dodge.
Proof.
  unfold Battle.is_mode. destruct (Battle.battle_mode b); split;
    congruence.
Qed.

Lemma with_same_attack_manager (b : Battle.t) :
  Battle.with_attack_manager (Battle.attack_manager b) b = b.
Proof. destruct b; reflexivity. Qed.

(** At most one hit a frame, where [INVULNERABILITY_TIME] is at least
    one frame. [check_collisions] in the dodge mode with an enemy goes
    through the bullets of the group and then, in every frame, asks the
    lasers; each touch calls [take_damage], which an invulnerable player
    turns down. So one of three things happens. If the player is
    invulnerable, or no bullet of the group and no active laser touches
    the player's rect, nothing changes. If the player is vulnerable and a
    bullet touches the rect, the player takes the enemy's attack damage
    once, whatever else touches the rect in that frame, a laser included,
    and the first such bullet of the group, and only that one, is killed.
    If no bullet but a laser touches the rect, the player takes the damage
    once and no bullet is killed. Outside the dodge mode and without an
    enemy nothing is checked. *)
Theorem one_hit_a_frame (cfg : Settings) (player_rect : Rect.t)
    (player : Player.t) (b : Battle.t) :
  1 <= INVULNERABILITY_TIME cfg ->
  let m := Battle.attack_manager b in
  let group := AttackManager.bullets_group m in
  let '(b', player') := Battle.check_collisions cfg player_rect player b in
  (Battle.battle_mode b <> BattleBox.Dodge \/ Battle.current_enemy b = None ->
   b' = b /\ player' = player)
  /\ forall enemy,
       Battle.battle_mode b = BattleBox.Dodge ->
       Battle.current_enemy b = Some enemy ->
       let hit := Player.mk (Z.max 0 (Player.hp player
                                      - Enemy.attack_damage enemy))
                            (Player.max_hp player)
                            (INVULNERABILITY_TIME cfg) in
       (0 < Player.invulnerability_timer player ->
        b' = b /\ player' = player)
       /\ (Player.invulnerability_timer player <= 0 ->
           (Forall (fun k => Battle.touches m player_rect k = false) group ->
            AttackManager.check_laser_collision player_rect m = false ->
            b' = b /\ player' = player)
           /\ (forall l1 k l2,
                 group = l1 ++ k :: l2 ->
                 Forall (fun k => Battle.touches m player_rect k = false) l1 ->
                 Battle.touches m player_rect k = true ->
                 player' = hit
                 /\ b' = Battle.with_attack_manager (AttackManager.kill k m) b)
           /\ (Forall (fun k => Battle.touches m player_rect k = false) group ->
               AttackManager.check_laser_collision player_rect m = true ->
               player' = hit /\ b' = b)).
Proof.
  intros HI m group.
  destruct (Battle.check_collisions cfg player_rect player b) as [b' player']
    eqn:E.
  unfold Battle.check_collisions in E.
  split.
  - intros [Hmode|Hnone].
    + destruct (Battle.is_mode BattleBox.Dodge b) eqn:Em.
      * apply is_mode_Dodge in Em. contradiction.
      * cbn [negb] in E. injection E as <- <-. split; reflexivity.
    + destruct (negb _); [injection E as <- <-; split; reflexivity|].
      rewrite Hnone in E. injection E as <- <-. split; reflexivity.
  - intros enemy Hmode Henemy hit.
    apply is_mode_Dodge in Hmode. rewrite Hmode, Henemy in E.
    cbn [negb] in E. cbv zeta in E. fold m group in E.
    split.
    + intros Hinv.
      rewrite check_bullets_invulnerable in E by exact Hinv.
      assert (Es : snd (Player.take_damage cfg (Enemy.attack_damage enemy)
                          player) = player).
      { unfold Player.take_damage.
        destruct (Z.gtb_spec (Player.invulnerability_timer player) 0); [|lia].
        reflexivity. }
      rewrite Es in E.
      destruct (AttackManager.check_laser_collision player_rect m);
        injection E as <- <-; split;
        first [apply with_same_attack_manager | reflexivity].
    + intros Hv.
      assert (Ehit : snd (Player.take_damage cfg (Enemy.attack_damage enemy)
                            player) = hit).
      { unfold Player.take_damage.
        destruct (Z.gtb_spec (Player.invulnerability_timer player) 0); [lia|].
        reflexivity. }
      assert (Eagain : snd (Player.take_damage cfg
                              (Enemy.attack_damage enemy) hit) = hit).
      { unfold Player.take_damage, hit. cbn [Player.invulnerability_timer].
        destruct (Z.gtb_spec (INVULNERABILITY_TIME cfg) 0); [|lia].
        reflexivity. }
      destruct (check_bullets_vulnerable cfg (Enemy.attack_damage enemy)
                  player_rect group HI m player Hv)
        as [[Hall Hr]|(l1 & k & l2 & Hg & Hall & Hk & Hr)];
        rewrite Hr in E.
      * split; [|split].
        -- intros _ Hlaser. rewrite Hlaser in E. injection E as <- <-.
           split; [apply with_same_attack_manager|reflexivity].
        -- intros l1 k l2 Hg Hl1 Hk. exfalso.
           rewrite Hg in Hall. apply Forall_app in Hall as [_ Hall].
           apply Forall_cons in Hall as [Hno _]. congruence.
        -- intros _ Hlaser. rewrite Hlaser, Ehit in E. injection E as <- <-.
           split; [reflexivity|apply with_same_attack_manager].
      * rewrite Ehit, Eagain in E.
        change (AttackManager.check_laser_collision player_rect
                  (AttackManager.kill k m))
          with (AttackManager.check_laser_collision player_rect m) in E.
        assert (E' : (Battle.with_attack_manager (AttackManager.kill k m) b,
                      hit) = (b', player')).
        { destruct (AttackManager.check_laser_collision player_rect m);
            exact E. }
        injection E' as <- <-.
        split; [|split].
        -- intros Hnone _. exfalso.
           rewrite Hg in Hnone. apply Forall_app in Hnone as [_ Hnone].
           apply Forall_cons in Hnone as [Hno _]. congruence.
        -- intros l1' k' l2' Hg' Hl1' Hk'.
           rewrite Hg in Hg'.
           destruct (first_unique (Battle.touches m player_rect)
                       l1 l1' l2 l2' k k' Hg' Hall Hk Hl1' Hk') as [_ <-].
           split; reflexivity.
        -- intros Hnone _. exfalso.
           rewrite Hg in Hnone. apply Forall_app in Hnone as [_ Hnone].
           apply Forall_cons in Hnone as [Hno _]. congruence.
Qed.

Lemma one_hit_a_frame_witness :
  Player.hp (snd (Battle.check_collisions sample_settings sample_player_rect
                    sample_player sample_dodge)) = 18.
Proof.
  pose proof (one_hit_a_frame sample_settings sample_player_rect
                sample_player sample_dodge) as H.
  cbv zeta in H.
  destruct (Battle.check_collisions sample_settings sample_player_rect
              sample_player sample_dodge) as [b' p'].
  destruct H as [_ H]; [cbn; lia|].
  destruct (H sample_enemy eq_refl eq_refl) as [_ Hv].
  destruct Hv as (_ & Hfirst & _); [cbn; lia|].
  destruct (Hfirst [] 0%nat []) as [-> _];
    [reflexivity|constructor|vm_compute; reflexivity|].
  reflexivity.
Defined.

(** ** The battle: the FIGHT mini-game *)

(** Truncation toward zero is monotone. *)
Lemma py_int_mono (a b : R) : (a <= b)%R -> py_int a <= py_int b.
Proof.
  intros Hab. unfold py_int.
  pose proof (base_Int_part a) as [Ha1 Ha2].
  pose proof (base_Int_part b) as [Hb1 Hb2].
  pose proof (base_Int_part (- a)) as [Hna1 Hna2].
  pose proof (base_Int_part (- b)) as [Hnb1 Hnb2].
  destruct (Rle_dec 0 a), (Rle_dec 0 b); try lra.
  - apply le_IZR. apply Rnot_lt_le. intros Hlt.
    assert (H : (IZR (Int_part b) + 1 <= IZR (Int_part a))%R).
    { rewrite <- plus_IZR. apply IZR_le. apply lt_IZR in Hlt. lia. }
    lra.
  - assert (H0 : 0 <= Int_part b).
    { apply le_IZR. apply Rnot_lt_le. intros Hlt.
      assert (H : (IZR (Int_part b) + 1 <= 0)%R).
      { rewrite <- plus_IZR. apply IZR_le. apply lt_IZR in Hlt. lia. }
      lra. }
    assert (H1 : 0 <= Int_part (- a)).
    { apply le_IZR. apply Rnot_lt_le. intros Hlt.
      assert (H : (IZR (Int_part (- a)) + 1 <= 0)%R).
      { rewrite <- plus_IZR. apply IZR_le. apply lt_IZR in Hlt. lia. }
      lra. }
    lia.
  - assert (H : Int_part (- b) <= Int_part (- a)); [|lia].
    apply le_IZR. apply Rnot_lt_le. intros Hlt.
    assert (H : (IZR (Int_part (- a)) + 1 <= IZR (Int_part (- b)))%R).
    { rewrite <- plus_IZR. apply IZR_le. apply lt_IZR in Hlt. lia. }
    lra.
Qed.

(** The countdown of the message leaves the rest of the battle. *)
Lemma tick_phase2_message_fields (b : Battle.t) :
  let b' := Battle.tick_phase2_message b in
  Battle.battle_mode b' = Battle.battle_mode b
  /\ Battle.current_enemy b' = Battle.current_enemy b
  /\ Battle.fight_bar_active b' = Battle.fight_bar_active b
  /\ Battle.fight_bar_position b' = Battle.fight_bar_position b
  /\ Battle.fight_bar_direction b' = Battle.fight_bar_direction b
  /\ Battle.fight_bar_speed b' = Battle.fight_bar_speed b
  /\ Battle.safety_pause_active b' = Battle.safety_pause_active b
  /\ Battle.safety_pause_timer b' = Battle.safety_pause_timer b
  /\ Battle.warmup_active b' = Battle.warmup_active b
  /\ Battle.warmup_timer b' = Battle.warmup_timer b
  /\ Battle.attack_manager b' = Battle.attack_manager b.
Proof.
  unfold Battle.tick_phase2_message. cbv zeta.
  destruct (_ >? 0); repeat split.
Qed.

(** A frame of the mini-game. *)
Lemma update_bar (cfg : Settings) (bs : BattleSettings) (px py : R)
    (b : Battle.t) (g : Random.state) :
  Battle.bar_ok b ->
  exists b',
    Battle.update cfg bs px py b g = Some (b', g)
    /\ Battle.bar_ok b'
    /\ Battle.attack_manager b' = Battle.attack_manager b
    /\ Battle.current_enemy b' = Battle.current_enemy b.
Proof.
  intros (Hm & Ha & Hp & Hd & Hs & Hw).
  destruct (tick_phase2_message_fields b)
    as (Tm & Te & Ta & Tp & Td & Tv & Ts & Tst & Tw & Twt & Tam).
  cbv zeta in *.
  unfold Battle.update. cbv zeta.
  set (b1 := Battle.tick_phase2_message b) in *.
  rewrite Ts, Hs, Tw, Hw.
  assert (Em : Battle.is_mode BattleBox.FightAttack b1 = true).
  { unfold Battle.is_mode. rewrite Tm, Hm. reflexivity. }
  rewrite Em, Ta, Ha. cbn [andb].
  unfold Battle.move_fight_bar. rewrite Tp, Td, Tv, Tm, Te, Ta, Ts, Tw, Tam.
  rewrite (of_int_exact (Battle.fight_bar_direction b))
    by (destruct Hd as [-> | ->]; cbn; lia).
  cbn [mbind option_bind].
  set (pos := Float64.round
                (Battle.fight_bar_position b
                 + Float64.round (Battle.fight_bar_speed b
                                  * IZR (Battle.fight_bar_direction b)))).
  unfold Random.lift.
  destruct (Rgeb pos 1.0) eqn:E1;
    [|destruct (Rleb pos 0.0) eqn:E2];
    (eexists; split; [reflexivity|]);
    unfold Battle.bar_ok, Battle.battle_mode, Battle.fight_bar_active,
      Battle.fight_bar_position, Battle.current_enemy;
    cbn [Battle.box Battle.fight_bar_direction Battle.safety_pause_active
         Battle.warmup_active Battle.attack_manager BattleBox.battle_mode
         BattleBox.fight_bar_active BattleBox.fight_bar_position
         BattleBox.current_enemy].
  - repeat split; try assumption; try lra. right. reflexivity.
  - repeat split; try assumption; try lra. left. reflexivity.
  - assert (Hlt : (pos < 1)%R).
    { apply Rnot_le_lt. intros H. apply Rgeb_true in H.
      replace 1.0%R with 1%R in E1 by lra. congruence. }
    assert (Hgt : (0 < pos)%R).
    { apply Rleb_false in E2. lra. }
    repeat split; try assumption; lra.
Qed.

Lemma py_int_le (x : R) : (0 <= x)%R -> (IZR (py_int x) <= x)%R.
Proof.
  intros Hx. unfold py_int. destruct (Rle_dec 0 x); [|contradiction].
  apply Int_part_spec.
Qed.

(** The FIGHT mini-game. Started by [_start_fight_minigame] while no
    pause is running, the battle goes through any number of frames of
    [Battle.update] without a draw and without touching the attack
    manager; it stays in the mode of the mini-game with the bar active,
    the position of the bar stays between 0 and 1, whatever the speed of
    the bar, and its direction is 1 or -1. So whenever the player strikes,
    with an attack constant that is not negative and that binary64 holds
    exactly, the damage [_process_fight_attack] deals is at least
    [int(0.6 * PLAYER_ATTACK_DAMAGE)], in exact arithmetic, and at most
    [PLAYER_ATTACK_DAMAGE]. *)
Theorem fight_bar_in_range (cfg : Settings) (bs : BattleSettings) (px py : R)
    (b : Battle.t) (n : nat) (g : Random.state) :
  Battle.safety_pause_active b = false -> Battle.warmup_active b = false ->
  exists b',
    Battle.updates cfg bs px py n (Battle._start_fight_minigame b) g
    = Some (b', g)
    /\ Battle.battle_mode b' = BattleBox.FightAttack
    /\ Battle.fight_bar_active b' = true
    /\ (0 <= Battle.fight_bar_position b' <= 1)%R
    /\ (Battle.fight_bar_direction b' = 1
        \/ Battle.fight_bar_direction b' = -1)
    /\ Battle.attack_manager b' = Battle.attack_manager b
    /\ Battle.current_enemy b' = Battle.current_enemy b
    /\ (0 <= PLAYER_ATTACK_DAMAGE cfg <= 2 ^ 53 ->
        forall enemy, Battle.current_enemy b = Some enemy ->
        exists o box',
          BattleBox._process_fight_attack cfg (Battle.box b')
          = Some (Some o, box')
          /\ py_int (0.6 * IZR (PLAYER_ATTACK_DAMAGE cfg))
             <= BattleBox.outcome_damage o <= PLAYER_ATTACK_DAMAGE cfg).
Proof.
  intros Hs Hw.
  assert (H0 : Battle.bar_ok (Battle._start_fight_minigame b)).
  { unfold Battle.bar_ok. cbn. repeat split; try assumption; try lra.
    left. reflexivity. }
  assert (Hrun : forall n b0 g,
             Battle.bar_ok b0 ->
             exists b',
               Battle.updates cfg bs px py n b0 g = Some (b', g)
               /\ Battle.bar_ok b'
               /\ Battle.attack_manager b' = Battle.attack_manager b0
               /\ Battle.current_enemy b' = Battle.current_enemy b0).
  { clear. intros n. induction n as [|n IH]; intros b0 g Hok.
    - exists b0. split; [reflexivity|split; [exact Hok|split; reflexivity]].
    - destruct (update_bar cfg bs px py b0 g Hok) as (b1 & H1 & Hok1 & Hm1 & He1).
      destruct (IH b1 g Hok1) as (b' & H & Hok' & Hm & He).
      exists b'. split; [|split; [exact Hok'|split; congruence]].
      cbn [Battle.updates]. unfold Random.bind. rewrite H1. exact H. }
  destruct (Hrun n _ g H0) as (b' & H & (Hm & Ha & Hp & Hd & _ & _) & Ham & He).
  exists b'. split; [exact H|]. split; [exact Hm|]. split; [exact Ha|].
  split; [exact Hp|]. split; [exact Hd|]. split; [exact Ham|].
  split; [exact He|].
  intros Hpad enemy Henemy.
  assert (He' : BattleBox.current_enemy (Battle.box b') = Some enemy).
  { unfold Battle.current_enemy in He. rewrite He. exact Henemy. }
  destruct (process_fight_attack_damage cfg (Battle.box b') enemy He')
    as (o & e' & box' & Ho & Hdmg & _); [lia|exact Hp|].
  exists o, box'. split; [exact Ho|]. rewrite Hdmg.
  pose proof (damage_multiplier_range _ Hp) as [Hlo Hhi].
  unfold Battle.fight_bar_position in Hlo, Hhi.
  set (m := BattleBox.damage_multiplier
              (BattleBox.fight_bar_position (Battle.box b'))) in *.
  set (A := PLAYER_ATTACK_DAMAGE cfg) in *.
  assert (HA0 : (0 <= IZR A)%R) by (apply IZR_le; lia).
  assert (HA53 : (IZR A <= IZR (2 ^ 53))%R) by (apply IZR_le; lia).
  pose proof (round_nonneg 0.6 ltac:(lra)) as H6.
  split.
  - set (k := py_int (0.6 * IZR A)).
    assert (Hk : (IZR k <= 0.6 * IZR A)%R) by (apply py_int_le; lra).
    assert (Hk0 : 0 <= k).
    { subst k. rewrite <- (py_int_IZR 0). apply py_int_mono. lra. }
    rewrite <- (py_int_IZR k). apply py_int_mono.
    apply Rle_trans with (Float64.round (IZR A * Float64.round 0.6)).
    + destruct (Z.eq_dec k 0) as [->|Hk1].
      * apply round_nonneg. nra.
      * assert (HkA : k <= 2 ^ 53).
        { apply le_IZR. lra. }
        apply round_reaches; [lia|].
        assert (Hk1' : (1 <= IZR k)%R) by (apply IZR_le; lia).
        rewrite round_0_6.
        replace (powerRZ 2 (-54)) with (/ 18014398509481984)%R
          by (simpl; lra).
        replace (powerRZ 2 (-53)) with (/ 9007199254740992)%R
          by (simpl; lra).
        lra.
    + apply round_mono. apply Rmult_le_compat_l; assumption.
  - rewrite <- (py_int_IZR A) at 2. apply py_int_mono.
    rewrite <- (round_IZR A) at 2 by lia. apply round_mono.
    rewrite <- (Rmult_1_r (IZR A)) at 2.
    apply Rmult_le_compat_l; assumption.
Qed.

Lemma fight_bar_in_range_witness :
  exists b',
    Battle.updates sample_settings sample_battle_settings 0 0 100
      (Battle._start_fight_minigame sample_menu) sample_rng
    = Some (b', sample_rng)
    /\ (0 <= Battle.fight_bar_position b' <= 1)%R.
Proof.
  destruct (fight_bar_in_range sample_settings sample_battle_settings 0 0
              sample_menu 100 sample_rng eq_refl eq_refl)
    as (b' & H & _ & _ & Hp & _).
  exists b'. split; [exact H|exact Hp].
Defined.

(** ** The battle: the pauses before an attack *)

Lemma updates_app (cfg : Settings) (bs : BattleSettings) (px py : R)
    (n m : nat) (b b1 : Battle.t) (g g1 : Random.state) :
  Battle.updates cfg bs px py n b g = Some (b1, g1) ->
  Battle.updates cfg bs px py (n + m) b g
  = Battle.updates cfg bs px py m b1 g1.
Proof.
  revert b g. induction n as [|n IH]; intros b g H.
  - cbn in H. injection H as -> ->. reflexivity.
  - cbn [Battle.updates Nat.add] in *. unfold Random.bind in *.
    destruct (Battle.update cfg bs px py b g) as [[b2 g2]|]; [|discriminate].
    apply IH, H.
Qed.

(** A frame of the safety pause, and the frame that ends it. *)
Lemma update_safety_pause (cfg : Settings) (bs : BattleSettings) (px py : R)
    (b : Battle.t) (g : Random.state) :
  Battle.safety_pause_active b = true ->
  exists b',
    Battle.update cfg bs px py b g = Some (b', g)
    /\ Battle.attack_manager b' = Battle.attack_manager b
    /\ Battle.current_enemy b' = Battle.current_enemy b
    /\ if Battle.safety_pause_timer b - 1 <=? 0
       then Battle.battle_mode b' = BattleBox.Warmup
            /\ Battle.safety_pause_active b' = false
            /\ Battle.warmup_active b' = true
            /\ Battle.warmup_timer b' = WARMUP_DURATION bs
       else Battle.battle_mode b' = Battle.battle_mode b
            /\ Battle.safety_pause_active b' = true
            /\ Battle.safety_pause_timer b' = Battle.safety_pause_timer b - 1.
Proof.
  intros Hs.
  destruct (tick_phase2_message_fields b)
    as (Tm & Te & Ta & Tp & Td & Tv & Ts & Tst & Tw & Twt & Tam).
  cbv zeta in *. unfold Battle.update. cbv zeta.
  set (b1 := Battle.tick_phase2_message b) in *.
  rewrite Ts, Hs. cbn [Battle.safety_pause_timer]. rewrite Tst.
  destruct (Battle.safety_pause_timer b - 1 <=? 0);
    (eexists; split; [reflexivity|]);
    cbn; unfold Battle.current_enemy, Battle.battle_mode in *;
    repeat split; assumption.
Qed.

(** A frame of the warmup before its last. *)
Lemma update_warmup (cfg : Settings) (bs : BattleSettings) (px py : R)
    (b : Battle.t) (g : Random.state) :
  Battle.safety_pause_active b = false -> Battle.warmup_active b = true ->
  0 < Battle.warmup_timer b - 1 ->
  exists b',
    Battle.update cfg bs px py b g = Some (b', g)
    /\ Battle.attack_manager b' = Battle.attack_manager b
    /\ Battle.current_enemy b' = Battle.current_enemy b
    /\ Battle.battle_mode b' = Battle.battle_mode b
    /\ Battle.safety_pause_active b' = false
    /\ Battle.warmup_active b' = true
    /\ Battle.warmup_timer b' = Battle.warmup_timer b - 1.
Proof.
  intros Hs Hw Ht.
  destruct (tick_phase2_message_fields b)
    as (Tm & Te & Ta & Tp & Td & Tv & Ts & Tst & Tw & Twt & Tam).
  cbv zeta in *. unfold Battle.update. cbv zeta.
  set (b1 := Battle.tick_phase2_message b) in *.
  rewrite Ts, Hs, Tw, Hw. cbn [Battle.warmup_timer]. rewrite Twt.
  destruct (Z.leb_spec (Battle.warmup_timer b - 1) 0); [lia|].
  eexists. split; [reflexivity|].
  cbn; unfold Battle.current_enemy, Battle.battle_mode in *;
    repeat split; assumption.
Qed.

(** The last frame of the warmup starts the attack. *)
Lemma update_warmup_ends (cfg : Settings) (bs : BattleSettings) (px py : R)
    (b : Battle.t) (g : Random.state) :
  Battle.safety_pause_active b = false -> Battle.warmup_active b = true ->
  Battle.warmup_timer b - 1 <= 0 ->
  exists b0,
    Battle.update cfg bs px py b g
    = Battle._start_enemy_attack_after_warmup bs b0 g
    /\ Battle.attack_manager b0 = Battle.attack_manager b
    /\ Battle.current_enemy b0 = Battle.current_enemy b
    /\ Battle.safety_pause_active b0 = false
    /\ Battle.warmup_active b0 = false.
Proof.
  intros Hs Hw Ht.
  destruct (tick_phase2_message_fields b)
    as (Tm & Te & Ta & Tp & Td & Tv & Ts & Tst & Tw & Twt & Tam).
  cbv zeta in *. unfold Battle.update. cbv zeta.
  set (b1 := Battle.tick_phase2_message b) in *.
  rewrite Ts, Hs, Tw, Hw. cbn [Battle.warmup_timer]. rewrite Twt.
  destruct (Z.leb_spec (Battle.warmup_timer b - 1) 0); [|lia].
  eexists. split; [reflexivity|].
  cbn; unfold Battle.current_enemy in *; repeat split; assumption.
Qed.

(** The frames of the safety pause. *)
Lemma safety_pause_frames (cfg : Settings) (bs : BattleSettings) (px py : R)
    (n : nat) :
  forall (b : Battle.t) (g : Random.state),
    Battle.safety_pause_active b = true ->
    Z.of_nat n < Battle.safety_pause_timer b ->
    exists b',
      Battle.updates cfg bs px py n b g = Some (b', g)
      /\ Battle.attack_manager b' = Battle.attack_manager b
      /\ Battle.current_enemy b' = Battle.current_enemy b
      /\ Battle.battle_mode b' = Battle.battle_mode b
      /\ Battle.safety_pause_active b' = true
      /\ Battle.safety_pause_timer b'
         = Battle.safety_pause_timer b - Z.of_nat n.
Proof.
  induction n as [|n IH]; intros b g Hs Ht.
  - exists b. repeat split; try assumption. lia.
  - destruct (update_safety_pause cfg bs px py b g Hs)
      as (b1 & H1 & Hm1 & He1 & Hrest).
    destruct (Z.leb_spec (Battle.safety_pause_timer b - 1) 0) as [Hle|Hgt];
      [lia|].
    destruct Hrest as (Hmode1 & Hs1 & Ht1).
    destruct (IH b1 g Hs1) as (b' & H & Hm & He & Hmode & Hs' & Ht'); [lia|].
    exists b'. split.
    { cbn [Battle.updates]. unfold Random.bind. rewrite H1. exact H. }
    repeat split; try congruence; lia.
Qed.

(** The frames of the warmup. *)
Lemma warmup_frames (cfg : Settings) (bs : BattleSettings) (px py : R)
    (n : nat) :
  forall (b : Battle.t) (g : Random.state),
    Battle.safety_pause_active b = false -> Battle.warmup_active b = true ->
    Z.of_nat n < Battle.warmup_timer b ->
    exists b',
      Battle.updates cfg bs px py n b g = Some (b', g)
      /\ Battle.attack_manager b' = Battle.attack_manager b
      /\ Battle.current_enemy b' = Battle.current_enemy b
      /\ Battle.battle_mode b' = Battle.battle_mode b
      /\ Battle.safety_pause_active b' = false
      /\ Battle.warmup_active b' = true
      /\ Battle.warmup_timer b' = Battle.warmup_timer b - Z.of_nat n.
Proof.
  induction n as [|n IH]; intros b g Hs Hw Ht.
  - exists b. repeat split; try assumption. lia.
  - destruct (update_warmup cfg bs px py b g Hs Hw)
      as (b1 & H1 & Hm1 & He1 & Hmode1 & Hs1 & Hw1 & Ht1); [lia|].
    destruct (IH b1 g Hs1 Hw1) as (b' & H & Hm & He & Hmode & Hs' & Hw' & Ht');
      [lia|].
    exists b'. split.
    { cbn [Battle.updates]. unfold Random.bind. rewrite H1. exact H. }
    repeat split; try congruence; lia.
Qed.

(** What [_start_enemy_attack_after_warmup] starts. *)
Lemma start_enemy_attack_spec (bs : BattleSettings) (b : Battle.t)
    (g : Random.state) (enemy : Enemy.t) :
  Battle.current_enemy b = Some enemy ->
  exists b' g' queue first o,
    Battle._start_enemy_attack_after_warmup bs b g = Some (b', g')
    /\ Battle.battle_mode b' = BattleBox.Dodge
    /\ Battle.current_enemy b' = Some enemy
    /\ NoDup queue
    /\ (forall p, p ∈ queue -> p ∈ PATTERN_TYPES)
    /\ queue !! 0%nat = Some first
    /\ (if Enemy.is_boss enemy
        then if Enemy.phase enemy =? 1
             then length queue = 1%nat
                  /\ Battle.attack_manager b'
                     = started queue first o (Battle.attack_manager b)
             else (2 <= length queue <= 4)%nat
                  /\ Battle.attack_manager b'
                     = set_difficulty (Float64.round 1.3)
                         (started queue first o (Battle.attack_manager b))
        else Z.of_nat (length queue)
             = Z.max 1 (Z.min (MOB_PATTERNS_PER_ROUND bs) 11)
             /\ Battle.attack_manager b'
                = started queue first o (Battle.attack_manager b)).
Proof.
  intros He. unfold Battle._start_enemy_attack_after_warmup. rewrite He.
  destruct (Enemy.is_boss enemy); [destruct (Enemy.phase enemy =? 1)|].
  - destruct (start_round_with_pattern_count_spec 1 (Battle.attack_manager b) g)
      as (queue & first & o & g' & H & Hlen & Hnd & Hsub & Hfirst & _).
    eexists _, g', queue, first, o. split.
    { unfold Random.bind. rewrite H. reflexivity. }
    split; [reflexivity|]. split; [exact He|].
    split; [exact Hnd|]. split; [exact Hsub|]. split; [exact Hfirst|].
    split; [rewrite Hlen; reflexivity|reflexivity].
  - destruct (randint_total 2 4 g) as (n & g1 & Hn & Hrange); [lia|].
    destruct (start_round_with_pattern_count_spec n (Battle.attack_manager b) g1)
      as (queue & first & o & g' & H & Hlen & Hnd & Hsub & Hfirst & _).
    eexists _, g', queue, first, o. split.
    { unfold Random.bind at 1. unfold Random.bind at 1. rewrite Hn.
      unfold Random.bind. rewrite H. reflexivity. }
    split; [reflexivity|]. split; [exact He|].
    split; [exact Hnd|]. split; [exact Hsub|]. split; [exact Hfirst|].
    split; [rewrite Hlen; lia|reflexivity].
  - destruct (start_round_with_pattern_count_spec (MOB_PATTERNS_PER_ROUND bs)
                (Battle.attack_manager b) g)
      as (queue & first & o & g' & H & Hlen & Hnd & Hsub & Hfirst & _).
    eexists _, g', queue, first, o. split.
    { unfold Random.bind. rewrite H. reflexivity. }
    split; [reflexivity|]. split; [exact He|].
    split; [exact Hnd|]. split; [exact Hsub|]. split; [exact Hfirst|].
    split; [rewrite Hlen; lia|reflexivity].
Qed.

(** The two pauses, as far as the last frame of the warmup. *)
Lemma pauses_run (cfg : Settings) (bs : BattleSettings) (px py : R)
    (b : Battle.t) (g : Random.state) :
  1 <= SAFETY_PAUSE_DURATION bs -> 1 <= WARMUP_DURATION bs ->
  (forall n : nat,
     Z.of_nat n < SAFETY_PAUSE_DURATION bs ->
     exists b',
       Battle.updates cfg bs px py n (Battle.start_safety_pause bs b) g
       = Some (b', g)
       /\ Battle.battle_mode b' = BattleBox.SafetyPause
       /\ Battle.attack_manager b' = Battle.attack_manager b
       /\ Battle.current_enemy b' = Battle.current_enemy b
       /\ Battle.safety_pause_active b' = true
       /\ Battle.safety_pause_timer b'
          = SAFETY_PAUSE_DURATION bs - Z.of_nat n)
  /\ forall k : nat,
       Z.of_nat k < WARMUP_DURATION bs ->
       exists b',
         Battle.updates cfg bs px py
           (Z.to_nat (SAFETY_PAUSE_DURATION bs) + k)
           (Battle.start_safety_pause bs b) g
         = Some (b', g)
         /\ Battle.battle_mode b' = BattleBox.Warmup
         /\ Battle.attack_manager b' = Battle.attack_manager b
         /\ Battle.current_enemy b' = Battle.current_enemy b
         /\ Battle.safety_pause_active b' = false
         /\ Battle.warmup_active b' = true
         /\ Battle.warmup_timer b' = WARMUP_DURATION bs - Z.of_nat k.
Proof.
  intros HS HW.
  set (b0 := Battle.start_safety_pause bs b).
  assert (Hsafe : forall n : nat,
             Z.of_nat n < SAFETY_PAUSE_DURATION bs ->
             exists b',
               Battle.updates cfg bs px py n b0 g = Some (b', g)
               /\ Battle.battle_mode b' = BattleBox.SafetyPause
               /\ Battle.attack_manager b' = Battle.attack_manager b
               /\ Battle.current_enemy b' = Battle.current_enemy b
               /\ Battle.safety_pause_active b' = true
               /\ Battle.safety_pause_timer b'
                  = SAFETY_PAUSE_DURATION bs - Z.of_nat n).
  { intros n Hn.
    destruct (safety_pause_frames cfg bs px py n b0 g eq_refl Hn)
      as (b' & H & Hm & He & Hmode & Hs & Ht).
    exists b'. repeat split; assumption. }
  split; [exact Hsafe|].
  intros k Hk.
  destruct (Hsafe (Z.to_nat (SAFETY_PAUSE_DURATION bs - 1)))
    as (b1 & H1 & Hmode1 & Hm1 & He1 & Hs1 & Ht1); [lia|].
  destruct (update_safety_pause cfg bs px py b1 g Hs1)
    as (b2 & H2 & Hm2 & He2 & Hrest).
  destruct (Z.leb_spec (Battle.safety_pause_timer b1 - 1) 0) as [Hle|Hgt];
    [|lia].
  destruct Hrest as (Hmode2 & Hs2 & Hw2 & Ht2).
  destruct (warmup_frames cfg bs px py k b2 g Hs2 Hw2)
    as (b' & H & Hm & He & Hmode & Hs' & Hw' & Ht'); [lia|].
  exists b'. split.
  { replace (Z.to_nat (SAFETY_PAUSE_DURATION bs) + k)%nat
      with (Z.to_nat (SAFETY_PAUSE_DURATION bs - 1) + (1 + k))%nat by lia.
    rewrite (updates_app _ _ _ _ _ _ _ _ _ _ H1).
    cbn [Nat.add Battle.updates]. unfold Random.bind. rewrite H2. exact H. }
  repeat split; try congruence; lia.
Qed.

(** From the safety pause to the attack. After [start_safety_pause],
    with pauses of at least one frame, the battle is in the safety pause
    for the first [SAFETY_PAUSE_DURATION] frames of [Battle.update], where
    the player cannot move, and in the warmup for the next
    [WARMUP_DURATION] frames, where the player can; no draw is made and
    the attack manager is not touched. The frame after that, without an
    enemy, returns to the menu. With an enemy it enters the dodge mode
    with a new round of the attack manager at its first pattern: one
    pattern for a boss in its first phase; two to four patterns, and the
    difficulty set to the double that the literal 1.3 denotes, for a boss
    in a later phase; [MOB_PATTERNS_PER_ROUND] patterns, at least one and
    at most eleven, for any other enemy. The patterns of the round are
    valid and pairwise distinct, and but for a boss in a later phase the
    difficulty stays what it was. *)
Theorem attack_after_pauses (cfg : Settings) (bs : BattleSettings)
    (px py : R) (b : Battle.t) (g : Random.state) :
  1 <= SAFETY_PAUSE_DURATION bs -> 1 <= WARMUP_DURATION bs ->
  let start := Battle.start_safety_pause bs b in
  let pause := Z.to_nat (SAFETY_PAUSE_DURATION bs) in
  let warmup := Z.to_nat (WARMUP_DURATION bs) in
  (forall n : nat, (n < pause)%nat ->
     exists b',
       Battle.updates cfg bs px py n start g = Some (b', g)
       /\ Battle.battle_mode b' = BattleBox.SafetyPause
       /\ Battle.can_player_move b' = false
       /\ Battle.attack_manager b' = Battle.attack_manager b)
  /\ (forall n : nat, (pause <= n < pause + warmup)%nat ->
        exists b',
          Battle.updates cfg bs px py n start g = Some (b', g)
          /\ Battle.battle_mode b' = BattleBox.Warmup
          /\ Battle.can_player_move b' = true
          /\ Battle.attack_manager b' = Battle.attack_manager b)
  /\ (Battle.current_enemy b = None ->
      exists b',
        Battle.updates cfg bs px py (pause + warmup) start g = Some (b', g)
        /\ Battle.battle_mode b' = BattleBox.Menu
        /\ Battle.attack_manager b' = Battle.attack_manager b)
  /\ forall enemy,
       Battle.current_enemy b = Some enemy ->
       exists b' g',
         Battle.updates cfg bs px py (pause + warmup) start g = Some (b', g')
         /\ Battle.battle_mode b' = BattleBox.Dodge
         /\ Battle.can_player_move b' = true
         /\ let m := Battle.attack_manager b' in
            is_round_active m = true
            /\ in_gap m = false
            /\ current_pattern_index m = 0%nat
            /\ current_pattern m = attack_queue m !! 0%nat
            /\ NoDup (attack_queue m)
            /\ (forall p, p ∈ attack_queue m -> p ∈ PATTERN_TYPES)
            /\ lasers m = [] /\ gravity_wells m = []
            /\ bullets_group m = bullets_group (Battle.attack_manager b)
            /\ if Enemy.is_boss enemy
               then if Enemy.phase enemy =? 1
                    then length (attack_queue m) = 1%nat
                         /\ difficulty m
                            = difficulty (Battle.attack_manager b)
                    else (2 <= length (attack_queue m) <= 4)%nat
                         /\ difficulty m = Float64.round 1.3
               else Z.of_nat (length (attack_queue m))
                    = Z.max 1 (Z.min (MOB_PATTERNS_PER_ROUND bs) 11)
                    /\ difficulty m = difficulty (Battle.attack_manager b).
Proof.
  intros HS HW start pause warmup.
  destruct (pauses_run cfg bs px py b g HS HW) as [Hsafe Hwarm].
  fold start in Hsafe, Hwarm. fold pause in Hwarm.
  assert (Hlast : exists b1,
             Battle.updates cfg bs px py (pause + (warmup - 1)) start g
             = Some (b1, g)
             /\ Battle.attack_manager b1 = Battle.attack_manager b
             /\ Battle.current_enemy b1 = Battle.current_enemy b
             /\ Battle.safety_pause_active b1 = false
             /\ Battle.warmup_active b1 = true
             /\ Battle.warmup_timer b1 = 1).
  { destruct (Hwarm (warmup - 1)%nat) as (b1 & H1 & _ & Hm & He & Hs & Hw & Ht);
      [subst warmup; lia|].
    exists b1. repeat split; try assumption. subst warmup. lia. }
  destruct Hlast as (b1 & H1 & Hm1 & He1 & Hs1 & Hw1 & Ht1).
  destruct (update_warmup_ends cfg bs px py b1 g Hs1 Hw1)
    as (b2 & H2 & Hm2 & He2 & _); [lia|].
  assert (Hfinal : Battle.updates cfg bs px py (pause + warmup) start g
                   = Battle._start_enemy_attack_after_warmup bs b2 g).
  { replace (pause + warmup)%nat with (pause + (warmup - 1) + 1)%nat
      by (subst warmup; lia).
    rewrite (updates_app _ _ _ _ _ _ _ _ _ _ H1).
    cbn [Battle.updates]. unfold Random.bind. rewrite H2.
    destruct (Battle._start_enemy_attack_after_warmup bs b2 g) as [[? ?]|];
      reflexivity. }
  split; [|split; [|split]].
  - intros n Hn.
    destruct (Hsafe n) as (b' & H & Hmode & Hm & _); [subst pause; lia|].
    exists b'. split; [exact H|]. split; [exact Hmode|].
    split; [unfold Battle.can_player_move; rewrite Hmode; reflexivity|exact Hm].
  - intros n Hn.
    destruct (Hwarm (n - pause)%nat) as (b' & H & Hmode & Hm & _);
      [subst warmup; lia|].
    replace (pause + (n - pause))%nat with n in H by lia.
    exists b'. split; [exact H|]. split; [exact Hmode|].
    split; [unfold Battle.can_player_move; rewrite Hmode; reflexivity|exact Hm].
  - intros Hnone. rewrite Hfinal.
    unfold Battle._start_enemy_attack_after_warmup.
    rewrite He2, He1, Hnone. eexists. split; [reflexivity|].
    split; [reflexivity|]. cbn. congruence.
  - intros enemy Henemy. rewrite Hfinal.
    destruct (start_enemy_attack_spec bs b2 g enemy)
      as (b' & g' & queue & first & o & H & Hmode & _ & Hnd & Hsub & Hfirst
          & Hkind); [congruence|].
    exists b', g'. split; [exact H|]. split; [exact Hmode|].
    split; [unfold Battle.can_player_move; rewrite Hmode; reflexivity|].
    cbv zeta. rewrite Hm2, Hm1 in Hkind.
    destruct (Enemy.is_boss enemy); [destruct (Enemy.phase enemy =? 1)|];
      destruct Hkind as [Hlen ->];
      cbn [is_round_active round_active in_gap current_pattern_index
           current_pattern attack_queue lasers gravity_wells bullets_group
           difficulty started set_difficulty reset_round_counters
           with_difficulty with_homing_blades with_ring_timer with_cross_angle
           with_cross_bullets with_gravity_wells with_gravity_mode
           with_laser_spawn_timer with_lasers with_pattern_internal_timer_2
           with_pattern_internal_timer with_round_active with_in_gap
           with_gap_timer with_pattern_timer with_secondary_pattern
           with_current_pattern with_current_pattern_index with_attack_queue];
      repeat split; try assumption; try (symmetry; assumption); try lia.
    assert (Hd : (0.5 <= Float64.round 1.3 <= 3.0)%R).
    { split.
      - rewrite <- round_half. apply round_mono. lra.
      - replace 3.0%R with (Float64.round (IZR 3)).
        + apply round_mono. lra.
        + rewrite round_IZR by (cbn; lia). lra. }
    rewrite Rmin_left by lra. apply Rmax_right. lra.
Qed.

Lemma attack_after_pauses_witness :
  exists b' g',
    Battle.updates sample_settings sample_battle_settings 0 0 90
      (Battle.start_safety_pause sample_battle_settings sample_menu)
      sample_rng = Some (b', g')
    /\ Battle.battle_mode b' = BattleBox.Dodge
    /\ length (attack_queue (Battle.attack_manager b')) = 1%nat.
Proof.
  destruct (attack_after_pauses sample_settings sample_battle_settings 0 0
              sample_menu sample_rng)
    as (_ & _ & _ & Hattack).
  - cbn. lia.
  - cbn. lia.
  - destruct (Hattack sample_enemy eq_refl)
      as (b' & g' & H & Hmode & _ & Hm).
    exists b', g'. split; [exact H|]. split; [exact Hmode|].
    cbv zeta in Hm.
    destruct Hm as (_ & _ & _ & _ & _ & _ & _ & _ & _ & Hlen & _).
    apply Nat2Z.inj. rewrite Hlen. reflexivity.
Defined.
